(* ===== verification/_CoqProject ===== *)
-Q . S2P
Prelude.v
Unicode.v
GoStrings.v
JsonText.v
JsonFacts.v
Sha256.v
ChatModel.v
ChatSeen.v
ChatStore.v
ChatHub.v
HubProps.v
HubTheorems.v
PeerProto.v
PeerAllow.v
PeerRouter.v
RouterProps.v
PeerLink.v
LinkProps.v
Mesh.v
MeshFlood.v
SessionInput.v
Session.v
SessionProps.v
Rhp.v
RhpJson.v
RhpClient.v
RhpClientProps.v
Config.v
ConfigProps.v
Node.v
NodeProps.v
StreamPipe.v
PipeProps.v
Sqlite.v
SqliteProps.v
Web.v
WebWire.v
WireProps.v
WebSteps.v
WebProps.v
WebTabs.v
WebPresence.v
WebAllow.v
WebExamples.v
ClaimPage.v
ClaimPageProps.v
Page.v
PageMarkup.v
PageProps.v
PageThreads.v
PagePanels.v
PaneProps.v
PageCompose.v
PageExamples.v
Daemon.v
DaemonProps.v
Supervise.v
SuperviseProps.v
System.v
SystemProps.v
