(* ===== verification/Prelude.v ===== *)
(** * pdn-bpqchat: a verified model of a packet-radio chat node

    The program under [src/] is a chat node for amateur packet radio in Go.  Users reach
    it by radio (through the RHP host protocol of a packet node) or by the web, nodes are
    joined into a mesh by peer links over radio or TCP, and messages, claims and the
    allow-list live in SQLite.  This development is a shallow embedding of that program:
    every function of its core is a Rocq function of the same name, state is passed
    explicitly ([ST], the state monad of this file), failing calls return sums or options,
    and what several goroutines do to shared state is a step relation or a list of
    operations.

    ** Parts and files

    - [Prelude.v] (this file): bytes and Go strings, int64 wrap-around, the state monad
      and its tactics, list lemmas.  [Unicode.v], [GoStrings.v], [Sha256.v]: what the
      program uses of Go's [unicode], [unicode/utf8], [strings], [strconv],
      [crypto/sha256] and [encoding/hex].  [JsonText.v], [JsonFacts.v]: [encoding/json],
      its reader and its writers on the text, and the lemmas by which what is written is
      read back.
    - [internal/chat], the core: [ChatModel.v] (identities, users, messages, the synthetic
      message id), [ChatSeen.v] (the duplicate set), [ChatStore.v] (the [Store] interface
      as a class with its laws, and the in-memory store), [ChatHub.v] (the hub: users,
      topics, mesh nodes, event fan-out).  [HubProps.v] holds the invariant and its
      preservation by every operation, [HubTheorems.v] the theorems.
    - [internal/peer], the mesh: [PeerProto.v] (records and their text), [PeerAllow.v]
      (the inbound allow-list and its persistence), [PeerRouter.v] (the relay router over
      shared link objects), [PeerLink.v] (one link: lines, handshake, connect script,
      serving, the inbound TCP ingress).  [RouterProps.v] and [LinkProps.v] hold their
      theorems; [Mesh.v] composes nodes into a network with lines in flight, [MeshFlood.v]
      follows one record through it.
    - [internal/session], the radio users: [SessionInput.v] (the line assembler),
      [Session.v] (commands, rendering, run loop), [SessionProps.v].
    - [internal/rhp], the host protocol: [Rhp.v] (frames, data field, error codes),
      [RhpJson.v] (messages as JSON, and the read loop from bytes to messages),
      [RhpClient.v] (concurrent calls and the read loop), [RhpClientProps.v].
    - [internal/config]: [Config.v], [ConfigProps.v].
    - [internal/node], the attachment to the packet node: [Node.v] (streams and their
      registration, the callsign walk, reconnecting, the inbound demultiplexer),
      [NodeProps.v]; [StreamPipe.v] puts the streams and the host-protocol client together,
      [PipeProps.v].
    - [internal/store/sqlite]: [Sqlite.v] (the store's methods over a class of the SQL
      statements), [SqliteProps.v].
    - [internal/web]: [Web.v] (the gateway check, every handler, presence, event streams,
      claims, settings, the federation page), [WebSteps.v] (what a request can do, as
      guarded steps), [WebProps.v], [WebTabs.v] (streams, and access with them),
      [WebPresence.v] (presence with its two halves interleaved), [WebAllow.v], and
      [WebExamples.v] (runs outside the theorems' hypotheses).  [WebWire.v] (the JSON of the views and bodies,
      the text of the event stream and the browser's reader of it), [WireProps.v].
      [ClaimPage.v] (the page on which a callsign is claimed, its escapers and a reader of
      its markup), [ClaimPageProps.v].
    - The page's script in [internal/web/index.go]: [Page.v] (the conversation: rendering,
      threads, topic switches, stream, composer, and what each [await] leaves to do),
      [PagePanels.v] (settings and federation panel).  [PageMarkup.v] reads the markup it
      writes with the browser's tokenizer; [PageProps.v], [PageThreads.v], [PaneProps.v]
      and [PageCompose.v] hold the theorems, [PageExamples.v] runs outside them.
    - [cmd/pdn-bpqchat] and the dials: [Daemon.v] (what [main] puts together, one
      attachment, one outbound dial), [DaemonProps.v]; [Supervise.v] (the goroutines, how
      they retry and how they end), [SuperviseProps.v].
    - The whole: [System.v] (everything that can happen to the started node, as events in
      any order), [SystemProps.v].

    ** How the parts meet

    The hub is written against the class [Store]; the in-memory store and the SQLite store
    are its instances, and [StoreLaws] is proved of both, so every theorem of the hub, the
    sessions and the web holds of both.  The allow-list is written against
    [AllowConfigStore], which every [Store] implements.  The SQLite store in turn is
    written against [Durable.Engine], one operation per SQL statement, whose documented
    behaviour is [Durable.EngineLaws]; [Durable.Tables] is an executable engine that
    satisfies them.  The web is written against [Store] and [ClaimStore] together.  A
    router's [World] holds the hub and the links; a web [Site] holds a [World]; a session
    holds the hub it talks to.  The daemon's start builds all of it.  The page is written
    against the class [Browser] (case mapping, collation, local time) and meets the
    server at the bytes of its stream, its answers and its requests.

    ** What is proved

    - Hub: every reachable hub is well-formed and has not panicked; listings are exactly
      the present users; [Post] and [Private] on every branch; a node that goes takes
      exactly the users whose node or receiving link it is; message ids are equal exactly
      for equal messages, up to a collision of SHA-256; the duplicate set answers like the
      full history of calls; the ids of own messages stay known for the time to live.
    - Mesh: a record is either dropped or written once to every other link; one record
      with keepalives beside it reaches every node connected to its origin, each exactly
      once, in any topology, if nothing is lost; peer traffic other than an unlink is not
      fanned out again; the end of a link, with its peer known or not; the relay cannot storm in any topology within
      one time to live (a potential decreases at each delivery); relayed messages keep
      their id.
    - Wire: what the wire can carry of a record survives encoding and decoding; decoded records are well-formed; the
      two halves of the handshake accept each other; frames are read back exactly.
    - Admission: inbound peers are refused by default at both ingresses; admission is
      the newest edit or any pin; edits survive a restart; the daemon's start and the
      web's editor keep this.
    - Sessions: life cycle, outcome of every line, text that is safe on the mesh, input
      that does not depend on how it is cut into chunks.
    - Host protocol and attachment: every call gets its own reply or an error in every
      interleaving; the read loop never blocks; every byte pushed is delivered once and
      in order, for handles whose pushes are orderly; the first line decides what a caller is; the requests of an attachment,
      the callsign walk and the reconnection schedule; a stream over the client is a pipe
      (for writes always, for reads with orderly pushes), and a successful write was
      acknowledged.
    - Configuration: when loading fails, and what can be said of what it loads; peer lists
      survive printing and parsing.
    - Stores: SQLite and memory answer alike after saves in time order; claims are exclusive in every interleaving.
    - Web: who may change what, streams included; who a viewer is; web and radio show the
      same and do the same with clean text; the counts of a viewer's tabs and requests
      and who is present by them, in every interleaving; edits of the allow-list.
    - Texts: messages of the host protocol and items of the event stream are read back
      from their bytes as they were, whatever is in their texts.
    - Page: no text becomes markup; the page shows the room its stream tells of; its
      threads are an inbox; what is typed has one meaning, and the server carries out
      exactly that; the panes show and change what they say.  The claim page is its
      template whatever is put into it, and posts to the claim handler of its own host
      under a prefix that is a path.
    - Daemon: what a start puts together; every loop retries in measure; once told to stop,
      nothing is tried again, [main] returns with all it waits for in a bounded number of
      steps, and a dialler of an RF peer returns too or is left in a handshake that nobody
      ends.
    - The node as a whole, in every interleaving: the hub stays sound, the store loses
      nothing, and every link was dialled or admitted.

    Where the code does something its comments do not say, an [Example] or a theorem next
    to the definitions shows it on a concrete run (a second join to another topic, a
    rejoin dropped by a peer, text with a line break from the web, a claim with a blank,
    tabs that race, early pushes overtaken, a stale close, a callsign walk that hides
    users, ...).

    ** Choices

    - A critical section runs without another in between.  Where a method takes its lock
      more than once, or calls another component after it, its parts are separate
      definitions: the parts of [Claim], of [registerStream], of [enter] and [leave], of
      [roundTrip].  Theorems over whole requests and streams ([WebTabs.v], [System.v]) run
      the parts of [enter] and [leave] one after the other; [WebPresence.v] does not.  A session's loop handles
      one chunk, event or end per step.
    - Clock readings, random choices of the scheduler, the results of writes and the
      answers of other machines are arguments or part of the event that brings them.
      Map iteration, which Go leaves open, has some fixed order that no theorem uses.
    - int64 values that can wrap do ([wrap64]); times are integers of nanoseconds since
      Go's zero time.
    - Loops that consume input have the input's length as fuel, which is enough because
      each round takes at least one byte ([readLines], [pump], the frames of [readLoop],
      the values of the JSON reader); the reversal of a query result has the length of
      the list; [segs] has the length of the string.  Each comes
      with a lemma that the fuel suffices or with a theorem that gives the result.

    ** Not modelled

    The static markup and styles of the page, scrolling and focus; logging; sockets, files
    and the [database/sql] calls that open them ([Open], [migrate] and [Close] of the
    store: the pragmas and the schema are the laws of [Durable.EngineLaws]); contexts other
    than through the errors they cause; [Config.DBPath].  Writes to a TCP connection are
    taken to return.  Of the browser's reading of URLs, only paths are modelled.  In the node as a whole the
    transports are the bytes they bring; that streams over the host protocol bring the
    right ones is a theorem of its own, as is that frames and JSON do. *)

From Stdlib Require Export ZArith Lia.
From Stdlib Require Strings.Byte.
From stdpp Require Export base tactics gmap sets fin_maps countable sorting option list.
From stdpp Require Import options.

(** ** Go strings

    A Go [string] is an immutable sequence of bytes.  It is modelled as a list
    of [Byte.byte], so that every value of the type is a Go string and no
    well-formedness side condition is needed. *)
Abbreviation byte := Byte.byte.
Abbreviation gostring := (list Byte.byte).

(** [bs "text"] is the Go string literal ["text"]: the string notation of
    [go_scope] yields the literal's bytes. *)
Inductive go_literal := GoLiteral (l : list Byte.byte).
Definition go_literal_parse (l : list Byte.byte) : go_literal := GoLiteral l.
Definition go_literal_print (g : go_literal) : option (list Byte.byte) :=
  match g with GoLiteral l => Some l end.
Declare Scope go_scope.
Delimit Scope go_scope with go.
String Notation go_literal go_literal_parse go_literal_print : go_scope.
Bind Scope go_scope with go_literal.

Definition bs (g : go_literal) : gostring := match g with GoLiteral l => l end.
Arguments bs g%_go.

(** The unsigned value of a byte, and Go's [byte(z)] conversion. *)
Definition bz (b : byte) : Z := Z.of_N (Byte.to_N b).
Definition zb (z : Z) : byte :=
  match Byte.of_N (Z.to_N (z mod 256)) with Some b => b | None => Byte.x00 end.

#[export] Instance byte_eq_dec : EqDecision byte := Byte.byte_eq_dec.

#[export] Program Instance byte_countable : Countable byte :=
  {| encode b := N.succ_pos (Byte.to_N b);
     decode p := Byte.of_N (N.pred (Npos p)) |}.
Next Obligation.
  intros b. by destruct b.
Qed.

#[export] Instance byte_inhabited : Inhabited byte := populate Byte.x00.

(** Go's [<] on strings: byte-wise lexicographic order. *)
Fixpoint str_ltb (s t : gostring) : bool :=
  match s, t with
  | [], [] => false
  | [], _ :: _ => true
  | _ :: _, [] => false
  | a :: s', b :: t' =>
      if (bz a =? bz b)%Z then str_ltb s' t' else (bz a <? bz b)%Z
  end.
Definition str_leb (s t : gostring) : bool := negb (str_ltb t s).
Definition str_le (s t : gostring) : Prop := str_leb s t = true.

(** ** Machine integers: Go's [int64] wrap-around. *)
Definition wrap64 (z : Z) : Z := ((z + 2 ^ 63) mod 2 ^ 64 - 2 ^ 63)%Z.

(** ** List helpers used by several components *)

(** [drop_while p l] removes the longest prefix whose elements satisfy [p]. *)
Fixpoint drop_while {A} (p : A → bool) (l : list A) : list A :=
  match l with
  | [] => []
  | x :: l' => if p x then drop_while p l' else x :: l'
  end.

(** [trim_end p l] removes the longest suffix whose elements satisfy [p]. *)
Fixpoint trim_end {A} (p : A → bool) (l : list A) : list A :=
  match l with
  | [] => []
  | x :: l' =>
      match trim_end p l' with
      | [] => if p x then [] else [x]
      | y :: k => x :: y :: k
      end
  end.

(** [last_n n l] is Go's [l[len(l)-n:]] when [0 < n < len(l)], and [l] otherwise:
    the "newest [limit]" cut of the history queries. *)
Definition last_n {A} (n : Z) (l : list A) : list A :=
  if (0 <? n)%Z && (n <? Z.of_nat (length l))%Z
  then drop (length l - Z.to_nat n) l else l.

(** The reflexive-transitive closure of a step relation with the number of
    steps taken. *)
Inductive nsteps_to {A} (R : A → A → Prop) : nat → A → A → Prop :=
| nst_refl a : nsteps_to R 0 a a
| nst_step n a b c : R a b → nsteps_to R n b c → nsteps_to R (S n) a c.

(** ** A state monad

    Code that mutates one shared structure is written in [ST S]: a state-passing
    function returning its result and the new state. *)
Definition ST (S A : Type) : Type := S → A * S.
#[export] Instance ST_ret {S} : MRet (ST S) := λ A a s, (a, s).
#[export] Instance ST_bind {S} : MBind (ST S) := λ A B f m s, f (m s).1 (m s).2.
Definition st_get {S A} (f : S → A) : ST S A := λ s, (f s, s).
Definition st_mod {S} (f : S → S) : ST S unit := λ s, (tt, f s).

(** Reduce monadic plumbing. *)
Ltac st_simpl := unfold mbind, mret, ST_bind, ST_ret, st_get, st_mod; cbn [fst snd].
Ltac st_simpl_in H :=
  unfold mbind, mret, ST_bind, ST_ret, st_get, st_mod in H; cbn [fst snd] in H.

(** ** Automation *)

Create HintDb go.
Create Rewrite HintDb norm.
#[export] Hint Constructors nsteps_to : go.

(** Case on the innermost [match]/[if] scrutinee of the goal, remembering it. *)
Ltac case_goal :=
  match goal with
  | |- context [match ?x with _ => _ end] =>
      lazymatch x with
      | context [match _ with _ => _ end] => fail
      | _ => let E := fresh "E" in destruct x eqn:E
      end
  end.

(** The same in a hypothesis. *)
Ltac case_hyp H :=
  match type of H with
  | context [match ?x with _ => _ end] =>
      lazymatch x with
      | context [match _ with _ => _ end] => fail
      | _ => let E := fresh "E" in destruct x eqn:E
      end
  end.

(** Turn boolean integer tests into propositions. *)
Ltac bools :=
  repeat match goal with
  | H : (_ && _)%bool = true |- _ => apply andb_true_iff in H as [? ?]
  | H : (_ || _)%bool = false |- _ => apply orb_false_iff in H as [? ?]
  | H : negb _ = true |- _ => apply negb_true_iff in H
  | H : negb _ = false |- _ => apply negb_false_iff in H
  | H : (_ <? _)%Z = true |- _ => apply Z.ltb_lt in H
  | H : (_ <? _)%Z = false |- _ => apply Z.ltb_ge in H
  | H : (_ <=? _)%Z = true |- _ => apply Z.leb_le in H
  | H : (_ <=? _)%Z = false |- _ => apply Z.leb_gt in H
  | H : (_ =? _)%Z = true |- _ => apply Z.eqb_eq in H
  | H : (_ =? _)%Z = false |- _ => apply Z.eqb_neq in H
  | H : bool_decide _ = true |- _ => apply bool_decide_eq_true in H
  | H : bool_decide _ = false |- _ => apply bool_decide_eq_false in H
  end.

(** ** Bytes *)

Lemma bz_range b : (0 ≤ bz b < 256)%Z.
Proof.
  unfold bz. pose proof (Byte.to_N_bounded b) as H.
  split; [lia|]. apply N2Z.inj_le in H. simpl in H. lia.
Qed.

Lemma zb_bz b : zb (bz b) = b.
Proof.
  unfold zb. rewrite Z.mod_small by apply bz_range.
  unfold bz. rewrite N2Z.id, Byte.of_to_N. done.
Qed.

Lemma bz_inj a b : bz a = bz b → a = b.
Proof. intros H. rewrite <- (zb_bz a), <- (zb_bz b). by f_equal. Qed.

Lemma bz_zb z : bz (zb z) = (z mod 256)%Z.
Proof.
  unfold zb, bz. pose proof (Z.mod_pos_bound z 256 ltac:(lia)) as Hr.
  destruct (Byte.of_N _) as [b|] eqn:E.
  - apply Byte.to_of_N in E. rewrite E. lia.
  - apply Byte.of_N_None_iff in E. lia.
Qed.

Lemma bz_zb_small z : (0 ≤ z < 256)%Z → bz (zb z) = z.
Proof. intros. rewrite bz_zb. by apply Z.mod_small. Qed.

#[export] Instance bz_Inj : Inj (=) (=) bz.
Proof. intros a b. apply bz_inj. Qed.

Lemma bool_decide_bz (a b : byte) : bool_decide (a = b) = (bz a =? bz b)%Z.
Proof.
  destruct (Z.eqb_spec (bz a) (bz b)) as [E|E].
  - apply bool_decide_eq_true. by apply bz_inj.
  - apply bool_decide_eq_false. congruence.
Qed.

(** ** The string order is a decidable total order *)

#[export] Instance str_le_dec : RelDecision str_le.
Proof. intros s t. unfold str_le. apply _. Defined.

Lemma str_ltb_irrefl s : str_ltb s s = false.
Proof. induction s as [|a s IH]; simpl; [done|]. by rewrite Z.eqb_refl. Qed.

Lemma str_ltb_trans s t u :
  str_ltb s t = true → str_ltb t u = true → str_ltb s u = true.
Proof.
  revert t u. induction s as [|a s IH]; intros [|b t] [|c u]; simpl; try done.
  destruct (Z.eqb_spec (bz a) (bz b)), (Z.eqb_spec (bz b) (bz c)),
    (Z.eqb_spec (bz a) (bz c)); intros; bools; try lia; eauto;
    try (apply Z.ltb_lt; lia).
Qed.

Lemma str_ltb_total s t : str_ltb s t = true ∨ s = t ∨ str_ltb t s = true.
Proof.
  revert t. induction s as [|a s IH]; intros [|b t]; simpl; auto.
  destruct (Z.eqb_spec (bz a) (bz b)) as [E|E].
  - apply bz_inj in E as ->. rewrite Z.eqb_refl.
    destruct (IH t) as [|[->|]]; auto.
  - destruct (Z.eqb_spec (bz b) (bz a)); [congruence|].
    destruct (Z.ltb_spec (bz a) (bz b)); [auto|].
    right; right. apply Z.ltb_lt. lia.
Qed.

Lemma str_le_alt s t : str_le s t ↔ s = t ∨ str_ltb s t = true.
Proof.
  unfold str_le, str_leb. rewrite negb_true_iff. split.
  - intros H. destruct (str_ltb_total s t) as [|[|]]; auto; congruence.
  - intros [->|H]; [apply str_ltb_irrefl|].
    destruct (str_ltb t s) eqn:E; [|done].
    assert (str_ltb s s = true) as Hs by (eauto using str_ltb_trans).
    by rewrite str_ltb_irrefl in Hs.
Qed.

#[export] Instance str_le_po : PartialOrder str_le.
Proof.
  split; [split|].
  - intros s. apply str_le_alt. auto.
  - intros s t u. rewrite !str_le_alt. intros [->|?] [->|?]; eauto using str_ltb_trans.
  - intros s t. rewrite !str_le_alt. intros [E|H1] [E'|H2]; auto.
    assert (str_ltb s s = true) as Hs by (eauto using str_ltb_trans).
    by rewrite str_ltb_irrefl in Hs.
Qed.

#[export] Instance str_le_total : Total str_le.
Proof.
  intros s t. rewrite !str_le_alt.
  destruct (str_ltb_total s t) as [|[|]]; auto.
Qed.

(** ** Generic list facts *)

Section drop_while_facts.
Context {A : Type} (p : A → bool).

Lemma drop_while_all l : Forall (λ x, p x = true) l → drop_while p l = [].
Proof. induction 1 as [|x l Hx _ IH]; simpl; [done|]. by rewrite Hx. Qed.

Lemma drop_while_none l :
  Forall (λ x, p x = false) l → drop_while p l = l.
Proof. destruct 1 as [|x l Hx _]; simpl; [done|]. by rewrite Hx. Qed.

Lemma drop_while_suffix l :
  ∃ k, l = k ++ drop_while p l ∧ Forall (λ x, p x = true) k.
Proof.
  induction l as [|x l [k [E F]]]; simpl; [by exists []|].
  destruct (p x) eqn:Hx.
  - exists (x :: k). split; [simpl; by f_equal|]. by constructor.
  - exists []. split; [done|constructor].
Qed.

Lemma drop_while_head l x k : drop_while p l = x :: k → p x = false.
Proof.
  induction l as [|y l IH]; simpl; [done|].
  destruct (p y) eqn:E; [auto|]. by intros [= <- <-].
Qed.

Lemma drop_while_idemp l : drop_while p (drop_while p l) = drop_while p l.
Proof.
  destruct (drop_while p l) as [|x k] eqn:E; [done|]. simpl.
  by rewrite (drop_while_head _ _ _ E).
Qed.

Lemma trim_end_split l :
  ∃ k, l = trim_end p l ++ k ∧ Forall (λ x, p x = true) k.
Proof.
  induction l as [|x l [k [E F]]]; simpl; [by exists []|].
  destruct (trim_end p l) as [|y t] eqn:Et.
  - destruct (p x) eqn:Hx.
    + exists (x :: k). simpl in E. subst k. split; [done|by constructor].
    + exists k. simpl in *. by rewrite E.
  - exists k. simpl in *. by rewrite E.
Qed.

Lemma trim_end_idemp l : trim_end p (trim_end p l) = trim_end p l.
Proof.
  induction l as [|x l IH]; simpl; [done|].
  destruct (trim_end p l) as [|y t] eqn:E.
  - destruct (p x) eqn:Hx; simpl; [done|]. by rewrite Hx.
  - change (match trim_end p (y :: t) with
            | [] => if p x then [] else [x]
            | y0 :: k => x :: y0 :: k end = x :: y :: t).
    by rewrite IH.
Qed.

Lemma trim_end_cons_head x l :
  p x = false → ∃ k, trim_end p (x :: l) = x :: k.
Proof. intros Hx. simpl. destruct (trim_end p l); [rewrite Hx|]; eauto. Qed.

(** Trimming the end keeps a clean front clean. *)
Lemma drop_while_trim_end l :
  drop_while p (trim_end p (drop_while p l)) = trim_end p (drop_while p l).
Proof.
  destruct (drop_while p l) as [|x k] eqn:E; [done|].
  pose proof (drop_while_head _ _ _ E) as Hx.
  destruct (trim_end_cons_head x k Hx) as [k' ->]. simpl. by rewrite Hx.
Qed.

Lemma trim_idemp l :
  let t := trim_end p (drop_while p l) in trim_end p (drop_while p t) = t.
Proof. simpl. by rewrite drop_while_trim_end, trim_end_idemp. Qed.

Lemma trim_end_Forall (P : A → Prop) l : Forall P l → Forall P (trim_end p l).
Proof.
  intros H. destruct (trim_end_split l) as [k [E _]].
  rewrite E in H. by apply Forall_app in H as [? _].
Qed.

Lemma drop_while_Forall (P : A → Prop) l : Forall P l → Forall P (drop_while p l).
Proof.
  intros H. destruct (drop_while_suffix l) as [k [E _]].
  rewrite E in H. by apply Forall_app in H as [_ ?].
Qed.

Lemma trim_end_none l :
  Forall (λ x, p x = false) l → trim_end p l = l.
Proof.
  induction 1 as [|x l Hx _ IH]; simpl; [done|]. rewrite IH.
  destruct l; [by rewrite Hx|done].
Qed.
End drop_while_facts.

Lemma drop_while_fmap {A B} (p : A → bool) (q : B → bool) (f : A → B) l :
  (∀ x, q (f x) = p x) → drop_while q (f <$> l) = f <$> drop_while p l.
Proof.
  intros H. induction l as [|x l IH]; simpl; [done|].
  rewrite H. by destruct (p x).
Qed.

Lemma trim_end_fmap {A B} (p : A → bool) (q : B → bool) (f : A → B) l :
  (∀ x, q (f x) = p x) → trim_end q (f <$> l) = f <$> trim_end p l.
Proof.
  intros H. induction l as [|x l IH]; csimpl; [done|].
  rewrite IH, H. destruct (trim_end p l); csimpl; [by destruct (p x)|done].
Qed.

Lemma last_n_all {A} (n : Z) (l : list A) : (n ≤ 0)%Z → last_n n l = l.
Proof. intros. unfold last_n. by rewrite (proj2 (Z.ltb_ge 0 n)). Qed.

Lemma last_n_length {A} (n : Z) (l : list A) :
  (0 < n)%Z → length (last_n n l) = Nat.min (Z.to_nat n) (length l).
Proof.
  intros. unfold last_n. rewrite (proj2 (Z.ltb_lt 0 n)) by done. simpl.
  destruct (Z.ltb_spec n (Z.of_nat (length l))).
  - rewrite length_drop. lia.
  - lia.
Qed.

Lemma last_n_suffix {A} (n : Z) (l : list A) : last_n n l `suffix_of` l.
Proof.
  unfold last_n. case_match; [|done]. apply suffix_drop.
Qed.

Lemma nsteps_to_trans {A} (R : A → A → Prop) n m a b c :
  nsteps_to R n a b → nsteps_to R m b c → nsteps_to R (n + m) a c.
Proof. induction 1; simpl; eauto with go. Qed.

(** A run of a relation whose steps decrease a measure is bounded by it. *)
Lemma nsteps_to_measure {A} (R : A → A → Prop) (P : A → Prop) (μ : A → nat) n a b :
  (∀ x y, P x → R x y → P y ∧ μ y < μ x) →
  nsteps_to R n a b → P a → P b ∧ n + μ b ≤ μ a.
Proof.
  intros Hdec. induction 1 as [a|n a b c Hab _ IH]; intros Ha; [split; [done|lia]|].
  destruct (Hdec _ _ Ha Hab) as [Hb Hlt]. destruct (IH Hb). split; [done|lia].
Qed.

#[export] Hint Resolve bz_range : go.
