(* ===== verification/Unicode.v ===== *)
(** * Unicode tables

    The part of Go's [unicode] package the program reaches through [strings]:
    [unicode.IsSpace], [unicode.ToUpper], [unicode.ToLower] (simple case
    mapping) and the simple case folding behind [strings.EqualFold].  A table
    entry [cr lo hi stride delta] maps every rune [lo], [lo+stride], ..., [hi] to
    itself plus [delta]; ASCII has a fast path, as in Go.  The laws at the end
    are checked by evaluation over the whole domain of the tables. *)
From S2P Require Import Prelude.
From stdpp Require Import options.
Local Open Scope Z_scope.

Abbreviation rune := Z.

Record case_range := cr { cr_lo : Z; cr_hi : Z; cr_stride : Z; cr_delta : Z }.

Definition cr_mem (r : rune) (c : case_range) : bool :=
  if cr_lo c <=? r then
    if r <=? cr_hi c then (r - cr_lo c) mod cr_stride c =? 0 else false
  else false.

Fixpoint case_map (t : list case_range) (r : rune) : rune :=
  match t with
  | [] => r
  | c :: t' => if cr_mem r c then r + cr_delta c else case_map t' r
  end.

Definition upper_table : list case_range := [
  cr 181 181 1 743; cr 224 246 1 (-32); cr 248 254 1 (-32); cr 255 255 1 121;
  cr 257 303 2 (-1); cr 305 305 1 (-232); cr 307 311 2 (-1);
  cr 314 328 2 (-1); cr 331 375 2 (-1); cr 378 382 2 (-1);
  cr 383 383 1 (-300); cr 384 384 1 195; cr 387 389 2 (-1);
  cr 392 392 1 (-1); cr 396 396 1 (-1); cr 402 402 1 (-1); cr 405 405 1 97;
  cr 409 409 1 (-1); cr 410 410 1 163; cr 414 414 1 130; cr 417 421 2 (-1);
  cr 424 424 1 (-1); cr 429 429 1 (-1); cr 432 432 1 (-1); cr 436 438 2 (-1);
  cr 441 441 1 (-1); cr 445 445 1 (-1); cr 447 447 1 56; cr 453 453 1 (-1);
  cr 454 454 1 (-2); cr 456 456 1 (-1); cr 457 457 1 (-2); cr 459 459 1 (-1);
  cr 460 460 1 (-2); cr 462 476 2 (-1); cr 477 477 1 (-79);
  cr 479 495 2 (-1); cr 498 498 1 (-1); cr 499 499 1 (-2); cr 501 501 1 (-1);
  cr 505 543 2 (-1); cr 547 563 2 (-1); cr 572 572 1 (-1);
  cr 575 576 1 10815; cr 578 578 1 (-1); cr 583 591 2 (-1);
  cr 592 592 1 10783; cr 593 593 1 10780; cr 594 594 1 10782;
  cr 595 595 1 (-210); cr 596 596 1 (-206); cr 598 599 1 (-205);
  cr 601 601 1 (-202); cr 603 603 1 (-203); cr 604 604 1 42319;
  cr 608 608 1 (-205); cr 609 609 1 42315; cr 611 611 1 (-207);
  cr 613 613 1 42280; cr 614 614 1 42308; cr 616 616 1 (-209);
  cr 617 617 1 (-211); cr 618 618 1 42308; cr 619 619 1 10743;
  cr 620 620 1 42305; cr 623 623 1 (-211); cr 625 625 1 10749;
  cr 626 626 1 (-213); cr 629 629 1 (-214); cr 637 637 1 10727;
  cr 640 640 1 (-218); cr 642 642 1 42307; cr 643 643 1 (-218);
  cr 647 647 1 42282; cr 648 648 1 (-218); cr 649 649 1 (-69);
  cr 650 651 1 (-217); cr 652 652 1 (-71); cr 658 658 1 (-219);
  cr 669 669 1 42261; cr 670 670 1 42258; cr 837 837 1 84; cr 881 883 2 (-1);
  cr 887 887 1 (-1); cr 891 893 1 130; cr 940 940 1 (-38);
  cr 941 943 1 (-37); cr 945 961 1 (-32); cr 962 962 1 (-31);
  cr 963 971 1 (-32); cr 972 972 1 (-64); cr 973 974 1 (-63);
  cr 976 976 1 (-62); cr 977 977 1 (-57); cr 981 981 1 (-47);
  cr 982 982 1 (-54); cr 983 983 1 (-8); cr 985 1007 2 (-1);
  cr 1008 1008 1 (-86); cr 1009 1009 1 (-80); cr 1010 1010 1 7;
  cr 1011 1011 1 (-116); cr 1013 1013 1 (-96); cr 1016 1016 1 (-1);
  cr 1019 1019 1 (-1); cr 1072 1103 1 (-32); cr 1104 1119 1 (-80);
  cr 1121 1153 2 (-1); cr 1163 1215 2 (-1); cr 1218 1230 2 (-1);
  cr 1231 1231 1 (-15); cr 1233 1327 2 (-1); cr 1377 1414 1 (-48);
  cr 4304 4346 1 3008; cr 4349 4351 1 3008; cr 5112 5117 1 (-8);
  cr 7296 7296 1 (-6254); cr 7297 7297 1 (-6253); cr 7298 7298 1 (-6244);
  cr 7299 7300 1 (-6242); cr 7301 7301 1 (-6243); cr 7302 7302 1 (-6236);
  cr 7303 7303 1 (-6181); cr 7304 7304 1 35266; cr 7545 7545 1 35332;
  cr 7549 7549 1 3814; cr 7566 7566 1 35384; cr 7681 7829 2 (-1);
  cr 7835 7835 1 (-59); cr 7841 7935 2 (-1); cr 7936 7943 1 8;
  cr 7952 7957 1 8; cr 7968 7975 1 8; cr 7984 7991 1 8; cr 8000 8005 1 8;
  cr 8017 8023 2 8; cr 8032 8039 1 8; cr 8048 8049 1 74; cr 8050 8053 1 86;
  cr 8054 8055 1 100; cr 8056 8057 1 128; cr 8058 8059 1 112;
  cr 8060 8061 1 126; cr 8064 8071 1 8; cr 8080 8087 1 8; cr 8096 8103 1 8;
  cr 8112 8113 1 8; cr 8115 8115 1 9; cr 8126 8126 1 (-7205);
  cr 8131 8131 1 9; cr 8144 8145 1 8; cr 8160 8161 1 8; cr 8165 8165 1 7;
  cr 8179 8179 1 9; cr 8526 8526 1 (-28); cr 8560 8575 1 (-16);
  cr 8580 8580 1 (-1); cr 9424 9449 1 (-26); cr 11312 11359 1 (-48);
  cr 11361 11361 1 (-1); cr 11365 11365 1 (-10795);
  cr 11366 11366 1 (-10792); cr 11368 11372 2 (-1); cr 11379 11379 1 (-1);
  cr 11382 11382 1 (-1); cr 11393 11491 2 (-1); cr 11500 11502 2 (-1);
  cr 11507 11507 1 (-1); cr 11520 11557 1 (-7264); cr 11559 11559 1 (-7264);
  cr 11565 11565 1 (-7264); cr 42561 42605 2 (-1); cr 42625 42651 2 (-1);
  cr 42787 42799 2 (-1); cr 42803 42863 2 (-1); cr 42874 42876 2 (-1);
  cr 42879 42887 2 (-1); cr 42892 42892 1 (-1); cr 42897 42899 2 (-1);
  cr 42900 42900 1 48; cr 42903 42921 2 (-1); cr 42933 42947 2 (-1);
  cr 42952 42954 2 (-1); cr 42961 42961 1 (-1); cr 42967 42969 2 (-1);
  cr 42998 42998 1 (-1); cr 43859 43859 1 (-928); cr 43888 43967 1 (-38864);
  cr 65345 65370 1 (-32); cr 66600 66639 1 (-40); cr 66776 66811 1 (-40);
  cr 66967 66977 1 (-39); cr 66979 66993 1 (-39); cr 66995 67001 1 (-39);
  cr 67003 67004 1 (-39); cr 68800 68850 1 (-64); cr 71872 71903 1 (-32);
  cr 93792 93823 1 (-32); cr 125218 125251 1 (-34)].

Definition lower_table : list case_range := [
  cr 192 214 1 32; cr 216 222 1 32; cr 256 302 2 1; cr 304 304 1 (-199);
  cr 306 310 2 1; cr 313 327 2 1; cr 330 374 2 1; cr 376 376 1 (-121);
  cr 377 381 2 1; cr 385 385 1 210; cr 386 388 2 1; cr 390 390 1 206;
  cr 391 391 1 1; cr 393 394 1 205; cr 395 395 1 1; cr 398 398 1 79;
  cr 399 399 1 202; cr 400 400 1 203; cr 401 401 1 1; cr 403 403 1 205;
  cr 404 404 1 207; cr 406 406 1 211; cr 407 407 1 209; cr 408 408 1 1;
  cr 412 412 1 211; cr 413 413 1 213; cr 415 415 1 214; cr 416 420 2 1;
  cr 422 422 1 218; cr 423 423 1 1; cr 425 425 1 218; cr 428 428 1 1;
  cr 430 430 1 218; cr 431 431 1 1; cr 433 434 1 217; cr 435 437 2 1;
  cr 439 439 1 219; cr 440 440 1 1; cr 444 444 1 1; cr 452 452 1 2;
  cr 453 453 1 1; cr 455 455 1 2; cr 456 456 1 1; cr 458 458 1 2;
  cr 459 475 2 1; cr 478 494 2 1; cr 497 497 1 2; cr 498 500 2 1;
  cr 502 502 1 (-97); cr 503 503 1 (-56); cr 504 542 2 1;
  cr 544 544 1 (-130); cr 546 562 2 1; cr 570 570 1 10795; cr 571 571 1 1;
  cr 573 573 1 (-163); cr 574 574 1 10792; cr 577 577 1 1;
  cr 579 579 1 (-195); cr 580 580 1 69; cr 581 581 1 71; cr 582 590 2 1;
  cr 880 882 2 1; cr 886 886 1 1; cr 895 895 1 116; cr 902 902 1 38;
  cr 904 906 1 37; cr 908 908 1 64; cr 910 911 1 63; cr 913 929 1 32;
  cr 931 939 1 32; cr 975 975 1 8; cr 984 1006 2 1; cr 1012 1012 1 (-60);
  cr 1015 1015 1 1; cr 1017 1017 1 (-7); cr 1018 1018 1 1;
  cr 1021 1023 1 (-130); cr 1024 1039 1 80; cr 1040 1071 1 32;
  cr 1120 1152 2 1; cr 1162 1214 2 1; cr 1216 1216 1 15; cr 1217 1229 2 1;
  cr 1232 1326 2 1; cr 1329 1366 1 48; cr 4256 4293 1 7264;
  cr 4295 4295 1 7264; cr 4301 4301 1 7264; cr 5024 5103 1 38864;
  cr 5104 5109 1 8; cr 7312 7354 1 (-3008); cr 7357 7359 1 (-3008);
  cr 7680 7828 2 1; cr 7838 7838 1 (-7615); cr 7840 7934 2 1;
  cr 7944 7951 1 (-8); cr 7960 7965 1 (-8); cr 7976 7983 1 (-8);
  cr 7992 7999 1 (-8); cr 8008 8013 1 (-8); cr 8025 8031 2 (-8);
  cr 8040 8047 1 (-8); cr 8072 8079 1 (-8); cr 8088 8095 1 (-8);
  cr 8104 8111 1 (-8); cr 8120 8121 1 (-8); cr 8122 8123 1 (-74);
  cr 8124 8124 1 (-9); cr 8136 8139 1 (-86); cr 8140 8140 1 (-9);
  cr 8152 8153 1 (-8); cr 8154 8155 1 (-100); cr 8168 8169 1 (-8);
  cr 8170 8171 1 (-112); cr 8172 8172 1 (-7); cr 8184 8185 1 (-128);
  cr 8186 8187 1 (-126); cr 8188 8188 1 (-9); cr 8486 8486 1 (-7517);
  cr 8490 8490 1 (-8383); cr 8491 8491 1 (-8262); cr 8498 8498 1 28;
  cr 8544 8559 1 16; cr 8579 8579 1 1; cr 9398 9423 1 26;
  cr 11264 11311 1 48; cr 11360 11360 1 1; cr 11362 11362 1 (-10743);
  cr 11363 11363 1 (-3814); cr 11364 11364 1 (-10727); cr 11367 11371 2 1;
  cr 11373 11373 1 (-10780); cr 11374 11374 1 (-10749);
  cr 11375 11375 1 (-10783); cr 11376 11376 1 (-10782); cr 11378 11378 1 1;
  cr 11381 11381 1 1; cr 11390 11391 1 (-10815); cr 11392 11490 2 1;
  cr 11499 11501 2 1; cr 11506 11506 1 1; cr 42560 42604 2 1;
  cr 42624 42650 2 1; cr 42786 42798 2 1; cr 42802 42862 2 1;
  cr 42873 42875 2 1; cr 42877 42877 1 (-35332); cr 42878 42886 2 1;
  cr 42891 42891 1 1; cr 42893 42893 1 (-42280); cr 42896 42898 2 1;
  cr 42902 42920 2 1; cr 42922 42922 1 (-42308); cr 42923 42923 1 (-42319);
  cr 42924 42924 1 (-42315); cr 42925 42925 1 (-42305);
  cr 42926 42926 1 (-42308); cr 42928 42928 1 (-42258);
  cr 42929 42929 1 (-42282); cr 42930 42930 1 (-42261); cr 42931 42931 1 928;
  cr 42932 42946 2 1; cr 42948 42948 1 (-48); cr 42949 42949 1 (-42307);
  cr 42950 42950 1 (-35384); cr 42951 42953 2 1; cr 42960 42960 1 1;
  cr 42966 42968 2 1; cr 42997 42997 1 1; cr 65313 65338 1 32;
  cr 66560 66599 1 40; cr 66736 66771 1 40; cr 66928 66938 1 39;
  cr 66940 66954 1 39; cr 66956 66962 1 39; cr 66964 66965 1 39;
  cr 68736 68786 1 64; cr 71840 71871 1 32; cr 93760 93791 1 32;
  cr 125184 125217 1 34].

Definition fold_table : list case_range := [
  cr 181 181 1 775; cr 192 214 1 32; cr 216 222 1 32; cr 256 302 2 1;
  cr 306 310 2 1; cr 313 327 2 1; cr 330 374 2 1; cr 376 376 1 (-121);
  cr 377 381 2 1; cr 383 383 1 (-268); cr 385 385 1 210; cr 386 388 2 1;
  cr 390 390 1 206; cr 391 391 1 1; cr 393 394 1 205; cr 395 395 1 1;
  cr 398 398 1 79; cr 399 399 1 202; cr 400 400 1 203; cr 401 401 1 1;
  cr 403 403 1 205; cr 404 404 1 207; cr 406 406 1 211; cr 407 407 1 209;
  cr 408 408 1 1; cr 412 412 1 211; cr 413 413 1 213; cr 415 415 1 214;
  cr 416 420 2 1; cr 422 422 1 218; cr 423 423 1 1; cr 425 425 1 218;
  cr 428 428 1 1; cr 430 430 1 218; cr 431 431 1 1; cr 433 434 1 217;
  cr 435 437 2 1; cr 439 439 1 219; cr 440 440 1 1; cr 444 444 1 1;
  cr 452 452 1 2; cr 453 453 1 1; cr 455 455 1 2; cr 456 456 1 1;
  cr 458 458 1 2; cr 459 475 2 1; cr 478 494 2 1; cr 497 497 1 2;
  cr 498 500 2 1; cr 502 502 1 (-97); cr 503 503 1 (-56); cr 504 542 2 1;
  cr 544 544 1 (-130); cr 546 562 2 1; cr 570 570 1 10795; cr 571 571 1 1;
  cr 573 573 1 (-163); cr 574 574 1 10792; cr 577 577 1 1;
  cr 579 579 1 (-195); cr 580 580 1 69; cr 581 581 1 71; cr 582 590 2 1;
  cr 837 837 1 116; cr 880 882 2 1; cr 886 886 1 1; cr 895 895 1 116;
  cr 902 902 1 38; cr 904 906 1 37; cr 908 908 1 64; cr 910 911 1 63;
  cr 913 929 1 32; cr 931 939 1 32; cr 962 962 1 1; cr 975 975 1 8;
  cr 976 976 1 (-30); cr 977 977 1 (-25); cr 981 981 1 (-15);
  cr 982 982 1 (-22); cr 984 1006 2 1; cr 1008 1008 1 (-54);
  cr 1009 1009 1 (-48); cr 1012 1012 1 (-60); cr 1013 1013 1 (-64);
  cr 1015 1015 1 1; cr 1017 1017 1 (-7); cr 1018 1018 1 1;
  cr 1021 1023 1 (-130); cr 1024 1039 1 80; cr 1040 1071 1 32;
  cr 1120 1152 2 1; cr 1162 1214 2 1; cr 1216 1216 1 15; cr 1217 1229 2 1;
  cr 1232 1326 2 1; cr 1329 1366 1 48; cr 4256 4293 1 7264;
  cr 4295 4295 1 7264; cr 4301 4301 1 7264; cr 5112 5117 1 (-8);
  cr 7296 7296 1 (-6222); cr 7297 7297 1 (-6221); cr 7298 7298 1 (-6212);
  cr 7299 7300 1 (-6210); cr 7301 7301 1 (-6211); cr 7302 7302 1 (-6204);
  cr 7303 7303 1 (-6180); cr 7304 7304 1 35267; cr 7312 7354 1 (-3008);
  cr 7357 7359 1 (-3008); cr 7680 7828 2 1; cr 7835 7835 1 (-58);
  cr 7838 7838 1 (-7615); cr 7840 7934 2 1; cr 7944 7951 1 (-8);
  cr 7960 7965 1 (-8); cr 7976 7983 1 (-8); cr 7992 7999 1 (-8);
  cr 8008 8013 1 (-8); cr 8025 8031 2 (-8); cr 8040 8047 1 (-8);
  cr 8072 8079 1 (-8); cr 8088 8095 1 (-8); cr 8104 8111 1 (-8);
  cr 8120 8121 1 (-8); cr 8122 8123 1 (-74); cr 8124 8124 1 (-9);
  cr 8126 8126 1 (-7173); cr 8136 8139 1 (-86); cr 8140 8140 1 (-9);
  cr 8152 8153 1 (-8); cr 8154 8155 1 (-100); cr 8168 8169 1 (-8);
  cr 8170 8171 1 (-112); cr 8172 8172 1 (-7); cr 8184 8185 1 (-128);
  cr 8186 8187 1 (-126); cr 8188 8188 1 (-9); cr 8486 8486 1 (-7517);
  cr 8490 8490 1 (-8383); cr 8491 8491 1 (-8262); cr 8498 8498 1 28;
  cr 8544 8559 1 16; cr 8579 8579 1 1; cr 9398 9423 1 26;
  cr 11264 11311 1 48; cr 11360 11360 1 1; cr 11362 11362 1 (-10743);
  cr 11363 11363 1 (-3814); cr 11364 11364 1 (-10727); cr 11367 11371 2 1;
  cr 11373 11373 1 (-10780); cr 11374 11374 1 (-10749);
  cr 11375 11375 1 (-10783); cr 11376 11376 1 (-10782); cr 11378 11378 1 1;
  cr 11381 11381 1 1; cr 11390 11391 1 (-10815); cr 11392 11490 2 1;
  cr 11499 11501 2 1; cr 11506 11506 1 1; cr 42560 42604 2 1;
  cr 42624 42650 2 1; cr 42786 42798 2 1; cr 42802 42862 2 1;
  cr 42873 42875 2 1; cr 42877 42877 1 (-35332); cr 42878 42886 2 1;
  cr 42891 42891 1 1; cr 42893 42893 1 (-42280); cr 42896 42898 2 1;
  cr 42902 42920 2 1; cr 42922 42922 1 (-42308); cr 42923 42923 1 (-42319);
  cr 42924 42924 1 (-42315); cr 42925 42925 1 (-42305);
  cr 42926 42926 1 (-42308); cr 42928 42928 1 (-42258);
  cr 42929 42929 1 (-42282); cr 42930 42930 1 (-42261); cr 42931 42931 1 928;
  cr 42932 42946 2 1; cr 42948 42948 1 (-48); cr 42949 42949 1 (-42307);
  cr 42950 42950 1 (-35384); cr 42951 42953 2 1; cr 42960 42960 1 1;
  cr 42966 42968 2 1; cr 42997 42997 1 1; cr 43888 43967 1 (-38864);
  cr 65313 65338 1 32; cr 66560 66599 1 40; cr 66736 66771 1 40;
  cr 66928 66938 1 39; cr 66940 66954 1 39; cr 66956 66962 1 39;
  cr 66964 66965 1 39; cr 68736 68786 1 64; cr 71840 71871 1 32;
  cr 93760 93791 1 32; cr 125184 125217 1 34].

(** [unicode.ToUpper] *)
Definition rune_upper (r : rune) : rune :=
  if r <? 128 then (if (97 <=? r) && (r <=? 122) then r - 32 else r)
  else case_map upper_table r.

(** [unicode.ToLower] *)
Definition rune_lower (r : rune) : rune :=
  if r <? 128 then (if (65 <=? r) && (r <=? 90) then r + 32 else r)
  else case_map lower_table r.

(** Representative of a rune's [unicode.SimpleFold] orbit. *)
Definition rune_fold (r : rune) : rune :=
  if r <? 128 then (if (65 <=? r) && (r <=? 90) then r + 32 else r)
  else case_map fold_table r.

(** [unicode.IsSpace] *)
Definition is_space (r : rune) : bool :=
  ((9 <=? r) && (r <=? 13)) || (r =? 32) || (r =? 133) || (r =? 160)
  || (r =? 5760) || ((8192 <=? r) && (r <=? 8202))
  || (r =? 8232) || (r =? 8233) || (r =? 8239) || (r =? 8287) || (r =? 12288).

(** A Unicode scalar value: what [utf8.ValidRune] accepts. *)
Definition valid_rune (r : rune) : bool :=
  ((0 <=? r) && (r <? 55296)) || ((57344 <=? r) && (r <=? 1114111)).

(** ** Laws, by evaluation over the tables' domain *)

(** The runes a table moves. *)
Definition cr_dom (c : case_range) : list rune :=
  (λ k, cr_lo c + cr_stride c * Z.of_nat k)
    <$> seq 0 (S (Z.to_nat ((cr_hi c - cr_lo c) / cr_stride c))).

Definition table_ok (t : list case_range) : bool :=
  forallb (λ c, 0 <? cr_stride c) t.

Lemma cr_mem_dom r c : 0 < cr_stride c → cr_mem r c = true → In r (cr_dom c).
Proof.
  intros Hs H. unfold cr_mem in H.
  destruct (cr_lo c <=? r) eqn:?; [|done]. destruct (r <=? cr_hi c) eqn:?; [|done].
  bools. unfold cr_dom. apply in_map_iff.
  exists (Z.to_nat ((r - cr_lo c) / cr_stride c)).
  pose proof (Z.div_mod (r - cr_lo c) (cr_stride c) ltac:(lia)) as Hd.
  pose proof (Z.div_pos (r - cr_lo c) (cr_stride c) ltac:(lia) ltac:(lia)).
  split; [rewrite Z2Nat.id by done; lia|].
  apply in_seq. split; [lia|]. simpl. rewrite <- Nat.le_succ_l. apply le_n_S.
  apply Z2Nat.inj_le; [done|apply Z.div_pos; lia|].
  apply Z.div_le_mono; lia.
Qed.

Lemma case_map_dom t r :
  table_ok t = true → case_map t r = r ∨ In r (concat (cr_dom <$> t)).
Proof.
  induction t as [|c t IH]; [auto|]. rewrite fmap_cons, concat_cons, in_app_iff.
  cbn [table_ok forallb case_map]. intros [Hc Ht]%andb_true_iff.
  destruct (cr_mem r c) eqn:E.
  - right. left. apply cr_mem_dom; [by apply Z.ltb_lt|done].
  - destruct (IH Ht); auto.
Qed.

Lemma table_law (t : list case_range) (Q : rune → bool) r :
  table_ok t = true → forallb Q (concat (cr_dom <$> t)) = true →
  case_map t r = r ∨ Q r = true.
Proof.
  intros Ht HQ. destruct (case_map_dom t r Ht) as [|Hin]; [auto|].
  right. rewrite forallb_forall in HQ. auto.
Qed.

(** One check per case mapping [f]: it is idempotent, maps scalar values to
    scalar values, preserves (non-)spaces and never produces NUL from another
    rune. *)
Definition case_law (f : rune → rune) (r : rune) : bool :=
  (f (f r) =? f r) && (negb (valid_rune r) || valid_rune (f r))
  && eqb (is_space (f r)) (is_space r) && ((r =? 0) || negb (f r =? 0)).

Lemma case_law_id f r : f r = r → case_law f r = true.
Proof.
  intros E. unfold case_law. rewrite !E, Z.eqb_refl, eqb_reflx.
  destruct (valid_rune r), (r =? 0); done.
Qed.

Lemma upper_table_laws :
  table_ok upper_table = true
  ∧ forallb (case_law rune_upper) (concat (cr_dom <$> upper_table)) = true.
Proof. by vm_compute. Qed.

Lemma lower_table_laws :
  table_ok lower_table = true
  ∧ forallb (case_law rune_lower) (concat (cr_dom <$> lower_table)) = true.
Proof. by vm_compute. Qed.

(** The ASCII part: outside the letters nothing moves, and the letters are
    checked one by one. *)
Lemma ascii_law f r (lo : Z) :
  (∀ x, x < 128 → (lo <=? x) && (x <=? lo + 25) = false → f x = x) →
  forallb (case_law f) ((λ k, lo + Z.of_nat k) <$> seq 0 26) = true →
  r < 128 → case_law f r = true.
Proof.
  intros Hf Hc Hr. destruct ((lo <=? r) && (r <=? lo + 25)) eqn:E.
  - bools. rewrite forallb_forall in Hc. apply Hc. apply in_map_iff.
    exists (Z.to_nat (r - lo)). rewrite in_seq. lia.
  - apply case_law_id. auto.
Qed.

Lemma rune_upper_law r : case_law rune_upper r = true.
Proof.
  destruct (Z.ltb_spec r 128).
  - apply (ascii_law _ _ 97); [|by vm_compute|done]. intros x Hx Hn.
    unfold rune_upper. rewrite (proj2 (Z.ltb_lt x 128) Hx).
    change (122) with (97 + 25). by rewrite Hn.
  - destruct upper_table_laws as [Ht HQ].
    destruct (table_law _ _ r Ht HQ) as [E|]; [|done]. apply case_law_id.
    unfold rune_upper. by rewrite (proj2 (Z.ltb_ge r 128)).
Qed.

Lemma rune_lower_law r : case_law rune_lower r = true.
Proof.
  destruct (Z.ltb_spec r 128).
  - apply (ascii_law _ _ 65); [|by vm_compute|done]. intros x Hx Hn.
    unfold rune_lower. rewrite (proj2 (Z.ltb_lt x 128) Hx).
    change (90) with (65 + 25). by rewrite Hn.
  - destruct lower_table_laws as [Ht HQ].
    destruct (table_law _ _ r Ht HQ) as [E|]; [|done]. apply case_law_id.
    unfold rune_lower. by rewrite (proj2 (Z.ltb_ge r 128)).
Qed.

(** The law in the form the string library uses it. *)
Record case_mapping (f : rune → rune) : Prop := {
  cm_idemp r : f (f r) = f r;
  cm_valid r : valid_rune r = true → valid_rune (f r) = true;
  cm_space r : is_space (f r) = is_space r;
  cm_nul r : f r = 0 → r = 0;
}.

Lemma case_law_mapping f : (∀ r, case_law f r = true) → case_mapping f.
Proof.
  intros H.
  assert (∀ r, f (f r) = f r ∧ (valid_rune r = true → valid_rune (f r) = true)
    ∧ is_space (f r) = is_space r ∧ (f r = 0 → r = 0)) as HA.
  { intros r. specialize (H r). unfold case_law in H. bools.
    split_and!; [done| | |].
    - intros Hv. rewrite Hv in *. done.
    - by apply eqb_prop.
    - intros Hz. rewrite Hz in *. destruct (Z.eqb_spec r 0); done. }
  split; intros r; destruct (HA r) as (?&?&?&?); done.
Qed.

Lemma upper_mapping : case_mapping rune_upper.
Proof. apply case_law_mapping, rune_upper_law. Qed.
Lemma lower_mapping : case_mapping rune_lower.
Proof. apply case_law_mapping, rune_lower_law. Qed.

Lemma space_valid r : is_space r = true → valid_rune r = true.
Proof.
  unfold is_space, valid_rune. intros H.
  repeat (apply orb_true_iff in H as [H|H]); bools;
    apply orb_true_iff; left; apply andb_true_iff;
    rewrite Z.leb_le, Z.ltb_lt; lia.
Qed.

#[export] Hint Resolve upper_mapping lower_mapping space_valid : go.

(** The tables are only ever evaluated on closed runes. *)
#[global] Opaque rune_upper rune_lower rune_fold.
