(* ===== verification/GoStrings.v ===== *)
(** * Go strings: UTF-8, [strings] and [strconv]

    What the program uses of Go's [unicode/utf8], [strings] and [strconv].
    Strings are byte lists; [segs] splits one into the (rune, bytes) segments a
    [for range] loop visits, an undecodable byte being a segment of its own with
    rune U+FFFD, and the rune-aware functions are defined on segments.  The
    byte-wise functions ([Split], [Cut], [IndexByte], ...) are used by the program
    with ASCII separators only, and take the separator as a byte. *)
From S2P Require Import Prelude Unicode.
From stdpp Require Import options.
Local Open Scope Z_scope.

(** ** UTF-8 *)

(** [utf8.RuneError] *)
Definition RuneError : rune := 65533.

Definition in_range (lo hi : Z) (b : byte) : bool := (lo <=? bz b) && (bz b <=? hi).

(** [utf8.DecodeRuneInString]: the first rune and its width. *)
Definition decode_rune (s : gostring) : rune * nat :=
  match s with
  | [] => (RuneError, 0%nat)
  | b0 :: t =>
      let c0 := bz b0 in
      if c0 <? 128 then (c0, 1%nat)
      else if in_range 194 223 b0 then
        match t with
        | b1 :: _ =>
            if in_range 128 191 b1
            then ((c0 - 192) * 64 + (bz b1 - 128), 2%nat) else (RuneError, 1%nat)
        | _ => (RuneError, 1%nat)
        end
      else if in_range 224 239 b0 then
        match t with
        | b1 :: b2 :: _ =>
            if in_range (if c0 =? 224 then 160 else 128) (if c0 =? 237 then 159 else 191) b1
               && in_range 128 191 b2
            then ((c0 - 224) * 4096 + (bz b1 - 128) * 64 + (bz b2 - 128), 3%nat)
            else (RuneError, 1%nat)
        | _ => (RuneError, 1%nat)
        end
      else if in_range 240 244 b0 then
        match t with
        | b1 :: b2 :: b3 :: _ =>
            if in_range (if c0 =? 240 then 144 else 128) (if c0 =? 244 then 143 else 191) b1
               && in_range 128 191 b2 && in_range 128 191 b3
            then ((c0 - 240) * 262144 + (bz b1 - 128) * 4096
                  + (bz b2 - 128) * 64 + (bz b3 - 128), 4%nat)
            else (RuneError, 1%nat)
        | _ => (RuneError, 1%nat)
        end
      else (RuneError, 1%nat)
  end.

(** [utf8.AppendRune]: an invalid rune is written as U+FFFD. *)
Definition encode_rune (r0 : rune) : gostring :=
  let r := if valid_rune r0 then r0 else RuneError in
  if r <? 128 then [zb r]
  else if r <? 2048 then [zb (192 + r / 64); zb (128 + r mod 64)]
  else if r <? 65536 then
    [zb (224 + r / 4096); zb (128 + r / 64 mod 64); zb (128 + r mod 64)]
  else
    [zb (240 + r / 262144); zb (128 + r / 4096 mod 64);
     zb (128 + r / 64 mod 64); zb (128 + r mod 64)].

(** The segments a [for range] loop visits. *)
Abbreviation seg := (rune * gostring)%type.

Fixpoint segs_fuel (n : nat) (s : gostring) : list seg :=
  match n, s with
  | S n', _ :: _ =>
      let '(r, w) := decode_rune s in (r, take w s) :: segs_fuel n' (drop w s)
  | _, _ => []
  end.
Definition segs (s : gostring) : list seg := segs_fuel (length s) s.

Definition runes (s : gostring) : list rune := (segs s).*1.
Definition unsegs (l : list seg) : gostring := concat l.*2.

(** [string(runes)] *)
Definition string_of_runes (l : list rune) : gostring := concat (encode_rune <$> l).

(** ** Package [strings] *)

(** [strings.Map] *)
Definition str_map (f : rune → rune) (s : gostring) : gostring :=
  concat ((λ x : seg, encode_rune (f x.1)) <$> segs s).

Definition ToUpper : gostring → gostring := str_map rune_upper.
Definition ToLower : gostring → gostring := str_map rune_lower.

Definition trim_segs (p : rune → bool) (l : list seg) : list seg :=
  trim_end (p ∘ fst) (drop_while (p ∘ fst) l).
Definition TrimSpace (s : gostring) : gostring := unsegs (trim_segs is_space (segs s)).

Definition EqualFold (s t : gostring) : bool :=
  bool_decide (rune_fold <$> runes s = rune_fold <$> runes t).

(** The maximal runs of segments whose runes fail [p]. *)
Fixpoint fields_segs (p : rune → bool) (cur : gostring) (l : list seg) : list gostring :=
  match l with
  | [] => match cur with [] => [] | _ => [cur] end
  | (r, b) :: l' =>
      if p r then
        match cur with [] => fields_segs p [] l' | _ => cur :: fields_segs p [] l' end
      else fields_segs p (cur ++ b) l'
  end.
Definition FieldsFunc (p : rune → bool) (s : gostring) : list gostring :=
  fields_segs p [] (segs s).
Definition Fields : gostring → list gostring := FieldsFunc is_space.

Fixpoint Join (l : list gostring) (sep : gostring) : gostring :=
  match l with
  | [] => []
  | [x] => x
  | x :: l' => x ++ sep ++ Join l' sep
  end.

Fixpoint IndexByte (s : gostring) (c : byte) : option nat :=
  match s with
  | [] => None
  | b :: s' => if bz b =? bz c then Some 0%nat else S <$> IndexByte s' c
  end.

(** [strings.Cut] with a one-byte separator: before, after, found. *)
Definition Cut (s : gostring) (c : byte) : gostring * gostring * bool :=
  match IndexByte s c with
  | Some i => (take i s, drop (S i) s, true)
  | None => (s, [], false)
  end.

(** [strings.Split] with a one-byte separator. *)
Fixpoint Split (s : gostring) (c : byte) : list gostring :=
  match s with
  | [] => [[]]
  | b :: s' =>
      if bz b =? bz c then [] :: Split s' c
      else match Split s' c with
           | w :: l => (b :: w) :: l
           | [] => [[b]]
           end
  end.

Fixpoint HasPrefix (s prefix : gostring) : bool :=
  match prefix, s with
  | [], _ => true
  | _ :: _, [] => false
  | a :: prefix', b :: s' => (bz a =? bz b) && HasPrefix s' prefix'
  end.
Definition CutPrefix (s prefix : gostring) : gostring * bool :=
  if HasPrefix s prefix then (drop (length prefix) s, true) else (s, false).

Fixpoint Contains (s sub : gostring) : bool :=
  HasPrefix s sub || match s with [] => false | _ :: s' => Contains s' sub end.

(** [strings.ReplaceAll] of a one-byte string by a one-byte string. *)
Definition ReplaceByte (a b : byte) (s : gostring) : gostring :=
  (λ c, if bz c =? bz a then b else c) <$> s.

(** [strings.TrimRight] with a set of ASCII bytes. *)
Definition TrimRight (cutset : gostring) (s : gostring) : gostring :=
  trim_end (λ c, existsb (λ d, bz c =? bz d) cutset) s.

(** ** Package [strconv] and [%d] *)

Fixpoint digits_fuel (n : nat) (z : Z) (acc : gostring) : gostring :=
  match n with
  | O => acc
  | S n' =>
      let acc' := zb (48 + z mod 10) :: acc in
      if z <? 10 then acc' else digits_fuel n' (z / 10) acc'
  end.
(** [fmt.Sprintf("%d", z)]; 20 digits hold every 64-bit integer. *)
Definition itoa (z : Z) : gostring :=
  if z <? 0 then bs "-" ++ digits_fuel 20 (- z) [] else digits_fuel 20 z [].

Fixpoint atoi_digits (acc : Z) (s : gostring) : option Z :=
  match s with
  | [] => Some acc
  | b :: s' =>
      if in_range 48 57 b then atoi_digits (acc * 10 + (bz b - 48)) s' else None
  end.
(** [strconv.Atoi]: an optional sign, then at least one decimal digit; a value
    outside [int] is an error. *)
Definition Atoi (s : gostring) : option Z :=
  let num (neg : bool) (t : gostring) :=
    match t with
    | [] => None
    | _ =>
        match atoi_digits 0 t with
        | Some v =>
            let z := if neg then - v else v in
            if (- 2 ^ 63 <=? z) && (z <? 2 ^ 63) then Some z else None
        | None => None
        end
    end in
  match s with
  | b :: t => if bz b =? 45 then num true t else if bz b =? 43 then num false t else num false s
  | [] => None
  end.

(** ** UTF-8 facts *)

(** A byte that cannot continue a rune. *)
Definition starts (b : byte) : Prop := bz b < 128 ∨ 192 ≤ bz b.
(** A string that is empty or begins at a rune boundary in any context. *)
Definition bounded_left (s : gostring) : Prop :=
  match s with [] => True | b :: _ => starts b end.

Lemma in_range_true lo hi b : in_range lo hi b = true ↔ lo ≤ bz b ≤ hi.
Proof. unfold in_range. rewrite andb_true_iff, !Z.leb_le. done. Qed.
Lemma in_range_false lo hi b : in_range lo hi b = false ↔ ¬ lo ≤ bz b ≤ hi.
Proof. rewrite <- in_range_true. by destruct in_range. Qed.

Ltac ranges :=
  repeat match goal with
  | H : in_range _ _ _ = true |- _ => apply in_range_true in H
  | H : in_range _ _ _ = false |- _ => apply in_range_false in H
  end.

(** Bring the range of every byte value of the goal into the context. *)
Ltac bz_bounds :=
  repeat match goal with
  | |- context [bz ?b] =>
      lazymatch goal with
      | _ : 0 ≤ bz b < 256 |- _ => fail
      | _ => pose proof (bz_range b)
      end
  end.

(** Open every test of [decode_rune] in the goal. *)
Ltac decode_cases := unfold decode_rune; repeat case_goal; bools; ranges.

Lemma decode_width s :
  s ≠ [] → (1 ≤ (decode_rune s).2 ≤ length s)%nat.
Proof. intros Hs. decode_cases; simpl; try done; lia. Qed.

Lemma decode_valid s : valid_rune (decode_rune s).1 = true.
Proof.
  unfold valid_rune. decode_cases; try done; cbn [fst]; bz_bounds;
    apply orb_true_iff; rewrite !andb_true_iff, !Z.leb_le, !Z.ltb_lt; lia.
Qed.

Lemma decode_starts s r w :
  decode_rune s = (r, w) → r ≠ RuneError → bounded_left s.
Proof.
  destruct s as [|b s]; [done|]. intros H Hr. simpl. unfold starts.
  destruct (Z.ltb_spec (bz b) 128); [auto|]. destruct (Z.le_gt_cases 192 (bz b)); [auto|].
  exfalso. apply Hr. revert H. unfold decode_rune.
  rewrite (proj2 (Z.ltb_ge (bz b) 128)) by done.
  assert (∀ lo hi, 192 ≤ lo → in_range lo hi b = false) as Hf
    by (intros; apply in_range_false; lia).
  rewrite !Hf by lia. congruence.
Qed.

(** Appending a string that begins at a rune boundary does not change the first
    rune. *)
Lemma decode_app a b : a ≠ [] → bounded_left b → decode_rune (a ++ b) = decode_rune a.
Proof.
  destruct b as [|c b]; [by rewrite app_nil_r|]. simpl. intros Ha Hc.
  assert (∀ lo hi, 128 ≤ lo → hi ≤ 191 → in_range lo hi c = false) as Hf.
  { intros. apply in_range_false. unfold starts in Hc. lia. }
  destruct a as [|a0 [|a1 [|a2 [|a3 a]]]]; [done|..]; simpl;
    repeat match goal with |- context [in_range ?lo ?hi c] =>
      rewrite (Hf lo hi) by (repeat case_match; lia) end;
    rewrite ?andb_false_r; simpl;
    repeat case_match; done.
Qed.

Lemma split64 r : 0 ≤ r →
  r = 64 * (r / 64) + r mod 64 ∧ 0 ≤ r mod 64 < 64 ∧ 0 ≤ r / 64.
Proof. intros. Z.to_euclidean_division_equations. lia. Qed.

Lemma split4096 r : 0 ≤ r →
  r = 4096 * (r / 4096) + 64 * (r / 64 mod 64) + r mod 64
  ∧ 0 ≤ r mod 64 < 64 ∧ 0 ≤ r / 64 mod 64 < 64 ∧ 0 ≤ r / 4096.
Proof. intros. Z.to_euclidean_division_equations. lia. Qed.

Lemma split262144 r : 0 ≤ r →
  r = 262144 * (r / 262144) + 4096 * (r / 4096 mod 64) + 64 * (r / 64 mod 64) + r mod 64
  ∧ 0 ≤ r mod 64 < 64 ∧ 0 ≤ r / 64 mod 64 < 64 ∧ 0 ≤ r / 4096 mod 64 < 64
  ∧ 0 ≤ r / 262144.
Proof. intros. Z.to_euclidean_division_equations. lia. Qed.

(** Decide the remaining integer tests of the goal, whose operands are linear. *)
Ltac decide_tests :=
  repeat match goal with
  | |- context [(?a <? ?b)] =>
      first [ rewrite (proj2 (Z.ltb_lt a b)) by lia
            | rewrite (proj2 (Z.ltb_ge a b)) by lia ]
  | |- context [(?a <=? ?b)] =>
      first [ rewrite (proj2 (Z.leb_le a b)) by lia
            | rewrite (proj2 (Z.leb_gt a b)) by lia ]
  | |- context [(?a =? ?b)] => destruct (Z.eqb_spec a b)
  end.

Lemma valid_rune_spec r :
  valid_rune r = true ↔ 0 ≤ r < 55296 ∨ 57344 ≤ r ≤ 1114111.
Proof.
  unfold valid_rune.
  rewrite orb_true_iff, !andb_true_iff, !Z.leb_le, !Z.ltb_lt. done.
Qed.

Lemma decode_encode r s :
  valid_rune r = true →
  decode_rune (encode_rune r ++ s) = (r, length (encode_rune r)).
Proof.
  intros Hv. unfold encode_rune. rewrite Hv. apply valid_rune_spec in Hv.
  repeat case_match; bools; simpl; unfold in_range.
  - rewrite !bz_zb_small by lia. by decide_tests.
  - destruct (split64 r) as (Hr & ? & ?); [lia|].
    revert Hr. generalize dependent (r / 64). generalize dependent (r mod 64).
    intros c ? a ? ->. rewrite !bz_zb_small by lia. decide_tests; simpl; f_equal; lia.
  - destruct (split4096 r) as (Hr & ? & ? & ?); [lia|].
    revert Hr. generalize dependent (r / 4096).
    generalize dependent (r / 64 mod 64). generalize dependent (r mod 64).
    intros c ? b ? a ? ->. rewrite !bz_zb_small by lia.
    decide_tests; simpl; f_equal; lia.
  - destruct (split262144 r) as (Hr & ? & ? & ? & ?); [lia|].
    revert Hr. generalize dependent (r / 262144).
    generalize dependent (r / 4096 mod 64).
    generalize dependent (r / 64 mod 64). generalize dependent (r mod 64).
    intros d ? c ? b ? a ? ->. rewrite !bz_zb_small by lia.
    decide_tests; simpl; f_equal; lia.
Qed.

(** ** Segments *)

Lemma segs_fuel_enough n m s :
  (length s ≤ n)%nat → (length s ≤ m)%nat → segs_fuel n s = segs_fuel m s.
Proof.
  revert m s. induction n as [|n IH]; intros [|m] [|b s] Hn Hm; try done;
    try (simpl in *; lia).
  cbn [segs_fuel]. pose proof (decode_width (b :: s) ltac:(done)) as Hw.
  destruct (decode_rune (b :: s)) as [r w]. simpl in Hw.
  f_equal. apply IH; rewrite length_drop; simpl in *; lia.
Qed.

Lemma segs_nil : segs [] = [].
Proof. done. Qed.

Lemma segs_step s r w :
  s ≠ [] → decode_rune s = (r, w) → segs s = (r, take w s) :: segs (drop w s).
Proof.
  intros Hs Hd. pose proof (decode_width s Hs) as Hw. rewrite Hd in Hw. simpl in Hw.
  destruct s as [|b s]; [done|]. unfold segs at 1. cbn [length segs_fuel].
  rewrite Hd. f_equal. apply segs_fuel_enough; rewrite ?length_drop; simpl in *; lia.
Qed.

(** Strong induction on a string, one segment at a time. *)
Lemma segs_ind (P : gostring → Prop) :
  P [] →
  (∀ s r w, s ≠ [] → decode_rune s = (r, w) → P (drop w s) → P s) →
  ∀ s, P s.
Proof.
  intros H0 H1 s. remember (length s) as n eqn:Hn.
  revert s Hn. induction (lt_wf n) as [n _ IH]. intros s ->.
  destruct s as [|b s]; [done|].
  pose proof (decode_width (b :: s) ltac:(done)) as Hw.
  destruct (decode_rune (b :: s)) as [r w] eqn:E. simpl in Hw.
  eapply H1; [done|done|]. eapply IH; [|done]. rewrite length_drop. simpl. lia.
Qed.

Lemma unsegs_segs s : unsegs (segs s) = s.
Proof.
  induction s as [|s r w Hs Hd IH] using segs_ind; [done|].
  rewrite (segs_step s r w) by done. unfold unsegs in *. csimpl.
  rewrite IH. apply take_drop.
Qed.

Lemma unsegs_app k l : unsegs (k ++ l) = unsegs k ++ unsegs l.
Proof. unfold unsegs. by rewrite fmap_app, concat_app. Qed.

Lemma segs_app a b : bounded_left b → segs (a ++ b) = segs a ++ segs b.
Proof.
  intros Hb. induction a as [|a r w Ha Hd IH] using segs_ind; [done|].
  pose proof (decode_width a Ha) as Hw. rewrite Hd in Hw. simpl in Hw.
  rewrite (segs_step a r w), (segs_step (a ++ b) r w);
    [|by destruct a| |done|done].
  - rewrite take_app_le, drop_app_le by lia. csimpl. by rewrite IH.
  - by rewrite decode_app.
Qed.

Lemma segs_suffix s k l : segs s = k ++ l → segs (unsegs l) = l.
Proof.
  revert s. induction k as [|x k IH]; intros s H.
  - simpl in H. rewrite <- H. by rewrite unsegs_segs.
  - destruct s as [|b s]; [done|].
    destruct (decode_rune (b :: s)) as [r w] eqn:E.
    rewrite (segs_step (b :: s) r w) in H by done.
    injection H as _ H. eauto.
Qed.

(** What every segment of a string satisfies. *)
Definition seg_ok (x : seg) : Prop :=
  x.2 ≠ [] ∧ valid_rune x.1 = true ∧ (x.1 ≠ RuneError → bounded_left x.2).

Lemma segs_ok s : Forall seg_ok (segs s).
Proof.
  induction s as [|s r w Hs Hd IH] using segs_ind; [constructor|].
  pose proof (decode_width s Hs) as Hw. rewrite Hd in Hw. simpl in Hw.
  rewrite (segs_step s r w) by done. constructor; [|done].
  pose proof (decode_valid s) as Hv. rewrite Hd in Hv.
  assert (take w s ≠ []) as Hne.
  { destruct s; [done|]. destruct w; [lia|]. done. }
  assert (bounded_left s → bounded_left (take w s)) as Hbl.
  { destruct s; [done|]. destruct w; [lia|]. done. }
  split_and!; simpl; [done|done|].
  intros Hr. apply Hbl. by eapply decode_starts.
Qed.

Lemma unsegs_bounded l :
  Forall seg_ok l → (∀ x k, l = x :: k → x.1 ≠ RuneError) → bounded_left (unsegs l).
Proof.
  intros Hok Hne. destruct l as [|[r b] k]; [done|].
  inversion Hok as [|? ? (Hb & _ & Hbl)]; subst. simpl in *.
  specialize (Hbl (Hne _ _ eq_refl)). unfold unsegs. csimpl.
  destruct b; [done|]. done.
Qed.

(** The middle of a segmentation segments to itself if what follows begins with
    a genuine rune. *)
Lemma segs_infix s k m l :
  segs s = k ++ m ++ l → (∀ x l', l = x :: l' → x.1 ≠ RuneError) →
  segs (unsegs m) = m.
Proof.
  intros H Hl. pose proof (segs_suffix s k (m ++ l) H) as H1.
  assert (segs s = (k ++ m) ++ l) as H' by (by rewrite <- app_assoc).
  pose proof (segs_suffix s (k ++ m) l H') as H2.
  rewrite unsegs_app, segs_app in H1.
  - rewrite H2 in H1. by apply app_inv_tail in H1.
  - apply unsegs_bounded; [|done]. pose proof (segs_ok s) as Hok. rewrite H' in Hok.
    by apply Forall_app in Hok as [_ ?].
Qed.

Lemma segs_encode r s :
  valid_rune r = true → segs (encode_rune r ++ s) = (r, encode_rune r) :: segs s.
Proof.
  intros Hv. rewrite (segs_step _ r (length (encode_rune r))).
  - by rewrite take_app_length, drop_app_length.
  - unfold encode_rune. by repeat case_match.
  - by apply decode_encode.
Qed.

Lemma segs_string_of_runes l :
  Forall (λ r, valid_rune r = true) l →
  segs (string_of_runes l) = (λ r, (r, encode_rune r)) <$> l.
Proof.
  unfold string_of_runes. induction 1 as [|r l Hr _ IH]; [done|].
  csimpl. by rewrite segs_encode, IH.
Qed.

Lemma runes_string_of_runes l :
  Forall (λ r, valid_rune r = true) l → runes (string_of_runes l) = l.
Proof.
  intros H. unfold runes. rewrite segs_string_of_runes by done.
  rewrite <- list_fmap_compose. apply list_fmap_id.
Qed.

Lemma runes_valid s : Forall (λ r, valid_rune r = true) (runes s).
Proof.
  unfold runes. apply Forall_fmap. eapply Forall_impl; [apply segs_ok|].
  by intros x (_ & ? & _).
Qed.

Lemma segs_nonempty s : s ≠ [] → segs s ≠ [].
Proof. intros Hs H. apply Hs. by rewrite <- (unsegs_segs s), H. Qed.

(** *** A segment is the encoding of its rune *)

Lemma div64 x y : 0 ≤ y < 64 → (x * 64 + y) / 64 = x ∧ (x * 64 + y) mod 64 = y.
Proof. intros. split; Z.to_euclidean_division_equations; lia. Qed.

Lemma div4096 x : x / 4096 = x / 64 / 64.
Proof. by rewrite Z.div_div by lia. Qed.
Lemma div262144 x : x / 262144 = x / 64 / 64 / 64.
Proof. by rewrite !Z.div_div by lia. Qed.

Lemma zb_eq z b : z = bz b → zb z = b.
Proof. intros ->. apply zb_bz. Qed.

(** The encodings of three and of four bytes, from the bits of each byte. *)
Lemma encode_bits3 x y z b b0 b1 :
  bz b = 224 + x → bz b0 = 128 + y → bz b1 = 128 + z → 0 ≤ y < 64 → 0 ≤ z < 64 →
  let r := x * 4096 + y * 64 + z in
  [b; b0; b1] = [zb (224 + r / 4096); zb (128 + r / 64 mod 64); zb (128 + r mod 64)].
Proof.
  intros Hb Hb0 Hb1 Hy Hz r. replace r with ((x * 64 + y) * 64 + z) by (unfold r; lia).
  destruct (div64 (x * 64 + y) z Hz) as [Ea Eb]. destruct (div64 x y Hy) as [Ec Ed].
  rewrite div4096, Ea, Eb, Ec, Ed. repeat f_equal; symmetry; apply zb_eq; lia.
Qed.

Lemma encode_bits4 x y z u b b0 b1 b2 :
  bz b = 240 + x → bz b0 = 128 + y → bz b1 = 128 + z → bz b2 = 128 + u →
  0 ≤ y < 64 → 0 ≤ z < 64 → 0 ≤ u < 64 →
  let r := x * 262144 + y * 4096 + z * 64 + u in
  [b; b0; b1; b2] = [zb (240 + r / 262144); zb (128 + r / 4096 mod 64);
                     zb (128 + r / 64 mod 64); zb (128 + r mod 64)].
Proof.
  intros Hb Hb0 Hb1 Hb2 Hy Hz Hu r.
  replace r with (((x * 64 + y) * 64 + z) * 64 + u) by (unfold r; lia).
  destruct (div64 ((x * 64 + y) * 64 + z) u Hu) as [Ea Eb].
  destruct (div64 (x * 64 + y) z Hz) as [Ec Ed]. destruct (div64 x y Hy) as [Ee Ef].
  rewrite div262144, div4096, Ea, Eb, Ec, Ed, Ee, Ef.
  repeat f_equal; symmetry; apply zb_eq; lia.
Qed.

(** A segment is the encoding of its rune, unless it is a stray byte. *)
Lemma decode_exact s r w :
  s ≠ [] → decode_rune s = (r, w) → take w s = encode_rune r ∨ (r = RuneError ∧ w = 1%nat).
Proof.
  intros Hs H. pose proof (decode_valid s) as Hv. rewrite H in Hv. cbn [fst] in Hv.
  revert H. unfold decode_rune. repeat case_goal; bools; ranges; intros [= <- <-]; try done;
    try (right; done); left; unfold encode_rune; rewrite Hv; clear Hv; bz_bounds; try lia;
    cbn [take]; rewrite ?take_0; decide_tests.
  1: by rewrite zb_bz.
  1: destruct (div64 (bz b - 192) (bz b0 - 128)) as [Ea Eb]; [lia|];
    rewrite Ea, Eb; repeat f_equal; symmetry; apply zb_eq; lia.
  all: first [apply encode_bits3 | apply encode_bits4]; lia.
Qed.

Lemma segs_exact s :
  Forall (λ x : seg, x.2 = encode_rune x.1 ∨ (x.1 = RuneError ∧ length x.2 = 1%nat)) (segs s).
Proof.
  induction s as [|s r w Hs Hd IH] using segs_ind; [constructor|].
  rewrite (segs_step s r w) by done. constructor; [|done]. cbn [fst snd].
  destruct (decode_exact s r w Hs Hd) as [?|[-> ->]]; [by left|right].
  split; [done|]. destruct s; [done|]. by rewrite length_take.
Qed.

(** Valid UTF-8: decoding and encoding again changes nothing. *)
Definition utf8 (s : gostring) : Prop := string_of_runes (runes s) = s.
#[export] Instance utf8_dec s : Decision (utf8 s).
Proof. unfold utf8. apply _. Defined.

Lemma utf8_string_of_runes l :
  Forall (λ r, valid_rune r = true) l → utf8 (string_of_runes l).
Proof. intros H. unfold utf8. by rewrite runes_string_of_runes. Qed.

Lemma runes_eq_utf8 s t : utf8 s → utf8 t → runes s = runes t → s = t.
Proof. unfold utf8. congruence. Qed.

(** ** Case mapping and trimming *)

Lemma str_map_runes f s : str_map f s = string_of_runes (f <$> runes s).
Proof.
  unfold str_map, string_of_runes, runes. by rewrite <- !list_fmap_compose.
Qed.

Lemma runes_str_map f s :
  case_mapping f → runes (str_map f s) = f <$> runes s.
Proof.
  intros [_ Hv _ _]. rewrite str_map_runes. apply runes_string_of_runes.
  apply Forall_fmap. eapply Forall_impl; [apply runes_valid|]. auto.
Qed.

Lemma str_map_idemp f s : case_mapping f → str_map f (str_map f s) = str_map f s.
Proof.
  intros Hf. rewrite (str_map_runes f (str_map f s)), runes_str_map by done.
  rewrite str_map_runes, <- list_fmap_compose. f_equal. apply list_fmap_ext.
  intros _ r _. apply Hf.
Qed.

Lemma ToUpper_idemp s : ToUpper (ToUpper s) = ToUpper s.
Proof. exact (str_map_idemp _ s upper_mapping). Qed.
Lemma ToLower_idemp s : ToLower (ToLower s) = ToLower s.
Proof. exact (str_map_idemp _ s lower_mapping). Qed.

Lemma space_not_error r : is_space r = true → r ≠ RuneError.
Proof. by intros H ->. Qed.

Lemma segs_trim (p : rune → bool) s :
  p RuneError = false →
  segs (unsegs (trim_segs p (segs s))) = trim_segs p (segs s).
Proof.
  intros Hp. unfold trim_segs.
  destruct (drop_while_suffix (p ∘ fst) (segs s)) as [k [Ek _]].
  destruct (trim_end_split (p ∘ fst) (drop_while (p ∘ fst) (segs s))) as [l [El Fl]].
  apply (segs_infix s k _ l).
  - by rewrite <- El.
  - intros x l' ->. inversion Fl as [|? ? Hx]; subst. simpl in Hx. congruence.
Qed.

Lemma segs_TrimSpace s : segs (TrimSpace s) = trim_segs is_space (segs s).
Proof. by apply segs_trim. Qed.

Lemma TrimSpace_idemp s : TrimSpace (TrimSpace s) = TrimSpace s.
Proof.
  unfold TrimSpace at 1. rewrite segs_TrimSpace. unfold TrimSpace. f_equal.
  unfold trim_segs. apply (trim_idemp (is_space ∘ fst)).
Qed.

Lemma runes_TrimSpace s :
  runes (TrimSpace s) = trim_end is_space (drop_while is_space (runes s)).
Proof.
  unfold runes. rewrite segs_TrimSpace. unfold trim_segs.
  rewrite (drop_while_fmap (is_space ∘ fst)) by done.
  symmetry. by apply (trim_end_fmap (is_space ∘ fst)).
Qed.

Lemma TrimSpace_id s :
  trim_end is_space (drop_while is_space (runes s)) = runes s → TrimSpace s = s.
Proof.
  intros H. unfold TrimSpace, trim_segs. rewrite <- (unsegs_segs s) at 2. f_equal.
  unfold runes in H.
  rewrite (drop_while_fmap (is_space ∘ fst)), (trim_end_fmap (is_space ∘ fst)) in H by done.
  apply (f_equal length) in H. rewrite !length_fmap in H.
  destruct (drop_while_suffix (is_space ∘ fst) (segs s)) as [k [Ek _]].
  destruct (trim_end_split (is_space ∘ fst) (drop_while (is_space ∘ fst) (segs s)))
    as [l [El _]].
  rewrite Ek at 2. rewrite El at 2. rewrite Ek in H at 2. rewrite El in H at 2.
  rewrite !length_app in H. destruct k; [|simpl in H; lia].
  destruct l; [|simpl in H; lia]. simpl. by rewrite app_nil_r.
Qed.

(** Trimming commutes with case mapping in the only direction the program
    needs: a trimmed string stays trimmed. *)
Lemma TrimSpace_str_map f s :
  case_mapping f → TrimSpace (str_map f (TrimSpace s)) = str_map f (TrimSpace s).
Proof.
  intros Hf. apply TrimSpace_id. rewrite runes_str_map by done.
  rewrite (drop_while_fmap is_space), (trim_end_fmap is_space) by apply Hf.
  rewrite runes_TrimSpace. f_equal. apply (trim_idemp is_space).
Qed.

(** Trimming keeps one contiguous part of the string. *)
Lemma TrimSpace_infix s : ∃ a b, s = a ++ TrimSpace s ++ b.
Proof.
  destruct (drop_while_suffix (is_space ∘ fst) (segs s)) as [k [Ek _]].
  destruct (trim_end_split (is_space ∘ fst) (drop_while (is_space ∘ fst) (segs s)))
    as [m [Em _]].
  exists (unsegs k), (unsegs m). unfold TrimSpace, trim_segs.
  rewrite <- !unsegs_app, <- Em, <- Ek. by rewrite unsegs_segs.
Qed.

Lemma trim_segs_incl p l : trim_segs p l ⊆ l.
Proof.
  unfold trim_segs. intros x Hx.
  destruct (drop_while_suffix (p ∘ fst) l) as [k [-> _]].
  destruct (trim_end_split (p ∘ fst) (drop_while (p ∘ fst) l)) as [m [Em _]].
  apply elem_of_app. right. rewrite Em. apply elem_of_app. by left.
Qed.

Lemma TrimSpace_utf8 s : utf8 s → utf8 (TrimSpace s).
Proof.
  intros Hs. unfold utf8 at 1. unfold string_of_runes, runes. rewrite segs_TrimSpace.
  unfold TrimSpace, unsegs. f_equal. rewrite <- !list_fmap_compose.
  apply list_fmap_ext. intros i x Hx%list_elem_of_lookup_2%trim_segs_incl. cbn.
  rewrite <- Hs, segs_string_of_runes in Hx by apply runes_valid.
  by apply list_elem_of_fmap in Hx as (r & -> & _).
Qed.

Lemma TrimSpace_length s : (length (TrimSpace s) ≤ length s)%nat.
Proof.
  destruct (TrimSpace_infix s) as (a & b & E).
  rewrite E at 2. rewrite !length_app. lia.
Qed.

Lemma TrimSpace_empty : TrimSpace [] = [].
Proof. done. Qed.

Lemma str_map_empty_iff f s : str_map f s = [] ↔ s = [].
Proof.
  split; [|by intros ->]. intros H. destruct s as [|b s]; [done|exfalso].
  pose proof (segs_nonempty (b :: s) ltac:(done)) as Hs. unfold str_map in H.
  destruct (segs (b :: s)) as [|x l]; [done|]. csimpl in H.
  apply app_eq_nil in H as [H _]. revert H. unfold encode_rune. by repeat case_match.
Qed.

(** ** Fields *)

(** A non-empty string without separators: what [FieldsFunc] yields. *)
Definition p_word (p : rune → bool) (w : gostring) : Prop :=
  w ≠ [] ∧ Forall (λ r, p r = false) (runes w).
Abbreviation is_word := (p_word is_space).
#[export] Instance p_word_dec p w : Decision (p_word p w).
Proof. unfold p_word. apply _. Defined.

Section fields.
Context (p : rune → bool).

Lemma fields_segs_sep cur A r b B :
  p r = true →
  fields_segs p cur (A ++ (r, b) :: B) = fields_segs p cur A ++ fields_segs p [] B.
Proof.
  intros Hr. revert cur. induction A as [|[r' b'] A IH]; intros cur; simpl.
  - rewrite Hr. by destruct cur.
  - destruct (p r'); [|done]. destruct cur; [done|]. simpl. by rewrite IH.
Qed.

Lemma fields_segs_word cur A :
  Forall (λ x : seg, p x.1 = false) A → cur ++ unsegs A ≠ [] →
  fields_segs p cur A = [cur ++ unsegs A].
Proof.
  intros HA. revert cur. induction HA as [|[r b] A Hr _ IH]; intros cur Hne; simpl.
  - unfold unsegs in *. simpl in *. rewrite app_nil_r in *. by destruct cur.
  - simpl in Hr. rewrite Hr. unfold unsegs in *. csimpl in *.
    rewrite app_assoc in *. rewrite IH by done. done.
Qed.

Lemma FieldsFunc_word w : p_word p w → FieldsFunc p w = [w].
Proof.
  intros [Hne Hw]. unfold FieldsFunc. unfold runes in Hw. rewrite Forall_fmap in Hw.
  rewrite fields_segs_word; simpl; rewrite ?unsegs_segs; done.
Qed.

Lemma segs_ascii c s : bz c < 128 → segs (c :: s) = (bz c, [c]) :: segs s.
Proof.
  intros Hc. rewrite (segs_step _ (bz c) 1%nat); [done|done|].
  simpl. by rewrite (proj2 (Z.ltb_lt (bz c) 128)).
Qed.

Lemma FieldsFunc_sep s c t :
  bz c < 128 → p (bz c) = true →
  FieldsFunc p (s ++ c :: t) = FieldsFunc p s ++ FieldsFunc p t.
Proof.
  intros Hc Hp. unfold FieldsFunc.
  rewrite segs_app by (left; done). rewrite segs_ascii by done.
  by apply fields_segs_sep.
Qed.

Lemma FieldsFunc_Join c ws :
  bz c < 128 → p (bz c) = true → Forall (p_word p) ws →
  FieldsFunc p (Join ws [c]) = ws.
Proof.
  intros Hc Hp. induction 1 as [|w ws Hw Hws IH]; [done|].
  destruct ws as [|w' ws]; [by apply FieldsFunc_word|].
  change (Join (w :: w' :: ws) [c]) with (w ++ c :: Join (w' :: ws) [c]).
  rewrite FieldsFunc_sep, FieldsFunc_word, IH by done. done.
Qed.

Lemma runes_infix s k m l :
  segs s = k ++ m ++ l → (∀ x l', l = x :: l' → x.1 ≠ RuneError) →
  runes (unsegs m) = m.*1.
Proof. intros. unfold runes. by erewrite segs_infix. Qed.

Lemma fields_segs_words s k m l :
  p RuneError = false → segs s = k ++ m ++ l →
  Forall (λ x : seg, p x.1 = false) m →
  Forall (p_word p) (fields_segs p (unsegs m) l).
Proof.
  intros Hp. revert k m. induction l as [|[r b] l IH]; intros k m Hs Hm; simpl.
  - destruct (unsegs m) eqn:E; [constructor|]. rewrite <- E. constructor; [|constructor].
    split; [by rewrite E|]. erewrite runes_infix; [|exact Hs|done].
    by apply Forall_fmap.
  - destruct (p r) eqn:Hr.
    + assert (Forall (p_word p) (fields_segs p [] l)) as Hl.
      { apply (IH (k ++ m ++ [(r, b)]) []); [|constructor].
        by rewrite <- !app_assoc. }
      destruct (unsegs m) eqn:E; [done|]. rewrite <- E. constructor; [|done].
      split; [by rewrite E|]. erewrite runes_infix; [by apply Forall_fmap|exact Hs|].
      intros x l' [= <- _]. simpl. congruence.
    + assert (unsegs m ++ b = unsegs (m ++ [(r, b)])) as ->.
      { rewrite unsegs_app. f_equal. unfold unsegs. csimpl. by rewrite app_nil_r. }
      apply (IH k); [by rewrite <- !app_assoc in *|].
      apply Forall_app. split; [done|]. by constructor.
Qed.

Lemma FieldsFunc_words s : p RuneError = false → Forall (p_word p) (FieldsFunc p s).
Proof.
  intros Hp. unfold FieldsFunc. change [] with (unsegs []) at 1.
  by apply (fields_segs_words s []).
Qed.
End fields.

Lemma Fields_sep s t : Fields (s ++ [zb 32] ++ t) = Fields s ++ Fields t.
Proof. by apply FieldsFunc_sep. Qed.
Lemma Fields_word w : is_word w → Fields w = [w].
Proof. apply FieldsFunc_word. Qed.
Lemma Fields_words s : Forall is_word (Fields s).
Proof. by apply FieldsFunc_words. Qed.
Lemma Fields_Join ws : Forall is_word ws → Fields (Join ws [zb 32]) = ws.
Proof. by apply FieldsFunc_Join. Qed.

(** A word stays a word under case mapping, and is its own trimming. *)
Lemma str_map_word f w : case_mapping f → is_word w → is_word (str_map f w).
Proof.
  intros Hf [Hne Hw]. split; [by rewrite str_map_empty_iff|].
  rewrite runes_str_map by done. apply Forall_fmap. eapply Forall_impl; [exact Hw|].
  intros r Hr. simpl. by rewrite (cm_space _ Hf).
Qed.

Lemma TrimSpace_word w : is_word w → TrimSpace w = w.
Proof.
  intros [_ Hw]. apply TrimSpace_id. rewrite drop_while_none by done.
  by apply trim_end_none.
Qed.

(** ** Cutting and joining *)

Lemma IndexByte_None s c : IndexByte s c = None ↔ c ∉ s.
Proof.
  induction s as [|b s IH]; simpl; [set_solver|].
  destruct (Z.eqb_spec (bz b) (bz c)) as [E|E].
  - apply bz_inj in E as ->. set_solver.
  - rewrite fmap_None, IH. assert (c ≠ b) by congruence. set_solver.
Qed.

Lemma IndexByte_app s c t : c ∉ s → IndexByte (s ++ c :: t) c = Some (length s).
Proof.
  induction s as [|b s IH]; simpl; intros Hc; [by rewrite Z.eqb_refl|].
  destruct (Z.eqb_spec (bz b) (bz c)) as [E|E].
  - apply bz_inj in E as ->. set_solver.
  - by rewrite IH by set_solver.
Qed.

Lemma Cut_app s c t : c ∉ s → Cut (s ++ c :: t) c = (s, t, true).
Proof.
  intros Hc. unfold Cut. rewrite IndexByte_app by done.
  rewrite take_app_length. f_equal. f_equal.
  rewrite (cons_middle c s t), app_assoc.
  replace (S (length s)) with (length (s ++ [c])) by (rewrite length_app; simpl; lia).
  apply drop_app_length.
Qed.

Lemma Cut_none s c : c ∉ s → Cut s c = (s, [], false).
Proof. intros Hc. unfold Cut. by rewrite (proj2 (IndexByte_None s c)). Qed.

Lemma Split_nonempty s c : Split s c ≠ [].
Proof. destruct s; simpl; [done|]. repeat case_match; done. Qed.

Lemma Split_clean s c : Forall (λ w, c ∉ w) (Split s c).
Proof.
  induction s as [|b s IH]; simpl; [constructor; [set_solver|constructor]|].
  destruct (Z.eqb_spec (bz b) (bz c)) as [E|E].
  - constructor; [set_solver|done].
  - destruct (Split s c) as [|w l]; [by constructor; set_solver|].
    inversion IH; subst. constructor; [|done]. assert (c ≠ b) by congruence. set_solver.
Qed.

Lemma Join_Split s c : Join (Split s c) [c] = s.
Proof.
  induction s as [|b s IH]; [done|]. cbn [Split].
  destruct (Z.eqb_spec (bz b) (bz c)) as [E|E].
  - apply bz_inj in E as ->. destruct (Split s c) as [|w l] eqn:Es.
    + by destruct (Split_nonempty s c).
    + change (Join ([] :: w :: l) [c]) with (c :: Join (w :: l) [c]). by rewrite IH.
  - destruct (Split s c) as [|w [|w' l]] eqn:Es.
    + by destruct (Split_nonempty s c).
    + simpl in *. by rewrite IH.
    + change (Join ((b :: w) :: w' :: l) [c]) with (b :: Join (w :: w' :: l) [c]).
      by rewrite IH.
Qed.

Lemma HasPrefix_spec s pre : HasPrefix s pre = true ↔ ∃ k, s = pre ++ k.
Proof.
  revert s. induction pre as [|a pre IH]; intros s; cbn [HasPrefix].
  - destruct s; naive_solver.
  - destruct s as [|b s]; [naive_solver|]. cbn [HasPrefix].
    rewrite andb_true_iff, Z.eqb_eq, IH. split.
    + intros [E [k ->]]. apply bz_inj in E as ->. by exists k.
    + intros [k [= -> ->]]. eauto.
Qed.

Lemma Contains_spec s sub : Contains s sub = true ↔ ∃ k l, s = k ++ sub ++ l.
Proof.
  induction s as [|b s IH]; cbn [Contains]; rewrite orb_true_iff, HasPrefix_spec.
  - split.
    + intros [[k Hk]|]; [|done]. exists [], k. done.
    + intros (k & l & H). left. destruct k; [eauto|done].
  - rewrite IH. split.
    + intros [[k Hk]|(k & l & ->)]; [by exists [], k|by exists (b :: k), l].
    + intros (k & l & H). destruct k as [|c k]; [left; by exists l|].
      right. injection H as -> ->. eauto.
Qed.

(** ** NUL bytes *)

Abbreviation NUL := (zb 0).

Lemma bz_NUL : bz NUL = 0.
Proof. done. Qed.

Lemma NUL_starts : starts NUL.
Proof. left. rewrite bz_NUL. lia. Qed.

(** An ASCII rune is an ASCII byte: overlong encodings do not decode. *)
Lemma decode_ascii s r w : decode_rune s = (r, w) → r < 128 → w ≠ 0%nat →
  ∃ c t, s = c :: t ∧ bz c = r ∧ w = 1%nat.
Proof.
  destruct s as [|b s]; [by intros [= _ <-]|]. intros H Hr _. exists b, s. split; [done|].
  revert H Hr. decode_cases; intros; simplify_eq; bz_bounds;
  repeat match goal with
  | H : context [bz ?b] |- _ => 
      lazymatch goal with
      | _ : 0 ≤ bz b < 256 |- _ => fail
      | _ => pose proof (bz_range b)
      end
  end; try (split; [lia|done]); exfalso; unfold RuneError in *;
  repeat match goal with H : context [if ?b then _ else _] |- _ => destruct b eqn:? end;
  bools; lia.
Qed.

Lemma ascii_runes c s : bz c < 128 → c ∈ s ↔ bz c ∈ runes s.
Proof.
  intros Hc. split.
  - intros (a & b & ->)%list_elem_of_split. unfold runes.
    rewrite segs_app by (left; done). rewrite segs_ascii by done.
    rewrite fmap_app, fmap_cons. set_solver.
  - induction s as [|s r w Hs Hd IH] using segs_ind; [by intros ?%not_elem_of_nil|].
    unfold runes in *. rewrite (segs_step s r w) by done. csimpl.
    intros [<-|Hin]%elem_of_cons.
    + assert (w ≠ 0%nat) as Hw.
      { pose proof (decode_width s Hs) as Hw. rewrite Hd in Hw. simpl in Hw. lia. }
      destruct (decode_ascii _ _ _ Hd Hc Hw) as (d & t & -> & E & _).
      apply bz_inj in E as ->. set_solver.
    + rewrite <- (take_drop w s). set_solver.
Qed.

Lemma NUL_runes s : NUL ∈ s ↔ 0 ∈ runes s.
Proof. by apply (ascii_runes NUL). Qed.

Lemma NUL_str_map f s : case_mapping f → NUL ∉ s → NUL ∉ str_map f s.
Proof.
  intros Hf. rewrite !NUL_runes, runes_str_map by done. intros Hs Hin. apply Hs.
  apply list_elem_of_fmap in Hin as (r & Hr & Hin).
  by rewrite <- (cm_nul _ Hf r (eq_sym Hr)).
Qed.

Lemma elem_of_trim {A} (p q : A → bool) x l : x ∈ trim_end p (drop_while q l) → x ∈ l.
Proof.
  destruct (drop_while_suffix q l) as [k [Ek _]].
  destruct (trim_end_split p (drop_while q l)) as [m [Em _]].
  intros H. rewrite Ek, Em. set_solver.
Qed.

Lemma NUL_TrimSpace s : NUL ∉ s → NUL ∉ TrimSpace s.
Proof.
  rewrite !NUL_runes, runes_TrimSpace. intros Hs Hin. by apply elem_of_trim in Hin.
Qed.

(** ** ASCII strings: case mapping is bytewise *)

Abbreviation ascii := (Forall (λ c, bz c < 128)).

Definition ascii_upper (c : byte) : byte := zb (rune_upper (bz c)).

Lemma rune_upper_ascii r : 0 ≤ r < 128 → 0 ≤ rune_upper r < 128.
Proof.
  intros Hr. assert (forallb (λ n, let u := rune_upper (Z.of_nat n) in (0 <=? u) && (u <? 128))
    (seq 0 128) = true) as H by by vm_compute.
  rewrite forallb_forall in H. specialize (H (Z.to_nat r)).
  rewrite in_seq, Z2Nat.id in H by lia. specialize (H ltac:(lia)). cbv zeta in H. by bools.
Qed.

Lemma rune_lower_ascii r : 0 ≤ r < 128 → 0 ≤ rune_lower r < 128.
Proof.
  intros Hr. assert (forallb (λ n, let u := rune_lower (Z.of_nat n) in (0 <=? u) && (u <? 128))
    (seq 0 128) = true) as H by by vm_compute.
  rewrite forallb_forall in H. specialize (H (Z.to_nat r)).
  rewrite in_seq, Z2Nat.id in H by lia. specialize (H ltac:(lia)). cbv zeta in H. by bools.
Qed.

Lemma str_map_ascii f s :
  (∀ r, 0 ≤ r < 128 → 0 ≤ f r < 128) → ascii s → str_map f s = (λ c, zb (f (bz c))) <$> s.
Proof.
  intros Hf. induction 1 as [|c s Hc Hs IH]; [done|]. unfold str_map in *.
  rewrite segs_ascii by done. rewrite !fmap_cons. cbn [concat fst]. rewrite IH.
  pose proof (bz_range c). destruct (Hf (bz c)) as [H1 H2]; [lia|].
  unfold encode_rune. unfold valid_rune.
  assert ((0 <=? f (bz c)) && (f (bz c) <? 55296) = true) as ->
    by (apply andb_true_iff; rewrite Z.leb_le, Z.ltb_lt; lia).
  cbn [orb]. rewrite (proj2 (Z.ltb_lt _ _) H2). done.
Qed.

Lemma ToUpper_ascii s : ascii s → ToUpper s = ascii_upper <$> s.
Proof. apply str_map_ascii, rune_upper_ascii. Qed.

Definition ascii_lower (c : byte) : byte := zb (rune_lower (bz c)).

Lemma ToLower_ascii s : ascii s → ToLower s = ascii_lower <$> s.
Proof. apply str_map_ascii, rune_lower_ascii. Qed.

Lemma runes_ascii s : ascii s → runes s = bz <$> s.
Proof.
  induction 1 as [|c s Hc _ IH]; [done|]. unfold runes in *. rewrite segs_ascii by done.
  rewrite !fmap_cons. by rewrite IH.
Qed.

Lemma ascii_of_runes s : Forall (λ r, r < 128) (runes s) → ascii s.
Proof.
  induction s as [|s r w Hs Hd IH] using segs_ind; [done|].
  unfold runes in *. rewrite (segs_step s r w) by done. csimpl. intros [Hr Hall]%Forall_cons.
  pose proof (decode_width s Hs) as Hw. rewrite Hd in Hw. cbn [snd] in Hw.
  destruct (decode_ascii _ _ _ Hd Hr) as (c & t & -> & <- & ->); [lia|].
  constructor; [done|]. by apply IH.
Qed.

Lemma is_space_ascii r : 0 ≤ r < 128 → is_space r = ((9 <=? r) && (r <=? 13)) || (r =? 32).
Proof.
  intros Hr. assert (forallb (λ n, let r := Z.of_nat n in
    bool_decide (is_space r = ((9 <=? r) && (r <=? 13)) || (r =? 32))) (seq 0 128) = true) as H
    by by vm_compute.
  rewrite forallb_forall in H. specialize (H (Z.to_nat r)).
  rewrite in_seq, Z2Nat.id in H by lia. specialize (H ltac:(lia)). cbv zeta in H.
  apply bool_decide_eq_true in H. exact H.
Qed.

(** Keep the library calls folded while simplifying. *)
Arguments ToUpper : simpl never.
Arguments ToLower : simpl never.
Arguments TrimSpace : simpl never.
Arguments EqualFold : simpl never.
Arguments Fields : simpl never.
Arguments Cut : simpl never.
Arguments TrimRight : simpl never.
Arguments itoa : simpl never.
Arguments Atoi : simpl never.
