(* ===== verification/JsonText.v ===== *)
(** * JSON text: Go's [encoding/json] and the browser's [JSON]

    What the program uses of the JSON codecs on both ends: the reader of
    [json.Unmarshal], [json.Decoder] and [JSON.parse] (one grammar, RFC 8259; a
    value keeps its source text where a custom unmarshaller sees it), and the text
    written by [json.Marshal] and by [JSON.stringify].  Strings are UTF-8 on both
    sides: the page's strings come from decoded UTF-8 and from input fields, so they
    hold no lone surrogates.  That the reader finds again what the writers wrote is in
    [JsonFacts.v]. *)
From S2P Require Import Prelude Unicode GoStrings.
From stdpp Require Import options.
Local Open Scope Z_scope.

(** ** Values *)

(** A number is its literal; strings, arrays and objects keep their source text;
    the members of an object are in order, repeated keys included. *)
#[warnings="-register-all"]
Inductive json :=
| JNull
| JBool (b : bool)
| JNumber (lit : gostring)
| JString (raw s : gostring)
| JArray (raw : gostring) (l : list json)
| JObject (raw : gostring) (l : list (gostring * json)).

Definition json_bool (b : bool) : gostring := if b then bs "true" else bs "false".

(** The source text of a value. *)
Definition raw (v : json) : gostring :=
  match v with
  | JNull => bs "null"
  | JBool b => json_bool b
  | JNumber lit => lit
  | JString r _ | JArray r _ | JObject r _ => r
  end.

(** ** Reading *)

Definition is_ws (c : byte) : bool :=
  (bz c =? 32) || (bz c =? 9) || (bz c =? 10) || (bz c =? 13).
Definition skip_ws : gostring → gostring := drop_while is_ws.

Definition is_digit (c : byte) : bool := in_range 48 57 c.

Definition hex_val (c : byte) : option Z :=
  if in_range 48 57 c then Some (bz c - 48)
  else if in_range 97 102 c then Some (bz c - 87)
  else if in_range 65 70 c then Some (bz c - 55)
  else None.

(** Four hexadecimal digits. *)
Definition hex4 (s : gostring) : option (Z * gostring) :=
  match s with
  | a :: b :: c :: d :: t =>
      match hex_val a, hex_val b, hex_val c, hex_val d with
      | Some a, Some b, Some c, Some d => Some (((a * 16 + b) * 16 + c) * 16 + d, t)
      | _, _, _, _ => None
      end
  | _ => None
  end.

(** The low half of a surrogate pair, when the text goes on with one. *)
Definition low_surrogate (s : gostring) : option (Z * gostring) :=
  match s with
  | a :: b :: t =>
      if (bz a =? 92) && (bz b =? 117) then
        match hex4 t with
        | Some (r, t') => if (56320 <=? r) && (r <? 57344) then Some (r, t') else None
        | None => None
        end
      else None
  | _ => None
  end.

(** What follows a backslash: the character it stands for and the rest.  A surrogate
    without its other half is U+FFFD. *)
Definition escape (s : gostring) : option (gostring * gostring) :=
  match s with
  | [] => None
  | c :: t =>
      let z := bz c in
      if (z =? 34) || (z =? 92) || (z =? 47) then Some ([c], t)
      else if z =? 98 then Some ([zb 8], t)
      else if z =? 102 then Some ([zb 12], t)
      else if z =? 110 then Some ([zb 10], t)
      else if z =? 114 then Some ([zb 13], t)
      else if z =? 116 then Some ([zb 9], t)
      else if z =? 117 then
        match hex4 t with
        | None => None
        | Some (r, t') =>
            if (55296 <=? r) && (r <? 57344) then
              match low_surrogate t' with
              | Some (r2, t2) =>
                  if r <? 56320
                  then Some (encode_rune ((r - 55296) * 1024 + (r2 - 56320) + 65536), t2)
                  else Some (encode_rune RuneError, t')
              | None => Some (encode_rune RuneError, t')
              end
            else Some (encode_rune r, t')
        end
      else None
  end.

Definition prepend (p : gostring) (x : gostring * gostring) : gostring * gostring :=
  (p ++ x.1, x.2).

(** The rest of a string after its opening quote: its value and what follows it.  Bytes
    that are no UTF-8 become U+FFFD; control bytes are refused. *)
Fixpoint str_body (n : nat) (s : gostring) : option (gostring * gostring) :=
  match n with
  | O => None
  | S n' =>
      match s with
      | [] => None
      | c :: t =>
          if bz c =? 34 then Some ([], t)
          else if bz c =? 92 then
            match escape t with
            | Some (out, t') => prepend out <$> str_body n' t'
            | None => None
            end
          else if bz c <? 32 then None
          else
            let '(r, w) := decode_rune s in
            prepend (encode_rune r) <$> str_body n' (drop w s)
      end
  end.

Fixpoint span (p : byte → bool) (s : gostring) : gostring * gostring :=
  match s with
  | [] => ([], [])
  | c :: t => if p c then let '(a, b) := span p t in (c :: a, b) else ([], s)
  end.

Definition digits1 (s : gostring) : option (gostring * gostring) :=
  let '(d, r) := span is_digit s in match d with [] => None | _ => Some (d, r) end.

Definition num_int (s : gostring) : option (gostring * gostring) :=
  match s with
  | c :: t =>
      if bz c =? 48 then Some ([c], t)
      else if is_digit c then let '(d, r) := span is_digit t in Some (c :: d, r)
      else None
  | [] => None
  end.
Definition num_frac (s : gostring) : option (gostring * gostring) :=
  match s with
  | c :: t => if bz c =? 46 then prepend [c] <$> digits1 t else Some ([], s)
  | [] => Some ([], s)
  end.
Definition num_exp (s : gostring) : option (gostring * gostring) :=
  match s with
  | c :: t =>
      if (bz c =? 101) || (bz c =? 69) then
        match t with
        | d :: t' =>
            if (bz d =? 43) || (bz d =? 45) then prepend [c; d] <$> digits1 t'
            else prepend [c] <$> digits1 t
        | [] => None
        end
      else Some ([], s)
  | [] => Some ([], s)
  end.

(** A number literal and what follows it. *)
Definition number (s : gostring) : option (gostring * gostring) :=
  let '(sign, s0) :=
    match s with c :: t => if bz c =? 45 then ([c], t) else ([], s) | [] => ([], s) end in
  match num_int s0 with
  | None => None
  | Some (i, s1) =>
      match num_frac s1 with
      | None => None
      | Some (f, s2) =>
          match num_exp s2 with
          | None => None
          | Some (e, s3) => Some (sign ++ i ++ f ++ e, s3)
          end
      end
  end.

(** The part of [s] before its suffix [r]. *)
Definition upto (s r : gostring) : gostring := take (length s - length r) s.

Definition maxNestingDepth : Z := 10000.

(** A value, the members of an object up to its brace, and the elements of an array up
    to its bracket; every call gets a shorter text, so its length is fuel enough. *)
Fixpoint value (n : nat) (depth : Z) (s : gostring) {struct n} : option (json * gostring) :=
  match n with
  | O => None
  | S n' =>
      match s with
      | [] => None
      | c :: t =>
          if bz c =? 34 then
            match str_body (S (length t)) t with
            | Some (x, r) => Some (JString (upto s r) x, r)
            | None => None
            end
          else if bz c =? 123 then
            if maxNestingDepth <=? depth then None
            else match skip_ws t with
                 | [] => None
                 | d :: r =>
                     if bz d =? 125 then Some (JObject (upto s r) [], r)
                     else match members n' (depth + 1) (d :: r) with
                          | Some (l, r') => Some (JObject (upto s r') l, r')
                          | None => None
                          end
                 end
          else if bz c =? 91 then
            if maxNestingDepth <=? depth then None
            else match skip_ws t with
                 | [] => None
                 | d :: r =>
                     if bz d =? 93 then Some (JArray (upto s r) [], r)
                     else match elements n' (depth + 1) (d :: r) with
                          | Some (l, r') => Some (JArray (upto s r') l, r')
                          | None => None
                          end
                 end
          else if HasPrefix s (bs "null") then Some (JNull, drop 4 s)
          else if HasPrefix s (bs "true") then Some (JBool true, drop 4 s)
          else if HasPrefix s (bs "false") then Some (JBool false, drop 5 s)
          else match number s with Some (lit, r) => Some (JNumber lit, r) | None => None end
      end
  end
with members (n : nat) (depth : Z) (s : gostring) {struct n}
    : option (list (gostring * json) * gostring) :=
  match n with
  | O => None
  | S n' =>
      match s with
      | [] => None
      | c :: t =>
          if bz c =? 34 then
            match str_body (S (length t)) t with
            | None => None
            | Some (key, r) =>
                match skip_ws r with
                | [] => None
                | d :: r1 =>
                    if bz d =? 58 then
                      match value n' depth (skip_ws r1) with
                      | None => None
                      | Some (v, r2) =>
                          match skip_ws r2 with
                          | [] => None
                          | e :: r3 =>
                              if bz e =? 44 then
                                match members n' depth (skip_ws r3) with
                                | Some (l, r4) => Some ((key, v) :: l, r4)
                                | None => None
                                end
                              else if bz e =? 125 then Some ([(key, v)], r3)
                              else None
                          end
                      end
                    else None
                end
            end
          else None
      end
  end
with elements (n : nat) (depth : Z) (s : gostring) {struct n}
    : option (list json * gostring) :=
  match n with
  | O => None
  | S n' =>
      match value n' depth s with
      | None => None
      | Some (v, r2) =>
          match skip_ws r2 with
          | [] => None
          | e :: r3 =>
              if bz e =? 44 then
                match elements n' depth (skip_ws r3) with
                | Some (l, r4) => Some (v :: l, r4)
                | None => None
                end
              else if bz e =? 93 then Some ([v], r3)
              else None
          end
      end
  end.

(** The first value of a text and what follows it. *)
Definition first_value (s : gostring) : option (json * gostring) :=
  let t := skip_ws s in value (2 * length t) 0 t.

(** [json.Unmarshal] and [JSON.parse] want the whole text to be one value. *)
Definition parse (s : gostring) : option json :=
  match first_value s with
  | Some (v, r) => match skip_ws r with [] => Some v | _ => None end
  | None => None
  end.

(** [json.Decoder] reads the first value and leaves the rest. *)
Inductive decode_result := DecodeEOF | DecodeError | Decoded (v : json).
Definition decode_first (s : gostring) : decode_result :=
  match skip_ws s with
  | [] => DecodeEOF
  | _ => match first_value s with Some (v, _) => Decoded v | None => DecodeError end
  end.

(** ** The reader consumes its text, and its fuel is enough *)

Abbreviation len := (@length byte).

Lemma skip_ws_length s : (len (skip_ws s) ≤ len s)%nat.
Proof.
  destruct (drop_while_suffix is_ws s) as (k & E & _). apply (f_equal len) in E.
  rewrite length_app in E. unfold skip_ws. lia.
Qed.

Lemma hex4_length s z r : hex4 s = Some (z, r) → len s = (4 + len r)%nat.
Proof.
  destruct s as [|a [|b [|c [|d t]]]]; try done. cbn [hex4]. repeat case_match; try done.
  by intros [= _ ->].
Qed.

Lemma low_surrogate_length s z r : low_surrogate s = Some (z, r) → (len r < len s)%nat.
Proof.
  destruct s as [|a [|b t]]; try done. cbn [low_surrogate]. case_match; [|done].
  destruct (hex4 t) as [[y t']|] eqn:E; [|done]. case_match; [|done]. intros [= _ ->].
  apply hex4_length in E. cbn. lia.
Qed.

Lemma escape_length s out r : escape s = Some (out, r) → (len r < len s)%nat.
Proof.
  destruct s as [|c t]; [done|]. unfold escape. cbv zeta.
  repeat (case_match; [intros [= _ <-]; cbn; lia|]). case_match; [|done].
  destruct (hex4 t) as [[y t']|] eqn:E; [|done]. apply hex4_length in E.
  case_match; [|intros [= _ <-]; cbn; lia].
  destruct (low_surrogate t') as [[r2 t2]|] eqn:E2; [|intros [= _ <-]; cbn; lia].
  apply low_surrogate_length in E2. case_match; intros [= _ <-]; cbn; lia.
Qed.

Lemma prepend_Some {p o x r} : prepend p <$> o = Some (x, r) → ∃ y, o = Some (y, r) ∧ x = p ++ y.
Proof. destruct o as [[y r']|]; [|done]. intros [= <- <-]. eauto. Qed.

Lemma str_body_length n s x r : str_body n s = Some (x, r) → (len r < len s)%nat.
Proof.
  revert s x r. induction n as [|n IH]; [done|]. intros [|c t] x r; [done|]. cbn [str_body].
  case_match; [intros [= _ <-]; cbn; lia|]. case_match.
  - destruct (escape t) as [[out t']|] eqn:E; [|done]. apply escape_length in E.
    intros (y & Hy%IH & _)%prepend_Some. cbn. lia.
  - case_match; [done|]. pose proof (decode_width (c :: t) ltac:(done)) as Hw.
    destruct (decode_rune (c :: t)) as [rn w]. cbn [snd] in Hw.
    intros (y & Hy%IH & _)%prepend_Some. rewrite length_drop in Hy. cbn in *. lia.
Qed.

Lemma span_length p s a b : span p s = (a, b) → len s = (len a + len b)%nat.
Proof.
  revert a b. induction s as [|c t IH]; intros a b; cbn; [by intros [= <- <-]|].
  case_match; [|by intros [= <- <-]]. destruct (span p t) as [a' b'] eqn:E.
  intros [= <- <-]. rewrite (IH _ _ eq_refl). done.
Qed.

Lemma digits1_length s d r : digits1 s = Some (d, r) → (len r < len s)%nat.
Proof.
  unfold digits1. destruct (span is_digit s) as [a b] eqn:E. apply span_length in E.
  destruct a; [done|]. intros [= _ <-]. cbn in E. lia.
Qed.

Lemma number_length s lit r : number s = Some (lit, r) → (len r < len s)%nat.
Proof.
  unfold number. set (p := match s with [] => _ | _ => _ end).
  assert (len p.2 ≤ len s)%nat as Hp.
  { subst p. destruct s as [|c t]; [done|]. case_match; cbn; lia. }
  destruct p as [sign s0]. cbn [snd] in Hp.
  destruct (num_int s0) as [[i s1]|] eqn:E1; [|done].
  assert (len s1 < len s0)%nat.
  { destruct s0 as [|c t]; [done|]. cbn in E1. case_match; [injection E1 as _ <-; cbn; lia|].
    case_match; [|done]. destruct (span is_digit t) as [d r0] eqn:E. injection E1 as _ <-.
    apply span_length in E. cbn. lia. }
  destruct (num_frac s1) as [[f s2]|] eqn:E2; [|done].
  assert (len s2 ≤ len s1)%nat.
  { destruct s1 as [|c t]; [by injection E2 as _ <-|]. cbn in E2. case_match.
    - apply prepend_Some in E2 as (y & E2%digits1_length & _). cbn. lia.
    - by injection E2 as _ <-. }
  destruct (num_exp s2) as [[e s3]|] eqn:E3; [|done].
  assert (len s3 ≤ len s2)%nat.
  { destruct s2 as [|c t]; [by injection E3 as _ <-|]. cbn in E3.
    case_match; [|by injection E3 as _ <-]. destruct t as [|d t]; [done|]. case_match;
      apply prepend_Some in E3 as (y & E3%digits1_length & _); cbn in *; lia. }
  intros [= _ <-]. lia.
Qed.

(** What all three readers do with their text. *)
Definition consuming (n : nat) : Prop :=
  (∀ d s v r, value n d s = Some (v, r) → (len r < len s)%nat)
  ∧ (∀ d s l r, members n d s = Some (l, r) → (len r < len s)%nat)
  ∧ (∀ d s l r, elements n d s = Some (l, r) → (len r < len s)%nat).

Ltac ws_lengths :=
  repeat match goal with
  | H : skip_ws ?s = ?t |- _ =>
      lazymatch type of H with
      | _ = _ :: _ => pose proof (skip_ws_length s); rewrite H in *; clear H
      | _ => fail
      end
  end.

Lemma readers_consume n : consuming n.
Proof.
  induction n as [|n (IHv & IHm & IHe)]; [done|]. split_and!.
  - intros d [|c t] v r; [done|]. cbn [value]. case_match.
    { destruct (str_body _ t) as [[x r']|] eqn:E; [|done]. intros [= _ <-].
      apply str_body_length in E. cbn. lia. }
    case_match.
    { case_match; [done|]. destruct (skip_ws t) as [|e t'] eqn:Et; [done|].
      case_match; [intros [= _ <-]; ws_lengths; cbn in *; lia|].
      destruct (members n _ _) as [[l r']|] eqn:E; [|done]. intros [= _ <-].
      apply IHm in E. ws_lengths. cbn in *. lia. }
    case_match.
    { case_match; [done|]. destruct (skip_ws t) as [|e t'] eqn:Et; [done|].
      case_match; [intros [= _ <-]; ws_lengths; cbn in *; lia|].
      destruct (elements n _ _) as [[l r']|] eqn:E; [|done]. intros [= _ <-].
      apply IHe in E. ws_lengths. cbn in *. lia. }
    repeat (case_match; [intros [= _ <-]; rewrite length_drop; cbn; lia|]).
    destruct (number (c :: t)) as [[lit r']|] eqn:E; [|done]. intros [= _ <-].
    by eapply number_length.
  - intros d [|c t] l r; [done|]. cbn [members]. case_match; [|done].
    destruct (str_body _ t) as [[key r0]|] eqn:E0; [|done]. apply str_body_length in E0.
    destruct (skip_ws r0) as [|e r1] eqn:E1; [done|]. case_match; [|done].
    destruct (value n d _) as [[v r2]|] eqn:E2; [|done]. apply IHv in E2.
    pose proof (skip_ws_length r1). destruct (skip_ws r2) as [|f r3] eqn:E3; [done|].
    case_match.
    + destruct (members n d _) as [[l' r4]|] eqn:E4; [|done]. intros [= _ <-].
      apply IHm in E4. pose proof (skip_ws_length r3). ws_lengths. cbn in *. lia.
    + case_match; [|done]. intros [= _ <-]. ws_lengths. cbn in *. lia.
  - intros d s l r. cbn [elements].
    destruct (value n d s) as [[v r2]|] eqn:E2; [|done]. apply IHv in E2.
    destruct (skip_ws r2) as [|f r3] eqn:E3; [done|]. case_match.
    + destruct (elements n d _) as [[l' r4]|] eqn:E4; [|done]. intros [= _ <-].
      apply IHe in E4. pose proof (skip_ws_length r3). ws_lengths. cbn in *. lia.
    + case_match; [|done]. intros [= _ <-]. ws_lengths. cbn in *. lia.
Qed.

(** Any fuel from twice the length on gives the same answer: a [None] is an error of the
    text, never a lack of fuel. *)
Lemma readers_fuel n : ∀ m,
  (∀ d s, (2 * len s ≤ n)%nat → (2 * len s ≤ m)%nat → value n d s = value m d s)
  ∧ (∀ d s, (2 * len s ≤ n)%nat → (2 * len s ≤ m)%nat → members n d s = members m d s)
  ∧ (∀ d s, (2 * len s < n)%nat → (2 * len s < m)%nat → elements n d s = elements m d s).
Proof.
  induction n as [|n IH]; intros m.
  { split_and!; intros d s Hn Hm; [..|lia]; (destruct s; [by destruct m|cbn in Hn; lia]). }
  destruct m as [|m].
  { split_and!; intros d s Hn Hm; [..|lia]; (destruct s; [done|cbn in Hm; lia]). }
  destruct (IH m) as (IHv & IHm & IHe). split_and!.
  - intros d [|c t] Hn Hm; [done|]. cbn [value]. case_match; [done|].
    pose proof (skip_ws_length t). cbn in Hn, Hm.
    case_match; [|case_match; [|done]]; (case_match; [done|]);
      (destruct (skip_ws t) as [|e t'] eqn:Et; [done|]); (case_match; [done|]).
    + by rewrite IHm by (cbn in *; lia).
    + by rewrite IHe by (cbn in *; lia).
  - intros d [|c t] Hn Hm; [done|]. cbn [members]. case_match; [|done].
    destruct (str_body _ t) as [[key r0]|] eqn:E0; [|done]. apply str_body_length in E0.
    destruct (skip_ws r0) as [|e r1] eqn:E1; [done|]. case_match; [|done].
    pose proof (skip_ws_length r1). pose proof (skip_ws_length r0) as Hr0. rewrite E1 in Hr0.
    cbn in *. rewrite IHv by lia.
    destruct (value m d _) as [[v r2]|] eqn:E2; [|done].
    apply (proj1 (readers_consume m)) in E2.
    destruct (skip_ws r2) as [|f r3] eqn:E3; [done|]. pose proof (skip_ws_length r2) as Hr2.
    rewrite E3 in Hr2. pose proof (skip_ws_length r3). cbn in *.
    case_match; [|done]. by rewrite IHm by lia.
  - intros d s Hn Hm. cbn [elements]. rewrite IHv by lia.
    destruct (value m d s) as [[v r2]|] eqn:E2; [|done].
    apply (proj1 (readers_consume m)) in E2.
    destruct (skip_ws r2) as [|f r3] eqn:E3; [done|]. pose proof (skip_ws_length r2) as Hr2.
    rewrite E3 in Hr2. pose proof (skip_ws_length r3). cbn in *.
    case_match; [|done]. by rewrite IHe by lia.
Qed.

Lemma value_fuel n m d s :
  (2 * len s ≤ n)%nat → (2 * len s ≤ m)%nat → value n d s = value m d s.
Proof. apply readers_fuel. Qed.

(** ** Writing *)

Definition hex_digit (z : Z) : byte := if z <? 10 then zb (48 + z) else zb (87 + z).

(** The text of one ASCII character inside a string.  [json.Marshal] also escapes what
    HTML gives a meaning to ([html]); [JSON.stringify] does not. *)
Definition quote_ascii (html : bool) (c : byte) : gostring :=
  let z := bz c in
  if (z =? 34) || (z =? 92) then [zb 92; c]
  else if z =? 8 then bs "\b"
  else if z =? 12 then bs "\f"
  else if z =? 10 then bs "\n"
  else if z =? 13 then bs "\r"
  else if z =? 9 then bs "\t"
  else if (z <? 32) || (html && ((z =? 60) || (z =? 62) || (z =? 38)))
  then bs "\u00" ++ [hex_digit (z / 16); hex_digit (z mod 16)]
  else [c].

(** One segment: bytes that are no UTF-8 are written as U+FFFD. *)
Definition quote_seg (html : bool) (x : seg) : gostring :=
  if x.1 <? 128 then quote_ascii html (zb x.1)
  else if (x.1 =? RuneError) && (length x.2 =? 1)%nat then bs "\ufffd"
  else if html && ((x.1 =? 8232) || (x.1 =? 8233)) then bs "\u202" ++ [hex_digit (x.1 mod 16)]
  else x.2.

Definition quote (html : bool) (s : gostring) : gostring :=
  [zb 34] ++ concat (quote_seg html <$> segs s) ++ [zb 34].

(** An object from its keys and written values, and an array. *)
Definition json_object (html : bool) (l : list (gostring * gostring)) : gostring :=
  bs "{" ++ Join ((λ kv, quote html kv.1 ++ bs ":" ++ kv.2) <$> l) (bs ",") ++ bs "}".
Definition json_array (l : list gostring) : gostring := bs "[" ++ Join l (bs ",") ++ bs "]".
