(* ===== verification/JsonFacts.v ===== *)
(** * Written JSON is read back

    The writers of [JsonText.v] against its reader: a written string, number, object
    or array is read as the value it was written from, whatever follows it, and holds
    no control byte and (from [json.Marshal]) none of the characters HTML gives a
    meaning to. *)
From S2P Require Import Prelude Unicode GoStrings JsonText.
From stdpp Require Import options.
Local Open Scope Z_scope.

(** ** Reading back what was written *)

(** What may follow a value in a written text. *)
Definition at_end (r : gostring) : Prop :=
  match r with [] => True | c :: _ => bz c ∈ [44; 125; 93; 10] end.

Lemma at_end_byte z r : z ∈ [44; 125; 93; 10] → at_end (zb z :: r).
Proof. intros H. unfold at_end. rewrite bz_zb_small by (set_solver by lia). done. Qed.

(** [text], whatever follows it, is read as [v], which nests at most [h] deep. *)
Record reads (h : Z) (text : gostring) (v : json) : Prop := {
  rd_head : match text with c :: _ => is_ws c = false | [] => False end;
  rd_value d r n : 0 ≤ d → d + h ≤ maxNestingDepth → at_end r → (2 * len (text ++ r) ≤ n)%nat →
    value n d (text ++ r) = Some (v, r) }.

Lemma skip_ws_head s : match s with c :: _ => is_ws c = false | [] => True end → skip_ws s = s.
Proof. destruct s as [|c s]; [done|]. unfold skip_ws. cbn. by intros ->. Qed.

Lemma skip_ws_reads h text v r : reads h text v → skip_ws (text ++ r) = text ++ r.
Proof. intros [Hh _]. apply skip_ws_head. by destruct text. Qed.

Lemma at_end_skip r : at_end r → match r with c :: _ => bz c ≠ 10 | [] => True end → skip_ws r = r.
Proof.
  intros H Hn. apply skip_ws_head. destruct r as [|c r]; [done|]. cbn in H.
  unfold is_ws. rewrite !orb_false_iff, !Z.eqb_neq. set_solver by lia.
Qed.

(** *** Strings *)

(** [p] is read as the character [r], in one step. *)
Definition piece (p : gostring) (r : rune) : Prop :=
  p ≠ [] ∧ ∀ n rest, str_body (S n) (p ++ rest) = prepend (encode_rune r) <$> str_body n rest.

Lemma quote_ascii_piece html c : bz c < 128 → piece (quote_ascii html c) (bz c).
Proof. intros Hc. destruct html, c; try (exfalso; revert Hc; done); split; done. Qed.

Lemma encode_piece r : valid_rune r = true → 128 ≤ r → piece (encode_rune r) r.
Proof.
  intros Hv Hr. assert (∃ c t, encode_rune r = c :: t ∧ 128 ≤ bz c) as (c & t & E & Hc).
  { unfold encode_rune. rewrite Hv. apply valid_rune_spec in Hv. repeat case_match; bools; [lia|..];
      do 2 eexists; (split; [done|]); rewrite bz_zb_small;
      Z.to_euclidean_division_equations; lia. }
  split; [by rewrite E|]. intros n rest. pose proof (decode_encode r rest Hv) as Hd.
  rewrite E in *. cbn [app str_body] in *. decide_tests; try lia.
  change (c :: t ++ rest) with ((c :: t) ++ rest) in *. rewrite Hd. rewrite drop_app_length. by rewrite E.
Qed.

Lemma zb_rune_piece html r : 0 ≤ r < 128 → piece (quote_ascii html (zb r)) r.
Proof.
  intros Hr. rewrite <- (bz_zb_small r) at 2 by lia. apply quote_ascii_piece.
  rewrite bz_zb_small; lia.
Qed.

Lemma quote_seg_piece html x :
  seg_ok x → x.2 = encode_rune x.1 ∨ (x.1 = RuneError ∧ length x.2 = 1%nat) →
  piece (quote_seg html x) x.1.
Proof.
  destruct x as [r b]. cbn. intros (Hb & Hv & _) Hx. cbn [fst snd] in *. unfold quote_seg.
  cbn [fst snd]. assert (0 ≤ r) by (apply valid_rune_spec in Hv; lia).
  destruct (Z.ltb_spec r 128); [by apply zb_rune_piece|].
  destruct (_ && (length b =? 1)%nat) eqn:E1.
  { apply andb_true_iff in E1 as [->%Z.eqb_eq _]. by split. }
  case_match eqn:E2.
  { apply andb_true_iff in E2 as [_ [->%Z.eqb_eq| ->%Z.eqb_eq]%orb_true_iff]; by split. }
  destruct Hx as [->|[-> Hl]]; [by apply encode_piece|]. by rewrite Hl in E1.
Qed.

Lemma str_body_pieces l : ∀ n rest,
  Forall (λ x : gostring * rune, piece x.1 x.2) l → (length l < n)%nat →
  str_body n (concat l.*1 ++ zb 34 :: rest) = Some (string_of_runes l.*2, rest).
Proof.
  induction l as [|[p r] l IH]; intros n rest Hl Hn; (destruct n as [|n]; [cbn in Hn; lia|]); [done|].
  apply Forall_cons in Hl as [[_ Hp] Hl]. rewrite !fmap_cons. cbn [concat fst snd] in *.
  rewrite <- app_assoc, Hp, IH by (cbn in Hn; done || lia). done.
Qed.

Lemma pieces_length l :
  Forall (λ x : gostring * rune, piece x.1 x.2) l → (length l ≤ len (concat l.*1))%nat.
Proof.
  induction 1 as [|[p r] l [Hp _] _ IH]; [done|]. rewrite fmap_cons. cbn in *.
  rewrite length_app. destruct p; [done|]. cbn. lia.
Qed.

Lemma quote_body html s rest n :
  (len (concat (quote_seg html <$> segs s)) < n)%nat →
  str_body n (concat (quote_seg html <$> segs s) ++ zb 34 :: rest)
  = Some (string_of_runes (runes s), rest).
Proof.
  set (l := (λ x : seg, (quote_seg html x, x.1)) <$> segs s).
  assert (quote_seg html <$> segs s = l.*1) as -> by (unfold l; by rewrite <- list_fmap_compose).
  assert (runes s = l.*2) as -> by (unfold l, runes; by rewrite <- list_fmap_compose).
  intros Hn. assert (Forall (λ x : gostring * rune, piece x.1 x.2) l) as Hl.
  { unfold l. apply Forall_fmap. pose proof (segs_ok s) as H1. pose proof (segs_exact s) as H2.
    rewrite Forall_forall in *. intros x Hx. by apply quote_seg_piece; auto. }
  apply str_body_pieces; [done|]. pose proof (pieces_length l Hl). lia.
Qed.

(** A written string is read as its text, up to the repair of bytes that are no UTF-8. *)
Lemma reads_quote html s :
  reads 0 (quote html s) (JString (quote html s) (string_of_runes (runes s))).
Proof.
  unfold quote. set (b := concat (quote_seg html <$> segs s)). split; [done|].
  intros d r [|n] _ _ _ Hn; [cbn in Hn; lia|]. cbn [app value].
  change (bz (zb 34) =? 34) with true. cbn match. rewrite <- app_assoc. cbn [app].
  rewrite (quote_body html s r) by (rewrite length_app; fold b; lia). fold b.
  do 2 f_equal. f_equal. unfold upto. rewrite <- (take_app_length (zb 34 :: b ++ [zb 34]) r) at 1.
  cbn [app]. rewrite <- app_assoc. f_equal. cbn. rewrite !length_app. cbn. rewrite ?length_app. cbn. lia.
Qed.

Lemma reads_quote_utf8 html s : utf8 s → reads 0 (quote html s) (JString (quote html s) s).
Proof. intros H. pose proof (reads_quote html s) as R. unfold utf8 in H. by rewrite H in R. Qed.

(** *** Literals *)

Lemma reads_bool b : reads 0 (json_bool b) (JBool b).
Proof.
  split; [by destruct b|]. intros d r [|n] _ _ _ Hn; [destruct b; cbn in Hn; lia|].
  by destruct b, r.
Qed.

Lemma reads_null : reads 0 (bs "null") JNull.
Proof. split; [done|]. intros d r [|n] _ _ _ Hn; [cbn in Hn; lia|]. by destruct r. Qed.

(** *** Integers *)

Lemma digits_fuel_spec n z acc :
  0 ≤ z < 10 ^ Z.of_nat n → (0 < n)%nat →
  ∃ c ds, digits_fuel n z acc = (c :: ds) ++ acc
    ∧ Forall (λ b, is_digit b = true) (c :: ds)
    ∧ (bz c = 48 → ds = [])
    ∧ ∀ a t, atoi_digits a ((c :: ds) ++ t) = atoi_digits (a * 10 ^ Z.of_nat (S (length ds)) + z) t.
Proof.
  revert z acc. induction n as [|n IH]; intros z acc Hz Hn; [lia|]. cbn [digits_fuel].
  assert (0 ≤ z mod 10 < 10) as Hm by (apply Z.mod_pos_bound; lia).
  assert (is_digit (zb (48 + z mod 10)) = true) as Hd
    by (apply in_range_true; rewrite bz_zb_small; lia).
  assert (bz (zb (48 + z mod 10)) = 48 + z mod 10) as Hb by (apply bz_zb_small; lia).
  destruct (Z.ltb_spec z 10) as [Hs|Hs].
  - exists (zb (48 + z mod 10)), []. split_and!; [done|by constructor|done|].
    intros a t. cbn. unfold is_digit in Hd. rewrite Hd, Hb. rewrite Z.mod_small by lia.
    f_equal. lia.
  - rewrite Nat2Z.inj_succ, Z.pow_succ_r in Hz by lia. destruct n as [|n]; [cbn in Hz; lia|].
    destruct (IH (z / 10) (zb (48 + z mod 10) :: acc)) as (c & ds & -> & Hall & Hc & Ha).
    { split; [apply Z.div_pos; lia|apply Z.div_lt_upper_bound; lia]. } { lia. }
    exists c, (ds ++ [zb (48 + z mod 10)]). split_and!.
    + by rewrite app_comm_cons, <- app_assoc.
    + rewrite app_comm_cons. apply Forall_app. split; [done|by constructor].
    + intros E. specialize (Hc E). subst ds. exfalso. specialize (Ha 0 []).
      inversion Hall; subst. cbn in Ha. unfold is_digit in *. case_match; [|done].
      rewrite E in Ha. injection Ha as Ha. assert (1 ≤ z / 10) by (apply Z.div_le_lower_bound; lia). lia.
    + intros a t. rewrite app_comm_cons, <- app_assoc, Ha. cbn [app atoi_digits].
      unfold is_digit in Hd. rewrite Hd, Hb. f_equal. rewrite length_app.
      rewrite Nat.add_1_r, (Nat2Z.inj_succ (S (length ds))), Z.pow_succ_r by lia.
      pose proof (Z.div_mod z 10 ltac:(lia)). lia.
Qed.

Lemma span_app p a b :
  Forall (λ c, p c = true) a → match b with c :: _ => p c = false | [] => True end →
  span p (a ++ b) = (a, b).
Proof.
  intros Ha Hb. induction Ha as [|c a Hc _ IH]; cbn.
  - destruct b as [|c b]; [done|]. cbn. by rewrite Hb.
  - by rewrite Hc, IH.
Qed.

Lemma number_digits sign c ds r :
  (sign = [] ∨ sign = [zb 45]) → Forall (λ b, is_digit b = true) (c :: ds) → (bz c = 48 → ds = []) →
  at_end r → number (sign ++ (c :: ds) ++ r) = Some (sign ++ c :: ds, r).
Proof.
  intros Hs [Hc Hds]%Forall_cons Hz Hr. unfold number.
  assert (num_int ((c :: ds) ++ r) = Some (c :: ds, r)) as Hi.
  { cbn. destruct (Z.eqb_spec (bz c) 48) as [E|E]; [by rewrite (Hz E)|]. rewrite Hc.
    rewrite span_app; [done|done|]. destruct r as [|d r]; [done|]. unfold is_digit.
    apply in_range_false. cbn in Hr. set_solver by lia. }
  assert (num_frac r = Some ([], r) ∧ num_exp r = Some ([], r)) as [Hf He].
  { destruct r as [|d r]; [done|]. cbn in Hr. cbn. split; decide_tests; try done; set_solver by lia. }
  apply in_range_true in Hc. destruct Hs as [->| ->]; cbn [app] in *.
  - rewrite (proj2 (Z.eqb_neq (bz c) 45)) by lia. rewrite Hi, Hf, He. by rewrite !app_nil_r.
  - change (bz (zb 45) =? 45) with true. cbn match. rewrite Hi, Hf, He. by rewrite !app_nil_r.
Qed.

(** Integers of at most twenty digits: their text is a number literal, and [Atoi] finds
    a 64-bit one again. *)
Definition in_int64 (z : Z) : Prop := - 2 ^ 63 ≤ z < 2 ^ 63.

Lemma itoa_shape z : in_int64 z → ∃ sign c ds,
  itoa z = sign ++ c :: ds ∧ (sign = [] ∨ sign = [zb 45])
  ∧ Forall (λ b, is_digit b = true) (c :: ds) ∧ (bz c = 48 → ds = []) ∧ Atoi (itoa z) = Some z.
Proof.
  unfold in_int64. intros Hz. unfold itoa. destruct (Z.ltb_spec z 0) as [Hn|Hn].
  - destruct (digits_fuel_spec 20 (- z) []) as (c & ds & E & Hd & Hc & Ha); [lia|lia|].
    exists [zb 45], c, ds. rewrite E, app_nil_r. split_and!; [done|by right|done|done|].
    unfold Atoi. cbn [app bs]. change (bz Byte.x2d =? 45) with true. cbn match.
    specialize (Ha 0 []). rewrite app_nil_r in Ha. rewrite Ha. cbn [atoi_digits].
    replace (- (0 * 10 ^ Z.of_nat (S (length ds)) + - z)) with z by lia.
    rewrite (proj2 (Z.leb_le _ _)), (proj2 (Z.ltb_lt _ _)) by lia. done.
  - destruct (digits_fuel_spec 20 z []) as (c & ds & E & Hd & Hc & Ha); [lia|lia|].
    exists [], c, ds. rewrite E, app_nil_r. split_and!; [done|by left|done|done|].
    unfold Atoi. pose proof Hd as [Hd1 _]%Forall_cons. apply in_range_true in Hd1.
    rewrite (proj2 (Z.eqb_neq (bz c) 45)), (proj2 (Z.eqb_neq (bz c) 43)) by lia.
    specialize (Ha 0 []). rewrite app_nil_r in Ha. rewrite Ha. cbn [atoi_digits].
    replace (0 * 10 ^ Z.of_nat (S (length ds)) + z) with z by lia.
    rewrite (proj2 (Z.leb_le _ _)), (proj2 (Z.ltb_lt _ _)) by lia. done.
Qed.

Lemma Atoi_itoa z : in_int64 z → Atoi (itoa z) = Some z.
Proof. intros H. by destruct (itoa_shape z H) as (? & ? & ? & _ & _ & _ & _ & ?). Qed.

Lemma value_number n d c t :
  is_digit c = true ∨ bz c = 45 →
  value (S n) d (c :: t)
  = match number (c :: t) with Some (lit, r) => Some (JNumber lit, r) | None => None end.
Proof.
  intros Hc. assert (bz c = 45 ∨ 48 ≤ bz c ≤ 57) as Hb.
  { destruct Hc as [H%in_range_true|]; [by right|by left]. }
  cbn [value]. decide_tests; try lia.
  assert (∀ k, bz k ≠ bz c → ∀ l, HasPrefix (c :: t) (k :: l) = false) as Hp.
  { intros k Hk l. cbn. by rewrite (proj2 (Z.eqb_neq _ _)). }
  cbn [bs]. rewrite !Hp; [done|..]; change (bz Byte.x66) with 102; change (bz Byte.x74) with 116;
    change (bz Byte.x6e) with 110; lia.
Qed.

Lemma reads_int z : in_int64 z → reads 0 (itoa z) (JNumber (itoa z)).
Proof.
  intros H. destruct (itoa_shape z H) as (sign & c & ds & -> & Hs & Hd & Hc & _).
  pose proof Hd as [Hd1 _]%Forall_cons. split.
  { apply in_range_true in Hd1. destruct Hs as [->| ->]; [|done]. cbn. unfold is_ws.
    by decide_tests; try lia. }
  intros d r [|n] _ _ Hr Hn; [rewrite !length_app in Hn; cbn in Hn; lia|].
  pose proof (number_digits sign c ds r Hs Hd Hc Hr) as E. rewrite <- !app_assoc in *.
  destruct Hs as [->| ->]; cbn [app] in *.
  - rewrite value_number by by left. by rewrite E.
  - rewrite value_number by by right. by rewrite E.
Qed.

(** *** Objects and arrays *)

(** A member of an object being written: key, text and value. *)
Abbreviation member := (gostring * gostring * json)%type.
Definition mtext (html : bool) (m : member) : gostring := quote html m.1.1 ++ bs ":" ++ m.1.2.
Definition mvalue (m : member) : gostring * json := (m.1.1, m.2).
Definition mreads (h : Z) (m : member) : Prop := utf8 m.1.1 ∧ reads h m.1.2 m.2.

Lemma reads_bound h text v d d' r n :
  reads h text v → 0 ≤ d → d + h ≤ maxNestingDepth → at_end r → (2 * len (text ++ r) ≤ n)%nat →
  d' = d → value n d' (text ++ r) = Some (v, r).
Proof. intros [_ H] ???? ->. by apply H. Qed.

Lemma members_one html h m n d e r :
  mreads h m → 0 ≤ d → d + h ≤ maxNestingDepth → bz e = 44 ∨ bz e = 125 →
  (2 * len (mtext html m ++ e :: r) ≤ S n)%nat →
  members (S n) d (mtext html m ++ e :: r)
  = if bz e =? 44 then
      match members n d (skip_ws r) with
      | Some (l, r4) => Some (mvalue m :: l, r4)
      | None => None
      end
    else Some ([mvalue m], r).
Proof.
  destruct m as [[key text] v]. intros [Hk Hv] Hd Hdh He Hn. unfold mtext in *. cbn [fst snd] in *.
  unfold quote in *. set (b := concat (quote_seg html <$> segs key)) in *.
  rewrite <- !app_assoc in *. cbn [app members] in *.
  change (bz (zb 34) =? 34) with true. cbn match.
  assert (∀ rest n, (len b < n)%nat →
    str_body n (b ++ zb 34 :: rest) = Some (string_of_runes (runes key), rest)) as Hb
    by (intros; by apply quote_body).
  rewrite Hb by (rewrite length_app; lia).
  change (skip_ws (bs ":" ++ text ++ e :: r)) with (bs ":" ++ text ++ e :: r). cbn [bs app].
  change (bz Byte.x3a =? 58) with true. cbn match.
  assert (at_end (e :: r)) as Hend by (cbn; destruct He as [->| ->]; set_solver).
  rewrite (skip_ws_reads h text v), (rd_value h text v Hv); try done.
  2: { cbn in Hn. rewrite !length_app in Hn. cbn in Hn. rewrite !length_app in *. cbn in *. lia. }
  rewrite (at_end_skip (e :: r)) by (done || (destruct He as [->| ->]; done)).
  assert (string_of_runes (runes key) = key) as -> by exact Hk.
  destruct He as [E|E]; rewrite E; done.
Qed.

Lemma members_read html h l : ∀ n d r,
  l ≠ [] → Forall (mreads h) l → 0 ≤ d → d + h ≤ maxNestingDepth →
  (2 * len (Join (mtext html <$> l) (bs ",") ++ zb 125 :: r) ≤ n)%nat →
  members n d (Join (mtext html <$> l) (bs ",") ++ zb 125 :: r) = Some (mvalue <$> l, r).
Proof.
  induction l as [|m l IH]; intros n d r Hne Hl Hd Hdh Hn; [done|].
  apply Forall_cons in Hl as [Hm Hl].
  destruct n as [|n]; [rewrite length_app in Hn; cbn in Hn; lia|].
  destruct l as [|m2 l].
  { cbn [Join] in *. rewrite fmap_cons in *. cbn [fmap list_fmap Join] in *.
    rewrite (members_one html h) by (try done; by right). by rewrite bz_zb_small by lia. }
  rewrite fmap_cons in *.
  assert (∀ x, Join (x :: (mtext html <$> m2 :: l)) (bs ",") = x ++ zb 44 :: Join (mtext html <$> m2 :: l) (bs ","))
    as HJ by done.
  rewrite HJ in *. rewrite <- app_assoc in *. rewrite <- app_comm_cons in *.
  rewrite (members_one html h) by (try done; by left).
  change (bz (zb 44) =? 44) with true. cbn match.
  assert (∀ x y, skip_ws (mtext html x ++ y) = mtext html x ++ y) as Hws by done.
  assert (∃ y, Join (mtext html <$> m2 :: l) (bs ",") = mtext html m2 ++ y) as [y Hy].
  { destruct l; [exists []; by rewrite app_nil_r|by eexists]. }
  assert (skip_ws (Join (mtext html <$> m2 :: l) (bs ",") ++ zb 125 :: r)
    = Join (mtext html <$> m2 :: l) (bs ",") ++ zb 125 :: r) as ->.
  { by rewrite Hy, <- app_assoc, Hws. }
  rewrite IH; [done|done|done|done|done|].
  clear IH HJ Hy Hws. revert Hn. rewrite fmap_cons.
  generalize (Join (mtext html m2 :: (mtext html <$> l)) (bs ",")). intros J Hn.
  rewrite length_app in *. cbn [length] in *. rewrite length_app in Hn. cbn [length] in *. lia.
Qed.

Lemma upto_app a r : upto (a ++ r) r = a.
Proof.
  unfold upto. rewrite length_app. rewrite <- (take_app_length a r) at 3. f_equal. lia.
Qed.

Lemma reads_object html h l :
  0 ≤ h → Forall (mreads h) l →
  reads (h + 1) (json_object html (fst <$> l)) (JObject (json_object html (fst <$> l)) (mvalue <$> l)).
Proof.
  intros Hh Hl. unfold json_object. rewrite <- list_fmap_compose.
  change (mtext html <$> l) with ((λ kv : gostring * gostring, quote html kv.1 ++ bs ":" ++ kv.2) ∘ fst <$> l).
  change ((λ kv : gostring * gostring, quote html kv.1 ++ bs ":" ++ kv.2) ∘ fst <$> l) with (mtext html <$> l).
  set (body := Join (mtext html <$> l) (bs ",")). split; [done|].
  intros d r [|n] Hd Hdh Hr Hn; [cbn in Hn; lia|].
  assert ((bs "{" ++ body ++ bs "}") ++ r = zb 123 :: body ++ zb 125 :: r) as E
    by (by rewrite <- !app_assoc).
  rewrite E in *. cbn [value].
  change (bz (zb 123) =? 34) with false. change (bz (zb 123) =? 123) with true. cbn match.
  rewrite (proj2 (Z.leb_gt _ _)) by lia.
  assert (upto (zb 123 :: body ++ zb 125 :: r) r = bs "{" ++ body ++ bs "}") as Hu.
  { rewrite <- E. apply upto_app. }
  destruct l as [|m l].
  { cbn in body. subst body. change (skip_ws ([] ++ zb 125 :: r)) with (zb 125 :: r).
    change (bz (zb 125) =? 125) with true. cbn match. by rewrite Hu. }
  assert (∃ y, body = zb 34 :: y) as [y Hy] by (destruct l; by eexists).
  assert (skip_ws (body ++ zb 125 :: r) = zb 34 :: y ++ zb 125 :: r) as -> by (by rewrite Hy).
  change (bz (zb 34) =? 125) with false. cbn match.
  change (zb 34 :: y ++ zb 125 :: r) with ((zb 34 :: y) ++ zb 125 :: r). rewrite <- Hy.
  unfold body. rewrite (members_read html h); [by fold body; rewrite Hu|done|done|lia|lia|].
  fold body. cbn [length] in Hn. lia.
Qed.

Lemma elements_read h l : ∀ n d r,
  l ≠ [] → Forall (λ x : gostring * json, reads h x.1 x.2) l → 0 ≤ d → d + h ≤ maxNestingDepth →
  (2 * len (Join l.*1 (bs ",") ++ zb 93 :: r) < n)%nat →
  elements n d (Join l.*1 (bs ",") ++ zb 93 :: r) = Some (l.*2, r).
Proof.
  induction l as [|[text v] l IH]; intros n d r Hne Hl Hd Hdh Hn; [done|].
  apply Forall_cons in Hl as [Hm Hl]. cbn [fst snd] in Hm. destruct n as [|n]; [lia|].
  rewrite !fmap_cons in *. cbn [fst snd elements] in *. destruct l as [|[text2 v2] l].
  { cbn [fmap list_fmap Join] in *. rewrite (rd_value h text v Hm) by (done || lia || (apply at_end_byte; set_solver)).
    by rewrite (at_end_skip (zb 93 :: r)) by (done || (apply at_end_byte; set_solver)). }
  rewrite !fmap_cons in *. cbn [fst snd] in *.
  assert (∀ x, Join (x :: text2 :: l.*1) (bs ",") = x ++ zb 44 :: Join (text2 :: l.*1) (bs ","))
    as HJ by done.
  rewrite HJ in *. rewrite <- app_assoc in *. rewrite <- app_comm_cons in *.
  rewrite (rd_value h text v Hm) by (done || lia || (apply at_end_byte; set_solver)).
  rewrite (at_end_skip (zb 44 :: _)) by (done || (apply at_end_byte; set_solver)).
  change (bz (zb 44) =? 44) with true. cbn match.
  assert (∃ y, Join (text2 :: l.*1) (bs ",") = text2 ++ y) as [y Hy].
  { destruct (l.*1); [exists []; cbn; by rewrite app_nil_r|by eexists]. }
  assert (skip_ws (Join (text2 :: l.*1) (bs ",") ++ zb 93 :: r)
    = Join (text2 :: l.*1) (bs ",") ++ zb 93 :: r) as ->.
  { apply Forall_cons in Hl as [Hm2 _]. cbn in Hm2. rewrite Hy, <- app_assoc.
    by apply (skip_ws_reads h text2 v2). }
  specialize (IH n d r). cbn [fmap list_fmap fst snd] in IH. cbn [fmap list_fmap fst snd].
  rewrite IH; try done.
  clear -Hn. revert Hn. generalize (Join (text2 :: l.*1) (bs ",")). intros J Hn.
  rewrite length_app in *. cbn [length] in *. rewrite length_app in Hn. cbn [length] in *. lia.
Qed.

Lemma reads_no_bracket h text v c t :
  h ≤ maxNestingDepth → reads h text v → text = c :: t → bz c ≠ 93.
Proof.
  intros Hh [_ H] -> Hc. assert (c = zb 93) as -> by (apply bz_inj; by rewrite bz_zb_small by lia).
  specialize (H 0 [] (2 * len ((zb 93 :: t) ++ []))%nat ltac:(lia) ltac:(lia) I ltac:(lia)).
  rewrite app_nil_r in H. done.
Qed.

Lemma reads_array h l :
  0 ≤ h → Forall (λ x : gostring * json, reads h x.1 x.2) l →
  reads (h + 1) (json_array l.*1) (JArray (json_array l.*1) l.*2).
Proof.
  intros Hh Hl. unfold json_array. set (body := Join l.*1 (bs ",")). split; [done|].
  intros d r [|n] Hd Hdh Hr Hn; [cbn in Hn; lia|].
  assert ((bs "[" ++ body ++ bs "]") ++ r = zb 91 :: body ++ zb 93 :: r) as E
    by (by rewrite <- !app_assoc).
  rewrite E in *. cbn [value].
  change (bz (zb 91) =? 34) with false. change (bz (zb 91) =? 123) with false.
  change (bz (zb 91) =? 91) with true. cbn match. rewrite (proj2 (Z.leb_gt _ _)) by lia.
  assert (upto (zb 91 :: body ++ zb 93 :: r) r = bs "[" ++ body ++ bs "]") as Hu.
  { rewrite <- E. apply upto_app. }
  destruct l as [|[text v] l].
  { cbn in body. subst body. change (skip_ws ([] ++ zb 93 :: r)) with (zb 93 :: r).
    change (bz (zb 93) =? 93) with true. cbn match. by rewrite Hu. }
  pose proof Hl as [Hm _]%Forall_cons. cbn in Hm.
  assert (∃ y, body = text ++ y) as [y Hy].
  { unfold body. rewrite fmap_cons. destruct (l.*1); [exists []; cbn; by rewrite app_nil_r|by eexists]. }
  assert (skip_ws (body ++ zb 93 :: r) = body ++ zb 93 :: r) as ->.
  { rewrite Hy, <- app_assoc. by apply (skip_ws_reads h text v). }
  assert (∃ c t, body ++ zb 93 :: r = c :: t ∧ bz c ≠ 93) as (c & t & Eb & Hc).
  { pose proof (rd_head h text v Hm). destruct text as [|c0 text]; [done|].
    exists c0. rewrite Hy. eexists. split; [done|]. eapply (reads_no_bracket h); [lia|done|done]. }
  rewrite Eb, (proj2 (Z.eqb_neq _ _) Hc), <- Eb. unfold body.
  rewrite (elements_read h); [by fold body; rewrite Hu|done|done|lia|lia|].
  fold body. cbn [length] in Hn. lia.
Qed.

(** *** Whole texts *)

Lemma first_value_reads h text v r :
  reads h text v → h ≤ maxNestingDepth → at_end r → first_value (text ++ r) = Some (v, r).
Proof.
  intros H Hh Hr. unfold first_value. rewrite (skip_ws_reads h text v) by done.
  by apply (rd_value h text v H).
Qed.

(** A written value is read back alone, before a line end, and at the head of a stream. *)
Lemma parse_reads h text v : reads h text v → h ≤ maxNestingDepth → parse text = Some v.
Proof.
  intros H Hh. unfold parse. pose proof (first_value_reads h text v [] H Hh I) as E.
  rewrite app_nil_r in E. by rewrite E.
Qed.

Lemma parse_reads_line h text v :
  reads h text v → h ≤ maxNestingDepth → parse (text ++ [zb 10]) = Some v.
Proof.
  intros H Hh. unfold parse. rewrite (first_value_reads h text v [zb 10] H Hh); [done|].
  cbn. set_solver.
Qed.

Lemma decode_first_reads h text v : reads h text v → h ≤ maxNestingDepth → decode_first text = Decoded v.
Proof.
  intros H Hh. unfold decode_first. pose proof (first_value_reads h text v [] H Hh I) as E.
  pose proof (skip_ws_reads h text v [] H) as Hs. rewrite app_nil_r in *. rewrite E, Hs.
  pose proof (rd_head h text v H). by destruct text.
Qed.

(** *** Objects written from values *)

(** Bytes that are no UTF-8 are replaced on the way; every other text is kept. *)
Definition repair (s : gostring) : gostring := string_of_runes (runes s).

Lemma repair_utf8 s : utf8 s → repair s = s.
Proof. done. Qed.

(** The string [s] as it is written. *)
Definition written_string (html : bool) (s : gostring) : json := JString (quote html s) (repair s).

Definition text_member (kv : gostring * json) : gostring * gostring := (kv.1, raw kv.2).
Abbreviation raw_reads h := (λ v, reads h (raw v) v).

Lemma reads_weaken h h' text v : h ≤ h' → reads h text v → reads h' text v.
Proof. intros Hh [H1 H2]. split; [done|]. intros. apply H2; try done. lia. Qed.

Lemma reads_members html h kvs :
  0 ≤ h → Forall (λ kv : gostring * json, utf8 kv.1 ∧ reads h (raw kv.2) kv.2) kvs →
  reads (h + 1) (json_object html (text_member <$> kvs))
    (JObject (json_object html (text_member <$> kvs)) kvs).
Proof.
  intros Hh Hk. pose proof (reads_object html h ((λ kv, (kv.1, raw kv.2, kv.2)) <$> kvs) Hh) as H.
  rewrite <- list_fmap_compose in H. change (fst ∘ (λ kv : gostring * json, (kv.1, raw kv.2, kv.2)))
    with text_member in H.
  assert (∀ l : list (gostring * json), mvalue <$> ((λ kv, (kv.1, raw kv.2, kv.2)) <$> l) = l) as E.
  { induction l as [|[k v] l IH]; [done|]. rewrite !fmap_cons. by rewrite IH. }
  rewrite E in H. apply H. apply Forall_fmap. exact Hk.
Qed.

Lemma reads_values h (l : list json) :
  0 ≤ h → Forall (raw_reads h) l →
  reads (h + 1) (json_array (raw <$> l)) (JArray (json_array (raw <$> l)) l).
Proof.
  intros Hh Hl. pose proof (reads_array h ((λ v, (raw v, v)) <$> l) Hh) as H.
  rewrite <- !list_fmap_compose in H. change (fst ∘ (λ v : json, (raw v, v))) with raw in H.
  assert (∀ k : list json, snd ∘ (λ v : json, (raw v, v)) <$> k = k) as E
    by (intros k; apply list_fmap_id).
  rewrite E in H. apply H. apply Forall_fmap. exact Hl.
Qed.

(** An object as the values of each of its keys: none or one each, as written. *)
Definition flatten (ps : list (gostring * list json)) : list (gostring * json) :=
  concat ((λ p : gostring * list json, (λ v, (p.1, v)) <$> p.2) <$> ps).
Fixpoint assoc (name : gostring) (ps : list (gostring * list json)) : list json :=
  match ps with
  | [] => []
  | (k, l) :: ps' => if bool_decide (k = name) then l else assoc name ps'
  end.

Lemma assoc_none name ps : name ∉ ps.*1 → assoc name ps = [].
Proof.
  induction ps as [|[k l] ps IH]; [done|]. intros [Hk1 Hk2]%not_elem_of_cons. cbn.
  rewrite bool_decide_eq_false_2 by (by intros ->). auto.
Qed.

Lemma Forall_flatten (P : gostring * json → Prop) ps :
  Forall (λ p : gostring * list json, Forall (λ v, P (p.1, v)) p.2) ps → Forall P (flatten ps).
Proof.
  intros H. unfold flatten. apply Forall_concat, Forall_fmap. eapply Forall_impl; [exact H|].
  intros p Hp. by apply Forall_fmap.
Qed.

Lemma reads_flatten html h ps :
  0 ≤ h → forallb (λ p : gostring * list json, bool_decide (utf8 p.1)) ps = true →
  Forall (λ p : gostring * list json, Forall (raw_reads h) p.2) ps →
  reads (h + 1) (json_object html (text_member <$> flatten ps))
    (JObject (json_object html (text_member <$> flatten ps)) (flatten ps)).
Proof.
  intros Hh Hk Hv. apply reads_members; [done|]. apply Forall_flatten.
  rewrite forallb_forall in Hk. rewrite Forall_forall in *. intros p Hp. cbn.
  apply Forall_forall. intros v Hin. split.
  - apply list_elem_of_In in Hp. apply (bool_decide_eq_true_1 (utf8 p.1)). by apply Hk.
  - specialize (Hv p Hp). rewrite Forall_forall in Hv. by apply Hv.
Qed.

(** *** What written text cannot hold *)

(** No control byte, and from [json.Marshal] nothing HTML gives a meaning to. *)
Definition plainb (html : bool) (c : byte) : bool :=
  (32 <=? bz c) && negb (html && ((bz c =? 60) || (bz c =? 62) || (bz c =? 38))).
Abbreviation plain html := (Forall (λ c, plainb html c = true)).

Lemma plain_by html t : forallb (plainb html) t = true → plain html t.
Proof. rewrite forallb_forall, Forall_forall. intros H c Hc. by apply H, list_elem_of_In. Qed.

Lemma plain_high html t : Forall (λ c, 97 ≤ bz c) t → plain html t.
Proof.
  intros H. eapply Forall_impl; [exact H|]. intros c Hc. unfold plainb.
  cbv beta in Hc. destruct html; decide_tests; done || lia.
Qed.

Lemma quote_ascii_plain html c : bz c < 128 → plain html (quote_ascii html c).
Proof. intros Hc. apply plain_by. destruct html, c; try reflexivity; exfalso; revert Hc; done. Qed.

Lemma encode_rune_high r : valid_rune r = true → 128 ≤ r → Forall (λ c, 97 ≤ bz c) (encode_rune r).
Proof.
  intros Hv Hr. unfold encode_rune. rewrite Hv. apply valid_rune_spec in Hv.
  repeat case_match; bools; [lia|..]; repeat constructor; rewrite bz_zb_small;
    Z.to_euclidean_division_equations; lia.
Qed.

Lemma quote_seg_plain html x :
  seg_ok x → x.2 = encode_rune x.1 ∨ (x.1 = RuneError ∧ length x.2 = 1%nat) →
  plain html (quote_seg html x).
Proof.
  destruct x as [r b]. intros (_ & Hv & _) Hx. cbn [fst snd] in *. unfold quote_seg.
  cbn [fst snd]. assert (0 ≤ r) by (apply valid_rune_spec in Hv; lia).
  destruct (Z.ltb_spec r 128); [apply quote_ascii_plain; rewrite bz_zb_small; lia|].
  destruct (_ && (_ =? 1)%nat) eqn:E1; [by apply plain_by; destruct html|].
  case_match eqn:E2.
  { apply andb_true_iff in E2 as [_ [->%Z.eqb_eq| ->%Z.eqb_eq]%orb_true_iff]; apply plain_by;
      by destruct html. }
  destruct Hx as [->|[-> Hl]]; [|by rewrite Hl in E1].
  by apply plain_high, encode_rune_high.
Qed.

Lemma quote_plain html s : plain html (quote html s).
Proof.
  unfold quote. apply Forall_app; split; [by apply plain_by; destruct html|].
  apply Forall_app; split; [|by apply plain_by; destruct html]. apply Forall_concat, Forall_fmap.
  pose proof (segs_ok s) as H1. pose proof (segs_exact s) as H2. rewrite Forall_forall in *.
  intros x Hx. apply quote_seg_plain; auto.
Qed.

Lemma Join_Forall (P : byte → Prop) l sep :
  Forall P sep → Forall (Forall P) l → Forall P (Join l sep).
Proof.
  intros Hs. induction 1 as [|x l Hx Hl IH]; [constructor|]. destruct l; [done|].
  cbn. apply Forall_app; split; [done|]. by apply Forall_app.
Qed.

Lemma json_bool_plain html b : plain html (json_bool b).
Proof. apply plain_by. by destruct html, b. Qed.

Lemma itoa_plain html z : in_int64 z → plain html (itoa z).
Proof.
  intros H. destruct (itoa_shape z H) as (sign & c & ds & -> & Hs & Hd & _).
  apply Forall_app; split; [apply plain_by; destruct Hs as [->| ->], html; done|].
  eapply Forall_impl; [exact Hd|]. intros b Hb%in_range_true. unfold plainb.
  destruct html; decide_tests; done || lia.
Qed.

Lemma json_object_plain html l :
  Forall (λ kv, plain html kv.2) l → plain html (json_object html l).
Proof.
  intros H. unfold json_object. apply Forall_app; split; [by apply plain_by; destruct html|].
  apply Forall_app; split; [|by apply plain_by; destruct html].
  apply Join_Forall; [by apply plain_by; destruct html|].
  apply Forall_fmap. eapply Forall_impl; [exact H|]. intros kv Hkv. cbv beta in *.
  apply Forall_app; split; [apply quote_plain|].
  apply Forall_app; split; [by apply plain_by; destruct html|done].
Qed.

Lemma json_array_plain html l : Forall (plain html) l → plain html (json_array l).
Proof.
  intros H. unfold json_array. apply Forall_app; split; [by apply plain_by; destruct html|].
  apply Forall_app; split; [|by apply plain_by; destruct html].
  apply Join_Forall; [by apply plain_by; destruct html|done].
Qed.
