(* ===== verification/Sha256.v ===== *)
(** * SHA-256 and hexadecimal

    [crypto/sha256] and [encoding/hex] as [chat.SynthID] uses them: FIPS 180-4
    on byte strings shorter than 2^61 bytes, with 32-bit words as integers modulo
    2^32.  Two test vectors at the end check the definition. *)
From S2P Require Import Prelude.
From stdpp Require Import options.
Local Open Scope Z_scope.

Definition w32 (z : Z) : Z := Z.land z 4294967295.
Definition add32 (a b : Z) : Z := w32 (a + b).
Definition rotr (n x : Z) : Z := Z.lor (Z.shiftr x n) (w32 (Z.shiftl x (32 - n))).

Definition sha_k : list Z := [
  1116352408; 1899447441; 3049323471; 3921009573; 961987163; 1508970993;
  2453635748; 2870763221; 3624381080; 310598401; 607225278; 1426881987;
  1925078388; 2162078206; 2614888103; 3248222580; 3835390401; 4022224774;
  264347078; 604807628; 770255983; 1249150122; 1555081692; 1996064986;
  2554220882; 2821834349; 2952996808; 3210313671; 3336571891; 3584528711;
  113926993; 338241895; 666307205; 773529912; 1294757372; 1396182291;
  1695183700; 1986661051; 2177026350; 2456956037; 2730485921; 2820302411;
  3259730800; 3345764771; 3516065817; 3600352804; 4094571909; 275423344;
  430227734; 506948616; 659060556; 883997877; 958139571; 1322822218;
  1537002063; 1747873779; 1955562222; 2024104815; 2227730452; 2361852424;
  2428436474; 2756734187; 3204031479; 3329325298].

Definition sha_h0 : list Z := [
  1779033703; 3144134277; 1013904242; 2773480762; 1359893119; 2600822924;
  528734635; 1541459225].

(** Big-endian bytes of an [n]-byte number, and back for 4 bytes. *)
Fixpoint be_bytes (n : nat) (z : Z) : gostring :=
  match n with
  | O => []
  | S n' => zb (Z.shiftr z (8 * Z.of_nat n')) :: be_bytes n' z
  end.
Fixpoint be_words (s : gostring) : list Z :=
  match s with
  | a :: b :: c :: d :: s' =>
      (bz a * 16777216 + bz b * 65536 + bz c * 256 + bz d) :: be_words s'
  | _ => []
  end.

(** Padding to a multiple of 64 bytes. *)
Definition sha_pad (s : gostring) : gostring :=
  let n := Z.of_nat (length s) in
  s ++ [zb 128] ++ replicate (Z.to_nat ((55 - n) mod 64)) (zb 0) ++ be_bytes 8 (8 * n).

(** The message schedule, newest word first. *)
Fixpoint sha_schedule (n : nat) (w : list Z) : list Z :=
  match n with
  | O => w
  | S n' =>
      let w15 := nth 14 w 0 in let w2 := nth 1 w 0 in
      let s0 := Z.lxor (Z.lxor (rotr 7 w15) (rotr 18 w15)) (Z.shiftr w15 3) in
      let s1 := Z.lxor (Z.lxor (rotr 17 w2) (rotr 19 w2)) (Z.shiftr w2 10) in
      sha_schedule n' (w32 (nth 15 w 0 + s0 + nth 6 w 0 + s1) :: w)
  end.

Fixpoint sha_rounds (ks ws : list Z) (a b c d e f g h : Z) : list Z :=
  match ks, ws with
  | k :: ks', w :: ws' =>
      let s1 := Z.lxor (Z.lxor (rotr 6 e) (rotr 11 e)) (rotr 25 e) in
      let ch := Z.lxor (Z.land e f) (Z.land (Z.lxor e 4294967295) g) in
      let t1 := w32 (h + s1 + ch + k + w) in
      let s0 := Z.lxor (Z.lxor (rotr 2 a) (rotr 13 a)) (rotr 22 a) in
      let mj := Z.lxor (Z.lxor (Z.land a b) (Z.land a c)) (Z.land b c) in
      let t2 := w32 (s0 + mj) in
      sha_rounds ks' ws' (add32 t1 t2) a b c (add32 d t1) e f g
  | _, _ => [a; b; c; d; e; f; g; h]
  end.

Definition sha_block (st : list Z) (blk : list Z) : list Z :=
  let ws := rev (sha_schedule 48 (rev blk)) in
  match st with
  | [a; b; c; d; e; f; g; h] => zip_with add32 st (sha_rounds sha_k ws a b c d e f g h)
  | _ => st
  end.

Fixpoint sha_blocks (n : nat) (st : list Z) (ws : list Z) : list Z :=
  match n with
  | O => st
  | S n' => sha_blocks n' (sha_block st (take 16 ws)) (drop 16 ws)
  end.

(** [sha256.Sum256] *)
Definition sha256 (s : gostring) : gostring :=
  let ws := be_words (sha_pad s) in
  concat (be_bytes 4 <$> sha_blocks (length ws / 16)%nat sha_h0 ws).

(** [hex.EncodeToString] *)
Definition hex_digit (d : Z) : byte := zb (if d <? 10 then 48 + d else 87 + d).
Definition hex_encode (s : gostring) : gostring :=
  concat ((λ b, [hex_digit (bz b / 16); hex_digit (bz b mod 16)]) <$> s).

Example sha256_abc :
  hex_encode (sha256 (bs "abc"))
  = bs "ba7816bf8f01cfea414140de5dae2223b00361a396177a9cb410ff61f20015ad".
Proof. by vm_compute. Qed.

Example sha256_56bytes :
  hex_encode (sha256 (bs "abcdbcdecdefdefgefghfghighijhijkijkljklmklmnlmnomnopnopq"))
  = bs "248d6a61d20638b8e5c026930c3e6039a33ce45964ff2167f6ecedd419db06c1".
Proof. by vm_compute. Qed.

(** The hexadecimal form is faithful. *)
Lemma hex_digit_inj d e : 0 ≤ d < 16 → 0 ≤ e < 16 → hex_digit d = hex_digit e → d = e.
Proof.
  intros Hd He H. unfold hex_digit in H. apply (f_equal bz) in H.
  rewrite !bz_zb_small in H by (repeat case_match; bools; lia).
  repeat case_match; bools; lia.
Qed.

Lemma hex_encode_inj s t : hex_encode s = hex_encode t → s = t.
Proof.
  revert t. induction s as [|a s IH]; intros [|b t] H; try done.
  unfold hex_encode in *. csimpl in H. injection H as H1 H2 H3.
  pose proof (bz_range a). pose proof (bz_range b).
  apply hex_digit_inj in H1; [|Z.to_euclidean_division_equations; lia..].
  apply hex_digit_inj in H2; [|Z.to_euclidean_division_equations; lia..].
  f_equal; [|auto]. apply bz_inj. Z.to_euclidean_division_equations. lia.
Qed.

(** A digest has 32 bytes, its hexadecimal form 64. *)
Lemma sha_rounds_length ks : ∀ ws a b c d e f g h,
  length (sha_rounds ks ws a b c d e f g h) = 8%nat.
Proof. induction ks as [|k ks IH]; intros [|w ws] *; try done. apply IH. Qed.

Lemma sha_block_length st blk : length st = 8%nat → length (sha_block st blk) = 8%nat.
Proof.
  intros H. do 9 (destruct st as [|? st]; try done). unfold sha_block.
  by rewrite length_zip_with, sha_rounds_length.
Qed.

Lemma sha_blocks_length n : ∀ st ws, length st = 8%nat → length (sha_blocks n st ws) = 8%nat.
Proof. induction n as [|n IH]; intros st ws H; [done|]. by apply IH, sha_block_length. Qed.

Lemma be_bytes_length n z : length (be_bytes n z) = n.
Proof. induction n as [|n IH]; [done|]. cbn [be_bytes length]. by rewrite IH. Qed.

Lemma concat_fmap_length {A B} (f : A → list B) (k : nat) l :
  (∀ x, length (f x) = k) → length (concat (f <$> l)) = (k * length l)%nat.
Proof.
  intros H. induction l as [|x l IH]; [simpl; lia|].
  rewrite fmap_cons. cbn [concat length]. rewrite length_app, H, IH. lia.
Qed.

Lemma sha256_length s : length (sha256 s) = 32%nat.
Proof.
  unfold sha256. rewrite (concat_fmap_length _ 4) by apply be_bytes_length.
  by rewrite sha_blocks_length.
Qed.

Lemma hex_encode_length s : length (hex_encode s) = (2 * length s)%nat.
Proof. unfold hex_encode. by rewrite (concat_fmap_length _ 2). Qed.
