(* ===== verification/ChatModel.v ===== *)
(** * The chat domain's data ([internal/chat/model.go], [event.go])

    The identities, users, nodes, messages and events of the pure chat core, the
    normalisations that make keys canonical, and [SynthID], the content-derived
    message id the duplicate suppression keys on. *)
From S2P Require Import Prelude Unicode GoStrings Sha256.
From stdpp Require Import options.

(** Go's [time.Time], as nanoseconds since its zero value, and [time.Duration]
    in nanoseconds. *)
Abbreviation Time := Z.
Abbreviation Duration := Z.

(** The Unix epoch; [t.UnixNano()] is an int64, and [time.Unix(0, ns)] goes back. *)
Definition unix_epoch : Time := 62135596800 * 1000000000.
Definition UnixNano (t : Time) : Z := wrap64 (t - unix_epoch).
Definition Unix0 (ns : Z) : Time := unix_epoch + ns.
Arguments unix_epoch : simpl never.

Definition DefaultTopic : gostring := bs "General".
Definition MaxText : nat := 2048.

Record UserKey := mkUserKey { uk_Call : gostring; uk_Node : gostring }.

Record Origin := mkOrigin { o_Node : gostring; o_Local : bool; o_Link : gostring }.

Record UserFlags := mkUserFlags {
  f_Echo : bool; f_Bells : bool; f_Colour : bool; f_ShowNames : bool; f_ShowTime : bool }.

Record User := mkUser {
  u_Call : gostring;
  u_Name : gostring;
  u_QTH : gostring;
  u_Origin : Origin;
  u_Topic : gostring;
  u_Joined : Time;
  u_LastActive : Time;
  u_Flags : UserFlags }.

(** The method [Key] of [User]. *)
Definition Key (u : User) : UserKey := mkUserKey (u_Call u) (o_Node (u_Origin u)).

Record Node := mkNode {
  n_Call : gostring; n_Alias : gostring; n_Version : gostring; n_Linked : Time }.

Inductive MessageKind := KindTopic | KindPrivate.

Record Message := mkMessage {
  m_ID : gostring;
  m_OriginNode : gostring;
  m_FromCall : gostring;
  m_Kind : MessageKind;
  m_Topic : gostring;
  m_ToCall : gostring;
  m_Time : Time;
  m_Text : gostring }.

(** [event.go] *)
Inductive Event :=
| UserJoined (u : User)
| UserLeft (u : User)
| TopicMessage (m : Message)
| PrivateMessage (m : Message)
| TopicChanged (u : User) (From : gostring)
| UserInfoChanged (u : User)
| NodeLinked (n : Node)
| NodeUnlinked (n : Node).

(** The errors of the chat core; a store failure carries its own text. *)
Inductive error :=
| ErrNoSuchUser
| ErrEmptyText
| ErrNoSuchTopic
| ErrStore (text : gostring).

Definition normCall (c : gostring) : gostring := ToUpper (TrimSpace c).
Definition normTopicKey (name : gostring) : gostring := ToLower (TrimSpace name).
Definition normText (s : gostring) : gostring := TrimSpace s.

(** [hub.go]'s [canonKey] and [clip] *)
Definition canonKey (k : UserKey) : UserKey :=
  mkUserKey (normCall (uk_Call k)) (normCall (uk_Node k)).

Definition clip (s0 : gostring) : gostring :=
  let s := TrimRight [zb 13; zb 10] s0 in
  let s := if (MaxText <? length s)%nat then take MaxText s else s in
  TrimSpace s.

Definition kind_byte (k : MessageKind) : byte :=
  match k with KindTopic => zb 0 | KindPrivate => zb 1 end.

(** What [SynthID] writes into the hash. *)
Definition synth_preimage (originNode fromCall : gostring) (kind : MessageKind)
    (scope text : gostring) : gostring :=
  normCall originNode ++ [zb 0] ++ normCall fromCall ++ [zb 0; kind_byte kind; zb 0]
  ++ ToLower scope ++ [zb 0] ++ normText text.

Definition SynthID (originNode fromCall : gostring) (kind : MessageKind)
    (scope text : gostring) : gostring :=
  hex_encode (sha256 (synth_preimage originNode fromCall kind scope text)).

(** Field updates of the mutable records. *)
Definition user_id (call : gostring) (origin : Origin) (u : User) : User :=
  mkUser call (u_Name u) (u_QTH u) origin (u_Topic u) (u_Joined u) (u_LastActive u) (u_Flags u).
Definition user_times (t : Time) (u : User) : User :=
  mkUser (u_Call u) (u_Name u) (u_QTH u) (u_Origin u) (u_Topic u) t t (u_Flags u).
Definition user_active (t : Time) (u : User) : User :=
  mkUser (u_Call u) (u_Name u) (u_QTH u) (u_Origin u) (u_Topic u) (u_Joined u) t (u_Flags u).
Definition user_topic (t : gostring) (u : User) : User :=
  mkUser (u_Call u) (u_Name u) (u_QTH u) (u_Origin u) t (u_Joined u) (u_LastActive u) (u_Flags u).
Definition user_info (name qth : gostring) (u : User) : User :=
  mkUser (u_Call u) name qth (u_Origin u) (u_Topic u) (u_Joined u) (u_LastActive u) (u_Flags u).
Definition user_flags (f : UserFlags) (u : User) : User :=
  mkUser (u_Call u) (u_Name u) (u_QTH u) (u_Origin u) (u_Topic u) (u_Joined u) (u_LastActive u) f.
Definition message_with_id (id : gostring) (m : Message) : Message :=
  mkMessage id (m_OriginNode m) (m_FromCall m) (m_Kind m) (m_Topic m) (m_ToCall m)
    (m_Time m) (m_Text m).

(** ** Decidable equality and countability of the keys *)

#[export] Instance UserKey_eq_dec : EqDecision UserKey.
Proof. solve_decision. Defined.
#[export] Program Instance UserKey_countable : Countable UserKey :=
  inj_countable (λ k, (uk_Call k, uk_Node k)) (λ p, Some (mkUserKey p.1 p.2)) _.
Next Obligation. by intros []. Qed.
#[export] Instance Origin_eq_dec : EqDecision Origin.
Proof. solve_decision. Defined.
#[export] Instance UserFlags_eq_dec : EqDecision UserFlags.
Proof. solve_decision. Defined.
#[export] Instance MessageKind_eq_dec : EqDecision MessageKind.
Proof. solve_decision. Defined.
#[export] Instance User_eq_dec : EqDecision User.
Proof. solve_decision. Defined.
#[export] Instance Node_eq_dec : EqDecision Node.
Proof. solve_decision. Defined.
#[export] Instance Message_eq_dec : EqDecision Message.
Proof. solve_decision. Defined.
#[export] Instance Event_eq_dec : EqDecision Event.
Proof. solve_decision. Defined.

(** The SHA-256 evaluation is never wanted while reasoning about ids. *)
#[global] Opaque sha256.
Arguments SynthID : simpl never.

(** ** Normal forms *)

Lemma normCall_idemp c : normCall (normCall c) = normCall c.
Proof.
  unfold normCall, ToUpper. rewrite TrimSpace_str_map by apply upper_mapping.
  by apply str_map_idemp, upper_mapping.
Qed.

Lemma normTopicKey_idemp n : normTopicKey (normTopicKey n) = normTopicKey n.
Proof.
  unfold normTopicKey, ToLower. rewrite TrimSpace_str_map by apply lower_mapping.
  by apply str_map_idemp, lower_mapping.
Qed.

Lemma normTopicKey_trim n : normTopicKey (TrimSpace n) = normTopicKey n.
Proof. unfold normTopicKey. by rewrite TrimSpace_idemp. Qed.

Lemma canonKey_idemp k : canonKey (canonKey k) = canonKey k.
Proof. unfold canonKey. simpl. by rewrite !normCall_idemp. Qed.

Lemma normText_idemp t : normText (normText t) = normText t.
Proof. apply TrimSpace_idemp. Qed.

Lemma normCall_NUL c : NUL ∉ c → NUL ∉ normCall c.
Proof. intros H. apply NUL_str_map; [apply upper_mapping|]. by apply NUL_TrimSpace. Qed.

#[export] Hint Rewrite normCall_idemp normTopicKey_idemp normTopicKey_trim
  canonKey_idemp TrimSpace_idemp : norm.

(** [clip] yields trimmed text within the cap. *)
Lemma clip_bound s : (length (clip s) ≤ MaxText)%nat ∧ TrimSpace (clip s) = clip s.
Proof.
  unfold clip. split; [|apply TrimSpace_idemp].
  etrans; [apply TrimSpace_length|]. case_match.
  - rewrite length_take. lia.
  - by apply Nat.ltb_ge.
Qed.

(** The pieces of a preimage are recoverable when the separators cannot occur
    in them. *)
Lemma cut_inj (c : byte) a b x y :
  c ∉ a → c ∉ b → a ++ c :: x = b ++ c :: y → a = b ∧ x = y.
Proof.
  revert b. induction a as [|d a IH]; intros [|e b] Ha Hb H; simplify_eq/=; try set_solver.
  destruct (IH b) as [-> ->]; set_solver.
Qed.

Lemma kind_byte_inj k1 k2 : kind_byte k1 = kind_byte k2 → k1 = k2.
Proof. by destruct k1, k2. Qed.

Lemma synth_preimage_inj n1 c1 k1 s1 t1 n2 c2 k2 s2 t2 :
  NUL ∉ n1 → NUL ∉ c1 → NUL ∉ s1 → NUL ∉ n2 → NUL ∉ c2 → NUL ∉ s2 →
  synth_preimage n1 c1 k1 s1 t1 = synth_preimage n2 c2 k2 s2 t2 →
  normCall n1 = normCall n2 ∧ normCall c1 = normCall c2 ∧ k1 = k2
  ∧ ToLower s1 = ToLower s2 ∧ normText t1 = normText t2.
Proof.
  intros ?????? H. unfold synth_preimage in H. simpl in H.
  apply cut_inj in H as [? H]; [|by apply normCall_NUL..].
  apply cut_inj in H as [? H]; [|by apply normCall_NUL..].
  injection H as Hk H. apply kind_byte_inj in Hk.
  apply cut_inj in H as [? ?]; [|by apply NUL_str_map; [apply lower_mapping|]..].
  done.
Qed.

(** An id is never empty, so a store never takes the no-id path for it. *)
Lemma SynthID_length n c k s t : length (SynthID n c k s t) = 64%nat.
Proof. unfold SynthID. by rewrite hex_encode_length, sha256_length. Qed.

Lemma SynthID_nonempty n c k s t : SynthID n c k s t ≠ [].
Proof. intros H. pose proof (SynthID_length n c k s t) as HL. by rewrite H in HL. Qed.

(** Keep the normalisations folded while simplifying. *)
Arguments normCall : simpl never.
Arguments normTopicKey : simpl never.
Arguments normText : simpl never.
Arguments canonKey : simpl never.
Arguments clip : simpl never.
Arguments DefaultTopic : simpl never.
