(* ===== verification/ChatSeen.v ===== *)
(** * The seen-set ([internal/chat/seen.go])

    The content-hash duplicate backstop: message ids with an expiry time.  The
    clock reading each call makes is an argument of the model.  The main result
    relates the pruned, refreshed map to the plain history of calls: an id is
    reported seen exactly when its most recent sighting is less than the TTL
    old. *)
From S2P Require Import Prelude ChatModel.
From stdpp Require Import options.
Local Open Scope Z_scope.

Definition DefaultSeenTTL : Duration := 10 * 60 * 1000000000.

Record SeenSet := mkSeenSet { ss_ttl : Duration; ss_entries : gmap gostring Time }.

Definition NewSeenSet (ttl : Duration) : SeenSet :=
  mkSeenSet (if ttl <=? 0 then DefaultSeenTTL else ttl) ∅.

(** [pruneLocked]: drop every entry with [!now.Before(exp)]. *)
Definition prune (now : Time) (s : SeenSet) : SeenSet :=
  mkSeenSet (ss_ttl s) (filter (λ e : gostring * Time, now < e.2) (ss_entries s)).

Definition Seen (now : Time) (id : gostring) (s0 : SeenSet) : bool * SeenSet :=
  let s := prune now s0 in
  let s' := mkSeenSet (ss_ttl s) (<[id := now + ss_ttl s]> (ss_entries s)) in
  match ss_entries s !! id with
  | Some exp => if now <? exp then (true, s') else (false, s')
  | None => (false, s')
  end.

Definition Len (now : Time) (s0 : SeenSet) : nat * SeenSet :=
  let s := prune now s0 in (size (ss_entries s), s).

(** A run of [Seen] calls and the answers, in order. *)
Fixpoint seen_run (calls : list (Time * gostring)) (s : SeenSet) : list bool * SeenSet :=
  match calls with
  | [] => ([], s)
  | (now, id) :: calls' =>
      let '(b, s') := Seen now id s in
      let '(bs', s'') := seen_run calls' s' in (b :: bs', s'')
  end.

(** The reference: the history of calls, newest first, and when an id was last
    in it. *)
Fixpoint last_sighting (hist : list (Time * gostring)) (id : gostring) : option Time :=
  match hist with
  | [] => None
  | (t, i) :: hist' => if decide (i = id) then Some t else last_sighting hist' id
  end.

Definition recently_seen (ttl : Duration) (hist : list (Time * gostring))
    (now : Time) (id : gostring) : bool :=
  match last_sighting hist id with Some t => now <? t + ttl | None => false end.

Fixpoint seen_ref (ttl : Duration) (hist calls : list (Time * gostring)) : list bool :=
  match calls with
  | [] => []
  | (now, id) :: calls' =>
      recently_seen ttl hist now id :: seen_ref ttl ((now, id) :: hist) calls'
  end.

(** Call times never go backwards, starting from [t]. *)
Fixpoint monotone_from (t : Time) (calls : list (Time * gostring)) : Prop :=
  match calls with
  | [] => True
  | (now, _) :: calls' => t ≤ now ∧ monotone_from now calls'
  end.

(** ** Lemmas *)

Lemma prune_lookup now s id e :
  ss_entries (prune now s) !! id = Some e ↔ ss_entries s !! id = Some e ∧ now < e.
Proof. unfold prune. simpl. by rewrite map_lookup_filter_Some. Qed.

Lemma prune_lookup_None now s id :
  ss_entries (prune now s) !! id = None ↔ ∀ e, ss_entries s !! id = Some e → e ≤ now.
Proof.
  unfold prune. simpl. rewrite map_lookup_filter_None. split.
  - intros [H|H] e He; [congruence|]. specialize (H e He). simpl in H. lia.
  - intros H. destruct (ss_entries s !! id) as [e|] eqn:E; [right|by left].
    intros e' [= <-]. simpl. specialize (H e eq_refl). lia.
Qed.

Lemma Seen_answer now id s :
  (Seen now id s).1
  = match ss_entries s !! id with Some e => now <? e | None => false end.
Proof.
  unfold Seen. destruct (ss_entries (prune now s) !! id) as [e|] eqn:E.
  - apply prune_lookup in E as [-> He]. by rewrite (proj2 (Z.ltb_lt _ _) He).
  - simpl. rewrite prune_lookup_None in E. destruct (ss_entries s !! id) as [e|]; [|done].
    symmetry. apply Z.ltb_ge. auto.
Qed.

Lemma Seen_state now id s :
  (Seen now id s).2
  = mkSeenSet (ss_ttl s) (<[id := now + ss_ttl s]> (ss_entries (prune now s))).
Proof. unfold Seen. by repeat case_match. Qed.

Lemma Seen_ttl now id s : ss_ttl (Seen now id s).2 = ss_ttl s.
Proof. by rewrite Seen_state. Qed.

(** After a call the id is remembered for the TTL. *)
Lemma Seen_remembers now id s now' :
  now' < now + ss_ttl s → (Seen now' id (Seen now id s).2).1 = true.
Proof.
  intros H. rewrite Seen_answer, Seen_state. simpl. rewrite lookup_insert_eq.
  by apply Z.ltb_lt.
Qed.

(** An entry that is still alive survives calls for other ids. *)
Lemma Seen_keeps now id id' s e :
  ss_entries s !! id' = Some e → now < e → id' ≠ id →
  ss_entries (Seen now id s).2 !! id' = Some e.
Proof.
  intros He Hn Hne. rewrite Seen_state. simpl. rewrite lookup_insert_ne by done.
  by apply prune_lookup.
Qed.

Lemma Seen_entry now id s :
  ss_entries (Seen now id s).2 !! id = Some (now + ss_ttl s).
Proof. rewrite Seen_state. simpl. apply lookup_insert_eq. Qed.

(** The invariant between the map and the call history [hist], whose newest call
    was at [t]: an entry is the last sighting plus the TTL, and a last sighting
    that has not expired at [t] is still there. *)
Definition seen_inv (s : SeenSet) (hist : list (Time * gostring)) (t : Time) : Prop :=
  ∀ id, (∀ e, ss_entries s !! id = Some e → last_sighting hist id = Some (e - ss_ttl s))
    ∧ (∀ t', last_sighting hist id = Some t' → t < t' + ss_ttl s →
         ss_entries s !! id = Some (t' + ss_ttl s)).

Lemma seen_inv_init ttl t : seen_inv (NewSeenSet ttl) [] t.
Proof. intros id. split; [|done]. intros e. simpl. by rewrite lookup_empty. Qed.

Lemma seen_inv_step s hist t now id :
  seen_inv s hist t → t ≤ now →
  (Seen now id s).1 = recently_seen (ss_ttl s) hist now id
  ∧ seen_inv (Seen now id s).2 ((now, id) :: hist) now.
Proof.
  intros Hinv Ht. split.
  - rewrite Seen_answer. unfold recently_seen. destruct (Hinv id) as [H1 H2].
    destruct (last_sighting hist id) as [t'|] eqn:El.
    + destruct (Z.ltb_spec now (t' + ss_ttl s)) as [Hlt|Hge].
      * rewrite (H2 t') by (done || lia). by apply Z.ltb_lt.
      * destruct (ss_entries s !! id) as [e|]; [|done].
        specialize (H1 e eq_refl). simplify_eq. apply Z.ltb_ge. lia.
    + destruct (ss_entries s !! id) as [e|]; [|done]. by specialize (H1 e eq_refl).
  - intros id'. rewrite Seen_state. simpl. destruct (decide (id = id')) as [<-|Hne].
    + rewrite lookup_insert_eq. split; [|naive_solver].
      intros e [= <-]. f_equal. lia.
    + rewrite lookup_insert_ne by done. destruct (Hinv id') as [H1 H2]. split.
      * intros e He. apply prune_lookup in He as [He _]. auto.
      * intros t' Hl Hlt. apply prune_lookup. split; [apply H2; [done|lia]|done].
Qed.

Lemma seen_run_ref_from s hist t calls :
  seen_inv s hist t → monotone_from t calls →
  (seen_run calls s).1 = seen_ref (ss_ttl s) hist calls.
Proof.
  revert s hist t. induction calls as [|[now id] calls IH]; intros s hist t Hinv Hm; [done|].
  destruct Hm as [Ht Hm]. destruct (seen_inv_step s hist t now id Hinv Ht) as [Hb Hs].
  cbn [seen_run seen_ref]. pose proof (Seen_ttl now id s) as Httl.
  destruct (Seen now id s) as [b s']. simpl in *.
  specialize (IH s' _ now Hs Hm). rewrite Httl in IH.
  destruct (seen_run calls s'). simpl in *. congruence.
Qed.

(** C31. The seen-set is the plain history: over any sequence of calls whose clock
    readings never go backwards, a new set with a positive time to live answers each
    call exactly as if it kept every call ever made, that is, "seen" if and only if
    the same id was last asked about less than the time to live ago (a hit
    refreshing it), although expired entries are pruned. *)
Theorem seen_set_equivalence ttl calls t0 :
  0 < ttl → monotone_from t0 calls →
  (seen_run calls (NewSeenSet ttl)).1 = seen_ref ttl [] calls.
Proof.
  intros Httl Hm. rewrite (seen_run_ref_from (NewSeenSet ttl) [] t0); [|apply seen_inv_init|done].
  unfold NewSeenSet. by rewrite (proj2 (Z.leb_gt _ _) Httl).
Qed.

Lemma seen_set_equivalence_witness :
  let calls := [(5, bs "a"); (5, bs "b"); (14, bs "a"); (23, bs "a"); (23, bs "b")] in
  (seen_run calls (NewSeenSet 10)).1 = seen_ref 10 [] calls
  ∧ seen_ref 10 [] calls = [false; false; true; true; false].
Proof.
  intros calls. split; [|by vm_compute].
  apply (seen_set_equivalence 10 calls 0); [lia|].
  cbn. repeat split; lia.
Defined.
