(* ===== verification/ChatStore.v ===== *)
(** * The persistence seam ([internal/chat/store.go])

    [Store] is Go's interface of the same name as a type class over the store's
    state; [StoreLaws] is the contract its comments promise to the hub, stated
    against the store's durable log.  [MemStore] is the in-memory
    implementation, and the instances at the end discharge the contract.  A
    query's [error] result is on the right of its sum; the [context] argument
    is not modelled, nor is [Close], which does nothing. *)
From S2P Require Import Prelude Unicode GoStrings ChatModel.
From stdpp Require Import options.
Local Open Scope Z_scope.

Class Store (St : Type) := {
  SaveMessage : St → Message → St * option error;
  History : St → gostring → Time → Z → list Message + error;
  PrivateHistory : St → gostring → Time → Z → list Message + error;
  GetConfig : St → gostring → option gostring + error;
  SetConfig : St → gostring → gostring → St * option error;
}.

(** At or after [since]; a zero [since] means from the beginning. *)
Definition since_ok (since : Time) (m : Message) : bool :=
  (since =? 0) || negb (m_Time m <? since).

(** A message as a store with the clock [f] keeps it. *)
Definition message_at (f : Time → Time) (m : Message) : Message :=
  mkMessage (m_ID m) (m_OriginNode m) (m_FromCall m) (m_Kind m) (m_Topic m) (m_ToCall m)
    (f (m_Time m)) (m_Text m).

(** The times an int64 of Unix nanoseconds holds: the years 1678 to 2261. *)
Definition representable (t : Time) : Prop := - 2 ^ 63 ≤ t - unix_epoch < 2 ^ 63.

Lemma since_ok_spec since m : since_ok since m = true ↔ since = 0 ∨ since ≤ m_Time m.
Proof. unfold since_ok. lia. Qed.

Class StoreLaws (St : Type) `{!Store St} := {
  store_log : St → list Message;
  store_ok : St → Prop;
  (** The time a store keeps for a time; exact within int64 nanoseconds. *)
  store_time : Time → Time;
  store_time_exact t : representable t → store_time t = t;
  save_ok s m : store_ok s → store_ok (SaveMessage s m).1;
  (** A save appends the message, as the store keeps it, unless its id is already
      there; a failed one leaves the log alone. *)
  save_done s m :
    store_ok s → m_ID m ≠ [] → (SaveMessage s m).2 = None →
    store_log (SaveMessage s m).1
    = if decide (m_ID m ∈ m_ID <$> store_log s) then store_log s else store_log s ++ [message_at store_time m];
  save_failed s m e :
    store_ok s → (SaveMessage s m).2 = Some e →
    store_log (SaveMessage s m).1 = store_log s;
  (** Up to [limit] messages of the right kind at or after [since]. *)
  history_sound s topic since limit out :
    store_ok s → History s topic since limit = inl out →
    (0 < limit → Z.of_nat (length out) ≤ limit)
    ∧ ∀ m, m ∈ out → m ∈ store_log s ∧ m_Kind m = KindTopic
        ∧ (since = 0 ∨ store_time since ≤ m_Time m);
  private_sound s call since limit out :
    store_ok s → PrivateHistory s call since limit = inl out →
    (0 < limit → Z.of_nat (length out) ≤ limit)
    ∧ ∀ m, m ∈ out → m ∈ store_log s ∧ m_Kind m = KindPrivate
        ∧ (since = 0 ∨ store_time since ≤ m_Time m);
  (** The configuration is a persistent key-value map; a read can fail, and a failed
      write leaves it alone. *)
  store_config : St → gmap gostring gostring;
  config_get s k v : store_ok s → GetConfig s k = inl v → v = store_config s !! k;
  config_set s k v :
    store_ok s → (SetConfig s k v).2 = None →
    store_config (SetConfig s k v).1 = <[k := v]> (store_config s);
  config_failed s k v e :
    store_ok s → (SetConfig s k v).2 = Some e →
    store_config (SetConfig s k v).1 = store_config s;
  save_config s m : store_ok s → store_config (SaveMessage s m).1 = store_config s;
  config_ok s k v : store_ok s → store_ok (SetConfig s k v).1;
  config_log s k v : store_log (SetConfig s k v).1 = store_log s;
}.

(** ** [MemStore] *)

Module MemStore.

Record MemStore := mkMemStore {
  ms_msgs : list Message;
  ms_ids : gset gostring;
  ms_config : gmap gostring gostring }.

Definition NewMemStore : MemStore := mkMemStore [] ∅ ∅.

Definition SaveMessage (s : MemStore) (m : Message) : MemStore * option error :=
  if bool_decide (m_ID m ∈ ms_ids s) && negb (bool_decide (m_ID m = [])) then (s, None)
  else
    let ids := if bool_decide (m_ID m = []) then ms_ids s else {[m_ID m]} ∪ ms_ids s in
    (mkMemStore (ms_msgs s ++ [m]) ids (ms_config s), None).

(** The loop bodies of the two history queries: keep the message or not. *)
Definition history_keep (key : gostring) (since : Time) (m : Message) : bool :=
  bool_decide (m_Kind m = KindTopic) && bool_decide (normTopicKey (m_Topic m) = key)
  && since_ok since m.
Definition private_keep (want : gostring) (since : Time) (m : Message) : bool :=
  bool_decide (m_Kind m = KindPrivate)
  && (bool_decide (normCall (m_ToCall m) = want) || bool_decide (normCall (m_FromCall m) = want))
  && since_ok since m.

Definition History (s : MemStore) (topic : gostring) (since : Time) (limit : Z)
    : list Message + error :=
  inl (last_n limit (List.filter (history_keep (normTopicKey topic) since) (ms_msgs s))).

Definition PrivateHistory (s : MemStore) (call : gostring) (since : Time) (limit : Z)
    : list Message + error :=
  inl (last_n limit (List.filter (private_keep (normCall call) since) (ms_msgs s))).

Definition GetConfig (s : MemStore) (key : gostring) : option gostring + error :=
  inl (ms_config s !! key).

Definition SetConfig (s : MemStore) (key value : gostring) : MemStore * option error :=
  (mkMemStore (ms_msgs s) (ms_ids s) (<[key := value]> (ms_config s)), None).

(** The id set is exactly the non-empty ids of the log. *)
Definition mem_ok (s : MemStore) : Prop :=
  ∀ i, i ∈ ms_ids s ↔ i ≠ [] ∧ i ∈ m_ID <$> ms_msgs s.

Lemma NewMemStore_ok : mem_ok NewMemStore.
Proof. intros i. unfold NewMemStore. simpl. set_solver. Qed.

Lemma SaveMessage_ok s m : mem_ok s → mem_ok (SaveMessage s m).1.
Proof.
  intros Hok. unfold SaveMessage. repeat case_bool_decide; simpl; try done;
    intros i; simpl; specialize (Hok i); rewrite fmap_app; set_solver.
Qed.

Lemma query_sound {keep : Message → bool} (s : MemStore) limit m :
  m ∈ last_n limit (List.filter keep (ms_msgs s)) → m ∈ ms_msgs s ∧ keep m = true.
Proof.
  intros Hin.
  destruct (last_n_suffix limit (List.filter keep (ms_msgs s))) as [k Hk].
  assert (m ∈ List.filter keep (ms_msgs s)) as Hf by (rewrite Hk; set_solver).
  rewrite list_elem_of_In, filter_In, <- list_elem_of_In in Hf. done.
Qed.

Lemma query_bound {keep : Message → bool} (s : MemStore) limit :
  0 < limit → Z.of_nat (length (last_n limit (List.filter keep (ms_msgs s)))) ≤ limit.
Proof. intros H. rewrite last_n_length by done. lia. Qed.

End MemStore.

#[export] Instance mem_store : Store MemStore.MemStore := {|
  SaveMessage := MemStore.SaveMessage;
  History := MemStore.History;
  PrivateHistory := MemStore.PrivateHistory;
  GetConfig := MemStore.GetConfig;
  SetConfig := MemStore.SetConfig |}.

#[export] Program Instance mem_store_laws : StoreLaws MemStore.MemStore := {|
  store_log := MemStore.ms_msgs;
  store_ok := MemStore.mem_ok;
  store_time := id;
  store_config := MemStore.ms_config |}.
Next Obligation. done. Qed.
Next Obligation. intros s m. apply MemStore.SaveMessage_ok. Qed.
Next Obligation.
  intros s m Hok Hne _.
  change (MemStore.ms_msgs (MemStore.SaveMessage s m).1
    = if decide (m_ID m ∈ m_ID <$> MemStore.ms_msgs s) then MemStore.ms_msgs s
      else MemStore.ms_msgs s ++ [message_at id m]).
  replace (message_at id m) with m by (by destruct m).
  unfold MemStore.SaveMessage. rewrite (bool_decide_eq_false_2 (m_ID m = [])) by done.
  destruct (Hok (m_ID m)) as [H1 H2]. case_decide as Hd.
  - rewrite bool_decide_eq_true_2; [done|]. by apply H2.
  - rewrite bool_decide_eq_false_2; [done|]. intros Hin. by destruct (H1 Hin).
Qed.
Next Obligation.
  intros s m e _. cbn. unfold MemStore.SaveMessage. by repeat case_match.
Qed.
Next Obligation.
  intros s topic since limit out Hok. cbn. intros [= <-].
  split; [apply MemStore.query_bound|]. intros m Hm.
  apply MemStore.query_sound in Hm as [Hl Hk]. unfold MemStore.history_keep in Hk.
  bools. by split_and!; [..|apply since_ok_spec].
Qed.
Next Obligation.
  intros s call since limit out Hok. cbn. intros [= <-].
  split; [apply MemStore.query_bound|]. intros m Hm.
  apply MemStore.query_sound in Hm as [Hl Hk]. unfold MemStore.private_keep in Hk.
  bools; by split_and!; [..|apply since_ok_spec].
Qed.
Next Obligation. intros s k v _. cbn. by intros [= <-]. Qed.
Next Obligation. done. Qed.
Next Obligation. done. Qed.
Next Obligation. intros s m _. cbn. unfold MemStore.SaveMessage. by destruct (_ && _). Qed.
Next Obligation. intros s k v Hok i. apply Hok. Qed.
Next Obligation. done. Qed.
