(* ===== verification/ChatHub.v ===== *)
(** * The hub ([internal/chat/hub.go])

    The in-RAM authority for users, presence, topics and the mesh node graph, and
    the fan-out point of events, over any [Store].  Each exported method of Go's
    [Hub] is a definition of the state monad; its critical sections run one after
    the other, without another goroutine's in between.  The clock is the injected
    function: reading number [h_tick] of [h_clock].  A Go panic (a write to a nil
    member map, a send on a closed channel) sets [h_crashed].  Go's map iteration
    order is unspecified; the model iterates in the order of [map_to_list] or
    [elements], and no theorem depends on it. *)
From S2P Require Import Prelude Unicode GoStrings ChatModel ChatSeen ChatStore.
From stdpp Require Import options.

Definition subBuffer : nat := 256.
Arguments subBuffer : simpl never.

(** A subscriber's buffered channel. *)
Record Channel := mkChannel { ch_buf : list Event; ch_closed : bool }.

Module Hub.
Section hub.
Context {St : Type} `{!Store St}.

Record Hub := mkHub {
  h_ourNode : gostring;
  h_store : St;
  h_seen : SeenSet;
  h_clock : nat → Time;
  h_tick : nat;
  h_users : gmap UserKey User;
  h_topics : gmap gostring gostring;             (* topic key to display name *)
  h_member : gmap gostring (gset UserKey);       (* topic key to members *)
  h_nodes : gmap gostring Node;
  h_subs : gset Z;                               (* registered subscription ids *)
  h_chans : gmap Z Channel;                      (* the channel of each id ever issued *)
  h_nextSub : Z;
  h_crashed : bool }.

Definition upd_store g (h : Hub) : Hub :=
  mkHub (h_ourNode h) (g (h_store h)) (h_seen h) (h_clock h) (h_tick h) (h_users h)
    (h_topics h) (h_member h) (h_nodes h) (h_subs h) (h_chans h) (h_nextSub h)
    (h_crashed h).
Definition upd_seen g (h : Hub) : Hub :=
  mkHub (h_ourNode h) (h_store h) (g (h_seen h)) (h_clock h) (h_tick h) (h_users h)
    (h_topics h) (h_member h) (h_nodes h) (h_subs h) (h_chans h) (h_nextSub h)
    (h_crashed h).
Definition upd_tick g (h : Hub) : Hub :=
  mkHub (h_ourNode h) (h_store h) (h_seen h) (h_clock h) (g (h_tick h)) (h_users h)
    (h_topics h) (h_member h) (h_nodes h) (h_subs h) (h_chans h) (h_nextSub h)
    (h_crashed h).
Definition upd_users g (h : Hub) : Hub :=
  mkHub (h_ourNode h) (h_store h) (h_seen h) (h_clock h) (h_tick h) (g (h_users h))
    (h_topics h) (h_member h) (h_nodes h) (h_subs h) (h_chans h) (h_nextSub h)
    (h_crashed h).
Definition upd_topics g (h : Hub) : Hub :=
  mkHub (h_ourNode h) (h_store h) (h_seen h) (h_clock h) (h_tick h) (h_users h) (g
    (h_topics h)) (h_member h) (h_nodes h) (h_subs h) (h_chans h) (h_nextSub h)
    (h_crashed h).
Definition upd_member g (h : Hub) : Hub :=
  mkHub (h_ourNode h) (h_store h) (h_seen h) (h_clock h) (h_tick h) (h_users h)
    (h_topics h) (g (h_member h)) (h_nodes h) (h_subs h) (h_chans h) (h_nextSub h)
    (h_crashed h).
Definition upd_nodes g (h : Hub) : Hub :=
  mkHub (h_ourNode h) (h_store h) (h_seen h) (h_clock h) (h_tick h) (h_users h)
    (h_topics h) (h_member h) (g (h_nodes h)) (h_subs h) (h_chans h) (h_nextSub h)
    (h_crashed h).
Definition upd_subs g (h : Hub) : Hub :=
  mkHub (h_ourNode h) (h_store h) (h_seen h) (h_clock h) (h_tick h) (h_users h)
    (h_topics h) (h_member h) (h_nodes h) (g (h_subs h)) (h_chans h) (h_nextSub h)
    (h_crashed h).
Definition upd_chans g (h : Hub) : Hub :=
  mkHub (h_ourNode h) (h_store h) (h_seen h) (h_clock h) (h_tick h) (h_users h)
    (h_topics h) (h_member h) (h_nodes h) (h_subs h) (g (h_chans h)) (h_nextSub h)
    (h_crashed h).
Definition upd_nextSub g (h : Hub) : Hub :=
  mkHub (h_ourNode h) (h_store h) (h_seen h) (h_clock h) (h_tick h) (h_users h)
    (h_topics h) (h_member h) (h_nodes h) (h_subs h) (h_chans h) (g (h_nextSub h))
    (h_crashed h).
Definition upd_crashed g (h : Hub) : Hub :=
  mkHub (h_ourNode h) (h_store h) (h_seen h) (h_clock h) (h_tick h) (h_users h)
    (h_topics h) (h_member h) (h_nodes h) (h_subs h) (h_chans h) (h_nextSub h) (g
    (h_crashed h)).

Abbreviation HubM := (ST Hub).

(** ** Primitives *)

(** [h.clock()] *)
Definition now : HubM Time := λ h, (h_clock h (h_tick h), upd_tick S h).

(** [h.seen.Seen(id)] *)
Definition seen_at (t : Time) (id : gostring) : HubM bool :=
  λ h, ((Seen t id (h_seen h)).1, upd_seen (λ _, (Seen t id (h_seen h)).2) h).
Definition SeenID (id : gostring) : HubM bool := t ← now; seen_at t id.

(** The non-blocking send of [emit]: a full buffer drops the event. *)
Definition push (c : Channel) (e : Event) : Channel :=
  if (length (ch_buf c) <? subBuffer)%nat
  then mkChannel (ch_buf c ++ [e]) (ch_closed c) else c.

Definition is_closed (chans : gmap Z Channel) (id : Z) : bool :=
  match chans !! id with Some c => ch_closed c | None => false end.

Definition emit (events : list Event) : HubM unit :=
  match events with
  | [] => mret tt
  | _ =>
      λ h, (tt,
        upd_chans (map_imap (λ id c,
            Some (if decide (id ∈ h_subs h) then foldl push c events else c)))
        (upd_crashed (orb (existsb (is_closed (h_chans h)) (elements (h_subs h)))) h))
  end.

(** [ensureTopicLocked] *)
Definition ensureTopicLocked (name : gostring) : HubM gostring :=
  let key := normTopicKey name in
  topics ← st_get h_topics;
  match topics !! key with
  | Some canon => mret canon
  | None =>
      let canon := TrimSpace name in
      st_mod (upd_topics <[key := canon]>);;
      st_mod (upd_member <[key := ∅]>);;
      mret canon
  end.

(** [h.member[t][key] = struct{}{}]: a write to a nil map panics. *)
Definition member_add (t : gostring) (key : UserKey) : HubM unit :=
  λ h, (tt, match h_member h !! t with
            | Some ms => upd_member <[t := {[key]} ∪ ms]> h
            | None => upd_crashed (λ _, true) h
            end).

(** [if m, ok := h.member[t]; ok { delete(m, key) }] *)
Definition member_del (t : gostring) (key : UserKey) : HubM unit :=
  st_mod (upd_member (alter (λ ms, ms ∖ {[key]}) t)).

Definition userPresentLocked (users : gmap UserKey User) (call : gostring) : bool :=
  existsb (λ e : UserKey * User, bool_decide (uk_Call e.1 = call)) (map_to_list users).

Definition save (m : Message) : HubM (option error) :=
  λ h, let '(s, err) := SaveMessage (h_store h) m in (err, upd_store (λ _, s) h).

(** ** Operations *)

(** [NewHub]; the clock and the store are given. *)
Definition NewHub (ourNode : gostring) (store : St) (clock : nat → Time) : Hub :=
  (ensureTopicLocked DefaultTopic
     (mkHub (normCall ourNode) store (NewSeenSet DefaultSeenTTL) clock 0
        ∅ ∅ ∅ ∅ ∅ ∅ 0%Z false)).2.

Definition Subscribe : HubM Z :=
  id ← st_get h_nextSub;
  st_mod (upd_nextSub (Z.add 1));;
  st_mod (upd_chans <[id := mkChannel [] false]>);;
  st_mod (upd_subs ({[id]} ∪.));;
  mret id.

(** The cancel function [Subscribe] returns. *)
Definition cancel (id : Z) : HubM unit :=
  subs ← st_get h_subs;
  if decide (id ∈ subs) then
    st_mod (upd_subs (.∖ {[id]}));;
    st_mod (upd_chans (alter (λ c, mkChannel (ch_buf c) true) id))
  else mret tt.

(** A receive on subscription [id]: [None] when it would block, [Some None] when
    the channel is closed and drained. *)
Definition recv (id : Z) : HubM (option (option Event)) :=
  chans ← st_get h_chans;
  match chans !! id with
  | Some (mkChannel (e :: buf) cl) =>
      st_mod (upd_chans <[id := mkChannel buf cl]>);; mret (Some (Some e))
  | Some (mkChannel [] true) => mret (Some None)
  | _ => mret None
  end.

Definition Join (u0 : User) : HubM (User + error) :=
  let o := u_Origin u0 in
  let u := user_id (normCall (u_Call u0))
             (mkOrigin (normCall (o_Node o)) (o_Local o) (o_Link o)) u0 in
  if decide (u_Call u = [] ∨ o_Node (u_Origin u) = []) then mret (inr ErrNoSuchUser)
  else
    t ← now;
    let u := if decide (u_Topic u = []) then user_topic DefaultTopic u else u in
    let u := user_times t u in
    canon ← ensureTopicLocked (u_Topic u);
    let stored := user_topic canon u in
    st_mod (upd_users <[Key stored := stored]>);;
    member_add (normTopicKey canon) (Key stored);;
    emit [UserJoined stored];;
    mret (inl stored).

Definition Leave (key0 : UserKey) : HubM unit :=
  let key := canonKey key0 in
  users ← st_get h_users;
  match users !! key with
  | None => mret tt
  | Some u =>
      st_mod (upd_users (delete key));;
      member_del (normTopicKey (u_Topic u)) key;;
      emit [UserLeft u]
  end.

Definition Post (key0 : UserKey) (text0 : gostring) : HubM (Message + error) :=
  let text := clip text0 in
  if decide (text = []) then mret (inr ErrEmptyText) else
  let key := canonKey key0 in
  users ← st_get h_users;
  match users !! key with
  | None => mret (inr ErrNoSuchUser)
  | Some u =>
      t1 ← now;
      st_mod (upd_users <[key := user_active t1 u]>);;
      t2 ← now;
      let m := mkMessage [] (uk_Node key) (uk_Call key) KindTopic (u_Topic u) [] t2 text in
      let m := message_with_id
        (SynthID (m_OriginNode m) (m_FromCall m) (m_Kind m) (m_Topic m) (m_Text m)) m in
      SeenID (m_ID m);;
      err ← save m;
      match err with
      | Some e => mret (inr e)
      | None => emit [TopicMessage m];; mret (inl m)
      end
  end.

Definition Private (from0 : UserKey) (toCall0 text0 : gostring) : HubM (Message + error) :=
  let text := clip text0 in
  if decide (text = []) then mret (inr ErrEmptyText) else
  let from := canonKey from0 in
  let toCall := normCall toCall0 in
  users ← st_get h_users;
  match users !! from with
  | None => mret (inr ErrNoSuchUser)
  | Some _ =>
      if userPresentLocked users toCall then
        t ← now;
        let m := mkMessage [] (uk_Node from) (uk_Call from) KindPrivate [] toCall t text in
        let m := message_with_id
          (SynthID (m_OriginNode m) (m_FromCall m) (m_Kind m) (m_ToCall m) (m_Text m)) m in
        SeenID (m_ID m);;
        err ← save m;
        match err with
        | Some e => mret (inr e)
        | None => emit [PrivateMessage m];; mret (inl m)
        end
      else mret (inr ErrNoSuchUser)
  end.

Definition SetTopic (key0 : UserKey) (name : gostring) : HubM (bool + error) :=
  let key := canonKey key0 in
  if decide (normTopicKey name = []) then mret (inr ErrNoSuchTopic) else
  users ← st_get h_users;
  match users !! key with
  | None => mret (inr ErrNoSuchUser)
  | Some u =>
      if decide (normTopicKey (u_Topic u) = normTopicKey name) then mret (inl false)
      else
        let from := u_Topic u in
        member_del (normTopicKey from) key;;
        canon ← ensureTopicLocked name;
        let moved := user_topic canon u in
        st_mod (upd_users <[key := moved]>);;
        member_add (normTopicKey canon) key;;
        emit [TopicChanged moved from];;
        mret (inl true)
  end.

Definition SetInfo (key0 : UserKey) (name qth : gostring) : HubM (bool + error) :=
  let key := canonKey key0 in
  users ← st_get h_users;
  match users !! key with
  | None => mret (inr ErrNoSuchUser)
  | Some u =>
      if decide (u_Name u = name ∧ u_QTH u = qth) then mret (inl false)
      else
        let changed := user_info name qth u in
        st_mod (upd_users <[key := changed]>);;
        emit [UserInfoChanged changed];;
        mret (inl true)
  end.

Definition SetFlags (key0 : UserKey) (flags : UserFlags) : HubM (bool + error) :=
  let key := canonKey key0 in
  users ← st_get h_users;
  match users !! key with
  | None => mret (inr ErrNoSuchUser)
  | Some u =>
      if decide (u_Flags u = flags) then mret (inl false)
      else
        let changed := user_flags flags u in
        st_mod (upd_users <[key := changed]>);;
        emit [UserInfoChanged changed];;
        mret (inl true)
  end.

Definition LinkNode (call0 alias version : gostring) : HubM bool :=
  let call := normCall call0 in
  if decide (call = []) then mret false else
  t ← now;
  nodes ← st_get h_nodes;
  match nodes !! call with
  | Some n =>
      let v := if decide (version = []) then n_Version n else version in
      st_mod (upd_nodes <[call := mkNode (n_Call n) (n_Alias n) v t]>);;
      mret false
  | None =>
      let n := mkNode call alias version t in
      st_mod (upd_nodes <[call := n]>);;
      emit [NodeLinked n];;
      mret true
  end.

(** The users the link-drop cascade of [UnlinkNode] removes. *)
Definition via_node (call : gostring) (e : UserKey * User) : bool :=
  bool_decide (o_Link (u_Origin e.2) = call) || bool_decide (o_Node (u_Origin e.2) = call).

(** One iteration of its loop body for a user it removes. *)
Definition drop_user (e : UserKey * User) : HubM unit :=
  st_mod (upd_users (delete e.1));;
  member_del (normTopicKey (u_Topic e.2)) e.1.

Fixpoint drop_users (l : list (UserKey * User)) : HubM unit :=
  match l with
  | [] => mret tt
  | e :: l' => drop_user e;; drop_users l'
  end.

Definition UnlinkNode (call0 : gostring) : HubM bool :=
  let call := normCall call0 in
  nodes ← st_get h_nodes;
  match nodes !! call with
  | None => mret false
  | Some n =>
      st_mod (upd_nodes (delete call));;
      users ← st_get h_users;
      let left := List.filter (via_node call) (map_to_list users) in
      drop_users left;;
      emit (((λ e, UserLeft e.2) <$> left) ++ [NodeUnlinked n]);;
      mret true
  end.

(** ** Queries *)

Definition HistoryQ (h : Hub) (topic : gostring) (since : Time) (limit : Z) :=
  History (h_store h) topic since limit.
Definition PrivateHistoryQ (h : Hub) (call : gostring) (since : Time) (limit : Z) :=
  PrivateHistory (h_store h) call since limit.

(** [h.User(key)] *)
Definition UserOf (h : Hub) (key : UserKey) : option User := h_users h !! canonKey key.

(** The comparison of [Users]: by callsign, then by node. *)
Definition user_le (u v : User) : Prop :=
  if decide (u_Call u = u_Call v)
  then str_le (o_Node (u_Origin u)) (o_Node (u_Origin v))
  else str_le (u_Call u) (u_Call v).
#[export] Instance user_le_dec : RelDecision user_le.
Proof. intros u v. unfold user_le. case_decide; apply _. Defined.

Definition call_le (u v : User) : Prop := str_le (u_Call u) (u_Call v).
#[export] Instance call_le_dec : RelDecision call_le.
Proof. intros u v. unfold call_le. apply _. Defined.

Definition Users (h : Hub) : list User := merge_sort user_le (map_to_list (h_users h)).*2.

Definition UsersInTopic (h : Hub) (name : gostring) : list User :=
  let members := default ∅ (h_member h !! normTopicKey name) in
  merge_sort call_le (omap (λ k, h_users h !! k) (elements members)).

Record Topic := mkTopic { t_Name : gostring; t_Members : nat }.

Definition topic_le (a b : Topic) : Prop := str_le (t_Name a) (t_Name b).
#[export] Instance topic_le_dec : RelDecision topic_le.
Proof. intros a b. unfold topic_le. apply _. Defined.

Definition Topics (h : Hub) : list Topic :=
  merge_sort topic_le
    ((λ e : gostring * gostring,
        mkTopic e.2 (size (default ∅ (h_member h !! e.1)))) <$> map_to_list (h_topics h)).

Definition node_le (a b : Node) : Prop := str_le (n_Call a) (n_Call b).
#[export] Instance node_le_dec : RelDecision node_le.
Proof. intros a b. unfold node_le. apply _. Defined.

Definition Nodes (h : Hub) : list Node := merge_sort node_le (map_to_list (h_nodes h)).*2.

(** Every state-changing method, as data: the alphabet of hub histories. *)
Inductive hub_op :=
| OpJoin (u : User)
| OpLeave (k : UserKey)
| OpPost (k : UserKey) (text : gostring)
| OpPrivate (k : UserKey) (toCall text : gostring)
| OpSetTopic (k : UserKey) (name : gostring)
| OpSetInfo (k : UserKey) (name qth : gostring)
| OpSetFlags (k : UserKey) (f : UserFlags)
| OpLinkNode (call alias version : gostring)
| OpUnlinkNode (call : gostring)
| OpSeen (id : gostring)
| OpSubscribe
| OpCancel (id : Z)
| OpRecv (id : Z).

Definition exec (op : hub_op) (h : Hub) : Hub :=
  match op with
  | OpJoin u => (Join u h).2
  | OpLeave k => (Leave k h).2
  | OpPost k t => (Post k t h).2
  | OpPrivate k c t => (Private k c t h).2
  | OpSetTopic k n => (SetTopic k n h).2
  | OpSetInfo k n q => (SetInfo k n q h).2
  | OpSetFlags k f => (SetFlags k f h).2
  | OpLinkNode c a v => (LinkNode c a v h).2
  | OpUnlinkNode c => (UnlinkNode c h).2
  | OpSeen id => (SeenID id h).2
  | OpSubscribe => (Subscribe h).2
  | OpCancel id => (cancel id h).2
  | OpRecv id => (recv id h).2
  end.

Definition execs (ops : list hub_op) (h : Hub) : Hub := foldl (λ h op, exec op h) h ops.

End hub.
End Hub.
Arguments Hub.Hub : clear implicits.
Arguments Hub.emit : simpl never.
Arguments Hub.ensureTopicLocked : simpl never.
Arguments Hub.member_add : simpl never.
Arguments Hub.SeenID : simpl never.
Arguments Hub.save : simpl never.
