(* ===== verification/HubProps.v ===== *)
(** * What the hub maintains and does

    The well-formedness of a hub, its preservation by every operation, and the
    functional behaviour of the operations the mesh and the sessions rely on. *)
From S2P Require Import Prelude Unicode GoStrings ChatModel ChatSeen ChatStore ChatHub.
From stdpp Require Import options.
Import Hub.

(** ** Well-formed hubs *)

(** Users are keyed by their own canonical identity; topic keys are the folded
    display names; every topic has a member set; every user is a member of the
    topic its record names. *)
Record core_wf (users : gmap UserKey User) (topics : gmap gostring gostring)
    (member : gmap gostring (gset UserKey)) : Prop := {
  cw_key k u : users !! k = Some u →
    Key u = k ∧ canonKey k = k ∧ uk_Call k ≠ [] ∧ uk_Node k ≠ [];
  cw_topic t c : topics !! t = Some c → normTopicKey c = t;
  cw_member t : is_Some (member !! t) ↔ is_Some (topics !! t);
  cw_home k u : users !! k = Some u →
    topics !! normTopicKey (u_Topic u) = Some (u_Topic u)
    ∧ ∃ ms, member !! normTopicKey (u_Topic u) = Some ms ∧ k ∈ ms;
  cw_default : topics !! normTopicKey DefaultTopic = Some DefaultTopic }.

(** The converse of [cw_home]: a member of a topic is a present user in it. *)
Definition core_exact (users : gmap UserKey User)
    (member : gmap gostring (gset UserKey)) : Prop :=
  ∀ t ms k, member !! t = Some ms → k ∈ ms →
    ∃ u, users !! k = Some u ∧ normTopicKey (u_Topic u) = t.

Definition nodes_wf (nodes : gmap gostring Node) : Prop :=
  ∀ c n, nodes !! c = Some n → n_Call n = c ∧ normCall c = c ∧ c ≠ [].

(** Registered channels are open, ids are below the counter, and no buffer
    exceeds its capacity. *)
Record chan_wf (subs : gset Z) (chans : gmap Z Channel) (next : Z) : Prop := {
  cw_next : (0 ≤ next)%Z;
  cw_sub id : id ∈ subs → ∃ c, chans !! id = Some c ∧ ch_closed c = false;
  cw_chan id c : chans !! id = Some c →
    (0 ≤ id < next)%Z ∧ (length (ch_buf c) ≤ subBuffer)%nat }.

(** What a channel holds after the non-blocking sends of [es]. *)
Definition delivered (es : list Event) (c : Channel) : Channel :=
  mkChannel (take subBuffer (ch_buf c ++ es)) (ch_closed c).

Section core.
Implicit Types (U : gmap UserKey User) (T : gmap gostring gostring)
  (M : gmap gostring (gset UserKey)).

Lemma core_ensure U T M name :
  core_wf U T M → T !! normTopicKey name = None →
  core_wf U (<[normTopicKey name := TrimSpace name]> T) (<[normTopicKey name := ∅]> M).
Proof.
  intros [Hk Ht Hm Hh Hd] Hn. split; [done| | | |].
  - intros t c. destruct (decide (normTopicKey name = t)) as [<-|];
      rewrite ?lookup_insert_eq, ?lookup_insert_ne by done; [|by auto].
    intros [= <-]. apply normTopicKey_trim.
  - intros t. destruct (decide (normTopicKey name = t)) as [<-|];
      rewrite ?lookup_insert_eq, ?lookup_insert_ne by done; [naive_solver|apply Hm].
  - intros k u Hu. destruct (Hh k u Hu) as (E & ms & Ems & Hin).
    assert (normTopicKey name ≠ normTopicKey (u_Topic u)) by congruence.
    rewrite !lookup_insert_ne by done. eauto.
  - rewrite lookup_insert_ne; [done|congruence].
Qed.

Lemma core_place U T M k u ms :
  core_wf U T M → Key u = k → canonKey k = k → uk_Call k ≠ [] → uk_Node k ≠ [] →
  T !! normTopicKey (u_Topic u) = Some (u_Topic u) →
  M !! normTopicKey (u_Topic u) = Some ms →
  core_wf (<[k := u]> U) T (<[normTopicKey (u_Topic u) := {[k]} ∪ ms]> M).
Proof.
  intros [Hk Ht Hm Hh Hd] HK Hc Hn1 Hn2 Htu Hmu. split; [|done| | |done].
  - intros k' u' H. apply lookup_insert_Some in H as [[<- <-]|[_ H]]; auto.
  - intros t. rewrite <- Hm.
    destruct (decide (normTopicKey (u_Topic u) = t)) as [<-|];
      rewrite ?lookup_insert_eq, ?lookup_insert_ne by done; [|done].
    rewrite Hmu. naive_solver.
  - intros k' u' H. apply lookup_insert_Some in H as [[<- <-]|[Hne H]].
    + split; [done|]. exists ({[k]} ∪ ms). rewrite lookup_insert_eq. set_solver.
    + destruct (Hh _ _ H) as (E & ms' & Ems & Hin). split; [done|].
      destruct (decide (normTopicKey (u_Topic u) = normTopicKey (u_Topic u'))) as [E'|E'].
      * rewrite <- E' in *. rewrite lookup_insert_eq. eexists. split; [done|].
        rewrite Hmu in Ems. set_solver.
      * rewrite lookup_insert_ne by done. eauto.
Qed.

Lemma core_remove U T M k t :
  core_wf U T M → core_wf (delete k U) T (alter (λ ms, ms ∖ {[k]}) t M).
Proof.
  intros [Hk Ht Hm Hh Hd]. split; [|done| | |done].
  - intros k' u H. apply lookup_delete_Some in H as [_ H]. auto.
  - intros t'. rewrite lookup_alter_is_Some. apply Hm.
  - intros k' u H. apply lookup_delete_Some in H as [Hne H].
    destruct (Hh _ _ H) as (E & ms & Ems & Hin). split; [done|].
    destruct (decide (t = normTopicKey (u_Topic u))) as [->|].
    + rewrite lookup_alter_eq, Ems. simpl. eexists. split; [done|]. set_solver.
    + rewrite lookup_alter_ne by done. eauto.
Qed.

Lemma core_absent U T M k : core_wf U T M → core_wf (delete k U) T M.
Proof.
  intros [Hk Ht Hm Hh Hd].
  split; try done; intros k' u H; apply lookup_delete_Some in H as [_ H]; auto.
Qed.

Lemma core_modify U T M k u u' :
  core_wf U T M → U !! k = Some u → Key u' = Key u → u_Topic u' = u_Topic u →
  core_wf (<[k := u']> U) T M.
Proof.
  intros [Hk Ht Hm Hh Hd] Hu HK HT. split; [|done|done| |done].
  - intros k' v H. apply lookup_insert_Some in H as [[<- <-]|[_ H]]; [|by auto].
    rewrite HK. auto.
  - intros k' v H. apply lookup_insert_Some in H as [[<- <-]|[_ H]]; [|by auto].
    rewrite HT. auto.
Qed.

(** Canonical keys of present users. *)
Lemma core_lookup_canon U T M k u :
  core_wf U T M → U !! k = Some u → Key u = k ∧ canonKey k = k.
Proof. intros Hwf Hu. destruct (cw_key _ _ _ Hwf k u Hu) as (?&?&_). done. Qed.

Lemma exact_ensure U M t :
  core_exact U M → M !! t = None → core_exact U (<[t := ∅]> M).
Proof.
  intros He _ t' ms k H Hin. apply lookup_insert_Some in H as [[<- <-]|[_ H]]; [set_solver|eauto].
Qed.

(** Placing a user who was nowhere, or already in that topic, is exact. *)
Lemma exact_place U M k u ms :
  core_exact U M → M !! normTopicKey (u_Topic u) = Some ms →
  (∀ v, U !! k = Some v → normTopicKey (u_Topic v) = normTopicKey (u_Topic u)) →
  core_exact (<[k := u]> U) (<[normTopicKey (u_Topic u) := {[k]} ∪ ms]> M).
Proof.
  intros He Hms Hv t ms' k' H Hin. destruct (decide (k = k')) as [<-|Hne].
  - exists u. rewrite lookup_insert_eq. split; [done|].
    apply lookup_insert_Some in H as [[-> _]|[_ H]]; [done|].
    destruct (He t ms' k H Hin) as (v & E & <-). symmetry. auto.
  - rewrite lookup_insert_ne by done.
    apply lookup_insert_Some in H as [[<- <-]|[_ H]]; eapply He; eauto. set_solver.
Qed.

Lemma exact_remove U M k u :
  core_exact U M → U !! k = Some u →
  core_exact (delete k U) (alter (λ ms, ms ∖ {[k]}) (normTopicKey (u_Topic u)) M).
Proof.
  intros He Hu t ms k' H Hin.
  destruct (decide (normTopicKey (u_Topic u) = t)) as [<-|Hne].
  - rewrite lookup_alter_eq in H. apply fmap_Some in H as (ms0 & H & ->).
    destruct (He _ _ k' H) as (v & E & E'); [set_solver|].
    exists v. rewrite lookup_delete_ne; [done|set_solver].
  - rewrite lookup_alter_ne in H by done. destruct (He _ _ _ H Hin) as (v & E & E').
    exists v. rewrite lookup_delete_ne; [done|]. intros ->. congruence.
Qed.

Lemma exact_modify U M k u u' :
  core_exact U M → U !! k = Some u → u_Topic u' = u_Topic u →
  core_exact (<[k := u']> U) M.
Proof.
  intros He Hu HT t ms k' H Hin. destruct (He _ _ _ H Hin) as (v & E & E').
  destruct (decide (k = k')) as [<-|]; [|exists v; by rewrite lookup_insert_ne].
  exists u'. rewrite lookup_insert_eq. split; [done|]. congruence.
Qed.

(** A member of an exact core is in one topic at most. *)
Lemma exact_unique U M t1 t2 ms1 ms2 k :
  core_exact U M → M !! t1 = Some ms1 → M !! t2 = Some ms2 → k ∈ ms1 → k ∈ ms2 → t1 = t2.
Proof.
  intros He H1 H2 Hk1 Hk2. destruct (He _ _ _ H1 Hk1) as (u & E & <-).
  destruct (He _ _ _ H2 Hk2) as (v & E' & <-). congruence.
Qed.
End core.

(** ** The fan-out *)

Lemma push_delivered es : ∀ c, (length (ch_buf c) ≤ subBuffer)%nat →
  foldl push c es = delivered es c.
Proof.
  induction es as [|e es IH]; intros [buf cl] Hlen; cbn [foldl].
  - unfold delivered. cbn in *. by rewrite app_nil_r, take_ge.
  - unfold push at 2. cbn [ch_buf ch_closed] in *. destruct (Nat.ltb_spec (length buf) subBuffer).
    + rewrite IH by (cbn; rewrite length_app; simpl; lia).
      unfold delivered. cbn. by rewrite <- app_assoc.
    + rewrite IH by done. unfold delivered. cbn [ch_buf ch_closed]. f_equal.
      rewrite !take_app_le by lia. done.
Qed.

Lemma delivered_bound es c : (length (ch_buf (delivered es c)) ≤ subBuffer)%nat.
Proof. unfold delivered. cbn [ch_buf]. rewrite length_take. lia. Qed.

Section props.
Context {St : Type} `{!Store St}.
Implicit Types h : Hub St.

(** A well-formed hub; the last field says no Go panic has happened. *)
Record hub_wf h : Prop := {
  hw_core : core_wf (h_users h) (h_topics h) (h_member h);
  hw_nodes : nodes_wf (h_nodes h);
  hw_chans : chan_wf (h_subs h) (h_chans h) (h_nextSub h);
  hw_live : h_crashed h = false }.

(** Every registered channel receives [es], as far as its buffer allows. *)
Definition deliver (es : list Event) (h : Hub St) : Hub St :=
  upd_chans (map_imap (λ id c,
    Some (if decide (id ∈ h_subs h) then delivered es c else c))) h.

Lemma deliver_lookup es h id :
  h_chans (deliver es h) !! id
  = (λ c, if decide (id ∈ h_subs h) then delivered es c else c) <$> h_chans h !! id.
Proof. unfold deliver. cbn. rewrite map_lookup_imap. by destruct (h_chans h !! id). Qed.

Lemma deliver_chan_wf es h :
  chan_wf (h_subs h) (h_chans h) (h_nextSub h) →
  chan_wf (h_subs h) (h_chans (deliver es h)) (h_nextSub h).
Proof.
  intros [Hn Hs Hc]. split; [done| |].
  - intros id Hid. destruct (Hs id Hid) as (c & Ec & Ho). rewrite deliver_lookup, Ec.
    cbn. rewrite decide_True by done. by exists (delivered es c).
  - intros id c. rewrite deliver_lookup, fmap_Some. intros (c0 & E0 & ->).
    destruct (Hc id c0 E0). split; [done|]. case_decide; [apply delivered_bound|done].
Qed.

Lemma not_closed h :
  chan_wf (h_subs h) (h_chans h) (h_nextSub h) →
  existsb (is_closed (h_chans h)) (elements (h_subs h)) = false.
Proof.
  intros [_ Hs _]. apply not_true_iff_false. rewrite existsb_exists.
  intros (id & Hin & Hcl). apply list_elem_of_In, elem_of_elements in Hin.
  destruct (Hs id Hin) as (c & Ec & Ho). unfold is_closed in Hcl.
  rewrite Ec in Hcl. congruence.
Qed.

(** On well-formed channels [emit] never panics and is [deliver]. *)
Lemma emit_deliver es h :
  chan_wf (h_subs h) (h_chans h) (h_nextSub h) → (emit es h).2 = deliver es h.
Proof.
  intros Hwf. unfold deliver, emit. destruct h as [n st sn ck tk us ts mb nd sb ch nx cr];
    destruct es as [|e es]; cbn in *.
  - unfold upd_chans. cbn. f_equal. apply map_eq. intros id. rewrite map_lookup_imap.
    destruct (ch !! id) as [c|] eqn:E; [|done]. cbn.
    destruct (cw_chan _ _ _ Hwf id c E) as [_ Hb].
    case_decide; [|done]. unfold delivered. rewrite app_nil_r, take_ge by done.
    by destruct c.
  - pose proof (not_closed (mkHub n st sn ck tk us ts mb nd sb ch nx cr) Hwf) as Hn. cbn in Hn.
    unfold upd_chans, upd_crashed. cbn. rewrite Hn. f_equal. apply map_eq. intros id.
    rewrite !map_lookup_imap. destruct (ch !! id) as [c|] eqn:E; [|done]. cbn.
    case_decide; [|done]. f_equal. apply (push_delivered (e :: es)).
    apply (cw_chan _ _ _ Hwf id c E).
Qed.

Lemma deliver_wf es h : hub_wf h → hub_wf (deliver es h).
Proof. intros [??? ?]. split; try done. by apply (deliver_chan_wf es h). Qed.

Lemma emit_wf es h : hub_wf h → hub_wf (emit es h).2.
Proof. intros Hwf. rewrite emit_deliver by apply Hwf. by apply deliver_wf. Qed.

Lemma emit_core es h :
  h_users (emit es h).2 = h_users h ∧ h_topics (emit es h).2 = h_topics h
  ∧ h_member (emit es h).2 = h_member h ∧ h_nodes (emit es h).2 = h_nodes h.
Proof. by destruct es. Qed.

(** ** Preservation *)

Lemma member_add_Some t k h ms :
  h_member h !! t = Some ms → member_add t k h = (tt, upd_member <[t := {[k]} ∪ ms]> h).
Proof. intros E. unfold member_add. by rewrite E. Qed.

(** [ensureTopicLocked] changes only the topics and the member sets, and leaves
    the returned display name registered with a member set. *)
Lemma ensure_spec name h U :
  core_wf U (h_topics h) (h_member h) →
  let canon := (ensureTopicLocked name h).1 in
  let h' := (ensureTopicLocked name h).2 in
  normTopicKey canon = normTopicKey name
  ∧ h_topics h' !! normTopicKey canon = Some canon
  ∧ is_Some (h_member h' !! normTopicKey canon)
  ∧ core_wf U (h_topics h') (h_member h')
  ∧ (∀ U', core_exact U' (h_member h) → core_exact U' (h_member h'))
  ∧ h' = upd_member (λ _, h_member h') (upd_topics (λ _, h_topics h') h).
Proof.
  intros Hwf. unfold ensureTopicLocked. st_simpl.
  destruct (h_topics h !! normTopicKey name) as [canon|] eqn:E; cbn.
  - pose proof (cw_topic _ _ _ Hwf _ _ E) as Ek. rewrite Ek.
    split_and!; try done; [apply Hwf; eauto|by destruct h].
  - rewrite normTopicKey_trim, !lookup_insert_eq.
    split_and!; try done; [by apply core_ensure|].
    intros U' He. apply exact_ensure; [done|].
    destruct (h_member h !! normTopicKey name) eqn:Em; [|done].
    assert (is_Some (h_topics h !! normTopicKey name)) as [? ?] by (apply Hwf; eauto).
    congruence.
Qed.

Definition exact h : Prop := core_exact (h_users h) (h_member h).

(** A step that keeps hubs well-formed, and exact under [P]. *)
Definition keeps (P : Prop) h h' : Prop :=
  hub_wf h → hub_wf h' ∧ (P → exact h → exact h').

Lemma keeps_refl P h : keeps P h h.
Proof. by intros H. Qed.

Lemma keeps_emit P h h' es : keeps P h h' → keeps P h (emit es h').2.
Proof.
  intros Hk Hwf. destruct (Hk Hwf) as [Hwf' He]. split; [by apply emit_wf|].
  destruct (emit_core es h') as (Eu & _ & Em & _). unfold exact. rewrite Eu, Em. done.
Qed.

(** Steps outside the users, topics, nodes and channels. *)
Lemma keeps_frame P h h' :
  h_users h' = h_users h → h_topics h' = h_topics h → h_member h' = h_member h →
  h_nodes h' = h_nodes h → h_subs h' = h_subs h → h_chans h' = h_chans h →
  h_nextSub h' = h_nextSub h → h_crashed h' = h_crashed h → keeps P h h'.
Proof.
  intros E1 E2 E3 E4 E5 E6 E7 E8 [???]. unfold exact.
  split; [split|]; by rewrite ?E1, ?E2, ?E3, ?E4, ?E5, ?E6, ?E7, ?E8.
Qed.

(** Placing user [u] in the topic [ensureTopicLocked] returned. *)
Lemma place_keeps h0 h k name u :
  hub_wf h0 → core_wf (delete k (h_users h)) (h_topics h) (h_member h) →
  nodes_wf (h_nodes h) → chan_wf (h_subs h) (h_chans h) (h_nextSub h) →
  h_crashed h = false →
  Key u = k → canonKey k = k → uk_Call k ≠ [] → uk_Node k ≠ [] →
  u_Topic u = (ensureTopicLocked name h).1 →
  let h1 := (ensureTopicLocked name h).2 in
  let h2 := (member_add (normTopicKey (u_Topic u)) k (upd_users <[k := u]> h1)).2 in
  hub_wf h2
  ∧ (∀ U, core_exact U (h_member h) → delete k U = delete k (h_users h) →
      (∀ v, U !! k = Some v → normTopicKey (u_Topic v) = normTopicKey (u_Topic u)) →
      exact h2).
Proof.
  intros Hwf Hc Hn Hch Hl HK Hk Hk1 Hk2 HT.
  destruct (ensure_spec name h _ Hc) as (E1 & E2 & [ms Ems] & Hc' & He & Ef).
  rewrite <- HT in *. intros h1 h2. fold h1 in E2, Ems, Hc', He, Ef.
  assert (h_users h1 = h_users h) as Eu by (by rewrite Ef).
  assert (h2 = upd_member <[normTopicKey (u_Topic u) := {[k]} ∪ ms]>
    (upd_users <[k := u]> h1)) as ->.
  { unfold h2. by rewrite (member_add_Some _ _ _ ms). }
  split.
  - split; cbn.
    + rewrite Eu, <- insert_delete_eq. apply core_place; done.
    + by rewrite Ef.
    + rewrite Ef. done.
    + by rewrite Ef.
  - intros U Hx HU Hv. unfold exact. cbn.
    rewrite Eu, <- insert_delete_eq, <- HU, insert_delete_eq.
    apply exact_place; [by apply He|done|done].
Qed.

(** The topic a [Join] of [u] asks for. *)
Definition join_topic (u : User) : gostring :=
  if decide (u_Topic u = []) then DefaultTopic else u_Topic u.

Lemma Join_keeps u h :
  keeps (∀ v, UserOf h (Key u) = Some v →
           normTopicKey (u_Topic v) = normTopicKey (join_topic u)) h (Join u h).2.
Proof.
  unfold Join. st_simpl. case_decide as Hd; [apply keeps_refl|].
  apply Decidable.not_or in Hd as [Hd1 Hd2]. cbn in Hd1, Hd2.
  st_simpl. cbn [now fst snd]. apply keeps_emit. intros Hwf.
  set (w := user_times _ _). set (h0 := upd_tick S h).
  set (canon := (ensureTopicLocked (u_Topic w) h0).1).
  assert (u_Topic w = join_topic u) as EwT.
  { unfold w, join_topic. cbn. by case_decide. }
  assert (Key w = canonKey (Key u)) as EwK.
  { unfold w. by case_decide. }
  destruct (place_keeps h h0 (Key w) (u_Topic w) (user_topic canon w)) as [H1 H2];
    try done; try apply Hwf.
  - apply core_absent. exact (hw_core _ Hwf).
  - rewrite EwK. apply canonKey_idemp.
  - by rewrite EwK.
  - by rewrite EwK.
  - split; [exact H1|]. intros Hsame Hx. apply (H2 (h_users h)); [exact Hx|done|].
    intros v Hv. rewrite EwK in Hv. cbn. rewrite (Hsame v Hv), <- EwT. symmetry.
    exact (proj1 (ensure_spec (u_Topic w) h0 _ (hw_core _ Hwf))).
Qed.

Lemma Leave_keeps k h : keeps True h (Leave k h).2.
Proof.
  unfold Leave. st_simpl. destruct (h_users h !! canonKey k) as [u|] eqn:E;
    [|apply keeps_refl].
  st_simpl. apply keeps_emit. intros Hwf. split.
  - split; cbn; [by apply core_remove, Hwf|apply Hwf..].
  - intros _ He. by apply exact_remove.
Qed.

(** Changing a present user's activity, name, QTH or flags. *)
Lemma modify_keeps k u u' h :
  h_users h !! k = Some u → Key u' = Key u → u_Topic u' = u_Topic u →
  keeps True h (upd_users <[k := u']> h).
Proof.
  intros Hu HK HT Hwf. split.
  - split; cbn; [by eapply core_modify; [apply Hwf|..]|apply Hwf..].
  - intros _ He. by eapply exact_modify.
Qed.

Lemma keeps_trans (P : Prop) h1 h2 h3 : keeps P h1 h2 → keeps P h2 h3 → keeps P h1 h3.
Proof. unfold keeps. naive_solver. Qed.

Lemma SeenID_keeps id h : keeps True h (SeenID id h).2.
Proof. by apply keeps_frame. Qed.

Lemma save_keeps m h : keeps True h (save m h).2.
Proof. unfold save. destruct (SaveMessage (h_store h) m). by apply keeps_frame. Qed.

Lemma tick_keeps h : keeps True h (upd_tick S h).
Proof. by apply keeps_frame. Qed.

(** The tail [Post] and [Private] share: record the id, persist, announce. *)
Definition publish (ev : Message → Event) (m : Message) : ST (Hub St) (Message + error) :=
  SeenID (m_ID m);;
  err ← save m;
  match err with
  | Some e => mret (inr e)
  | None => emit [ev m];; mret (inl m)
  end.

Lemma publish_keeps ev m h : keeps True h (publish ev m h).2.
Proof.
  unfold publish. st_simpl. eapply keeps_trans; [apply (SeenID_keeps (m_ID m))|].
  pose proof (save_keeps m (SeenID (m_ID m) h).2) as Hs.
  destruct (save m (SeenID (m_ID m) h).2) as [[e|] h']; cbn in *; [done|].
  by apply keeps_emit.
Qed.

Lemma Post_keeps k t h : keeps True h (Post k t h).2.
Proof.
  unfold Post. case_decide; [apply keeps_refl|]. st_simpl.
  destruct (h_users h !! canonKey k) as [u|] eqn:E; [|apply keeps_refl].
  eapply keeps_trans; [|exact (publish_keeps TopicMessage _ _)].
  eapply keeps_trans; [apply tick_keeps|].
  eapply keeps_trans; [|apply tick_keeps].
  by apply (modify_keeps _ u).
Qed.

Lemma Private_keeps k c t h : keeps True h (Private k c t h).2.
Proof.
  unfold Private. case_decide; [apply keeps_refl|]. st_simpl.
  destruct (h_users h !! canonKey k) as [u|] eqn:E; [|apply keeps_refl].
  destruct (userPresentLocked _ _); [|apply keeps_refl].
  eapply keeps_trans; [|exact (publish_keeps PrivateMessage _ _)]. apply tick_keeps.
Qed.

Lemma SetTopic_keeps k name h : keeps True h (SetTopic k name h).2.
Proof.
  unfold SetTopic. case_decide; [apply keeps_refl|]. st_simpl.
  destruct (h_users h !! canonKey k) as [u|] eqn:E; [|apply keeps_refl].
  case_decide; [apply keeps_refl|]. st_simpl. apply keeps_emit. intros Hwf.
  unfold member_del, st_mod. cbn [fst snd].
  set (h0 := upd_member _ h). set (canon := (ensureTopicLocked name h0).1).
  destruct (cw_key _ _ _ (hw_core _ Hwf) _ _ E) as (HK & Hc & Hk1 & Hk2).
  destruct (place_keeps h h0 (canonKey k) name (user_topic canon u)) as [H1 H2];
    try done; try apply Hwf.
  - apply core_remove. exact (hw_core _ Hwf).
  - split; [exact H1|]. intros _ Hx. apply (H2 (delete (canonKey k) (h_users h))).
    + by apply exact_remove.
    + apply delete_delete_eq.
    + intros v. by rewrite lookup_delete_eq.
Qed.

Lemma SetInfo_keeps k n q h : keeps True h (SetInfo k n q h).2.
Proof.
  unfold SetInfo. st_simpl.
  destruct (h_users h !! canonKey k) as [u|] eqn:E; [|apply keeps_refl].
  case_decide; [apply keeps_refl|]. st_simpl. apply keeps_emit.
  by apply (modify_keeps _ u).
Qed.

Lemma SetFlags_keeps k f h : keeps True h (SetFlags k f h).2.
Proof.
  unfold SetFlags. st_simpl.
  destruct (h_users h !! canonKey k) as [u|] eqn:E; [|apply keeps_refl].
  case_decide; [apply keeps_refl|]. st_simpl. apply keeps_emit.
  by apply (modify_keeps _ u).
Qed.

(** Changing the node graph alone. *)
Lemma nodes_keeps g h : (nodes_wf (h_nodes h) → nodes_wf (g (h_nodes h))) →
  keeps True h (upd_nodes g h).
Proof. intros Hg [????]. split; [|done]. split; cbn; auto. Qed.

Lemma nodes_wf_insert (N : gmap gostring Node) c n :
  nodes_wf N → n_Call n = c → normCall c = c → c ≠ [] → nodes_wf (<[c := n]> N).
Proof.
  intros HN ??? c' n' H. apply lookup_insert_Some in H as [[<- <-]|[_ H]]; auto.
Qed.

Lemma LinkNode_keeps c a v h : keeps True h (LinkNode c a v h).2.
Proof.
  unfold LinkNode. case_decide; [apply keeps_refl|]. st_simpl. cbn [now fst snd].
  eapply keeps_trans; [apply tick_keeps|].
  destruct (h_nodes (upd_tick S h) !! normCall c) as [n|] eqn:E; st_simpl.
  - apply nodes_keeps. intros HN. apply nodes_wf_insert; try done;
      [|apply normCall_idemp]. by destruct (HN _ _ E).
  - apply keeps_emit, nodes_keeps. intros HN.
    apply nodes_wf_insert; try done. apply normCall_idemp.
Qed.

Lemma drop_user_keeps e h :
  h_users h !! e.1 = Some e.2 → keeps True h (drop_user e h).2.
Proof.
  intros Hu Hwf. unfold drop_user, member_del. st_simpl. split.
  - split; cbn; [by apply core_remove, Hwf|apply Hwf..].
  - intros _ He. by apply exact_remove.
Qed.

Lemma drop_users_keeps l : ∀ h,
  NoDup l.*1 → (∀ e, e ∈ l → h_users h !! e.1 = Some e.2) →
  keeps True h (drop_users l h).2.
Proof.
  induction l as [|e l IH]; intros h Hnd Hin; [apply keeps_refl|].
  cbn [drop_users]. st_simpl. rewrite fmap_cons in Hnd. apply NoDup_cons in Hnd as [He Hnd].
  eapply keeps_trans; [apply drop_user_keeps, Hin; by left|].
  apply IH; [done|]. intros e' He'. unfold drop_user, member_del. st_simpl. cbn.
  rewrite lookup_delete_ne; [apply Hin; by right|].
  intros Eq. apply He. rewrite Eq. by apply list_elem_of_fmap_2.
Qed.

Lemma filter_map_to_list_NoDup (p : UserKey * User → bool) (m : gmap UserKey User) :
  NoDup (List.filter p (map_to_list m)).*1.
Proof.
  assert (∀ l : list (UserKey * User), NoDup l.*1 → NoDup (List.filter p l).*1) as H.
  { induction l as [|e l IH]; [done|]. csimpl. intros [Hn Hd]%NoDup_cons.
    destruct (p e); [|by auto]. csimpl. apply NoDup_cons. split; [|by auto].
    intros Hin. apply Hn. apply list_elem_of_fmap in Hin as (e' & -> & Hin).
    apply list_elem_of_fmap_2. apply list_elem_of_In in Hin.
    by apply filter_In in Hin as [?%list_elem_of_In _]. }
  apply H, NoDup_fst_map_to_list.
Qed.

Lemma filter_map_to_list_lookup (p : UserKey * User → bool) (m : gmap UserKey User) e :
  e ∈ List.filter p (map_to_list m) ↔ m !! e.1 = Some e.2 ∧ p e = true.
Proof.
  rewrite list_elem_of_In, filter_In, <- list_elem_of_In. destruct e as [k u].
  by rewrite elem_of_map_to_list.
Qed.

Lemma UnlinkNode_keeps c h : keeps True h (UnlinkNode c h).2.
Proof.
  unfold UnlinkNode. st_simpl.
  destruct (h_nodes h !! normCall c) as [n|] eqn:E; [|apply keeps_refl].
  st_simpl. apply keeps_emit.
  eapply keeps_trans; [|apply drop_users_keeps].
  - apply nodes_keeps. intros HN c' n' [_ H]%lookup_delete_Some. auto.
  - apply filter_map_to_list_NoDup.
  - intros e He. by apply filter_map_to_list_lookup in He as [? _].
Qed.

Lemma chans_keeps g1 g2 g3 h :
  (chan_wf (h_subs h) (h_chans h) (h_nextSub h) →
   chan_wf (g1 (h_subs h)) (g2 (h_chans h)) (g3 (h_nextSub h))) →
  keeps True h (upd_subs g1 (upd_chans g2 (upd_nextSub g3 h))).
Proof. intros Hg [????]. split; [|done]. split; cbn; auto. Qed.

Lemma Subscribe_keeps h : keeps True h (Subscribe h).2.
Proof.
  unfold Subscribe. st_simpl. apply chans_keeps. intros [Hn Hs Hc].
  assert (h_chans h !! h_nextSub h = None) as Hnew.
  { apply eq_None_not_Some. intros [c Ec]. destruct (Hc _ _ Ec). lia. }
  split; [lia| |].
  - intros id Hid. destruct (decide (id = h_nextSub h)) as [->|Hne].
    + rewrite lookup_insert_eq. eauto.
    + rewrite lookup_insert_ne by done. apply Hs. set_solver.
  - intros id c [[<- <-]|[Hne Ec]]%lookup_insert_Some; cbn [ch_buf].
    + cbn. lia.
    + destruct (Hc _ _ Ec). split; [lia|done].
Qed.

Lemma cancel_keeps id h : keeps True h (cancel id h).2.
Proof.
  unfold cancel. st_simpl. case_decide as Hin; [|apply keeps_refl]. st_simpl.
  intros [HC HN [Hn Hs Hc] HL]. split; [|done]. split; cbn; try done. split; [done| |].
  - intros i Hi. rewrite lookup_alter_ne by set_solver. apply Hs. set_solver.
  - intros i c. rewrite lookup_alter. case_decide as Eq; subst.
    + intros (c0 & E0 & ->)%fmap_Some. cbn. by apply Hc.
    + apply Hc.
Qed.

Lemma recv_keeps id h : keeps True h (recv id h).2.
Proof.
  unfold recv. st_simpl. destruct (h_chans h !! id) as [[[|e buf] cl]|] eqn:E;
    [by destruct cl| |apply keeps_refl].
  st_simpl. intros [HC HN [Hn Hs Hc] HL]. split; [|done]. split; cbn; try done.
  destruct (Hc _ _ E) as [Hid Hb]. cbn in Hb. split; [done| |].
  - intros i Hi. destruct (Hs i Hi) as (c & Ec & Ho).
    destruct (decide (id = i)) as [<-|]; [|rewrite lookup_insert_ne by done; eauto].
    rewrite lookup_insert_eq. simplify_eq/=. eauto.
  - intros i c [[<- <-]|[_ Ec]]%lookup_insert_Some; [|by apply Hc]. cbn. split; [done|lia].
Qed.

(** ** Every operation *)

(** A [Join] that does not move a present user to another topic. *)
Definition op_safe (op : hub_op) h : Prop :=
  match op with
  | OpJoin u => ∀ v, UserOf h (Key u) = Some v →
      normTopicKey (u_Topic v) = normTopicKey (join_topic u)
  | _ => True
  end.

Lemma exec_keeps op h : keeps (op_safe op h) h (exec op h).
Proof.
  destruct op; cbn [exec op_safe].
  - apply Join_keeps.
  - apply Leave_keeps.
  - apply Post_keeps.
  - apply Private_keeps.
  - apply SetTopic_keeps.
  - apply SetInfo_keeps.
  - apply SetFlags_keeps.
  - apply LinkNode_keeps.
  - apply UnlinkNode_keeps.
  - apply SeenID_keeps.
  - apply Subscribe_keeps.
  - apply cancel_keeps.
  - apply recv_keeps.
Qed.

Lemma execs_wf ops h : hub_wf h → hub_wf (execs ops h).
Proof.
  revert h. induction ops as [|op ops IH]; intros h Hwf; [done|].
  apply (IH (exec op h)). by apply exec_keeps.
Qed.

(** Every operation of a run is safe where it happens. *)
Fixpoint ops_safe (ops : list hub_op) h : Prop :=
  match ops with
  | [] => True
  | op :: ops' => op_safe op h ∧ ops_safe ops' (exec op h)
  end.

Lemma execs_exact ops h : hub_wf h → exact h → ops_safe ops h → exact (execs ops h).
Proof.
  revert h. induction ops as [|op ops IH]; intros h Hwf He; [done|]. intros [Hs Hss].
  apply (IH (exec op h)); [by apply exec_keeps| |done]. by apply exec_keeps.
Qed.

Lemma NewHub_wf our store clock :
  hub_wf (NewHub our store clock) ∧ exact (NewHub our store clock).
Proof.
  unfold NewHub, ensureTopicLocked. st_simpl. cbn. rewrite lookup_empty. cbn. split.
  - split; cbn; [split|..].
    + intros k u. by rewrite lookup_empty.
    + intros t c [[<- <-]|[_ H]]%lookup_insert_Some; [apply normTopicKey_trim|].
      by rewrite lookup_empty in H.
    + intros t. rewrite !lookup_insert_is_Some', !lookup_empty. split; intros [?|[? ?]]; eauto; done.
    + intros k u. by rewrite lookup_empty.
    + rewrite lookup_insert_eq. vm_compute. done.
    + intros c n. by rewrite lookup_empty.
    + split; [done|set_solver|]. intros id c. by rewrite lookup_empty.
    + done.
  - intros t ms k H. cbn in H. apply lookup_insert_Some in H as [[<- <-]|[_ H]];
      [set_solver|]. by rewrite lookup_empty in H.
Qed.

End props.
