(* ===== verification/HubTheorems.v ===== *)
(** * The hub's guarantees

    Presence is exact, messages are logged once, fanned out and remembered for
    the duplicate suppression, a link drop removes exactly what was learned via
    it, and the query snapshots are sorted permutations of the state. *)
From S2P Require Import Prelude Unicode GoStrings ChatModel ChatSeen ChatStore ChatHub HubProps.
From stdpp Require Import options.
Import Hub.

(** ** Helper lemmas *)

Section lemmas.
Context {St : Type} `{!Store St}.
Implicit Types h : Hub St.

(** Unfolding [Post] and [Private] on a present sender. *)
Lemma Post_publish k text h u :
  clip text ≠ [] → h_users h !! canonKey k = Some u →
  let t1 := h_clock h (h_tick h) in let t2 := h_clock h (S (h_tick h)) in
  let m := mkMessage
    (SynthID (uk_Node (canonKey k)) (uk_Call (canonKey k)) KindTopic (u_Topic u) (clip text))
    (uk_Node (canonKey k)) (uk_Call (canonKey k)) KindTopic (u_Topic u) [] t2 (clip text) in
  Post k text h
  = publish TopicMessage m
      (upd_tick S (upd_users <[canonKey k := user_active t1 u]> (upd_tick S h))).
Proof. intros Hc Hu. unfold Post. rewrite decide_False by done. st_simpl. by rewrite Hu. Qed.

Lemma Private_publish k toCall text h u :
  clip text ≠ [] → h_users h !! canonKey k = Some u →
  userPresentLocked (h_users h) (normCall toCall) = true →
  let t := h_clock h (h_tick h) in
  let m := mkMessage
    (SynthID (uk_Node (canonKey k)) (uk_Call (canonKey k)) KindPrivate (normCall toCall)
       (clip text))
    (uk_Node (canonKey k)) (uk_Call (canonKey k)) KindPrivate [] (normCall toCall) t
    (clip text) in
  Private k toCall text h = publish PrivateMessage m (upd_tick S h).
Proof.
  intros Hc Hu Hp. unfold Private. rewrite decide_False by done. st_simpl. by rewrite Hu, Hp.
Qed.

Lemma userPresentLocked_spec (users : gmap UserKey User) c :
  userPresentLocked users c = true ↔ ∃ k u, users !! k = Some u ∧ uk_Call k = c.
Proof.
  unfold userPresentLocked. rewrite existsb_exists. split.
  - intros ([k u] & Hin & H). apply list_elem_of_In, elem_of_map_to_list in Hin.
    bools. eauto.
  - intros (k & u & Hu & H). exists (k, u). split; [|by apply bool_decide_eq_true].
    by apply list_elem_of_In, elem_of_map_to_list.
Qed.

(** What [publish] does: the id is recorded, the store asked, and exactly a saved
    message announced. *)
Lemma publish_spec ev m h :
  let h1 := (SeenID (m_ID m) h).2 in
  let '(s, err) := SaveMessage (h_store h) m in
  publish ev m h
  = match err with
    | Some e => (inr e, upd_store (λ _, s) h1)
    | None => (inl m, (emit [ev m] (upd_store (λ _, s) h1)).2)
    end.
Proof.
  cbn. unfold publish. st_simpl. unfold save. cbn.
  change (h_store (SeenID (m_ID m) h).2) with (h_store h).
  by destruct (SaveMessage (h_store h) m) as [s [e|]].
Qed.

Lemma publish_users ev m h : h_users (publish ev m h).2 = h_users h.
Proof.
  pose proof (publish_spec ev m h) as H. cbn zeta in H.
  destruct (SaveMessage (h_store h) m) as [s [e|]]; rewrite H; cbn [snd]; [done|].
  by rewrite (proj1 (emit_core _ _)).
Qed.

(** The users dropped by a link-drop cascade, and what is left. *)
Lemma drop_users_spec l : ∀ h,
  let h' := (drop_users l h).2 in
  (∀ k, h_users h' !! k = if decide (k ∈ l.*1) then None else h_users h !! k)
  ∧ h_topics h' = h_topics h ∧ h_nodes h' = h_nodes h ∧ h_store h' = h_store h
  ∧ h_subs h' = h_subs h ∧ h_chans h' = h_chans h ∧ h_seen h' = h_seen h
  ∧ h_clock h' = h_clock h ∧ h_tick h' = h_tick h ∧ h_nextSub h' = h_nextSub h.
Proof.
  induction l as [|e l IH]; intros h; cbn [drop_users]; st_simpl.
  - by split_and!.
  - destruct (IH (drop_user e h).2) as (Hu & Hrest).
    split; [|by apply Hrest]. intros k. rewrite Hu.
    unfold drop_user, member_del. st_simpl. cbn [h_users upd_member upd_users].
    rewrite fmap_cons, lookup_delete. repeat case_decide; set_solver.
Qed.

(** Query snapshots. *)
Lemma UsersInTopic_elem h name u :
  u ∈ UsersInTopic h name
  ↔ ∃ k ms, h_member h !! normTopicKey name = Some ms ∧ k ∈ ms ∧ h_users h !! k = Some u.
Proof.
  unfold UsersInTopic. rewrite merge_sort_Permutation, list_elem_of_omap. split.
  - intros (k & Hk & Hu). apply elem_of_elements in Hk.
    destruct (h_member h !! normTopicKey name) as [ms|] eqn:E; cbn in Hk; [|set_solver].
    eauto.
  - intros (k & ms & E & Hk & Hu). exists k. split; [|done]. rewrite E. cbn.
    by apply elem_of_elements.
Qed.

Lemma omap_length_all {A B} (f : A → option B) l :
  (∀ x, x ∈ l → is_Some (f x)) → length (omap f l) = length l.
Proof.
  induction l as [|x l IH]; intros H; [done|]. cbn.
  destruct (H x) as [y Hy]; [by left|]. rewrite Hy. cbn. f_equal. apply IH.
  intros z Hz. apply H. by right.
Qed.

Lemma UsersInTopic_length h name ms :
  exact h → h_member h !! normTopicKey name = Some ms →
  length (UsersInTopic h name) = size ms.
Proof.
  intros He E. unfold UsersInTopic. rewrite merge_sort_Permutation, E. cbn.
  rewrite omap_length_all; [done|]. intros k Hk%elem_of_elements.
  destruct (He _ _ _ E Hk) as (u & Hu & _). eauto.
Qed.

Lemma Topics_elem h t :
  t ∈ Topics h ↔ ∃ key, h_topics h !! key = Some (t_Name t)
    ∧ t_Members t = size (default ∅ (h_member h !! key)).
Proof.
  unfold Topics. rewrite merge_sort_Permutation, list_elem_of_fmap. split.
  - intros ([key name] & -> & Hin). apply elem_of_map_to_list in Hin. cbn. eauto.
  - intros (key & E & Em). exists (key, t_Name t). split; [|by apply elem_of_map_to_list].
    destruct t. cbn in *. by rewrite Em.
Qed.

(** Under exact membership the topic queries say who is where. *)
Lemma exact_queries h :
  hub_wf h → exact h →
  (∀ name u, u ∈ UsersInTopic h name
     ↔ h_users h !! Key u = Some u ∧ normTopicKey (u_Topic u) = normTopicKey name)
  ∧ (∀ t, t ∈ Topics h → t_Members t = length (UsersInTopic h (t_Name t))).
Proof.
  intros Hwf He. split.
  - intros name u. rewrite UsersInTopic_elem. split.
    + intros (k & ms & E & Hk & Hu). destruct (He _ _ _ E Hk) as (v & Hv & Ht).
      destruct (cw_key _ _ _ (hw_core _ Hwf) _ _ Hu) as [-> _]. naive_solver.
    + intros [Hu Ht]. destruct (cw_home _ _ _ (hw_core _ Hwf) _ _ Hu) as (_ & ms & E & Hk).
      rewrite <- Ht. eauto.
  - intros t (key & E & Em)%Topics_elem.
    pose proof (cw_topic _ _ _ (hw_core _ Hwf) _ _ E) as <-.
    destruct (proj2 (cw_member _ _ _ (hw_core _ Hwf) (normTopicKey (t_Name t)))) as [ms Ems];
      [eauto|]. rewrite Em, Ems. symmetry. by apply UsersInTopic_length.
Qed.

End lemmas.

(** ** Remembering an id

    [alive id e h]: the seen-set holds [id] with an expiry no earlier than [e]. *)
Section remember.
Context {St : Type} `{!Store St}.
Implicit Types h : Hub St.

Definition alive (id : gostring) (e : Time) h : Prop :=
  ∃ e', ss_entries (h_seen h) !! id = Some e' ∧ (e ≤ e')%Z.

Definition mono_clock (clock : nat → Time) : Prop :=
  ∀ i j, (i ≤ j)%nat → (clock i ≤ clock j)%Z.

(** A step during which every clock reading is before [e] keeps what is alive. *)
Definition remembers (e : Time) h h' : Prop :=
  h_clock h' = h_clock h ∧ (h_tick h ≤ h_tick h')%nat
  ∧ ss_ttl (h_seen h') = ss_ttl (h_seen h)
  ∧ (mono_clock (h_clock h) → (e ≤ h_clock h (h_tick h) + ss_ttl (h_seen h))%Z →
     (∀ i, (i < h_tick h')%nat → (h_clock h i < e)%Z) →
     ∀ id, alive id e h → alive id e h').

Lemma remembers_trans e h1 h2 h3 :
  remembers e h1 h2 → remembers e h2 h3 → remembers e h1 h3.
Proof.
  intros (C1 & T1 & L1 & A1) (C2 & T2 & L2 & A2).
  split_and!; [congruence|lia|congruence|]. intros Hm He Hlt id Ha.
  rewrite C1, L1 in A2. apply A2; try done.
  - pose proof (Hm (h_tick h1) (h_tick h2) ltac:(lia)). lia.
  - apply A1; try done. intros i Hi. apply Hlt. lia.
Qed.

Lemma remembers_frame e h h' :
  h_seen h' = h_seen h → h_clock h' = h_clock h → (h_tick h ≤ h_tick h')%nat →
  remembers e h h'.
Proof. intros E1 E2 E3. unfold remembers, alive. rewrite E1. by split_and!. Qed.

Lemma remembers_refl e h : remembers e h h.
Proof. by apply remembers_frame. Qed.

Lemma remembers_SeenID e id h : remembers e h (SeenID id h).2.
Proof.
  unfold SeenID, seen_at. st_simpl. cbn. unfold remembers. cbn.
  rewrite Seen_ttl. split_and!; try done; [lia|].
  intros Hm He Hlt i (e' & E & Hle). unfold alive. cbn.
  destruct (decide (i = id)) as [->|Hne].
  - rewrite Seen_entry. eauto.
  - exists e'. split; [|done]. apply Seen_keeps; [done| |done].
    specialize (Hlt (h_tick h) ltac:(lia)). lia.
Qed.

Lemma remembers_emit e es h : remembers e h (emit es h).2.
Proof. by destruct es; apply remembers_frame. Qed.

Lemma remembers_ensure e name h : remembers e h (ensureTopicLocked name h).2.
Proof.
  unfold ensureTopicLocked. st_simpl. by destruct (_ !! _); apply remembers_frame.
Qed.

Lemma remembers_member e t k h : remembers e h (member_add t k h).2.
Proof. unfold member_add. by destruct (_ !! _); apply remembers_frame. Qed.

Lemma remembers_publish e ev m h : remembers e h (publish ev m h).2.
Proof.
  pose proof (publish_spec ev m h) as H. cbn in H.
  destruct (SaveMessage (h_store h) m) as [s err]. rewrite H.
  eapply remembers_trans; [apply (remembers_SeenID e (m_ID m))|].
  destruct err; cbn [snd]; [by apply remembers_frame|].
  eapply remembers_trans; [|apply remembers_emit]. by apply remembers_frame.
Qed.

Lemma remembers_exec e op h : remembers e h (exec op h).
Proof.
  destruct op as [u|k|k t|k c t|k n|k n q|k f|c a v|c|i| |i|i]; cbn [exec].
  - unfold Join. st_simpl. case_decide; [apply remembers_refl|]. st_simpl.
    eapply remembers_trans; [|apply remembers_emit].
    eapply remembers_trans; [|apply remembers_member]. unfold now. cbn [fst snd].
    eapply remembers_trans; [|by apply remembers_frame].
    eapply remembers_trans; [|apply remembers_ensure].
    apply remembers_frame; cbn; auto.
  - unfold Leave. st_simpl. destruct (_ !! _); [|apply remembers_refl]. st_simpl.
    eapply remembers_trans; [|apply remembers_emit]. by apply remembers_frame.
  - destruct (decide (clip t = [])) as [Hc|Hc];
      [unfold Post; rewrite decide_True by done; apply remembers_refl|].
    destruct (h_users h !! canonKey k) as [u|] eqn:E.
    + rewrite (Post_publish k t h u Hc E).
      eapply remembers_trans; [|apply remembers_publish].
      apply remembers_frame; cbn; auto.
    + unfold Post. rewrite decide_False by done. st_simpl. rewrite E. apply remembers_refl.
  - unfold Private. case_decide; [apply remembers_refl|]. st_simpl.
    destruct (_ !! _); [|apply remembers_refl].
    destruct (userPresentLocked _ _); [|apply remembers_refl].
    eapply remembers_trans; [|exact (remembers_publish e PrivateMessage _ _)].
    apply remembers_frame; cbn; auto.
  - unfold SetTopic. case_decide; [apply remembers_refl|]. st_simpl.
    destruct (_ !! _); [|apply remembers_refl]. case_decide; [apply remembers_refl|].
    st_simpl. eapply remembers_trans; [|apply remembers_emit].
    eapply remembers_trans; [|apply remembers_member].
    eapply remembers_trans; [|by apply remembers_frame].
    eapply remembers_trans; [|apply remembers_ensure]. by apply remembers_frame.
  - unfold SetInfo. st_simpl. destruct (_ !! _); [|apply remembers_refl].
    case_decide; [apply remembers_refl|]. st_simpl.
    eapply remembers_trans; [|apply remembers_emit]. by apply remembers_frame.
  - unfold SetFlags. st_simpl. destruct (_ !! _); [|apply remembers_refl].
    case_decide; [apply remembers_refl|]. st_simpl.
    eapply remembers_trans; [|apply remembers_emit]. by apply remembers_frame.
  - unfold LinkNode. case_decide; [apply remembers_refl|]. st_simpl. cbn [now fst snd].
    destruct (_ !! _); st_simpl; [apply remembers_frame; cbn; auto|].
    eapply remembers_trans; [|apply remembers_emit]. apply remembers_frame; cbn; auto.
  - unfold UnlinkNode. st_simpl. destruct (_ !! _); [|apply remembers_refl]. st_simpl.
    eapply remembers_trans; [|apply remembers_emit].
    destruct (drop_users_spec (List.filter (via_node (normCall c)) (map_to_list (h_users h)))
      (upd_nodes (delete (normCall c)) h)) as (_&_&_&_&_&_&E1&E2&E3&_).
    apply remembers_frame; [exact E1|exact E2|exact (Nat.eq_le_incl _ _ (eq_sym E3))].
  - apply remembers_SeenID.
  - by apply remembers_frame.
  - unfold cancel. st_simpl. case_decide; [by apply remembers_frame|apply remembers_refl].
  - unfold recv. st_simpl.
    destruct (_ !! _) as [[[|? ?] []]|]; try apply remembers_refl; by apply remembers_frame.
Qed.

Lemma remembers_execs e ops : ∀ h, remembers e h (execs ops h).
Proof.
  induction ops as [|op ops IH]; intros h; [apply remembers_refl|].
  eapply remembers_trans; [apply (remembers_exec e op)|apply (IH (exec op h))].
Qed.

(** Publishing makes the message's own id alive. *)
Lemma publish_alive ev m e h :
  (e ≤ h_clock h (h_tick h) + ss_ttl (h_seen h))%Z → alive (m_ID m) e (publish ev m h).2.
Proof.
  intros He. pose proof (publish_spec ev m h) as H. cbn zeta in H.
  destruct (SaveMessage (h_store h) m) as [s err]. rewrite H.
  assert (alive (m_ID m) e (SeenID (m_ID m) h).2) as Ha.
  { eexists. split; [apply Seen_entry|]. done. }
  by destruct err.
Qed.

(** An id alive at [e] is reported seen at any reading before [e]. *)
Lemma alive_seen id e h :
  alive id e h → (h_clock h (h_tick h) < e)%Z → (SeenID id h).1 = true.
Proof.
  intros (e' & E & Hle) Hlt.
  change ((Seen (h_clock h (h_tick h)) id (h_seen h)).1 = true).
  rewrite Seen_answer, E. apply Z.ltb_lt. lia.
Qed.

(** Nothing that runs after a publication makes its id forgotten in time. *)
Lemma publish_then_seen ev m h ops :
  mono_clock (h_clock h) → (m_Time m ≤ h_clock h (h_tick h))%Z →
  let h2 := execs ops (publish ev m h).2 in
  (h_clock h (h_tick h2) < m_Time m + ss_ttl (h_seen h))%Z →
  (SeenID (m_ID m) h2).1 = true.
Proof.
  intros Hm Ht h2 Hlt. set (e := (m_Time m + ss_ttl (h_seen h))%Z).
  destruct (remembers_publish e ev m h) as (C1 & T1 & L1 & _).
  destruct (remembers_execs e ops (publish ev m h).2) as (C2 & T2 & L2 & A2).
  fold h2 in C2, T2, L2, A2. rewrite C1 in C2, A2. rewrite L1 in A2.
  apply (alive_seen _ e); [|by rewrite C2]. apply A2; [done|..].
  - unfold e. pose proof (Hm (h_tick h) _ T1). lia.
  - intros i Hi. pose proof (Hm i (h_tick h2) ltac:(lia)). unfold e. lia.
  - apply publish_alive. unfold e. lia.
Qed.

End remember.

(** ** Helpers of the main theorems *)

Section outcome.
Context {St : Type} `{!Store St, !StoreLaws St}.
Implicit Types h : Hub St.

(** The log after a successful save of [m], which keeps its time as the store does
    (exactly, for the years an int64 of nanoseconds spans). *)
Definition logged (m : Message) (log : list Message) : list Message :=
  if decide (m_ID m ∈ m_ID <$> log) then log else log ++ [message_at store_time m].

(** What [publish] leaves behind, given what it answered. *)
Definition published (ev : Message → Event) (m : Message) h
    (res : Message + error) h' : Prop :=
  h_users h' = h_users h ∧
  match res with
  | inl m' => m' = m
      ∧ store_log (h_store h') = logged m (store_log (h_store h))
      ∧ ∀ id, h_chans h' !! id
              = (λ c, if decide (id ∈ h_subs h) then delivered [ev m] c else c)
                <$> h_chans h !! id
  | inr e => (SaveMessage (h_store h) m).2 = Some e
      ∧ store_log (h_store h') = store_log (h_store h) ∧ h_chans h' = h_chans h
  end.

Lemma publish_published ev m h :
  chan_wf (h_subs h) (h_chans h) (h_nextSub h) → store_ok (h_store h) → m_ID m ≠ [] →
  published ev m h (publish ev m h).1 (publish ev m h).2.
Proof.
  intros Hwf Hok Hid. pose proof (publish_spec ev m h) as H. cbn zeta in H.
  destruct (SaveMessage (h_store h) m) as [s err] eqn:E. rewrite H.
  assert ((SaveMessage (h_store h) m).2 = err) as E2 by (by rewrite E).
  assert (store_log s = store_log (SaveMessage (h_store h) m).1) as E1 by (by rewrite E).
  destruct err as [e|]; cbn [fst snd]; split; try done.
  - split_and!; [by rewrite E|by rewrite <- (save_failed _ _ e Hok E2)|done].
  - split; [done|]. split.
    + change (store_log s = logged m (store_log (h_store h))).
      rewrite E1. by rewrite (save_done _ _ Hok Hid E2).
    + intros id. rewrite emit_deliver by done. cbn [snd]. by rewrite deliver_lookup.
Qed.

Lemma delivered_room es c :
  (length (ch_buf c) + length es ≤ subBuffer)%nat →
  ch_buf (delivered es c) = ch_buf c ++ es.
Proof. intros H. unfold delivered. cbn [ch_buf]. apply take_ge. rewrite length_app. lia. Qed.

End outcome.

(** ** The main theorems *)

(** C30. Whatever sequence of hub operations runs on a new hub, over any store, the
    hub stays well-formed: users are keyed by their canonical identity, topic keys
    are the folded display names, each present user is a member of the topic their
    record names, the default topic exists, subscriptions are open channels within
    their capacity, and no operation panics (no write to a missing member set, no
    send on a closed channel). *)
Theorem hub_always_wf {St : Type} `{!Store St} our (store : St) clock ops :
  hub_wf (execs ops (NewHub our store clock)).
Proof. apply execs_wf, NewHub_wf. Qed.

(** C8. Presence is exact: in every run in which no present user re-joins under
    another topic, a topic query lists exactly the present users whose record names
    that topic, and the topic list's member counts are those listings' lengths. *)
Theorem presence_exact {St : Type} `{!Store St} our (store : St) clock ops :
  ops_safe ops (NewHub our store clock) →
  let h := execs ops (NewHub our store clock) in
  (∀ name u, u ∈ UsersInTopic h name
     ↔ h_users h !! Key u = Some u ∧ normTopicKey (u_Topic u) = normTopicKey name)
  ∧ (∀ t, t ∈ Topics h → t_Members t = length (UsersInTopic h (t_Name t))).
Proof.
  intros Hs h. destruct (NewHub_wf our store clock) as [Hwf He]. apply exact_queries.
  - by apply execs_wf.
  - by apply execs_exact.
Qed.

(** A user on node [GB7AAA-9] with nothing but an identity and a topic. *)
Definition sample_user (call topic : gostring) : User :=
  mkUser call [] [] (mkOrigin (bs "GB7AAA-9") true []) topic 0 0
    (mkUserFlags false false false false false).
Definition sample_key (call : gostring) : UserKey := mkUserKey call (bs "GB7AAA-9").
Definition sample_hub : Hub MemStore.MemStore :=
  NewHub (bs "gb7aaa-9") MemStore.NewMemStore (λ n, Z.of_nat n * 1000000000)%Z.

Definition sample_ops : list hub_op :=
  [OpJoin (sample_user (bs "m0abc") []); OpJoin (sample_user (bs "G4XYZ ") (bs "dx"));
   OpSubscribe; OpSetTopic (sample_key (bs "M0ABC")) (bs "DX");
   OpJoin (sample_user (bs "M0ABC") (bs "Dx"))].

Lemma presence_exact_witness :
  ops_safe sample_ops sample_hub
  ∧ ∀ u, u ∈ UsersInTopic (execs sample_ops sample_hub) (bs "dx") ↔
      h_users (execs sample_ops sample_hub) !! Key u = Some u
      ∧ normTopicKey (u_Topic u) = normTopicKey (bs "dx").
Proof.
  assert (ops_safe sample_ops sample_hub) as Hs.
  { cbn [ops_safe sample_ops op_safe]. split_and!; try exact I;
      intros v Hv; vm_compute in Hv; try discriminate Hv.
    injection Hv as <-. by vm_compute. }
  split; [exact Hs|].
  exact (proj1 (presence_exact (bs "gb7aaa-9") MemStore.NewMemStore
    (λ n, Z.of_nat n * 1000000000)%Z sample_ops Hs) (bs "dx")).
Defined.

(** The exception is real: a present user who joins again under another topic,
    and then leaves, stays counted in the topic of the first join, although nobody
    is present. *)
Theorem rejoin_leaves_ghost :
  let h := execs [OpJoin (sample_user (bs "M0ABC") (bs "DX"));
                  OpJoin (sample_user (bs "M0ABC") (bs "General"));
                  OpLeave (sample_key (bs "M0ABC"))] sample_hub in
  Users h = [] ∧ Topics h = [mkTopic (bs "DX") 1; mkTopic DefaultTopic 0].
Proof. by vm_compute. Qed.

(** C20. Posting. Exactly one of three things happens. Blank text is refused with no
    effect; so is an unknown sender; otherwise the message carries the clipped text
    (non-empty, trimmed, at most 2048 bytes), the sender's identity and topic and
    the id derived from them, and is published: appended to the store's log unless
    its id is already logged and offered once to every subscriber, or, when the
    store fails, reported and neither logged nor announced.  Of the users only the
    sender's last-active time changes. *)
Theorem Post_outcome {St : Type} `{!Store St, !StoreLaws St} k text (h : Hub St) :
  hub_wf h → store_ok (h_store h) →
  let res := (Post k text h).1 in let h' := (Post k text h).2 in
  (clip text = [] ∧ res = inr ErrEmptyText ∧ h' = h)
  ∨ (clip text ≠ [] ∧ UserOf h k = None ∧ res = inr ErrNoSuchUser ∧ h' = h)
  ∨ (clip text ≠ [] ∧ ∃ u m, UserOf h k = Some u
      ∧ m_Kind m = KindTopic ∧ m_Topic m = u_Topic u ∧ m_FromCall m = u_Call u
      ∧ m_OriginNode m = o_Node (u_Origin u) ∧ m_Text m = clip text
      ∧ (length (m_Text m) ≤ MaxText)%nat ∧ TrimSpace (m_Text m) = m_Text m
      ∧ m_ID m = SynthID (o_Node (u_Origin u)) (u_Call u) KindTopic (u_Topic u) (m_Text m)
      ∧ published TopicMessage m
          (upd_users <[canonKey k := user_active (h_clock h (h_tick h)) u]> h) res h').
Proof.
  intros Hwf Hok res h'. unfold res, h', UserOf. clear res h'.
  destruct (decide (clip text = [])) as [Hc|Hc].
  { left. unfold Post. by rewrite decide_True. }
  right. destruct (h_users h !! canonKey k) as [u|] eqn:E.
  - right. split; [done|]. rewrite (Post_publish k text h u Hc E).
    destruct (cw_key _ _ _ (hw_core _ Hwf) _ _ E) as (HK & _). rewrite <- HK.
    destruct (clip_bound text) as [Hb Ht].
    match goal with |- context [publish TopicMessage ?m ?h1] =>
      pose proof (publish_published TopicMessage m h1 (hw_chans _ Hwf) Hok
        (SynthID_nonempty _ _ _ _ _)) as HP; exists u, m end.
    split_and!; try done; apply HP.
  - left. split_and!; try done; unfold Post; rewrite decide_False by done; st_simpl;
      by rewrite E.
Qed.

Definition sample_posted : Hub MemStore.MemStore :=
  execs [OpJoin (sample_user (bs "M0ABC") (bs "DX")); OpSubscribe] sample_hub.

Lemma Post_outcome_witness :
  let h := sample_posted in
  hub_wf h ∧ store_ok (h_store h)
  ∧ ((clip (bs " 73 ") = [] ∧ (Post (sample_key (bs "m0abc")) (bs " 73 ") h).1 = inr ErrEmptyText
      ∧ (Post (sample_key (bs "m0abc")) (bs " 73 ") h).2 = h)
    ∨ (clip (bs " 73 ") ≠ [] ∧ UserOf h (sample_key (bs "m0abc")) = None
       ∧ (Post (sample_key (bs "m0abc")) (bs " 73 ") h).1 = inr ErrNoSuchUser
       ∧ (Post (sample_key (bs "m0abc")) (bs " 73 ") h).2 = h)
    ∨ ∃ u, UserOf h (sample_key (bs "m0abc")) = Some u).
Proof.
  intros h. assert (hub_wf h) as Hwf by (apply execs_wf, NewHub_wf).
  assert (store_ok (h_store h)) as Hok by (apply MemStore.NewMemStore_ok).
  split; [exact Hwf|split; [exact Hok|]].
  destruct (Post_outcome (sample_key (bs "m0abc")) (bs " 73 ") h Hwf Hok)
    as [H|[H|(_ & u & m & H & _)]]; [left; exact H|right; left; exact H|].
  right; right. by exists u.
Defined.

(** Private messages.  Blank text, an absent sender and an addressee who is
    present on no node are refused with no effect; otherwise the message goes from
    the sender's identity to the upper-cased callsign, carries the clipped text and
    the id derived from them, and is published like a post, with no user changed. *)
Theorem Private_outcome {St : Type} `{!Store St, !StoreLaws St} k toCall text (h : Hub St) :
  hub_wf h → store_ok (h_store h) →
  let res := (Private k toCall text h).1 in let h' := (Private k toCall text h).2 in
  let present := ∃ v, h_users h !! Key v = Some v ∧ u_Call v = normCall toCall in
  (clip text = [] ∧ res = inr ErrEmptyText ∧ h' = h)
  ∨ (clip text ≠ [] ∧ (UserOf h k = None ∨ ¬ present) ∧ res = inr ErrNoSuchUser ∧ h' = h)
  ∨ (clip text ≠ [] ∧ present ∧ ∃ u m, UserOf h k = Some u
      ∧ m_Kind m = KindPrivate ∧ m_Topic m = [] ∧ m_FromCall m = u_Call u
      ∧ m_OriginNode m = o_Node (u_Origin u) ∧ m_ToCall m = normCall toCall
      ∧ m_Text m = clip text
      ∧ m_ID m = SynthID (o_Node (u_Origin u)) (u_Call u) KindPrivate (m_ToCall m) (m_Text m)
      ∧ published PrivateMessage m h res h').
Proof.
  intros Hwf Hok res h' present. unfold res, h', UserOf. clear res h'.
  assert (userPresentLocked (h_users h) (normCall toCall) = true ↔ present) as Hp.
  { rewrite userPresentLocked_spec. split.
    - intros (k' & v & Hv & Hc). destruct (cw_key _ _ _ (hw_core _ Hwf) _ _ Hv) as (<- & _).
      by exists v.
    - intros (v & Hv & Hc). by exists (Key v), v. }
  destruct (decide (clip text = [])) as [Hc|Hc].
  { left. unfold Private. by rewrite decide_True. }
  right. destruct (h_users h !! canonKey k) as [u|] eqn:E.
  2:{ left. split_and!; try done; [by left|..]; unfold Private; rewrite decide_False by done;
        st_simpl; by rewrite E. }
  destruct (userPresentLocked (h_users h) (normCall toCall)) eqn:Ep.
  - right. split; [done|]. split; [by apply Hp|].
    rewrite (Private_publish k toCall text h u Hc E Ep).
    destruct (cw_key _ _ _ (hw_core _ Hwf) _ _ E) as (HK & _). rewrite <- HK.
    match goal with |- context [publish PrivateMessage ?m ?h1] =>
      pose proof (publish_published PrivateMessage m h1 (hw_chans _ Hwf) Hok
        (SynthID_nonempty _ _ _ _ _)) as HP; exists u, m end.
    split_and!; try done; apply HP.
  - left. split; [done|]. split; [right; intros ?%Hp; congruence|].
    unfold Private. rewrite decide_False by done. st_simpl. by rewrite E, Ep.
Qed.

Lemma Private_outcome_witness :
  let h := sample_posted in
  hub_wf h ∧ store_ok (h_store h) ∧
  ((clip (bs "hi") = [] ∧ (Private (sample_key (bs "M0ABC")) (bs "G4XYZ") (bs "hi") h).1
      = inr ErrEmptyText)
   ∨ (Private (sample_key (bs "M0ABC")) (bs "G4XYZ") (bs "hi") h).1 = inr ErrNoSuchUser
   ∨ ∃ u, UserOf h (sample_key (bs "M0ABC")) = Some u).
Proof.
  intros h. assert (hub_wf h) as Hwf by (apply execs_wf, NewHub_wf).
  assert (store_ok (h_store h)) as Hok by (apply MemStore.NewMemStore_ok).
  split; [exact Hwf|split; [exact Hok|]].
  destruct (Private_outcome (sample_key (bs "M0ABC")) (bs "G4XYZ") (bs "hi") h Hwf Hok)
    as [(H & H' & _)|[(_ & _ & H & _)|(_ & _ & u & m & H & _)]].
  - left. by split.
  - right. by left.
  - right. right. by exists u.
Defined.

(** C9. Loopback suppression: after a post or a private message that returned [m],
    whatever runs in between, a record with the id the hub gave [m] is reported as
    already seen, as long as the clock (which never goes backwards) has not advanced by the
    ten-minute time to live since [m] was stamped.  (Which copies from the mesh bear that
    id is [relayed_id_agrees].) *)
Theorem own_message_loopback_dropped {St : Type} `{!Store St} our (store : St) clock
    ops1 (send : Hub St → (Message + error) * Hub St) k to text m ops2 :
  mono_clock clock →
  send = Post k text ∨ send = Private k to text →
  let h0 := execs ops1 (NewHub our store clock) in
  (send h0).1 = inl m →
  let h := execs ops2 (send h0).2 in
  (clock (h_tick h) < m_Time m + DefaultSeenTTL)%Z →
  (SeenID (m_ID m) h).1 = true.
Proof.
  intros Hm Hsend h0 Hres h Hlt.
  destruct (remembers_execs 0%Z ops1 (NewHub our store clock)) as (C0 & T0 & L0 & _).
  fold h0 in C0, T0, L0. change (h_clock h0 = clock) in C0.
  change (ss_ttl (h_seen h0) = DefaultSeenTTL) in L0.
  assert (∃ ev m' h1, send h0 = publish ev m' h1 ∧ h_clock h1 = clock
      ∧ ss_ttl (h_seen h1) = DefaultSeenTTL ∧ (m_Time m' ≤ clock (h_tick h1))%Z)
    as (ev & m' & h1 & Es & C1 & L1 & Ht).
  { destruct (decide (clip text = [])) as [Hc|Hc].
    { exfalso. destruct Hsend as [->| ->]; revert Hres; unfold Post, Private;
        by rewrite decide_True. }
    destruct (h_users h0 !! canonKey k) as [u|] eqn:E.
    2:{ exfalso. destruct Hsend as [->| ->]; revert Hres; unfold Post, Private;
          rewrite decide_False by done; st_simpl; by rewrite E. }
    destruct Hsend as [->| ->].
    - rewrite (Post_publish k text h0 u Hc E). do 3 eexists. split_and!; [done|..]; try done.
      cbn. rewrite C0. apply Hm. lia.
    - destruct (userPresentLocked (h_users h0) (normCall to)) eqn:Ep.
      + rewrite (Private_publish k to text h0 u Hc E Ep). do 3 eexists.
        split_and!; [done|..]; try done. cbn. rewrite C0. apply Hm. lia.
      + exfalso. revert Hres. unfold Private. rewrite decide_False by done. st_simpl.
        by rewrite E, Ep. }
  assert (m' = m) as ->.
  { rewrite Es in Hres. pose proof (publish_spec ev m' h1) as H. cbn zeta in H.
    destruct (SaveMessage (h_store h1) m') as [s err]. rewrite H in Hres.
    destruct err; by simplify_eq/=. }
  unfold h in *. rewrite Es in *. apply publish_then_seen; rewrite ?C1, ?L1; done.
Qed.

Lemma own_message_loopback_dropped_witness :
  let clock := (λ n, Z.of_nat n * 1000000000)%Z in
  ∃ m, (SeenID (m_ID m) (execs [OpLeave (sample_key (bs "M0ABC"))]
         (Post (sample_key (bs "M0ABC")) (bs "hello") sample_posted).2)).1 = true
    ∧ m_Text m = bs "hello" ∧ mono_clock clock.
Proof.
  intros clock. assert (mono_clock clock) as Hm by (intros i j ?; unfold clock; lia).
  destruct (Post (sample_key (bs "M0ABC")) (bs "hello") sample_posted).1 as [m|] eqn:E;
    [|exfalso; revert E; vm_compute; discriminate].
  exists m. split; [|split; [|exact Hm]].
  - apply (own_message_loopback_dropped (bs "gb7aaa-9") MemStore.NewMemStore clock
      [OpJoin (sample_user (bs "M0ABC") (bs "DX")); OpSubscribe]
      (Post (sample_key (bs "M0ABC")) (bs "hello")) (sample_key (bs "M0ABC")) []
      (bs "hello") m [OpLeave (sample_key (bs "M0ABC"))] Hm (or_introl eq_refl) E).
    vm_compute in E. injection E as <-. by vm_compute.
  - vm_compute in E. injection E as <-. by vm_compute.
Defined.

(** What unlinking a node does. *)
Lemma UnlinkNode_spec {St : Type} `{!Store St} c (h : Hub St) :
  hub_wf h →
  let h' := (UnlinkNode c h).2 in
  match h_nodes h !! normCall c with
  | None => UnlinkNode c h = (false, h)
  | Some n =>
      (UnlinkNode c h).1 = true ∧ h_nodes h' = delete (normCall c) (h_nodes h)
      ∧ (∀ k u, h_users h' !! k = Some u ↔
           h_users h !! k = Some u
           ∧ o_Link (u_Origin u) ≠ normCall c ∧ o_Node (u_Origin u) ≠ normCall c)
      ∧ ∃ left, NoDup left
          ∧ (∀ u, u ∈ left ↔ h_users h !! Key u = Some u
               ∧ (o_Link (u_Origin u) = normCall c ∨ o_Node (u_Origin u) = normCall c))
          ∧ ∀ id, h_chans h' !! id
              = (λ ch, if decide (id ∈ h_subs h)
                       then delivered ((UserLeft <$> left) ++ [NodeUnlinked n]) ch else ch)
                <$> h_chans h !! id
  end.
Proof.
  intros Hwf h'. unfold h', UnlinkNode. clear h'. st_simpl.
  destruct (h_nodes h !! normCall c) as [n|]; [|done]. st_simpl.
  change (h_users (upd_nodes _ h)) with (h_users h).
  set (left := List.filter (via_node (normCall c)) (map_to_list (h_users h))).
  destruct (drop_users_spec left (upd_nodes (delete (normCall c)) h))
    as (Hu & _ & En & _ & Es & Ec & _ & _ & _ & Ex).
  assert (∀ k u, (k, u) ∈ left ↔ h_users h !! k = Some u
      ∧ (o_Link (u_Origin u) = normCall c ∨ o_Node (u_Origin u) = normCall c)) as Hl.
  { intros k u. unfold left. rewrite filter_map_to_list_lookup. cbn. unfold via_node. cbn.
    by rewrite orb_true_iff, !bool_decide_eq_true. }
  rewrite emit_deliver by (rewrite Es, Ec, Ex; apply Hwf).
  split; [done|]. split; [exact En|]. split.
  - intros k u. change (h_users (deliver ?x ?y)) with (h_users y). rewrite Hu. cbn.
    case_decide as Hin.
    + apply list_elem_of_fmap in Hin as ([k' v] & -> & Hin). apply Hl in Hin as [Hv Hvia].
      cbn. split; [done|]. intros (Hv' & ? & ?). naive_solver.
    + split; [|by intros [? _]]. intros Hk. split; [done|].
      assert (¬ (k, u) ∈ left) as Hn.
      { intros H. apply Hin. exact (list_elem_of_fmap_2 fst left (k, u) H). }
      rewrite Hl in Hn. naive_solver.
  - assert (∀ u, u ∈ left.*2 ↔ (Key u, u) ∈ left) as Hk.
    { intros u. rewrite list_elem_of_fmap. split.
      - intros ([k v] & -> & Hin). cbn.
        destruct (proj1 (Hl k v) Hin) as [Hv _].
        by destruct (cw_key _ _ _ (hw_core _ Hwf) _ _ Hv) as [-> _].
      - intros Hin. by exists (Key u, u). }
    exists left.*2. split_and!.
    + apply NoDup_fmap_2_strong.
      * intros [k1 u1] [k2 u2] H1 H2 E. cbn in E. subst u2.
        apply Hl in H1 as [H1 _]. apply Hl in H2 as [H2 _].
        destruct (cw_key _ _ _ (hw_core _ Hwf) _ _ H1) as [<- _].
        destruct (cw_key _ _ _ (hw_core _ Hwf) _ _ H2) as [<- _]. done.
      * apply (NoDup_fmap_1 fst), filter_map_to_list_NoDup.
    + intros u. rewrite Hk. apply Hl.
    + intros id. rewrite deliver_lookup, Es, Ec. by rewrite <- list_fmap_compose.
Qed.

(** The link-drop cascade.  Unlinking a known node forgets the node and exactly
    the users whose origin or receiving link is that node, and offers every
    subscriber one [UserLeft] for each of them, in some order, before the
    [NodeUnlinked]; unlinking an unknown node does nothing. *)
Theorem UnlinkNode_cascade {St : Type} `{!Store St} c (h : Hub St) :
  hub_wf h →
  let h' := (UnlinkNode c h).2 in
  match h_nodes h !! normCall c with
  | None => UnlinkNode c h = (false, h)
  | Some n =>
      (UnlinkNode c h).1 = true ∧ h_nodes h' = delete (normCall c) (h_nodes h)
      ∧ (∀ k u, h_users h' !! k = Some u ↔
           h_users h !! k = Some u
           ∧ o_Link (u_Origin u) ≠ normCall c ∧ o_Node (u_Origin u) ≠ normCall c)
      ∧ ∃ left, NoDup left
          ∧ (∀ u, u ∈ left ↔ h_users h !! Key u = Some u
               ∧ (o_Link (u_Origin u) = normCall c ∨ o_Node (u_Origin u) = normCall c))
          ∧ ∀ id, h_chans h' !! id
              = (λ ch, if decide (id ∈ h_subs h)
                       then delivered ((UserLeft <$> left) ++ [NodeUnlinked n]) ch else ch)
                <$> h_chans h !! id
  end.
Proof. apply UnlinkNode_spec. Qed.

Lemma UnlinkNode_cascade_witness :
  let h := execs [OpLinkNode (bs "gb7bbb-9") [] []; OpJoin (sample_user (bs "M0ABC") [])]
             sample_hub in
  hub_wf h ∧ (UnlinkNode (bs "GB7BBB-9") h).1 = true.
Proof.
  intros h. assert (hub_wf h) as Hwf by (apply execs_wf, NewHub_wf).
  split; [exact Hwf|]. pose proof (UnlinkNode_cascade (bs "GB7BBB-9") h Hwf) as H.
  cbn zeta in H. destruct (h_nodes h !! normCall (bs "GB7BBB-9")) as [n|] eqn:E.
  - exact (proj1 H).
  - exfalso. revert E. vm_compute. discriminate.
Defined.

(** The roster queries are sorted snapshots: [Users] is a duplicate-free listing
    of exactly the present users in callsign-then-node order, [UsersInTopic] is in
    callsign order, [Topics] in name order, and [Nodes] lists exactly the known
    nodes in callsign order. *)
Theorem snapshots_sorted {St : Type} `{!Store St} our (store : St) clock ops :
  let h := execs ops (NewHub our store clock) in
  (NoDup (Users h) ∧ Sorted user_le (Users h)
   ∧ ∀ u, u ∈ Users h ↔ h_users h !! Key u = Some u)
  ∧ (∀ name, Sorted call_le (UsersInTopic h name))
  ∧ Sorted topic_le (Topics h)
  ∧ Sorted node_le (Nodes h)
  ∧ (∀ n, n ∈ Nodes h ↔ h_nodes h !! n_Call n = Some n).
Proof.
  intros h. assert (hub_wf h) as Hwf by (apply execs_wf, NewHub_wf).
  assert (Total user_le) as Hu.
  { intros u v. unfold user_le. repeat case_decide; try congruence; apply str_le_total. }
  assert (Total call_le) as Hc by (intros u v; apply str_le_total).
  assert (Total topic_le) as Ht by (intros u v; apply str_le_total).
  assert (Total node_le) as Hn by (intros u v; apply str_le_total).
  split_and!; try (intros; apply Sorted_merge_sort; done).
  - unfold Users. rewrite merge_sort_Permutation. apply NoDup_fmap_2_strong.
    + intros [k1 u1] [k2 u2] H1 H2 E. cbn in E. subst u2.
      apply elem_of_map_to_list in H1, H2.
      destruct (cw_key _ _ _ (hw_core _ Hwf) _ _ H1) as [<- _].
      destruct (cw_key _ _ _ (hw_core _ Hwf) _ _ H2) as [<- _]. done.
    + apply NoDup_map_to_list.
  - intros u. unfold Users. rewrite merge_sort_Permutation, list_elem_of_fmap. split.
    + intros ([k v] & -> & H). apply elem_of_map_to_list in H. cbn.
      by destruct (cw_key _ _ _ (hw_core _ Hwf) _ _ H) as [-> _].
    + intros H. exists (Key u, u). split; [done|]. by apply elem_of_map_to_list.
  - intros n. unfold Nodes. rewrite merge_sort_Permutation, list_elem_of_fmap. split.
    + intros ([k v] & -> & H). apply elem_of_map_to_list in H. cbn.
      by destruct (hw_nodes _ Hwf _ _ H) as [-> _].
    + intros H. exists (n_Call n, n). split; [done|]. by apply elem_of_map_to_list.
Qed.

(** A synthetic id identifies its message: two messages whose node, callsign and
    scope hold no NUL byte and whose ids are equal have the same normalised node and
    callsign, the same kind, the same scope up to case and the same trimmed text,
    unless SHA-256 collides on their preimages; and the id ignores exactly those
    normalisations. *)
Theorem SynthID_faithful n1 c1 k1 s1 t1 n2 c2 k2 s2 t2 :
  Forall (λ s, NUL ∉ s) [n1; c1; s1; n2; c2; s2] →
  let same := normCall n1 = normCall n2 ∧ normCall c1 = normCall c2 ∧ k1 = k2
              ∧ ToLower s1 = ToLower s2 ∧ normText t1 = normText t2 in
  let p1 := synth_preimage n1 c1 k1 s1 t1 in
  let p2 := synth_preimage n2 c2 k2 s2 t2 in
  (same → SynthID n1 c1 k1 s1 t1 = SynthID n2 c2 k2 s2 t2)
  ∧ (SynthID n1 c1 k1 s1 t1 = SynthID n2 c2 k2 s2 t2 →
     same ∨ (p1 ≠ p2 ∧ Sha256.sha256 p1 = Sha256.sha256 p2)).
Proof.
  intros HN same p1 p2. repeat (apply Forall_cons in HN as [? HN]). split.
  - intros (E1 & E2 & E3 & E4 & E5). unfold SynthID, synth_preimage. by rewrite E1, E2, E3, E4, E5.
  - intros E. unfold SynthID in E. apply Sha256.hex_encode_inj in E.
    destruct (decide (p1 = p2)) as [Ep|Ep]; [left|by right].
    by apply synth_preimage_inj in Ep.
Qed.

Lemma SynthID_faithful_witness :
  Forall (λ s, NUL ∉ s) [bs "gb7aaa"; bs "M0ABC"; bs "General"; bs "GB7AAA"; bs "m0abc"; bs "GENERAL"]
  ∧ SynthID (bs "gb7aaa") (bs "M0ABC") KindTopic (bs "General") (bs "hello ")
    = SynthID (bs "GB7AAA") (bs "m0abc") KindTopic (bs "GENERAL") (bs " hello").
Proof.
  assert (Forall (λ s, NUL ∉ s) [bs "gb7aaa"; bs "M0ABC"; bs "General"; bs "GB7AAA"; bs "m0abc"; bs "GENERAL"])
    as H by (apply Forall_forall; intros s Hs; revert s Hs; apply Forall_forall;
             repeat constructor; by apply (bool_decide_unpack _)).
  split; [exact H|].
  apply (proj1 (SynthID_faithful _ _ KindTopic _ (bs "hello ") _ _ KindTopic _ (bs " hello") H)).
  by vm_compute.
Defined.
