(* ===== verification/PeerProto.v ===== *)
(** * The inter-node wire protocol ([internal/peer/proto.go])

    Control records, their decoder and their builders.  A record line is FORMAT
    (0x01), a type byte and space-separated fields; the CR terminator belongs to
    the link.  The round-trip lemmas say what survives the wire: words exactly,
    free text up to runs of whitespace. *)
From S2P Require Import Prelude Unicode GoStrings ChatModel.
From stdpp Require Import options.
Local Open Scope Z_scope.

Definition FORMAT : byte := zb 1.

Definition IDJoin : byte := zb 74.
Definition IDLeave : byte := zb 76.
Definition IDLink : byte := zb 78.
Definition IDUnlink : byte := zb 81.
Definition IDData : byte := zb 68.
Definition IDSend : byte := zb 83.
Definition IDTopic : byte := zb 84.
Definition IDUser : byte := zb 73.
Definition IDKeepalive : byte := zb 75.
Definition IDPoll : byte := zb 80.
Definition IDPollResp : byte := zb 82.

Definition rtlLogin : gostring := bs "*RTL".
Definition bannerPrefix : gostring := bs "[BPQCHATSERVER-".
Definition banner : gostring := bannerPrefix ++ bs "pdn]".
Definition Banner : gostring := banner.

Definition isBanner (line : gostring) : bool :=
  (length bannerPrefix <=? length line)%nat
  && EqualFold (take (length bannerPrefix) line) bannerPrefix.

Definition IsRTL (line : gostring) : bool := EqualFold (TrimSpace line) rtlLogin.

(** The Go struct [Record] (a keyword of Rocq). *)
Record WireRecord := mkWireRecord {
  r_Raw : gostring;
  r_Type : byte;
  r_Node : gostring;
  r_User : gostring;
  r_Args : list gostring }.

Definition Field (r : WireRecord) (i : nat) : gostring := nth i (r_Args r) [].

Definition SP : byte := zb 32.
Definition TAB : byte := zb 9.

Definition Tail (r : WireRecord) (i : nat) : gostring :=
  if (i <? length (r_Args r))%nat then Join (drop i (r_Args r)) [SP] else [].

Definition IsControl (line : gostring) : bool :=
  match line with
  | b :: _ :: _ => bz b =? bz FORMAT
  | _ => false
  end.

(** The loop of [Decode]: TAB becomes a space, another control byte (but FORMAT)
    rejects the record. *)
Fixpoint scrub (body : gostring) : option gostring :=
  match body with
  | [] => Some []
  | c :: body' =>
      if bz c =? bz TAB then cons SP <$> scrub body'
      else if (bz c <? 32) && negb (bz c =? bz FORMAT) then None
      else cons c <$> scrub body'
  end.

Definition Decode (line : gostring) : option WireRecord :=
  if negb (IsControl line) then None else
  match line with
  | _ :: typ :: body =>
      match scrub body with
      | None => None
      | Some b =>
          match Fields b with
          | node :: user :: args =>
              Some (mkWireRecord line typ (ToUpper node) (ToUpper user) args)
          | _ => None
          end
      end
  | _ => None
  end.

Definition encode (typ : byte) (node user : gostring) (rest : list gostring) : gostring :=
  [FORMAT; typ] ++ node ++ [SP] ++ user ++ concat ((λ f, SP :: f) <$> rest).

Definition orDash (s : gostring) : gostring :=
  if decide (TrimSpace s = []) then bs "?" else ReplaceByte SP (zb 95) s.

Definition unDash (s : gostring) : gostring :=
  if decide (s = bs "?") then [] else ReplaceByte (zb 95) SP s.

Definition encodeData (node user text : gostring) : gostring :=
  encode IDData node user [text].
Definition encodeJoin (node user name qth : gostring) : gostring :=
  encode IDJoin node user [orDash name; orDash qth].
Definition encodeLeave (node user name qth : gostring) : gostring :=
  encode IDLeave node user [orDash name; orDash qth].
Definition encodeTopic (node user topic : gostring) : gostring :=
  encode IDTopic node user [topic].
Definition encodeSend (node user target text : gostring) : gostring :=
  encode IDSend node user [target; text].
Definition encodeKeepalive (node link version : gostring) : gostring :=
  encode IDKeepalive node link [version].
Definition encodePollResp (node link : gostring) : gostring := encode IDPollResp node link [].

(** ** Lemmas *)

(** Bytes [Decode] lets through. *)
Definition clean_byte (c : byte) : Prop := 32 ≤ bz c ∨ c = FORMAT ∨ c = TAB.
Abbreviation clean := (Forall clean_byte).

Lemma scrub_clean s : clean s → scrub s = Some (ReplaceByte TAB SP s).
Proof.
  induction 1 as [|c s Hc _ IH]; [done|]. cbn [scrub].
  unfold ReplaceByte in *. rewrite fmap_cons. cbn beta. rewrite IH. cbn.
  destruct (Z.eqb_spec (bz c) (bz TAB)) as [E|E]; [done|].
  destruct Hc as [Hc|[->| ->]]; [|done|done].
  by rewrite (proj2 (Z.ltb_ge (bz c) 32)).
Qed.

Lemma scrub_None s : scrub s = None ↔ ¬ clean s.
Proof.
  induction s as [|c s IH]; cbn [scrub].
  - split; [done|]. intros H. exfalso. by apply H.
  - rewrite Forall_cons. unfold clean_byte at 1.
    destruct (Z.eqb_spec (bz c) (bz TAB)) as [E|E].
    + apply bz_inj in E. rewrite fmap_None, IH. naive_solver.
    + destruct (Z.ltb_spec (bz c) 32); cbn [andb].
      * destruct (Z.eqb_spec (bz c) (bz FORMAT)) as [E'|E']; cbn [negb].
        -- apply bz_inj in E'. rewrite fmap_None, IH. naive_solver.
        -- split; [|done]. intros _ [[?|[->| ->]] _]; [lia|done|done].
      * rewrite fmap_None, IH. naive_solver.
Qed.

(** Replacing one separator byte by another splits the string at it. *)
Lemma ReplaceByte_Join a b s : ReplaceByte a b s = Join (Split s a) [b].
Proof.
  unfold ReplaceByte. induction s as [|c s IH]; [done|]. rewrite fmap_cons, IH.
  cbn [Split]. pose proof (Split_nonempty s a).
  destruct (Z.eqb_spec (bz c) (bz a)).
  - by destruct (Split s a).
  - destruct (Split s a) as [|w [|w' l]]; done.
Qed.

Lemma FieldsFunc_Join_concat p c ws :
  bz c < 128 → p (bz c) = true → ws ≠ [] →
  FieldsFunc p (Join ws [c]) = concat (FieldsFunc p <$> ws).
Proof.
  intros Hc Hp. induction ws as [|w ws IH]; [done|]. intros _.
  destruct ws as [|w' ws].
  { rewrite fmap_cons. cbn [Join concat]. by rewrite app_nil_r. }
  change (Join (w :: w' :: ws) [c]) with (w ++ c :: Join (w' :: ws) [c]).
  rewrite FieldsFunc_sep, IH by done. done.
Qed.

(** TABs and spaces separate fields alike. *)
Lemma Fields_untab s : Fields (ReplaceByte TAB SP s) = Fields s.
Proof.
  rewrite ReplaceByte_Join. rewrite <- (Join_Split s TAB) at 2.
  unfold Fields. rewrite !FieldsFunc_Join_concat; try done; apply Split_nonempty.
Qed.

Lemma Fields_spaced s rest :
  Fields (s ++ concat ((λ f, SP :: f) <$> rest)) = Fields s ++ concat (Fields <$> rest).
Proof.
  revert s. induction rest as [|f rest IH]; intros s; [cbn; by rewrite !app_nil_r|].
  rewrite !fmap_cons. cbn [concat]. cbn [app]. rewrite <- IH.
  exact (FieldsFunc_sep is_space s SP _ eq_refl eq_refl).
Qed.

(** What [encode] puts on the wire, [Decode] reads back. *)
Lemma Decode_encode_fields typ node user rest :
  is_word node → is_word user → clean node → clean user → Forall clean rest →
  Decode (encode typ node user rest)
  = Some (mkWireRecord (encode typ node user rest) typ (ToUpper node) (ToUpper user)
      (concat (Fields <$> rest))).
Proof.
  intros Hn Hu Cn Cu Cr. unfold Decode.
  assert (IsControl (encode typ node user rest) = true) as -> by done. cbn [negb].
  unfold encode at 1. cbn [app].
  assert (clean (node ++ SP :: user ++ concat ((λ f, SP :: f) <$> rest))) as Hc.
  { assert (clean_byte SP) as Hsp by (left; done).
    apply Forall_app; split; [done|]. apply Forall_cons; split; [done|].
    apply Forall_app; split; [done|].
    induction Cr as [|f rest Cf _ IH]; [constructor|]. rewrite fmap_cons. cbn [concat app].
    apply Forall_cons; split; [done|]. by apply Forall_app. }
  rewrite (scrub_clean _ Hc), Fields_untab.
  assert (Fields (node ++ SP :: user ++ concat ((λ f, SP :: f) <$> rest))
    = node :: user :: concat (Fields <$> rest)) as ->; [|done].
  transitivity (Fields node ++ Fields (user ++ concat ((λ f, SP :: f) <$> rest))).
  - exact (FieldsFunc_sep is_space node SP _ eq_refl eq_refl).
  - by rewrite Fields_spaced, !Fields_word.
Qed.

(** What every decoded record is like. *)
Record record_wf (r : WireRecord) : Prop := {
  rw_node : is_word (r_Node r);
  rw_user : is_word (r_User r);
  rw_node_norm : normCall (r_Node r) = r_Node r;
  rw_user_norm : normCall (r_User r) = r_User r;
  rw_args : Forall is_word (r_Args r) }.

Lemma ToUpper_word w : is_word w → is_word (ToUpper w) ∧ normCall (ToUpper w) = ToUpper w.
Proof.
  intros Hw. assert (is_word (ToUpper w)) as H by (apply str_map_word; [apply upper_mapping|done]).
  split; [done|]. unfold normCall. by rewrite (TrimSpace_word _ H), ToUpper_idemp.
Qed.

Lemma Decode_Some line r :
  Decode line = Some r → record_wf r ∧ r_Raw r = line
  ∧ ∃ body, line = [FORMAT; r_Type r] ++ body ∧ clean body.
Proof.
  unfold Decode. destruct (IsControl line) eqn:Ec; [|done]. cbn [negb].
  destruct line as [|f [|typ body]]; [done..|]. cbn [IsControl] in Ec.
  apply Z.eqb_eq, bz_inj in Ec as ->.
  destruct (scrub body) as [b|] eqn:Es; [|done].
  pose proof (Fields_words b) as Hw. destruct (Fields b) as [|n [|u args]]; [done..|].
  intros [= <-]. apply Forall_cons in Hw as [Hn Hw]. apply Forall_cons in Hw as [Hu Hw].
  destruct (ToUpper_word n Hn), (ToUpper_word u Hu).
  split; [by split|]. split; [done|]. exists body. split; [done|].
  destruct (decide (scrub body = None)) as [Hs|Hs]; [congruence|].
  rewrite scrub_None in Hs.
  assert (Decision (clean body)) as [|] by apply _; done.
Qed.

(** [Tail] rejoins the fields of a text. *)
Lemma Tail_Join r i args :
  r_Args r = args → Tail r i = Join (drop i args) [SP].
Proof.
  intros <-. unfold Tail. destruct (Nat.ltb_spec i (length (r_Args r))); [done|].
  by rewrite drop_ge.
Qed.

(** [Join] of a clean list. *)
Lemma runes_Join P c ws :
  bz c < 128 → Forall (λ w, Forall P (runes w)) ws → P (bz c) →
  Forall P (runes (Join ws [c])).
Proof.
  intros Hc HF HP. induction HF as [|w ws Hw HF IH]; [constructor|].
  destruct ws as [|w' ws]; [done|].
  change (Join (w :: w' :: ws) [c]) with (w ++ c :: Join (w' :: ws) [c]).
  unfold runes. rewrite segs_app by (left; done). rewrite segs_ascii by done.
  rewrite fmap_app. apply Forall_app. split; [done|]. rewrite fmap_cons.
  by apply Forall_cons.
Qed.

Lemma runes_Split P c s :
  bz c < 128 → Forall P (runes s) → Forall (λ w, Forall P (runes w)) (Split s c).
Proof.
  intros Hc. rewrite <- (Join_Split s c) at 1. induction (Split s c) as [|w ws IH]; [constructor|].
  destruct ws as [|w' ws]; [intros H; by repeat constructor|].
  change (Join (w :: w' :: ws) [c]) with (w ++ c :: Join (w' :: ws) [c]).
  unfold runes at 1. rewrite segs_app by (left; done). rewrite segs_ascii by done.
  rewrite fmap_app, fmap_cons, Forall_app, Forall_cons. intros (? & ? & ?).
  constructor; [done|]. by apply IH.
Qed.

(** A name the wire keeps: blank, or without underscores and without whitespace
    other than spaces, and not the placeholder itself. *)
Definition plain_name (s : gostring) : Prop :=
  TrimSpace s = []
  ∨ (Forall (λ r, is_space r = true → r = 32) (runes s) ∧ (zb 95 ∉ s) ∧ (s ≠ bs "?") ∧ clean s).

Lemma ReplaceByte_back a b s : b ∉ s → ReplaceByte b a (ReplaceByte a b s) = s.
Proof.
  intros Hb. unfold ReplaceByte. rewrite <- list_fmap_compose.
  rewrite <- (list_fmap_id s) at 2. apply list_fmap_ext. intros i c Hc. cbn.
  apply list_elem_of_lookup_2 in Hc.
  destruct (Z.eqb_spec (bz c) (bz a)) as [E|E].
  - rewrite Z.eqb_refl. symmetry. by apply bz_inj.
  - destruct (Z.eqb_spec (bz c) (bz b)) as [E'|E']; [|done].
    apply bz_inj in E'. congruence.
Qed.

Lemma orDash_word s : plain_name s → is_word (orDash s) ∧ clean (orDash s).
Proof.
  unfold orDash. case_decide as Hs.
  - intros _. split; [|by repeat (constructor; [left; vm_compute; congruence|])].
    split; [done|]. by apply (bool_decide_unpack _).
  - intros [?|(Hr & Hu & Hq & Hc)]; [done|]. split; [split|].
    + intros E. apply fmap_nil_inv in E. subst s. by rewrite TrimSpace_empty in Hs.
    + rewrite ReplaceByte_Join. apply runes_Join; [done| |done].
      pose proof (Split_clean s SP) as Hsp.
      pose proof (runes_Split _ SP s eq_refl Hr) as Hsr.
      revert Hsp Hsr. rewrite !Forall_forall. intros Hsp Hsr w Hw.
      specialize (Hsp w Hw). specialize (Hsr w Hw). rewrite Forall_forall in Hsr |- *.
      intros r Hin. destruct (is_space r) eqn:Er; [|done]. exfalso.
      specialize (Hsr r Hin Er). subst r.
      apply Hsp. by apply (ascii_runes SP).
    + unfold ReplaceByte. apply Forall_fmap. refine (Forall_impl _ _ _ Hc _).
      intros c Hcc. cbn. case_match; [left; vm_compute; congruence|done].
Qed.

Lemma unDash_orDash s :
  plain_name s → unDash (orDash s) = if decide (TrimSpace s = []) then [] else s.
Proof.
  unfold orDash. intros Hp. case_decide as Hs; [done|].
  destruct Hp as [?|(Hr & Hu & Hq & Hc)]; [done|].
  unfold unDash. rewrite ReplaceByte_back by done. case_decide as E; [|done].
  exfalso. apply Hq. destruct s as [|c [|d s]]; try done.
  unfold ReplaceByte in E. cbn in E.
  destruct (bz c =? bz SP); [done|]. by injection E as ->.
Qed.

(** C7. Wire round trips.  For a node and a user that are single words without control
    bytes, decoding what the builders put on the wire gives back the type, the upper-cased
    node and user, and of the arguments what the wire can carry: the text of a message
    with every run of whitespace as one blank and none at its ends; the target word of a
    private message and its text likewise; the name and QTH of a join, leave or user
    record (a blank one as the empty string) when they have no underscores, no
    whitespace but spaces and are not the placeholder itself; a topic of one word; the
    version of a keepalive, a word; and that a poll's answer has no arguments. *)
Theorem wire_roundtrip node user :
  is_word node → is_word user → clean node → clean user →
  let from typ r := r_Type r = typ ∧ r_Node r = ToUpper node ∧ r_User r = ToUpper user in
  (∀ text, clean text → ∃ r, Decode (encodeData node user text) = Some r
     ∧ from IDData r ∧ Tail r 0 = Join (Fields text) [SP])
  ∧ (∀ target text, is_word target → clean target → clean text →
     ∃ r, Decode (encodeSend node user target text) = Some r
     ∧ from IDSend r ∧ Field r 0 = target ∧ Tail r 1 = Join (Fields text) [SP])
  ∧ (∀ typ name qth, plain_name name → plain_name qth →
     ∃ r, Decode (encode typ node user [orDash name; orDash qth]) = Some r ∧ from typ r
     ∧ unDash (Field r 0) = (if decide (TrimSpace name = []) then [] else name)
     ∧ unDash (Field r 1) = (if decide (TrimSpace qth = []) then [] else qth))
  ∧ (∀ topic, is_word topic → clean topic → ∃ r, Decode (encodeTopic node user topic) = Some r
     ∧ from IDTopic r ∧ Field r 0 = topic)
  ∧ (∀ version, is_word version → clean version →
     ∃ r, Decode (encodeKeepalive node user version) = Some r
     ∧ from IDKeepalive r ∧ r_Args r = [version])
  ∧ ∃ r, Decode (encodePollResp node user) = Some r ∧ from IDPollResp r ∧ r_Args r = [].
Proof.
  intros Hn Hu Cn Cu from. split_and!.
  - intros text Ct. eexists. split; [by apply Decode_encode_fields; auto|].
    split; [by split_and!|]. rewrite (Tail_Join _ 0 _ eq_refl). cbn. by rewrite app_nil_r.
  - intros target text Hw Cw Ct. eexists. split; [by apply Decode_encode_fields; auto|].
    split; [by split_and!|]. rewrite (Tail_Join _ 1 _ eq_refl). cbn.
    by rewrite (Fields_word target), app_nil_r.
  - intros typ name qth Pn Pq.
    destruct (orDash_word name Pn) as [Wn Cn'], (orDash_word qth Pq) as [Wq Cq'].
    eexists. split; [by apply Decode_encode_fields; auto|]. split; [by split_and!|].
    unfold Field. cbn. rewrite (Fields_word (orDash name)), (Fields_word (orDash qth)) by done.
    cbn. by rewrite !unDash_orDash.
  - intros topic Hw Ct. eexists. split; [by apply Decode_encode_fields; auto|].
    split; [by split_and!|]. unfold Field. cbn. by rewrite (Fields_word topic).
  - intros version Hw Cv. eexists. split; [by apply Decode_encode_fields; auto|].
    split; [by split_and!|]. cbn. by rewrite (Fields_word version).
  - eexists. split; [by apply Decode_encode_fields; auto|]. by split; [split_and!|].
Qed.

Lemma wire_roundtrip_witness :
  ∃ r, Decode (encodeData (bs "GB7AAA-9") (bs "m0abc") (bs "hello  world ")) = Some r
  ∧ Tail r 0 = bs "hello world".
Proof.
  destruct (proj1 (wire_roundtrip (bs "GB7AAA-9") (bs "m0abc")
    ltac:(by split; [done|apply (bool_decide_unpack _)])
    ltac:(by split; [done|apply (bool_decide_unpack _)])
    ltac:(by repeat (constructor; [left; vm_compute; congruence|]))
    ltac:(by repeat (constructor; [left; vm_compute; congruence|])))
    (bs "hello  world ") ltac:(by repeat (constructor; [left; vm_compute; congruence|])))
    as (r & E & _ & Ht).
  exists r. split; [exact E|]. rewrite Ht. by vm_compute.
Defined.

(** What [Decode] accepts is well-formed: node and user are upper-case words,
    equal to their own normalisation, every argument is a word, [Raw] is the line
    itself, and after the FORMAT and type bytes the line holds no control byte but
    TAB and FORMAT; so a decoded record is never without a node or a user, and
    corrupted lines are rejected. *)
Theorem Decode_accepts_wellformed line r :
  Decode line = Some r →
  record_wf r ∧ r_Raw r = line ∧ (∃ body, line = [FORMAT; r_Type r] ++ body ∧ clean body)
  ∧ r_Node r ≠ [] ∧ r_User r ≠ [].
Proof.
  intros H. destruct (Decode_Some line r H) as (Hw & HR & Hb).
  split_and!; try done; by destruct Hw as [[? _] [? _] _ _ _].
Qed.

Lemma Decode_accepts_wellformed_witness :
  ∃ r, Decode ([FORMAT; IDTopic] ++ bs "gb7aaa-9 m0abc  DX") = Some r ∧ r_Node r ≠ [].
Proof.
  destruct (Decode ([FORMAT; IDTopic] ++ bs "gb7aaa-9 m0abc  DX")) as [r|] eqn:E.
  - exists r. split; [done|]. exact (proj1 (proj2 (proj2 (proj2 (Decode_accepts_wellformed _ r E))))).
  - exfalso. revert E. vm_compute. discriminate.
Defined.

(** A topic of several words does not survive the wire: the peer receives only
    its first word, since topics are not escaped the way names are. *)
Theorem topic_truncated_on_wire :
  ∃ r, Decode (encodeTopic (bs "GB7AAA") (bs "M0ABC") (bs "Ham Radio")) = Some r
    ∧ Field r 0 = bs "Ham".
Proof. eexists. by split; vm_compute. Qed.
