(* ===== verification/PeerAllow.v ===== *)
(** * The inbound-peer allow-list ([internal/peer/allow.go], [allow_store.go])

    Admission control for federation: an editable set, the pinned peers we dial,
    and a refusal counter.  The methods work on a possibly nil pointer, an [option]
    here.  The persistence half is written against the interface the code declares,
    [AllowConfigStore], with its laws as a second class; the chat store implements
    it. *)
From S2P Require Import Prelude Unicode GoStrings ChatModel ChatStore.
From stdpp Require Import options.
Local Open Scope Z_scope.

Definition normCallsign (c : gostring) : gostring := ToUpper (TrimSpace c).
Arguments normCallsign : simpl never.

Record AllowList := mkAllowList {
  al_allowed : gset gostring;
  al_pinned : gset gostring;
  al_rejected : Z }.

(** The canonicalisation loop of [NewAllowList], [Pin] and [Replace]. *)
Fixpoint canon_into (callsigns : list gostring) (acc : gset gostring) : gset gostring :=
  match callsigns with
  | [] => acc
  | c :: callsigns' =>
      let cc := normCallsign c in
      canon_into callsigns' (if decide (cc = []) then acc else {[cc]} ∪ acc)
  end.

Definition NewAllowList (callsigns : list gostring) : AllowList :=
  mkAllowList (canon_into callsigns ∅) ∅ 0.

Definition Pin (callsigns : list gostring) (a : option AllowList) : option AllowList :=
  match a with
  | None => None
  | Some l =>
      Some (mkAllowList (al_allowed l) (canon_into callsigns (al_pinned l)) (al_rejected l))
  end.

Definition Allowed (a : option AllowList) (callsign : gostring) : bool :=
  match a with
  | None => false
  | Some l =>
      let cc := normCallsign callsign in
      if decide (cc = []) then false
      else if decide (cc ∈ al_allowed l) then true
      else bool_decide (cc ∈ al_pinned l)
  end.

Definition Replace (callsigns : list gostring) (a : option AllowList) : option AllowList :=
  match a with
  | None => None
  | Some l => Some (mkAllowList (canon_into callsigns ∅) (al_pinned l) (al_rejected l))
  end.

Definition Add (callsign : gostring) (a : option AllowList) : bool * option AllowList :=
  match a with
  | None => (false, None)
  | Some l =>
      let cc := normCallsign callsign in
      if decide (cc = []) then (false, a)
      else if decide (cc ∈ al_allowed l) then (false, a)
      else (true, Some (mkAllowList ({[cc]} ∪ al_allowed l) (al_pinned l) (al_rejected l)))
  end.

Definition Remove (callsign : gostring) (a : option AllowList) : bool * option AllowList :=
  match a with
  | None => (false, None)
  | Some l =>
      let cc := normCallsign callsign in
      if decide (cc = []) then (false, a)
      else if decide (cc ∈ al_allowed l)
      then (true, Some (mkAllowList (al_allowed l ∖ {[cc]}) (al_pinned l) (al_rejected l)))
      else (false, a)
  end.

Definition Reject (a : option AllowList) : Z * option AllowList :=
  match a with
  | None => (0, None)
  | Some l =>
      let n := wrap64 (al_rejected l + 1) in
      (n, Some (mkAllowList (al_allowed l) (al_pinned l) n))
  end.

Definition Rejected (a : option AllowList) : Z :=
  match a with None => 0 | Some l => al_rejected l end.

Definition Entries (a : option AllowList) : list gostring :=
  match a with None => [] | Some l => merge_sort str_le (elements (al_allowed l)) end.

Definition AllEntries (a : option AllowList) : list gostring :=
  match a with
  | None => []
  | Some l => merge_sort str_le (elements (al_allowed l ∪ al_pinned l))
  end.

(** ** Persistence *)

Definition ConfigKVAllowKey : gostring := bs "peer_allow".

Class AllowConfigStore (St : Type) := {
  acs_GetConfig : St → gostring → option gostring + error;
  acs_SetConfig : St → gostring → gostring → St * option error }.

(** A key-value map: a read that succeeds gives what it holds, a write that succeeds
    changes the one key, a failed write nothing. *)
Class AllowConfigLaws (St : Type) `{!AllowConfigStore St} := {
  acs_ok : St → Prop;
  acs_map : St → gmap gostring gostring;
  acs_keeps_ok s k v : acs_ok s → acs_ok (acs_SetConfig s k v).1;
  acs_get s k v : acs_ok s → acs_GetConfig s k = inl v → v = acs_map s !! k;
  acs_set s k v : acs_ok s → (acs_SetConfig s k v).2 = None →
    acs_map (acs_SetConfig s k v).1 = <[k := v]> (acs_map s);
  acs_failed s k v e : acs_ok s → (acs_SetConfig s k v).2 = Some e →
    acs_map (acs_SetConfig s k v).1 = acs_map s }.

#[export] Instance chat_allow_store {St} `{!Store St} : AllowConfigStore St :=
  {| acs_GetConfig := GetConfig; acs_SetConfig := SetConfig |}.
#[export] Program Instance chat_allow_laws {St} `{!Store St, !StoreLaws St} :
  AllowConfigLaws St := {| acs_ok := store_ok; acs_map := store_config |}.
Next Obligation. intros. by apply config_ok. Qed.
Next Obligation. intros. by apply config_get. Qed.
Next Obligation. intros. by apply config_set. Qed.
Next Obligation. intros * ? H. by apply (config_failed _ _ _ e). Qed.

Definition encodeAllow (callsigns : list gostring) : gostring :=
  Join (merge_sort str_le
    (List.filter (λ c, negb (bool_decide (c = []))) (normCallsign <$> callsigns))) [zb 10].

Definition allow_sep (r : rune) : bool :=
  (r =? 10) || (r =? 13) || (r =? 44) || (r =? 32) || (r =? 9).

Definition decodeAllow (raw : gostring) : list gostring :=
  List.filter (λ c, negb (bool_decide (c = []))) (normCallsign <$> FieldsFunc allow_sep raw).

Section store.
Context {St : Type} `{!AllowConfigStore St}.

(** A nil store is [None]. *)
Definition PersistAllowList (s : option St) (a : option AllowList)
    : option St * option error :=
  match s with
  | None => (None, None)
  | Some s =>
      let '(s', err) := acs_SetConfig s ConfigKVAllowKey (encodeAllow (Entries a)) in
      (Some s', err)
  end.

Definition LoadAllowList (s : option St) (envSeed : list gostring)
    : option St * (option AllowList + error) :=
  let a := Some (NewAllowList []) in
  match s with
  | None => (None, inl (Replace envSeed a))
  | Some s0 =>
      match acs_GetConfig s0 ConfigKVAllowKey with
      | inr e => (s, inr e)
      | inl (Some raw) => (s, inl (Replace (decodeAllow raw) a))
      | inl None =>
          let a := Replace envSeed a in
          let '(s', err) := PersistAllowList s a in
          match err with Some e => (s', inr e) | None => (s', inl a) end
      end
  end.

Definition ReloadAllowList (s : option St) (a : option AllowList)
    : option AllowList * option error :=
  match s, a with
  | Some s0, Some _ =>
      match acs_GetConfig s0 ConfigKVAllowKey with
      | inr e => (a, Some e)
      | inl None => (a, None)
      | inl (Some raw) => (Replace (decodeAllow raw) a, None)
      end
  | _, _ => (a, None)
  end.
End store.

(** ** Lemmas *)

Lemma normCallsign_idemp c : normCallsign (normCallsign c) = normCallsign c.
Proof. apply (normCall_idemp c). Qed.

Lemma canon_into_elem cs : ∀ acc c,
  c ∈ canon_into cs acc ↔ c ∈ acc ∨ (c ≠ [] ∧ c ∈ normCallsign <$> cs).
Proof.
  induction cs as [|d cs IH]; intros acc c; cbn [canon_into]; [set_solver|].
  rewrite IH, fmap_cons, elem_of_cons. case_decide as E.
  - rewrite E. naive_solver.
  - set_solver.
Qed.

(** The editing and telemetry operations as data. *)
Inductive allow_op :=
| APin (cs : list gostring)
| AReplace (cs : list gostring)
| AAdd (c : gostring)
| ARemove (c : gostring)
| AReject.

Definition allow_exec (op : allow_op) (a : option AllowList) : option AllowList :=
  match op with
  | APin cs => Pin cs a
  | AReplace cs => Replace cs a
  | AAdd c => (Add c a).2
  | ARemove c => (Remove c a).2
  | AReject => (Reject a).2
  end.

Definition allow_run (ops : list allow_op) (a : option AllowList) : option AllowList :=
  foldl (λ a op, allow_exec op a) a ops.

(** The reference: read off the history, newest first, whether canonical callsign
    [c] is in the editable set, and whether it was ever pinned. *)
Fixpoint listed (hist : list allow_op) (seed : list gostring) (c : gostring) : bool :=
  match hist with
  | [] => bool_decide (c ∈ normCallsign <$> seed)
  | AReplace cs :: _ => bool_decide (c ∈ normCallsign <$> cs)
  | AAdd d :: hist' => bool_decide (normCallsign d = c) || listed hist' seed c
  | ARemove d :: hist' => negb (bool_decide (normCallsign d = c)) && listed hist' seed c
  | _ :: hist' => listed hist' seed c
  end.

Definition ever_pinned (hist : list allow_op) (c : gostring) : bool :=
  existsb (λ op, match op with
                 | APin cs => bool_decide (c ∈ normCallsign <$> cs)
                 | _ => false
                 end) hist.

Definition rejects (hist : list allow_op) : nat :=
  length (List.filter (λ op, match op with AReject => true | _ => false end) hist).

(** The state after a history agrees with the reference. *)
Definition allow_inv (hist : list allow_op) (seed : list gostring) (l : AllowList) : Prop :=
  (∀ c, c ≠ [] → c ∈ al_allowed l ↔ listed hist seed c = true)
  ∧ (∀ c, c ≠ [] → c ∈ al_pinned l ↔ ever_pinned hist c = true)
  ∧ (al_rejected l = wrap64 (Z.of_nat (rejects hist)))
  ∧ ([] ∉ al_allowed l) ∧ (∀ c, c ∈ al_allowed l → normCallsign c = c).

Lemma canon_into_fixed cs acc c :
  (∀ c, c ∈ acc → normCallsign c = c) → c ∈ canon_into cs acc → normCallsign c = c.
Proof.
  intros Ha [H|[_ H]]%canon_into_elem; [auto|].
  apply list_elem_of_fmap in H as (d & -> & _). apply normCallsign_idemp.
Qed.

Lemma wrap64_succ n : wrap64 (wrap64 (Z.of_nat n) + 1) = wrap64 (Z.of_nat (S n)).
Proof.
  unfold wrap64. rewrite Nat2Z.inj_succ.
  replace ((Z.of_nat n + 2 ^ 63) `mod` 2 ^ 64 - 2 ^ 63 + 1 + 2 ^ 63)
    with ((Z.of_nat n + 2 ^ 63) `mod` 2 ^ 64 + 1) by lia.
  rewrite Zplus_mod_idemp_l. f_equal. f_equal. lia.
Qed.

Lemma allow_exec_inv op hist seed l :
  allow_inv hist seed l →
  ∃ l', allow_exec op (Some l) = Some l' ∧ allow_inv (op :: hist) seed l'.
Proof.
  intros (H1 & H2 & H3 & H4 & H5). destruct op as [cs|cs|d|d|]; cbn [allow_exec].
  - eexists. split; [done|]. split_and!; cbn; try done. intros c Hc.
    rewrite canon_into_elem, orb_true_iff, bool_decide_eq_true, H2 by done. naive_solver.
  - eexists. split; [done|]. split_and!; cbn; try done.
    + intros c Hc. rewrite canon_into_elem, bool_decide_eq_true. set_solver.
    + rewrite canon_into_elem. set_solver.
    + intros c. apply canon_into_fixed. set_solver.
  - unfold Add. cbn zeta. case_decide as Hd; [|case_decide as Hi]; cbn [snd]; eexists; (split; [done|]);
      split_and!; cbn; try done.
    + intros c Hc. rewrite H1, bool_decide_eq_false_2 by congruence. done.
    + intros c Hc. rewrite orb_true_iff, bool_decide_eq_true, <- H1 by done. naive_solver.
    + intros c Hc. rewrite orb_true_iff, bool_decide_eq_true, <- H1 by done. set_solver.
    + set_solver.
    + intros c [->%elem_of_singleton|H]%elem_of_union; [apply normCallsign_idemp|auto].
  - unfold Remove. cbn zeta. case_decide as Hd; [|case_decide as Hi]; cbn [snd]; eexists; (split; [done|]);
      split_and!; cbn; try done.
    + intros c Hc. rewrite H1, bool_decide_eq_false_2 by congruence. done.
    + intros c Hc. rewrite andb_true_iff, negb_true_iff, bool_decide_eq_false, <- H1 by done.
      set_solver.
    + set_solver.
    + set_solver.
    + intros c Hc. rewrite andb_true_iff, negb_true_iff, bool_decide_eq_false, <- H1 by done.
      naive_solver.
  - eexists. split; [done|]. split_and!; cbn [al_allowed al_pinned al_rejected]; try done.
    rewrite H3. apply wrap64_succ.
Qed.

Lemma allow_run_inv ops : ∀ hist seed l,
  allow_inv hist seed l →
  ∃ l', allow_run ops (Some l) = Some l' ∧ allow_inv (rev ops ++ hist) seed l'.
Proof.
  induction ops as [|op ops IH]; intros hist seed l Hi; [by exists l|].
  destruct (allow_exec_inv op hist seed l Hi) as (l1 & E1 & Hi1).
  destruct (IH _ _ _ Hi1) as (l2 & E2 & Hi2). exists l2.
  unfold allow_run in *. cbn. rewrite E1, <- app_assoc. done.
Qed.

Lemma NewAllowList_inv seed : allow_inv [] seed (NewAllowList seed).
Proof.
  split_and!; cbn; try done.
  - intros c Hc. rewrite canon_into_elem, bool_decide_eq_true. set_solver.
  - rewrite canon_into_elem. set_solver.
  - intros c. apply canon_into_fixed. set_solver.
Qed.

(** What survives the stored text: single fields. *)
Abbreviation storable := (Forall (p_word allow_sep)).

Lemma norm_filter_id l :
  Forall (λ c, normCallsign c = c) l → Forall (λ c, c ≠ []) l →
  List.filter (λ c, negb (bool_decide (c = []))) (normCallsign <$> l) = l.
Proof.
  induction 1 as [|c l Hc _ IH]; [done|]. intros [Hn Hl]%Forall_cons.
  rewrite fmap_cons. cbn [List.filter]. rewrite Hc, bool_decide_eq_false_2 by done.
  cbn [negb]. by rewrite IH.
Qed.

Lemma decode_encode_allow l :
  Forall (λ c, normCallsign c = c) l → storable l →
  decodeAllow (encodeAllow l) ≡ₚ l.
Proof.
  intros Hn Hw.
  assert (Forall (λ c : gostring, c ≠ []) l) as Hne.
  { refine (Forall_impl _ _ _ Hw _). by intros c [? _]. }
  unfold decodeAllow, encodeAllow. rewrite (norm_filter_id l Hn Hne).
  pose proof (merge_sort_Permutation str_le l) as Hp.
  rewrite (FieldsFunc_Join allow_sep (zb 10)); [|done|done|by rewrite Hp].
  rewrite norm_filter_id; [done|by rewrite Hp..].
Qed.

Lemma Entries_spec l c : c ∈ Entries (Some l) ↔ c ∈ al_allowed l.
Proof. cbn. by rewrite merge_sort_Permutation, elem_of_elements. Qed.

(** Loading the stored form of a canonical set gives the set back. *)
Lemma canon_into_stored l :
  (∀ c, c ∈ al_allowed l → normCallsign c = c) → storable (Entries (Some l)) →
  canon_into (decodeAllow (encodeAllow (Entries (Some l)))) ∅ = al_allowed l.
Proof.
  intros Hn Hw. apply set_eq. intros c. rewrite canon_into_elem.
  assert (Forall (λ c, normCallsign c = c) (Entries (Some l))) as Hn'.
  { apply Forall_forall. intros d Hd%Entries_spec. auto. }
  rewrite (decode_encode_allow _ Hn' Hw), list_elem_of_fmap. split.
  - intros [?|[_ (d & -> & Hd)]]; [set_solver|]. apply Entries_spec in Hd.
    by rewrite (Hn d Hd).
  - intros Hc. right. assert (c ∈ Entries (Some l)) as He by by apply Entries_spec.
    split; [|exists c; split; [by rewrite (Hn c Hc)|done]].
    rewrite Forall_forall in Hw. by destruct (Hw c He).
Qed.

(** A store that holds the stored form of a list gives the list back. *)
Lemma load_stored {St : Type} `{!AllowConfigStore St, !AllowConfigLaws St} (s : St) l envSeed :
  acs_ok s → (∀ c, c ∈ al_allowed l → normCallsign c = c) → storable (Entries (Some l)) →
  acs_map s !! ConfigKVAllowKey = Some (encodeAllow (Entries (Some l))) →
  (∃ e, acs_GetConfig s ConfigKVAllowKey = inr e
     ∧ LoadAllowList (Some s) envSeed = (Some s, inr e))
  ∨ ∃ b, LoadAllowList (Some s) envSeed = (Some s, inl (Some b))
     ∧ al_allowed b = al_allowed l ∧ al_pinned b = ∅.
Proof.
  intros Hok Hn Hw Hm. unfold LoadAllowList.
  destruct (acs_GetConfig s ConfigKVAllowKey) as [v|e] eqn:Eg; [|by left; exists e].
  apply acs_get in Eg as ->; [|done]. rewrite Hm. right. eexists. split; [done|].
  cbn [al_allowed al_pinned Replace NewAllowList]. by rewrite (canon_into_stored l Hn Hw).
Qed.

(** ** The main theorems *)

(** C22. Default deny, as a history.  After any sequence of edits, pins and refusals
    on a new list, an inbound callsign is admitted exactly when its canonical form
    is not blank and either the newest edit concerning it (an add, a removal, a
    replacement, else the seed) put it in the editable set, or some pin named it;
    removals and replacements never revoke a pin; a nil list admits nothing; and the
    refusal counter is the number of refusals, as an [int64]. *)
Theorem allow_is_history seed ops :
  let a := allow_run ops (Some (NewAllowList seed)) in
  (∀ c, Allowed a c = true ↔ normCallsign c ≠ []
     ∧ (listed (rev ops) seed (normCallsign c) = true
        ∨ ever_pinned (rev ops) (normCallsign c) = true))
  ∧ Rejected a = wrap64 (Z.of_nat (rejects (rev ops)))
  ∧ (∀ c, Allowed (allow_run ops None) c = false).
Proof.
  destruct (allow_run_inv ops [] seed _ (NewAllowList_inv seed)) as (l & E & H1 & H2 & H3 & _).
  rewrite app_nil_r in *. intros a. unfold a. rewrite E. split_and!; [|done|].
  - intros c. cbn [Allowed]. cbn zeta. case_decide as Hc; [naive_solver|].
    rewrite <- H1, <- H2 by done. case_decide; [naive_solver|].
    rewrite bool_decide_eq_true. naive_solver.
  - intros c. assert (allow_run ops None = None) as ->; [|done].
    clear. induction ops as [|op ops IH]; [done|]. by destruct op.
Qed.

(** Edits survive a restart.  When the live list's editable entries are single
    fields (no separator inside), then after a successful persist, a fresh process
    that loads from the same store, whatever its environment seed, either reports the
    failure to read it and gets no list at all, or gets exactly that editable set with
    no pins, without writing; and reloading into any other live list either reports the
    failure and changes nothing, or replaces its editable set by the stored one and
    leaves its pins and its counter alone. *)
Theorem allow_survives_restart {St : Type} `{!AllowConfigStore St, !AllowConfigLaws St}
    seed ops (s s' : St) :
  let a := allow_run ops (Some (NewAllowList seed)) in
  acs_ok s → storable (Entries a) → PersistAllowList (Some s) a = (Some s', None) →
  (∀ envSeed,
     (∃ e, acs_GetConfig s' ConfigKVAllowKey = inr e
        ∧ LoadAllowList (Some s') envSeed = (Some s', inr e))
     ∨ ∃ b, LoadAllowList (Some s') envSeed = (Some s', inl (Some b))
        ∧ Some (al_allowed b) = al_allowed <$> a ∧ al_pinned b = ∅)
  ∧ (∀ live,
     (∃ e, acs_GetConfig s' ConfigKVAllowKey = inr e
        ∧ ReloadAllowList (Some s') (Some live) = (Some live, Some e))
     ∨ ∃ b, ReloadAllowList (Some s') (Some live) = (Some b, None)
        ∧ Some (al_allowed b) = al_allowed <$> a ∧ al_pinned b = al_pinned live
        ∧ al_rejected b = al_rejected live).
Proof.
  destruct (allow_run_inv ops [] seed _ (NewAllowList_inv seed))
    as (l & E & _ & _ & _ & _ & H5).
  cbn zeta. rewrite E. intros Hok Hw Hp. unfold PersistAllowList in Hp.
  set (raw := encodeAllow (Entries (Some l))) in *.
  pose proof (acs_set s ConfigKVAllowKey raw Hok) as Hs.
  pose proof (acs_keeps_ok s ConfigKVAllowKey raw Hok) as Hok'.
  destruct (acs_SetConfig s _ _) as [s1 err]. injection Hp as -> ->.
  specialize (Hs eq_refl). cbn [fst] in Hs, Hok'.
  assert (acs_map s' !! ConfigKVAllowKey = Some raw) as Hm by (by rewrite Hs, lookup_insert_eq).
  split; intros x.
  - destruct (load_stored s' l x Hok' H5 Hw Hm) as [?|(b & E1 & E2 & E3)]; [by left|right].
    exists b. split; [done|]. split; [cbn; by rewrite E2|done].
  - unfold ReloadAllowList.
    destruct (acs_GetConfig s' ConfigKVAllowKey) as [v|e] eqn:Eg; [|by left; exists e].
    apply acs_get in Eg as ->; [|done]. rewrite Hm. right. eexists. cbn [Replace]. split; [done|].
    cbn [al_allowed al_pinned al_rejected fmap option_fmap option_map].
    by rewrite <- (canon_into_stored l H5 Hw).
Qed.

Lemma allow_survives_restart_witness :
  let a := allow_run [AAdd (bs "gb7bbb-1"); ARemove (bs "GB7AAA")]
             (Some (NewAllowList [bs " gb7aaa "; bs "G4XYZ"])) in
  ∃ s', PersistAllowList (Some MemStore.NewMemStore) a = (Some s', None)
  ∧ ∃ b, LoadAllowList (Some s') [bs "M0ABC"] = (Some s', inl (Some b))
    ∧ Some (al_allowed b) = al_allowed <$> a.
Proof.
  intros a. destruct (PersistAllowList (Some MemStore.NewMemStore) a) as [[s'|] [e|]] eqn:E;
    try (exfalso; revert E; vm_compute; discriminate).
  exists s'. split; [done|].
  assert (acs_ok MemStore.NewMemStore) as Hok by exact MemStore.NewMemStore_ok.
  destruct (proj1 (allow_survives_restart [bs " gb7aaa "; bs "G4XYZ"]
    [AAdd (bs "gb7bbb-1"); ARemove (bs "GB7AAA")] MemStore.NewMemStore s' Hok
    ltac:(by apply (bool_decide_unpack _); vm_compute)
    E) [bs "M0ABC"]) as [(e & Ee & _)|(b & E1 & E2 & _)]; [discriminate Ee|].
  by exists b.
Defined.
