(* ===== verification/PeerRouter.v ===== *)
(** * The relay ([internal/peer/router.go])

    The router of one node together with what it drives: the hub and the link
    objects.  Links are shared objects (the router's table, the serve loop and the
    keepalive ticker hold the same pointer), so they live in a store [w_links_heap]
    and the router's table maps a peer's id to a reference.  [sendRaw] on a link
    whose transport is down fails and writes nothing. *)
From S2P Require Import Prelude Unicode GoStrings ChatModel ChatSeen ChatStore ChatHub.
From S2P Require Import PeerProto.
From stdpp Require Import options.
Local Open Scope Z_scope.

(** The struct [Link] of [link.go]: configuration, telemetry, and the transport as
    the lines written to it (each followed by CR on the wire) and its state. *)
Record Link := mkLink {
  l_peerCall : gostring;
  l_ourNode : gostring;
  l_version : gostring;
  l_outbound : bool;
  l_greeted : bool;
  l_keepaliveEvery : Duration;
  l_expectTimeout : Duration;
  l_lastSeen : Time;
  l_rtt : Duration;
  l_sentPing : Time;
  l_linkedAt : Time;
  l_sent : list gostring;
  l_up : bool }.

Definition link_sent g (l : Link) : Link :=
  mkLink (l_peerCall l) (l_ourNode l) (l_version l) (l_outbound l) (l_greeted l)
    (l_keepaliveEvery l) (l_expectTimeout l) (l_lastSeen l) (l_rtt l) (l_sentPing l)
    (l_linkedAt l) (g (l_sent l)) (l_up l).
Definition link_up (b : bool) (l : Link) : Link :=
  mkLink (l_peerCall l) (l_ourNode l) (l_version l) (l_outbound l) (l_greeted l)
    (l_keepaliveEvery l) (l_expectTimeout l) (l_lastSeen l) (l_rtt l) (l_sentPing l)
    (l_linkedAt l) (l_sent l) b.
Definition link_stat (seen : Time) (rtt : Duration) (ping linked : Time) (l : Link) : Link :=
  mkLink (l_peerCall l) (l_ourNode l) (l_version l) (l_outbound l) (l_greeted l)
    (l_keepaliveEvery l) (l_expectTimeout l) seen rtt ping linked (l_sent l) (l_up l).

(** The method [id] of [sink]. *)
Definition link_id (l : Link) : gostring := l_peerCall l.

Record LinkStatus := mkLinkStatus {
  ls_PeerCall : gostring;
  ls_Outbound : bool;
  ls_LinkedAt : Time;
  ls_LastSeen : Time;
  ls_RTT : Duration }.

Definition Status (l : Link) : LinkStatus :=
  mkLinkStatus (l_peerCall l) (l_outbound l) (l_linkedAt l) (l_lastSeen l) (l_rtt l).

Module Router.
Section router.
Context {St : Type} `{!Store St}.

(** One node: the hub, the router's fields, and the link objects. *)
Record World := mkWorld {
  w_hub : Hub.Hub St;
  w_ourNode : gostring;
  w_sub : Z;                          (* the fan-out loop's subscription *)
  w_links : gmap gostring nat;        (* [Router.links]: peer id to link *)
  w_heap : gmap nat Link }.

Definition upd_hub g (w : World) : World :=
  mkWorld (g (w_hub w)) (w_ourNode w) (w_sub w) (w_links w) (w_heap w).
Definition upd_links g (w : World) : World :=
  mkWorld (w_hub w) (w_ourNode w) (w_sub w) (g (w_links w)) (w_heap w).
Definition upd_heap g (w : World) : World :=
  mkWorld (w_hub w) (w_ourNode w) (w_sub w) (w_links w) (g (w_heap w)).

Abbreviation WorldM := (ST World).

(** A hub operation as an operation of the node. *)
Definition on_hub {A} (m : ST (Hub.Hub St) A) : WorldM A :=
  λ w, ((m (w_hub w)).1, upd_hub (λ _, (m (w_hub w)).2) w).

(** [NewRouter]: subscribe, and an empty table. *)
Definition NewRouter (hub : Hub.Hub St) : World :=
  let '(sub, hub') := Hub.Subscribe hub in
  mkWorld hub' (Hub.h_ourNode hub) sub ∅ ∅.

(** [sendRaw] on a link object; [false] is the write error. *)
Definition sendRaw (ref : nat) (raw : gostring) : WorldM bool :=
  heap ← st_get w_heap;
  match heap !! ref with
  | Some l =>
      if l_up l then st_mod (upd_heap <[ref := link_sent (λ s, s ++ [raw]) l]>);; mret true
      else mret false
  | None => mret false
  end.

Definition AddLink (ref : nat) : WorldM unit :=
  heap ← st_get w_heap;
  match heap !! ref with
  | Some l => st_mod (upd_links <[link_id l := ref]>)
  | None => mret tt
  end.

Definition RemoveLink (id : gostring) : WorldM unit := st_mod (upd_links (delete id)).

Definition status_le (a b : LinkStatus) : Prop := str_le (ls_PeerCall a) (ls_PeerCall b).
#[export] Instance status_le_dec : RelDecision status_le.
Proof. intros a b. unfold status_le. apply _. Defined.

Definition LinkStatuses (w : World) : list LinkStatus :=
  merge_sort status_le
    (omap (λ e : gostring * nat, Status <$> w_heap w !! e.2) (map_to_list (w_links w))).

(** The loop of [forward] over the targets. *)
Fixpoint send_all (targets : list nat) (raw : gostring) : WorldM unit :=
  match targets with
  | [] => mret tt
  | ref :: targets' => sendRaw ref raw;; send_all targets' raw
  end.

(** [links] except [exceptID]. *)
Definition targets (w : World) (exceptID : gostring) : list nat :=
  (List.filter (λ e : gostring * nat, negb (bool_decide (e.1 = exceptID)))
     (map_to_list (w_links w))).*2.

Definition forward (raw exceptID : gostring) : WorldM unit :=
  ts ← st_get (λ w, targets w exceptID);
  send_all ts raw.

Definition isLocal (ourNode : gostring) (u : User) : bool :=
  bool_decide (o_Node (u_Origin u) = ourNode).

Definition encodeLocal (ourNode : gostring) (ev : Event) : option gostring :=
  match ev with
  | TopicMessage m =>
      if decide (m_OriginNode m = ourNode)
      then Some (encodeData ourNode (m_FromCall m) (m_Text m)) else None
  | PrivateMessage m =>
      if decide (m_OriginNode m = ourNode)
      then Some (encodeSend ourNode (m_FromCall m) (m_ToCall m) (m_Text m)) else None
  | UserJoined u =>
      if isLocal ourNode u
      then Some (encodeJoin ourNode (u_Call u) (u_Name u) (u_QTH u)) else None
  | UserLeft u =>
      if isLocal ourNode u
      then Some (encodeLeave ourNode (u_Call u) (u_Name u) (u_QTH u)) else None
  | TopicChanged u _ =>
      if isLocal ourNode u
      then Some (encodeTopic ourNode (u_Call u) (u_Topic u)) else None
  | UserInfoChanged u =>
      if isLocal ourNode u
      then Some (encode IDUser ourNode (u_Call u) [orDash (u_Name u); orDash (u_QTH u)])
      else None
  | NodeLinked _ | NodeUnlinked _ => None
  end.

(** One iteration of [fanOutLocal]; [false] when it would block or has ended. *)
Definition fanOutLocal : WorldM bool :=
  sub ← st_get w_sub;
  our ← st_get w_ourNode;
  r ← on_hub (Hub.recv sub);
  match r with
  | Some (Some ev) =>
      match encodeLocal our ev with
      | Some raw => forward raw [];; mret true
      | None => mret true
      end
  | _ => mret false
  end.

Definition rec_key (rec : WireRecord) : UserKey := mkUserKey (r_User rec) (r_Node rec).

Definition topicOf (h : Hub.Hub St) (key : UserKey) : gostring :=
  match Hub.UserOf h key with Some u => u_Topic u | None => DefaultTopic end.

(** [recordID]; [string(rec.Type)] is the UTF-8 form of the type byte's value. *)
Definition recordID (h : Hub.Hub St) (rec : WireRecord) : gostring :=
  if decide (r_Type rec = IDData) then
    SynthID (r_Node rec) (r_User rec) KindTopic (topicOf h (rec_key rec)) (Tail rec 0)
  else if decide (r_Type rec = IDSend) then
    SynthID (r_Node rec) (r_User rec) KindPrivate (Field rec 0) (Tail rec 1)
  else bs "rec:" ++ encode_rune (bz (r_Type rec)) ++ bs ":" ++ r_Raw rec.

Definition ensureUser (rec : WireRecord) (fromID : gostring) : ST (Hub.Hub St) unit :=
  u ← st_get (λ h, Hub.UserOf h (rec_key rec));
  match u with
  | Some _ => mret tt
  | None =>
      let named := decide (r_Type rec = IDJoin ∨ r_Type rec = IDUser) in
      let name := if named then unDash (Field rec 0) else [] in
      let qth := if named then unDash (Field rec 1) else [] in
      Hub.Join (mkUser (r_User rec) name qth (mkOrigin (r_Node rec) false fromID) [] 0 0
                  (mkUserFlags false false false false false));;
      mret tt
  end.

Definition apply (rec : WireRecord) (fromID : gostring) : ST (Hub.Hub St) unit :=
  let key := rec_key rec in
  if decide (r_Type rec = IDJoin) then
    ensureUser rec fromID;;
    let name := unDash (Field rec 0) in
    let qth := unDash (Field rec 1) in
    if decide (name ≠ [] ∨ qth ≠ []) then Hub.SetInfo key name qth;; mret tt else mret tt
  else if decide (r_Type rec = IDLeave) then Hub.Leave key
  else if decide (r_Type rec = IDUser) then
    ensureUser rec fromID;;
    Hub.SetInfo key (unDash (Field rec 0)) (unDash (Field rec 1));; mret tt
  else if decide (r_Type rec = IDTopic) then
    ensureUser rec fromID;; Hub.SetTopic key (Field rec 0);; mret tt
  else if decide (r_Type rec = IDData) then
    ensureUser rec fromID;; Hub.Post key (Tail rec 0);; mret tt
  else if decide (r_Type rec = IDSend) then
    ensureUser rec fromID;; Hub.Private key (Field rec 0) (Tail rec 1);; mret tt
  else if decide (r_Type rec = IDLink) then
    Hub.LinkNode (Field rec 0) (unDash (Field rec 1)) (Field rec 2);; mret tt
  else if decide (r_Type rec = IDUnlink) then
    Hub.UnlinkNode (Field rec 0);; mret tt
  else mret tt.

Definition Ingest (rec : WireRecord) (fromID : gostring) : WorldM unit :=
  our ← st_get w_ourNode;
  if decide (r_Node rec = []) then mret tt
  else if EqualFold (r_Node rec) our then mret tt
  else
    id ← st_get (λ w, recordID (w_hub w) rec);
    dup ← (if decide (id = []) then mret false else on_hub (Hub.SeenID id));
    if dup : bool then mret tt
    else
      on_hub (apply rec fromID);;
      forward (r_Raw rec) fromID.

End router.
End Router.
Arguments Router.World : clear implicits.
Arguments Router.apply : simpl never.
Arguments Router.recordID : simpl never.
