(* ===== verification/RouterProps.v ===== *)
(** * What the relay does to a node

    The effect of forwarding, of an ingested record, and of the fan-out of local
    events, on the links and the hub. *)
From S2P Require Import Prelude Unicode GoStrings ChatModel ChatSeen ChatStore ChatHub.
From S2P Require Import HubProps HubTheorems PeerProto PeerRouter.
From stdpp Require Import options.
Import Hub Router.

Section props.
Context {St : Type} `{!Store St}.
Implicit Types (w : World St) (h : Hub St).

(** The link table names each link under its own id. *)
Definition table_wf w : Prop :=
  ∀ id ref, w_links w !! id = Some ref → ∃ l, w_heap w !! ref = Some l ∧ link_id l = id.

(** A link object after a line has been handed to it. *)
Definition bump (raw : gostring) (l : Link) : Link :=
  if l_up l then link_sent (λ s, s ++ [raw]) l else l.

(** Two nodes that differ in their link objects only. *)
Definition same_but_heap w w' : Prop :=
  w_hub w' = w_hub w ∧ w_ourNode w' = w_ourNode w ∧ w_sub w' = w_sub w
  ∧ w_links w' = w_links w.

Lemma sendRaw_spec ref raw w :
  let w' := (sendRaw ref raw w).2 in
  same_but_heap w w'
  ∧ ∀ r, w_heap w' !! r
         = (λ l, if decide (r = ref) then bump raw l else l) <$> w_heap w !! r.
Proof.
  unfold sendRaw, same_but_heap, bump. st_simpl.
  destruct (w_heap w !! ref) as [l|] eqn:E; [destruct (l_up l) eqn:Eu|]; cbn;
    (split; [by split_and!|]); intros r; destruct (decide (r = ref)) as [->|];
    rewrite ?lookup_insert_eq, ?lookup_insert_ne, ?E by done; cbn; rewrite ?Eu; try done;
    by destruct (w_heap w !! r).
Qed.

Lemma send_all_spec ts raw : ∀ w, NoDup ts →
  let w' := (send_all ts raw w).2 in
  same_but_heap w w'
  ∧ ∀ r, w_heap w' !! r
         = (λ l, if decide (r ∈ ts) then bump raw l else l) <$> w_heap w !! r.
Proof.
  induction ts as [|ref ts IH]; intros w Hnd; cbn [send_all]; st_simpl.
  - split; [by split_and!|]. intros r. by destruct (w_heap w !! r).
  - apply NoDup_cons in Hnd as [Hn Hnd].
    destruct (sendRaw_spec ref raw w) as ((A1 & A2 & A3 & A4) & Hs).
    destruct (IH (sendRaw ref raw w).2 Hnd) as ((B1 & B2 & B3 & B4) & Ha).
    split; [split_and!; congruence|]. intros r. rewrite Ha, Hs.
    destruct (w_heap w !! r) as [l|]; [|done]. cbn. f_equal.
    destruct (decide (r = ref)) as [->|].
    + by rewrite decide_False, decide_True by set_solver.
    + destruct (decide (r ∈ ts)); [rewrite decide_True by set_solver|
        rewrite decide_False by set_solver]; done.
Qed.

Lemma targets_NoDup w except : table_wf w → NoDup (targets w except).
Proof.
  intros Hwf. unfold targets.
  assert (NoDup (List.filter (λ e : gostring * nat, negb (bool_decide (e.1 = except)))
    (map_to_list (w_links w)))) as Hnd.
  { apply NoDup_ListNoDup, List.NoDup_filter, NoDup_ListNoDup, NoDup_map_to_list. }
  apply NoDup_fmap_2_strong; [|done].
  intros [i1 r1] [i2 r2] H1 H2 E. cbn in E. subst r2.
  apply list_elem_of_In, filter_In in H1 as [H1 _].
  apply list_elem_of_In, filter_In in H2 as [H2 _].
  apply list_elem_of_In, elem_of_map_to_list in H1, H2.
  destruct (Hwf _ _ H1) as (l1 & E1 & <-), (Hwf _ _ H2) as (l2 & E2 & <-). by simplify_eq.
Qed.

Lemma targets_elem w except ref :
  ref ∈ targets w except ↔ ∃ id, w_links w !! id = Some ref ∧ id ≠ except.
Proof.
  unfold targets. rewrite list_elem_of_fmap. split.
  - intros ([id r] & -> & H). apply list_elem_of_In, filter_In in H as [H Hp].
    apply list_elem_of_In, elem_of_map_to_list in H. bools. by exists id.
  - intros (id & H & Hne). exists (id, ref). split; [done|].
    apply list_elem_of_In, filter_In. split; [by apply list_elem_of_In, elem_of_map_to_list|].
    cbn. by rewrite bool_decide_eq_false_2.
Qed.

(** A registered link other than the excepted one. *)
Definition is_target w (except : gostring) (ref : nat) (l : Link) : Prop :=
  w_links w !! link_id l = Some ref ∧ link_id l ≠ except.
#[export] Instance is_target_dec w except ref l : Decision (is_target w except ref l).
Proof. unfold is_target. apply _. Defined.

Lemma forward_spec raw except w :
  table_wf w →
  let w' := (forward raw except w).2 in
  same_but_heap w w'
  ∧ ∀ r, w_heap w' !! r
         = (λ l, if decide (is_target w except r l) then bump raw l else l)
           <$> w_heap w !! r.
Proof.
  intros Hwf. unfold forward. st_simpl.
  destruct (send_all_spec (targets w except) raw w (targets_NoDup w except Hwf)) as [Hs Ha].
  split; [done|]. intros r. rewrite Ha. destruct (w_heap w !! r) as [l|] eqn:E; [|done].
  cbn. f_equal. assert (r ∈ targets w except ↔ is_target w except r l) as Hiff.
  { rewrite targets_elem. split.
    - intros (id & Hid & Hne). destruct (Hwf _ _ Hid) as (l' & E' & <-). simplify_eq. done.
    - intros [H1 H2]. by exists (link_id l). }
  destruct (decide (r ∈ targets w except)) as [H|H], (decide (is_target w except r l)) as [H'|H'];
    tauto.
Qed.

Lemma table_wf_same w w' :
  w_links w' = w_links w →
  (∀ r l, w_heap w !! r = Some l → ∃ l', w_heap w' !! r = Some l' ∧ link_id l' = link_id l) →
  table_wf w → table_wf w'.
Proof.
  intros EL Hh Hwf id ref Hid. rewrite EL in Hid. destruct (Hwf _ _ Hid) as (l & E & <-).
  by apply Hh.
Qed.

Lemma bump_id raw l : link_id (bump raw l) = link_id l.
Proof. unfold bump. by destruct (l_up l). Qed.

Lemma forward_table_wf raw except w : table_wf w → table_wf (forward raw except w).2.
Proof.
  intros Hwf. destruct (forward_spec raw except w Hwf) as [(_ & _ & _ & EL) Hh].
  apply (table_wf_same w); [done| |done]. intros r l E. rewrite Hh, E. eexists.
  split; [done|]. case_decide; [apply bump_id|done].
Qed.

Lemma AddLink_table_wf ref w : table_wf w → table_wf (AddLink ref w).2.
Proof.
  intros Hwf. unfold AddLink. st_simpl. destruct (w_heap w !! ref) as [l|] eqn:E; [|done].
  intros id r H. cbn in *. apply lookup_insert_Some in H as [[<- <-]|[_ H]]; eauto.
Qed.

Lemma RemoveLink_table_wf id w : table_wf w → table_wf (RemoveLink id w).2.
Proof. intros Hwf i r H. cbn in *. apply lookup_delete_Some in H as [_ H]. eauto. Qed.

(** ** Ingest *)

Lemma recordID_nonempty h rec : recordID h rec ≠ [].
Proof.
  unfold recordID. repeat case_decide; try apply SynthID_nonempty. done.
Qed.

(** The two tests of [Ingest]: the record is not ours, and its id is new. *)
Definition foreign (rec : WireRecord) w : bool :=
  negb (bool_decide (r_Node rec = [])) && negb (EqualFold (r_Node rec) (w_ourNode w)).
Definition accepts (rec : WireRecord) w : bool :=
  foreign rec w && negb (SeenID (recordID (w_hub w) rec) (w_hub w)).1.

(** The node after the duplicate check. *)
Definition checked (rec : WireRecord) w : World St :=
  upd_hub (λ _, (SeenID (recordID (w_hub w) rec) (w_hub w)).2) w.

Lemma Ingest_eq rec from w :
  (Ingest rec from w).2
  = if accepts rec w then (forward (r_Raw rec) from (on_hub (apply rec from) (checked rec w)).2).2
    else if foreign rec w then checked rec w else w.
Proof.
  unfold accepts, foreign, Ingest. st_simpl.
  case_decide as Hn; [by rewrite bool_decide_eq_true_2|].
  rewrite bool_decide_eq_false_2 by done. cbn [negb andb].
  destruct (EqualFold (r_Node rec) (w_ourNode w)); [done|]. cbn [negb andb]. st_simpl.
  rewrite decide_False by apply recordID_nonempty. unfold on_hub. st_simpl.
  by destruct (SeenID (recordID (w_hub w) rec) (w_hub w)).1.
Qed.

Lemma SeenID_frame id h :
  let h' := (SeenID id h).2 in
  h_users h' = h_users h ∧ h_topics h' = h_topics h ∧ h_member h' = h_member h
  ∧ h_nodes h' = h_nodes h ∧ h_store h' = h_store h ∧ h_chans h' = h_chans h
  ∧ h_subs h' = h_subs h ∧ h_clock h' = h_clock h ∧ h_tick h' = S (h_tick h).
Proof. by split_and!. Qed.

(** ** Silent operations: what they emit satisfies [P] *)

Lemma delivered_app es1 es2 c : delivered es2 (delivered es1 c) = delivered (es1 ++ es2) c.
Proof.
  unfold delivered. cbn [ch_buf ch_closed]. f_equal.
  rewrite app_assoc. generalize (ch_buf c ++ es1). intros l.
  destruct (decide (length l ≤ subBuffer)%nat).
  - by rewrite (take_ge l).
  - rewrite (take_app_le l) by lia. rewrite take_app_le by (rewrite length_take; lia).
    rewrite take_take. by f_equal; lia.
Qed.

(** [emitted P h h']: going from [h] to [h'] offers every subscriber of [h] the
    same events, all satisfying [P]. *)
Definition emitted (P : Event → Prop) h h' : Prop :=
  ∃ es, Forall P es ∧ h_subs h' = h_subs h ∧ h_nextSub h' = h_nextSub h
    ∧ ∀ id, h_chans h' !! id
        = (λ c, if decide (id ∈ h_subs h) then delivered es c else c) <$> h_chans h !! id.

Lemma emitted_trans P h1 h2 h3 : emitted P h1 h2 → emitted P h2 h3 → emitted P h1 h3.
Proof.
  intros (es1 & F1 & S1 & N1 & C1) (es2 & F2 & S2 & N2 & C2). exists (es1 ++ es2).
  split_and!; [by apply Forall_app|congruence|congruence|]. intros id. rewrite C2, C1, S1.
  destruct (h_chans h1 !! id); [|done]. cbn. f_equal. case_decide; [|done].
  apply delivered_app.
Qed.

Lemma emitted_frame P h h' :
  chan_wf (h_subs h) (h_chans h) (h_nextSub h) →
  h_subs h' = h_subs h → h_nextSub h' = h_nextSub h → h_chans h' = h_chans h →
  emitted P h h'.
Proof.
  intros Hwf E1 E2 E3. exists []. split_and!; [constructor|done|done|]. intros id. rewrite E3.
  destruct (h_chans h !! id) as [c|] eqn:E; [|done]. cbn. f_equal. case_decide; [|done].
  destruct (cw_chan _ _ _ Hwf _ _ E) as [_ Hb]. unfold delivered.
  rewrite app_nil_r, take_ge by done. by destruct c.
Qed.

Lemma emitted_emit P es h h' :
  chan_wf (h_subs h) (h_chans h) (h_nextSub h) → Forall P es →
  h_subs h' = h_subs h → h_nextSub h' = h_nextSub h → h_chans h' = h_chans h →
  emitted P h (emit es h').2.
Proof.
  intros Hwf HF E1 E2 E3. exists es. rewrite emit_deliver by (by rewrite E1, E2, E3).
  split_and!; [done|done|done|]. intros id. by rewrite deliver_lookup, E1, E3.
Qed.

Lemma ensure_chans name h :
  let h' := (ensureTopicLocked name h).2 in
  h_subs h' = h_subs h ∧ h_nextSub h' = h_nextSub h ∧ h_chans h' = h_chans h
  ∧ h_users h' = h_users h.
Proof. unfold ensureTopicLocked. st_simpl. by destruct (_ !! _). Qed.

Lemma member_add_chans t k h :
  let h' := (member_add t k h).2 in
  h_subs h' = h_subs h ∧ h_nextSub h' = h_nextSub h ∧ h_chans h' = h_chans h.
Proof. unfold member_add. by destruct (_ !! _). Qed.

Lemma publish_chans ev m h :
  chan_wf (h_subs h) (h_chans h) (h_nextSub h) → ∀ P : Event → Prop, P (ev m) →
  emitted P h (publish ev m h).2.
Proof.
  intros Hwf P HP. pose proof (publish_spec ev m h) as H. cbn zeta in H.
  destruct (SaveMessage (h_store h) m) as [s err]. rewrite H. destruct err; cbn [snd].
  - by apply emitted_frame.
  - apply emitted_emit; try done. by constructor.
Qed.

(** ** Whose events an operation emits *)

Definition ev_origin (e : Event) : option gostring :=
  match e with
  | UserJoined u | UserLeft u | TopicChanged u _ | UserInfoChanged u =>
      Some (o_Node (u_Origin u))
  | TopicMessage m | PrivateMessage m => Some (m_OriginNode m)
  | NodeLinked _ | NodeUnlinked _ => None
  end.

(** An event about a user or a message of node [n], or about the node graph. *)
Definition from_node (n : gostring) (e : Event) : Prop :=
  ev_origin e = Some n ∨ ev_origin e = None.

Lemma from_node_not_local n our e : from_node n e → n ≠ our → encodeLocal our e = None.
Proof.
  intros [He|He] Hn; destruct e; cbn in *; simplify_eq; try done; unfold isLocal;
    rewrite ?bool_decide_eq_false_2, ?decide_False by done; done.
Qed.

Lemma Join_emitted u h :
  hub_wf h → emitted (from_node (normCall (o_Node (u_Origin u)))) h (Join u h).2.
Proof.
  intros Hwf. unfold Join. st_simpl. case_decide; [by apply emitted_frame; [apply Hwf|..]|].
  st_simpl. cbn [now fst snd].
  match goal with |- context [member_add ?t ?k ?h1] =>
    destruct (member_add_chans t k h1) as (A1 & A2 & A3) end.
  match goal with |- context [ensureTopicLocked ?n ?h1] =>
    destruct (ensure_chans n h1) as (B1 & B2 & B3 & _) end.
  apply emitted_emit; [apply Hwf| | | |].
  - constructor; [|constructor]. left. cbn. clear A1 A2 A3 B1 B2 B3. by case_decide.
  - rewrite A1. exact B1.
  - rewrite A2. exact B2.
  - rewrite A3. exact B3.
Qed.

(** The node of a present user's key is the user's origin. *)
Lemma user_origin h k u : hub_wf h → h_users h !! k = Some u → o_Node (u_Origin u) = uk_Node k.
Proof. intros Hwf Hu. by destruct (cw_key _ _ _ (hw_core _ Hwf) _ _ Hu) as [<- _]. Qed.

Ltac quiet Hwf := by apply emitted_frame; [apply Hwf|..].

Lemma Leave_emitted k h : hub_wf h → emitted (from_node (uk_Node (canonKey k))) h (Leave k h).2.
Proof.
  intros Hwf. unfold Leave. st_simpl.
  destruct (h_users h !! canonKey k) as [u|] eqn:E; [|quiet Hwf]. st_simpl.
  apply emitted_emit; try done; [apply Hwf|]. constructor; [|constructor]. left. cbn.
  f_equal. by eapply user_origin.
Qed.

Lemma SetInfo_emitted k n q h :
  hub_wf h → emitted (from_node (uk_Node (canonKey k))) h (SetInfo k n q h).2.
Proof.
  intros Hwf. unfold SetInfo. st_simpl.
  destruct (h_users h !! canonKey k) as [u|] eqn:E; [|quiet Hwf].
  case_decide; [quiet Hwf|]. st_simpl.
  apply emitted_emit; try done; [apply Hwf|]. constructor; [|constructor]. left. cbn.
  f_equal. by eapply user_origin.
Qed.

Lemma SetTopic_emitted k n h :
  hub_wf h → emitted (from_node (uk_Node (canonKey k))) h (SetTopic k n h).2.
Proof.
  intros Hwf. unfold SetTopic. case_decide; [quiet Hwf|]. st_simpl.
  destruct (h_users h !! canonKey k) as [u|] eqn:E; [|quiet Hwf].
  case_decide; [quiet Hwf|]. st_simpl.
  match goal with |- context [member_add ?t ?k ?h1] =>
    destruct (member_add_chans t k h1) as (A1 & A2 & A3) end.
  match goal with |- context [ensureTopicLocked ?n ?h1] =>
    destruct (ensure_chans n h1) as (B1 & B2 & B3 & _) end.
  apply emitted_emit; [apply Hwf| | | |].
  - constructor; [|constructor]. left. cbn. f_equal. by eapply user_origin.
  - rewrite A1. exact B1.
  - rewrite A2. exact B2.
  - rewrite A3. exact B3.
Qed.

Lemma Post_emitted k t h : hub_wf h → emitted (from_node (uk_Node (canonKey k))) h (Post k t h).2.
Proof.
  intros Hwf. destruct (decide (clip t = [])) as [Hc|Hc];
    [unfold Post; rewrite decide_True by done; quiet Hwf|].
  destruct (h_users h !! canonKey k) as [u|] eqn:E.
  - rewrite (Post_publish k t h u Hc E).
    match goal with |- context [publish ?ev ?m ?h1] =>
      exact (publish_chans ev m h1 (hw_chans _ Hwf) (from_node (uk_Node (canonKey k)))
        (or_introl eq_refl)) end.
  - unfold Post. rewrite decide_False by done. st_simpl. rewrite E. quiet Hwf.
Qed.

Lemma Private_emitted k c t h :
  hub_wf h → emitted (from_node (uk_Node (canonKey k))) h (Private k c t h).2.
Proof.
  intros Hwf. destruct (decide (clip t = [])) as [Hc|Hc];
    [unfold Private; rewrite decide_True by done; quiet Hwf|].
  destruct (h_users h !! canonKey k) as [u|] eqn:E;
    [destruct (userPresentLocked (h_users h) (normCall c)) eqn:Ep|].
  - rewrite (Private_publish k c t h u Hc E Ep).
    match goal with |- context [publish ?ev ?m ?h1] =>
      exact (publish_chans ev m h1 (hw_chans _ Hwf) (from_node (uk_Node (canonKey k)))
        (or_introl eq_refl)) end.
  - unfold Private. rewrite decide_False by done. st_simpl. rewrite E, Ep. quiet Hwf.
  - unfold Private. rewrite decide_False by done. st_simpl. rewrite E. quiet Hwf.
Qed.

Lemma LinkNode_emitted n c a v h : hub_wf h → emitted (from_node n) h (LinkNode c a v h).2.
Proof.
  intros Hwf. unfold LinkNode. case_decide; [quiet Hwf|]. st_simpl. cbn [now fst snd].
  destruct (_ !! _); st_simpl; [quiet Hwf|].
  apply emitted_emit; try done; [apply Hwf|]. constructor; [|constructor]. by right.
Qed.

Lemma ensureUser_wf rec from h : hub_wf h → hub_wf (ensureUser rec from h).2.
Proof.
  intros Hwf. unfold ensureUser. st_simpl. destruct (UserOf _ _); [done|].
  by apply Join_keeps.
Qed.

Lemma ensureUser_emitted rec from h :
  hub_wf h → emitted (from_node (normCall (r_Node rec))) h (ensureUser rec from h).2.
Proof.
  intros Hwf. unfold ensureUser. st_simpl. destruct (UserOf _ _); [quiet Hwf|].
  match goal with |- context [Join ?u h] => exact (Join_emitted u h Hwf) end.
Qed.

Lemma apply_wf rec from h : hub_wf h → hub_wf (apply rec from h).2.
Proof.
  intros Hwf. unfold apply. pose proof (ensureUser_wf rec from h Hwf) as He.
  repeat case_decide; st_simpl; try done.
  - by apply SetInfo_keeps.
  - by apply Leave_keeps.
  - by apply SetInfo_keeps.
  - by apply SetTopic_keeps.
  - by apply Post_keeps.
  - by apply Private_keeps.
  - by apply LinkNode_keeps.
  - by apply UnlinkNode_keeps.
Qed.

(** Applying a record (of any type but an unlink) emits only events of its node. *)
Lemma apply_emitted rec from h :
  hub_wf h → r_Type rec ≠ IDUnlink →
  emitted (from_node (normCall (r_Node rec))) h (apply rec from h).2.
Proof.
  intros Hwf Hq. unfold apply. pose proof (ensureUser_wf rec from h Hwf) as He.
  pose proof (ensureUser_emitted rec from h Hwf) as Hee.
  repeat case_decide; st_simpl; try done; try quiet Hwf.
  - eapply emitted_trans; [exact Hee|].
    by apply (SetInfo_emitted (rec_key rec)).
  - by apply (Leave_emitted (rec_key rec)).
  - eapply emitted_trans; [exact Hee|]. by apply (SetInfo_emitted (rec_key rec)).
  - eapply emitted_trans; [exact Hee|]. by apply (SetTopic_emitted (rec_key rec)).
  - eapply emitted_trans; [exact Hee|]. by apply (Post_emitted (rec_key rec)).
  - eapply emitted_trans; [exact Hee|]. by apply (Private_emitted (rec_key rec)).
  - by apply LinkNode_emitted.
Qed.

Lemma apply_heap rec from w :
  same_but_heap (checked rec w) (checked rec w)
  ∧ w_links (on_hub (apply rec from) (checked rec w)).2 = w_links w
  ∧ w_heap (on_hub (apply rec from) (checked rec w)).2 = w_heap w.
Proof. by split_and!. Qed.

Lemma EqualFold_refl s : EqualFold s s = true.
Proof. by apply bool_decide_eq_true. Qed.

Lemma foreign_not_local rec w : foreign rec w = true → r_Node rec ≠ w_ourNode w.
Proof.
  unfold foreign. intros H E. rewrite E, EqualFold_refl, andb_false_r in H. done.
Qed.

(** Writing to links does not touch the hub. *)
Lemma send_all_hub ts raw : ∀ w, w_hub (send_all ts raw w).2 = w_hub w.
Proof.
  induction ts as [|t ts IH]; intros w; [done|]. cbn [send_all]. st_simpl. rewrite IH.
  by destruct (sendRaw_spec t raw w) as ((E & _) & _).
Qed.

Lemma delivered_nil h id :
  chan_wf (h_subs h) (h_chans h) (h_nextSub h) →
  h_chans h !! id
  = (λ c, if decide (id ∈ h_subs h) then delivered [] c else c) <$> h_chans h !! id.
Proof.
  intros Hwf. destruct (h_chans h !! id) as [c|] eqn:E; [|done]. cbn. f_equal.
  case_decide; [|done]. destruct (cw_chan _ _ _ Hwf _ _ E) as [_ Hb].
  unfold delivered. rewrite app_nil_r, take_ge by done. by destruct c.
Qed.

Lemma Ingest_wf rec from w : hub_wf (w_hub w) → hub_wf (w_hub (Ingest rec from w).2).
Proof.
  intros Hwf. rewrite Ingest_eq.
  assert (hub_wf (w_hub (checked rec w))) as Hc by by apply SeenID_keeps.
  destruct (accepts rec w); [|by destruct (foreign rec w)].
  unfold forward. st_simpl. rewrite send_all_hub. by apply apply_wf.
Qed.

End props.

(** ** The main theorems *)

(** C4. The relay rule.  Ingesting a record has one of two outcomes.  If its node is
    our own (in any case) or its id was seen within the time to live, nothing is
    written to any link and the users, topics, members, nodes, log and subscribers'
    buffers are untouched.  Otherwise its raw line is written exactly once to every
    registered link that is up, except the one it came from, its effect is applied
    to the hub, and the id is remembered. *)
Theorem relay_rule {St : Type} `{!Store St} rec from (w : World St) :
  table_wf w →
  let w' := (Ingest rec from w).2 in
  let id := recordID (w_hub w) rec in
  if accepts rec w then
    w_hub w' = (apply rec from (SeenID id (w_hub w)).2).2
    ∧ alive id (h_clock (w_hub w) (h_tick (w_hub w)) + ss_ttl (h_seen (w_hub w)))
        (SeenID id (w_hub w)).2
    ∧ w_links w' = w_links w
    ∧ (∀ ref l, w_heap w !! ref = Some l →
         w_heap w' !! ref = Some (if decide (is_target w from ref l)
                                  then bump (r_Raw rec) l else l))
  else
    (r_Node rec = [] ∨ EqualFold (r_Node rec) (w_ourNode w) = true
     ∨ (SeenID id (w_hub w)).1 = true)
    ∧ w_heap w' = w_heap w ∧ w_links w' = w_links w
    ∧ h_users (w_hub w') = h_users (w_hub w) ∧ h_topics (w_hub w') = h_topics (w_hub w)
    ∧ h_member (w_hub w') = h_member (w_hub w) ∧ h_nodes (w_hub w') = h_nodes (w_hub w)
    ∧ h_store (w_hub w') = h_store (w_hub w) ∧ h_chans (w_hub w') = h_chans (w_hub w).
Proof.
  intros Hwf w' id. unfold w'. clear w'. rewrite Ingest_eq. destruct (accepts rec w) eqn:Ea.
  - set (w1 := (on_hub (apply rec from) (checked rec w)).2).
    destruct (forward_spec (r_Raw rec) from w1) as [(E1 & E2 & E3 & E4) Hh]; [exact Hwf|].
    split_and!.
    + rewrite E1. done.
    + eexists. split; [apply Seen_entry|]. done.
    + rewrite E4. done.
    + intros ref l El. rewrite Hh. change (w_heap w1) with (w_heap w). by rewrite El.
  - split.
    + unfold accepts, foreign in Ea. apply andb_false_iff in Ea as [Ea|Ea].
      * apply andb_false_iff in Ea as [Ea|Ea]; bools; auto.
      * bools; auto.
    + destruct (foreign rec w); [|by split_and!].
      destruct (SeenID_frame id (w_hub w)) as (F1&F2&F3&F4&F5&F6&_). by split_and!.
Qed.

(** C5. No echo.  When a peer's record of any type but an unlink is ingested, every
    event it makes the hub emit belongs to the record's node, so that the fan-out
    loop, which will read those events, sends nothing for any of them: such traffic
    leaves a node only by the relay rule.  (An unlink record that names this node evicts
    its own users, whose departures are fanned out: [unlink_evicts_local_users].) *)
Theorem relay_no_echo {St : Type} `{!Store St} line rec from (w : World St) :
  hub_wf (w_hub w) → Decode line = Some rec → r_Type rec ≠ IDUnlink →
  ∃ es, Forall (λ e, encodeLocal (w_ourNode w) e = None) es
    ∧ (accepts rec w = true → ∀ e, e ∈ es → from_node (r_Node rec) e)
    ∧ ∀ id, h_chans (w_hub (Ingest rec from w).2) !! id
        = (λ c, if decide (id ∈ h_subs (w_hub w)) then delivered es c else c)
          <$> h_chans (w_hub w) !! id.
Proof.
  intros Hwf Hd Hq. rewrite Ingest_eq.
  destruct (Decode_Some line rec Hd) as (Hrw & _).
  assert (hub_wf (w_hub (checked rec w))) as Hc by by apply SeenID_keeps.
  destruct (accepts rec w) eqn:Ea.
  - assert (foreign rec w = true) as Hf by by apply andb_true_iff in Ea as [? _].
    destruct (apply_emitted rec from _ Hc Hq) as (es & HF & _ & _ & Hch).
    rewrite (rw_node_norm _ Hrw) in HF. exists es. split_and!.
    + refine (Forall_impl _ _ _ HF _). intros e He.
      eapply from_node_not_local; [exact He|by apply foreign_not_local].
    + intros _ e. by apply Forall_forall.
    + intros id. unfold forward. st_simpl. rewrite send_all_hub. exact (Hch id).
  - exists []. split; [constructor|]. split; [done|]. intros id.
    rewrite <- (delivered_nil _ _ (hw_chans _ Hwf)). by destruct (foreign rec w).
Qed.

(** A node with two peers, links 0 and 1. *)
Definition sample_link (peer : gostring) : Link :=
  mkLink peer (bs "GB7AAA-9") (bs "pdn") false true (60 * 1000000000) (30 * 1000000000)
    0 0 0 0 [] true.
Definition sample_world : World MemStore.MemStore :=
  (AddLink 1 (AddLink 0 (upd_heap (λ _, {[0%nat := sample_link (bs "GB7BBB-9");
     1%nat := sample_link (bs "GB7CCC-9")]}) (NewRouter sample_hub))).2).2.
Definition sample_rec (line : gostring) : WireRecord :=
  default (mkWireRecord [] (zb 0) [] [] []) (Decode (FORMAT :: line)).
Definition ingest_all (l : list (gostring * gostring)) (w : World MemStore.MemStore) :=
  foldl (λ w e, (Ingest (sample_rec e.1) e.2 w).2) w l.

Lemma sample_table_wf : table_wf sample_world.
Proof. apply AddLink_table_wf, AddLink_table_wf. intros id ref H.
  change ((∅ : gmap gostring nat) !! id = Some ref) in H. by rewrite lookup_empty in H.
Qed.
Lemma sample_hub_wf : hub_wf (w_hub sample_world).
Proof. exact (proj1 (Subscribe_keeps sample_hub (proj1 (NewHub_wf _ _ _)))). Qed.

Lemma relay_rule_witness :
  let rec := sample_rec (bs "DGB7DDD M0XYZ hello") in
  table_wf sample_world ∧ accepts rec sample_world = true
  ∧ w_heap (Ingest rec (bs "GB7BBB-9") sample_world).2 !! 1%nat
    = Some (link_sent (λ s, s ++ [r_Raw rec]) (sample_link (bs "GB7CCC-9")))
  ∧ w_heap (Ingest rec (bs "GB7BBB-9") sample_world).2 !! 0%nat
    = Some (sample_link (bs "GB7BBB-9")).
Proof.
  intros rec. assert (accepts rec sample_world = true) as Ha by by vm_compute.
  pose proof (relay_rule rec (bs "GB7BBB-9") sample_world sample_table_wf) as H.
  cbv zeta in H. rewrite Ha in H. destruct H as (_ & _ & _ & H).
  split; [exact sample_table_wf|]. split; [exact Ha|]. split.
  - rewrite (H 1%nat (sample_link (bs "GB7CCC-9")) ltac:(by vm_compute)).
    rewrite decide_True; [done|by vm_compute].
  - rewrite (H 0%nat (sample_link (bs "GB7BBB-9")) ltac:(by vm_compute)).
    rewrite decide_False; [done|]. intros [_ Hn]. by apply Hn.
Defined.

Lemma relay_no_echo_witness :
  let line := FORMAT :: bs "JGB7DDD M0XYZ Ann Leeds" in
  ∃ rec, Decode line = Some rec ∧ r_Type rec ≠ IDUnlink
  ∧ ∃ es, Forall (λ e, encodeLocal (w_ourNode sample_world) e = None) es
    ∧ ∀ id, h_chans (w_hub (Ingest rec (bs "GB7BBB-9") sample_world).2) !! id
        = (λ c, if decide (id ∈ h_subs (w_hub sample_world)) then delivered es c else c)
          <$> h_chans (w_hub sample_world) !! id.
Proof.
  intros line. destruct (Decode line) as [rec|] eqn:E; [|exfalso; revert E; by vm_compute].
  exists rec. split; [done|].
  assert (r_Type rec ≠ IDUnlink) as Hq.
  { vm_compute in E. injection E as <-. by vm_compute. }
  split; [exact Hq|].
  destruct (relay_no_echo line rec (bs "GB7BBB-9") sample_world sample_hub_wf E Hq)
    as (es & H1 & _ & H2).
  by exists es.
Defined.

(** The two nodes agree on the id of a relayed message.  When a node posts a
    message whose origin and sender are upper-case words and whose text is clean and
    single-spaced, the record it fans out is given the same id by any node at which
    the sender is in the same topic, up to case; so the copies arriving by two paths,
    and a copy looping back, are duplicates. *)
Theorem relayed_id_agrees {St : Type} `{!Store St} (h : Hub St) (m : Message) rec :
  Forall (λ w, is_word w ∧ clean w ∧ ToUpper w = w) [m_OriginNode m; m_FromCall m] →
  m_Kind m = KindTopic → clean (m_Text m) → m_Text m = GoStrings.Join (Fields (m_Text m)) [SP] →
  m_ID m = SynthID (m_OriginNode m) (m_FromCall m) (m_Kind m) (m_Topic m) (m_Text m) →
  ToLower (topicOf h (mkUserKey (m_FromCall m) (m_OriginNode m))) = ToLower (m_Topic m) →
  (Raw ← encodeLocal (m_OriginNode m) (TopicMessage m); Decode Raw) = Some rec →
  recordID h rec = m_ID m ∧ normText (Tail rec 0) = normText (m_Text m).
Proof.
  intros Hw Hk Ct Hsp Hid Htop. repeat (apply Forall_cons in Hw as [(? & ? & ?) Hw]).
  cbn [encodeLocal]. rewrite decide_True by done. cbn [mbind option_bind].
  unfold encodeData. rewrite Decode_encode_fields by (done || by repeat constructor).
  intros [= <-].
  match goal with |- recordID _ ?r = _ ∧ _ => assert (Tail r 0 = m_Text m) as Et end.
  { rewrite (Tail_Join _ 0 _ eq_refl).
    change (GoStrings.Join (Fields (m_Text m) ++ []) [SP] = m_Text m).
    by rewrite app_nil_r, <- Hsp. }
  split; [|by rewrite Et]. unfold recordID. cbn [r_Type]. rewrite decide_True by done.
  rewrite Et, Hid, Hk. unfold rec_key. cbn [r_Node r_User].
  unfold SynthID, synth_preimage. do 2 f_equal.
  by rewrite !H1, !H4, Htop.
Qed.

Lemma relayed_id_agrees_witness :
  let m := mkMessage (SynthID (bs "GB7DDD") (bs "M0XYZ") KindTopic (bs "general") (bs "hello all"))
             (bs "GB7DDD") (bs "M0XYZ") KindTopic (bs "general") [] 0 (bs "hello all") in
  ∃ rec, (Raw ← encodeLocal (bs "GB7DDD") (TopicMessage m); Decode Raw) = Some rec
    ∧ recordID (w_hub sample_world) rec = m_ID m.
Proof.
  intros m. destruct (Raw ← encodeLocal (bs "GB7DDD") (TopicMessage m); Decode Raw) as [rec|] eqn:E;
    [|exfalso; revert E; vm_compute; discriminate].
  exists rec. split; [done|].
  apply (relayed_id_agrees (w_hub sample_world) m rec).
  - repeat constructor; first [by apply (bool_decide_unpack _); vm_compute
      |left; vm_compute; congruence|by vm_compute].
  - reflexivity.
  - repeat (constructor; [left; vm_compute; congruence|]). constructor.
  - by vm_compute.
  - reflexivity.
  - by vm_compute.
  - exact E.
Defined.

(** The duplicate check of presence records keys on the raw line, so a user who
    joins, leaves and joins again within the time to live stays absent at the peer:
    the second join is dropped as a duplicate. *)
Theorem rejoin_dropped_by_peer :
  let j := bs "JGB7DDD M0XYZ Ann Leeds" in let l := bs "LGB7DDD M0XYZ Ann Leeds" in
  let from := bs "GB7BBB-9" in
  Users (w_hub (ingest_all [(j, from)] sample_world)) ≠ []
  ∧ Users (w_hub (ingest_all [(j, from); (l, from); (j, from)] sample_world)) = [].
Proof. split; [vm_compute; discriminate|by vm_compute]. Qed.

(** The id of a data record depends on the topic the sender is in at the
    receiving node, so a copy that arrives by a second path after the sender's topic
    change is not a duplicate: the message is logged twice, once in each topic. *)
Theorem topic_change_duplicates_message :
  let d := bs "DGB7DDD M0XYZ hello" in let t := bs "TGB7DDD M0XYZ DX" in
  (λ m, (m_Topic m, m_Text m)) <$> MemStore.ms_msgs (h_store (w_hub
    (ingest_all [(d, bs "GB7BBB-9"); (t, bs "GB7BBB-9"); (d, bs "GB7CCC-9")] sample_world)))
  = [(DefaultTopic, bs "hello"); (bs "DX", bs "hello")].
Proof. by vm_compute. Qed.

(** An unlink record that names the receiving node evicts its own local users,
    once a link record has put that node into its own graph. *)
Theorem unlink_evicts_local_users :
  let w0 := upd_hub (λ h, (Join (sample_user (bs "M0ABC") []) h).2) sample_world in
  Users (w_hub w0) ≠ []
  ∧ Users (w_hub (ingest_all [(bs "NGB7DDD X GB7AAA-9", bs "GB7BBB-9");
                             (bs "QGB7DDD X GB7AAA-9", bs "GB7BBB-9")] w0)) = [].
Proof. split; [vm_compute; discriminate|by vm_compute]. Qed.

(** The id of a record need not be the origin's message id: runs of spaces in the
    text are collapsed by the wire but kept by the origin, so a peer's id for the
    record of such a message differs from the message's own. *)
Theorem spaced_text_changes_id :
  let m := mkMessage [] (bs "GB7DDD") (bs "M0XYZ") KindTopic DefaultTopic [] 0 (bs "a  b") in
  ∃ rec, (Raw ← encodeLocal (bs "GB7DDD") (TopicMessage m); Decode Raw) = Some rec
    ∧ recordID (w_hub sample_world) rec
      ≠ SynthID (m_OriginNode m) (m_FromCall m) (m_Kind m) (m_Topic m) (m_Text m).
Proof. eexists. split; [by vm_compute|]. vm_compute. discriminate. Qed.
