(* ===== verification/PeerLink.v ===== *)
(** * A node-to-node link ([internal/peer/link.go], [dialer.go])

    The transport's input is the byte sequence still to be read, ending with end of
    file (a closed connection or a timed-out read); output goes through [sendRaw] on
    the link object, as in the router.  Times are the readings of [time.Now] each
    call makes, passed as arguments. *)
From S2P Require Import Prelude Unicode GoStrings ChatModel ChatStore ChatHub.
From S2P Require Import PeerProto PeerAllow PeerRouter.
From stdpp Require Import options.
Import Router.
Local Open Scope Z_scope.

Definition KeepaliveInterval : Duration := 60 * 1000000000.
Definition LinkTimeout : Duration := 300 * 1000000000.
Definition DefaultExpectTimeout : Duration := 30 * 1000000000.
Definition maxLine : nat := 4096.

(** ** Reading lines *)

(** The loop of [readLine]: [b] is what has been collected.  [None] is the read
    error at the end of the input. *)
Fixpoint readLine_loop (b : gostring) (input : gostring) : option (gostring * gostring) :=
  match input with
  | [] => None
  | c :: input' =>
      if (bz c =? 13) || (bz c =? 10) then Some (b, input')
      else readLine_loop (if (length b <? maxLine)%nat then b ++ [c] else b) input'
  end.
Definition readLine (br : gostring) : option (gostring * gostring) := readLine_loop [] br.

(** The lines of the whole input, as [readLines] hands them to the serve loop; the
    fuel is the input's length. *)
Fixpoint readLines_fuel (n : nat) (br : gostring) : list gostring :=
  match n with
  | O => []
  | S n' =>
      match readLine br with
      | Some (line, br') => line :: readLines_fuel n' br'
      | None => []
      end
  end.
Definition readLines (br : gostring) : list gostring := readLines_fuel (length br) br.

(** [readUntil] and [readUntilLine] are the same loop. *)
Fixpoint readUntil_fuel (n : nat) (pred : gostring → bool) (br : gostring) : option gostring :=
  match n with
  | O => None
  | S n' =>
      match readLine br with
      | Some (line, br') => if pred line then Some br' else readUntil_fuel n' pred br'
      | None => None
      end
  end.
Definition readUntil (pred : gostring → bool) (br : gostring) : option gostring :=
  readUntil_fuel (length br) pred br.

Fixpoint readFirstRecord_fuel (n : nat) (br : gostring) : option (WireRecord * gostring) :=
  match n with
  | O => None
  | S n' =>
      match readLine br with
      | Some (line, br') =>
          match Decode line with
          | Some rec => Some (rec, br')
          | None => readFirstRecord_fuel n' br'
          end
      | None => None
      end
  end.
Definition readFirstRecord (br : gostring) : option (WireRecord * gostring) :=
  readFirstRecord_fuel (length br) br.

(** ** Telemetry *)

Definition markSeen (now : Time) (l : Link) : Link :=
  link_stat now (l_rtt l) (l_sentPing l) (l_linkedAt l) l.
Definition markPingSent (now : Time) (l : Link) : Link :=
  if l_sentPing l =? 0
  then link_stat (l_lastSeen l) (l_rtt l) now (l_linkedAt l) l else l.
Definition recordPong (now : Time) (l : Link) : Link :=
  if l_sentPing l =? 0 then l
  else link_stat (l_lastSeen l) (now - l_sentPing l) 0 (l_linkedAt l) l.
Definition sinceLastSeen (now : Time) (l : Link) : Duration := now - l_lastSeen l.

(** ** Construction *)

Record Config := mkConfig {
  c_PeerCall : gostring;
  c_OurNode : gostring;
  c_Version : gostring;
  c_Outbound : bool;
  c_Greeted : bool;
  c_Keepalive : Duration;
  c_ExpectTimeout : Duration }.

Definition NewLink (cfg : Config) : Link :=
  mkLink (ToUpper (c_PeerCall cfg)) (ToUpper (c_OurNode cfg))
    (if decide (c_Version cfg = []) then bs "pdn" else c_Version cfg)
    (c_Outbound cfg) (c_Greeted cfg)
    (if c_Keepalive cfg <=? 0 then KeepaliveInterval else c_Keepalive cfg)
    (if c_ExpectTimeout cfg <=? 0 then DefaultExpectTimeout else c_ExpectTimeout cfg)
    0 0 0 0 [] true.

Section link.
Context {St : Type} `{!Store St}.
Abbreviation WorldM := (ST (World St)).

(** Update the telemetry of a link object. *)
Definition on_link (ref : nat) (f : Link → Link) : WorldM unit :=
  st_mod (upd_heap (alter f ref)).

Definition sendKeepalive (ref : nat) : WorldM bool :=
  heap ← st_get w_heap;
  match heap !! ref with
  | Some l => sendRaw ref (encodeKeepalive (l_ourNode l) (l_peerCall l) (l_version l))
  | None => mret false
  end.

(** ** Handshake

    [Some br] is success with the input left to read; [None] is an error. *)
Definition ok_reply (s : gostring) : bool := HasPrefix (ToUpper s) (bs "OK").

Definition handshake (ref : nat) (l : Link) (br : gostring) : WorldM (option gostring) :=
  if l_outbound l then
    match readUntil isBanner br with
    | None => mret None
    | Some br1 =>
        ok1 ← sendRaw ref rtlLogin;
        if negb ok1 then mret None else
        ok2 ← sendKeepalive ref;
        if negb ok2 then mret None else
        mret (readUntil ok_reply br1)
    end
  else
    r ← (if l_greeted l then mret (Some br) else
         ok ← sendRaw ref banner;
         if negb ok then mret None else mret (readUntil IsRTL br));
    match r with
    | None => mret None
    | Some br1 =>
        ok1 ← sendRaw ref (bs "OK");
        if negb ok1 then mret None else
        ok2 ← sendKeepalive ref;
        mret (if ok2 : bool then Some br1 else None)
    end.

(** ** The connect script *)

Record ScriptStep := mkScriptStep { ss_Expect : gostring; ss_Send : gostring }.

(** The loop of [expect]: [window] is what has been read and kept; a deadline shows
    as the end of the input. *)
Fixpoint expect_loop (keep : nat) (wantUp window : gostring) (br : gostring)
    : option gostring :=
  match br with
  | [] => None
  | b :: br' =>
      let window := window ++ [b] in
      let window := if (keep * 2 <? length window)%nat
                    then drop (length window - keep) window else window in
      if Contains (ToUpper window) wantUp then Some br'
      else expect_loop keep wantUp window br'
  end.
Definition expect (want br : gostring) : option gostring :=
  expect_loop (length want + 64) (ToUpper want) [] br.

(** Walk the steps: the input left, or an error. *)
Fixpoint run_script (ref : nat) (steps : list ScriptStep) (br : gostring)
    : WorldM (option gostring) :=
  match steps with
  | [] => mret (Some br)
  | st :: steps' =>
      match (if decide (ss_Expect st = []) then Some br else expect (ss_Expect st) br) with
      | None => mret None
      | Some br1 =>
          if decide (ss_Send st = []) then run_script ref steps' br1 else
          ok ← sendRaw ref (ss_Send st);
          if ok : bool then run_script ref steps' br1 else mret None
      end
  end.

(** ** Serving *)

Definition handleRecord (now : Time) (ref : nat) (rec : WireRecord) : WorldM unit :=
  on_link ref (markSeen now);;
  heap ← st_get w_heap;
  match heap !! ref with
  | None => mret tt
  | Some l =>
      if decide (r_Type rec = IDKeepalive ∨ r_Type rec = IDPoll) then
        sendRaw ref (encodePollResp (l_ourNode l) (l_peerCall l));; mret tt
      else if decide (r_Type rec = IDPollResp) then on_link ref (recordPong now)
      else Ingest rec (link_id l)
  end.

Definition handle (now : Time) (ref : nat) (line : gostring) : WorldM unit :=
  if negb (IsControl line) then mret tt else
  match Decode line with
  | None => mret tt
  | Some rec => handleRecord now ref rec
  end.

(** The loop of [stateTell] over the users. *)
Fixpoint tell_users (ref : nat) (our : gostring) (us : list User) : WorldM unit :=
  match us with
  | [] => mret tt
  | u :: us' =>
      (if decide (o_Node (u_Origin u) = our) then
         sendRaw ref (encodeJoin our (u_Call u) (u_Name u) (u_QTH u));;
         if EqualFold (u_Topic u) DefaultTopic then mret tt
         else sendRaw ref (encodeTopic our (u_Call u) (u_Topic u));; mret tt
       else mret tt);;
      tell_users ref our us'
  end.

Definition stateTell (ref : nat) : WorldM unit :=
  users ← st_get (λ w, Hub.Users (w_hub w));
  heap ← st_get w_heap;
  match heap !! ref with
  | Some l => tell_users ref (l_ourNode l) users
  | None => mret tt
  end.

(** One tick of [keepaliveLoop]; [false] ends the loop. *)
Definition keepalive_tick (now now' : Time) (ref : nat) : WorldM bool :=
  heap ← st_get w_heap;
  match heap !! ref with
  | None => mret false
  | Some l =>
      if LinkTimeout <? sinceLastSeen now l
      then on_link ref (link_up false);; mret false
      else on_link ref (markPingSent now');; sendKeepalive ref
  end.

(** [serve] up to its read loop. *)
Definition serve_start (now : Time) (ref : nat) (pending : option (Time * WireRecord))
    : WorldM unit :=
  on_link ref (λ l, link_stat now (l_rtt l) (l_sentPing l) now l);;
  AddLink ref;;
  heap ← st_get w_heap;
  match heap !! ref with
  | None => mret tt
  | Some l =>
      on_hub (Hub.LinkNode (l_peerCall l) [] (l_version l));;
      stateTell ref;;
      match pending with
      | Some (t, rec) => handleRecord t ref rec
      | None => mret tt
      end
  end.

(** Its read loop over the lines received, each with the time it is handled. *)
Fixpoint serve_lines (ref : nat) (lines : list (Time * gostring)) : WorldM unit :=
  match lines with
  | [] => mret tt
  | (now, line) :: lines' => handle now ref line;; serve_lines ref lines'
  end.

(** The deferred calls, in the order Go runs them. *)
Definition serve_stop (ref : nat) : WorldM unit :=
  heap ← st_get w_heap;
  match heap !! ref with
  | None => mret tt
  | Some l =>
      on_hub (Hub.UnlinkNode (l_peerCall l));;
      RemoveLink (link_id l)
  end.

(** [serve] on a session whose read loop sees [lines] before it ends. *)
Definition serve (now : Time) (ref : nat) (pending : option (Time * WireRecord))
    (lines : list (Time * gostring)) : WorldM unit :=
  serve_start now ref pending;; serve_lines ref lines;; serve_stop ref.

(** [RunWithReader] and [RunWithScript]: whether the handshake succeeded and, if so,
    the lines left for the read loop are served, each at time [now]. *)
Definition RunWithReader (now : Time) (ref : nat) (l : Link) (br : gostring) : WorldM bool :=
  r ← handshake ref l br;
  match r with
  | None => mret false
  | Some br1 => serve now ref None ((λ s, (now, s)) <$> readLines br1);; mret true
  end.

Definition RunWithScript (now : Time) (ref : nat) (l : Link) (steps : list ScriptStep)
    (br : gostring) : WorldM bool :=
  r ← run_script ref steps br;
  match r with
  | None => mret false
  | Some br1 => RunWithReader now ref l br1
  end.

(** ** The inbound IP ingress

    [up] is whether the greeting could be written; it is the first line of the
    connection's output.  The result says how
    the call ended; the allow-list is the shared object, returned updated. *)
Inductive ingress :=
| IngressError           (* the connection failed before the peer was known *)
| IngressNoNode
| IngressRefused
| IngressServed.

#[export] Instance ingress_eq_dec : EqDecision ingress.
Proof. solve_decision. Defined.

Definition ServeInboundIP (now : Time) (ref : nat) (ourNode : gostring)
    (allow : option AllowList) (up : bool) (br : gostring)
    : WorldM (ingress * option AllowList) :=
  if negb up then mret (IngressError, allow) else
  match readUntil IsRTL br with
  | None => mret (IngressError, allow)
  | Some br1 =>
      match readFirstRecord br1 with
      | None => mret (IngressError, allow)
      | Some (first, br2) =>
          if decide (r_Node first = []) then mret (IngressNoNode, allow)
          else if negb (Allowed allow (r_Node first)) then
            mret (IngressRefused, (Reject allow).2)
          else
            let l := NewLink (mkConfig (r_Node first) ourNode [] false true 0 0) in
            st_mod (upd_heap <[ref := link_sent (λ _, [banner]) l]>);;
            ok1 ← sendRaw ref (bs "OK");
            if negb ok1 then mret (IngressError, allow) else
            ok2 ← sendKeepalive ref;
            if negb ok2 then mret (IngressError, allow) else
            serve now ref (Some (now, first)) ((λ s, (now, s)) <$> readLines br2);;
            mret (IngressServed, allow)
      end
  end.

End link.

(** ** The dialer's backoff ([DialAndServe]) *)

Definition dial_initial : Duration := 2 * 1000000000.
Definition dial_max : Duration := 60 * 1000000000.
Definition backoff_next (backoff : Duration) : Duration :=
  let b := backoff * 2 in if dial_max <? b then dial_max else b.
