(* ===== verification/LinkProps.v ===== *)
(** * What a link guarantees

    Line framing, the handshake, the admission of inbound peers, and the clean-up
    when a link ends. *)
From S2P Require Import Prelude Unicode GoStrings ChatModel ChatSeen ChatStore ChatHub.
From S2P Require Import HubProps HubTheorems PeerProto PeerAllow PeerRouter RouterProps PeerLink.
From stdpp Require Import options.
Import Hub Router.
Local Open Scope Z_scope.

(** ** Lines *)

Definition eol (c : byte) : Prop := bz c = 13 ∨ bz c = 10.
#[export] Instance eol_dec c : Decision (eol c).
Proof. unfold eol. apply _. Defined.

(** A line without terminators. *)
Abbreviation one_line := (Forall (λ c, ¬ eol c)).

(** The bytes of lines on the wire. *)
Definition wire (lines : list gostring) : gostring := concat ((λ s, s ++ [zb 13]) <$> lines).

Lemma readLine_loop_spec input : ∀ b line rest,
  readLine_loop b input = Some (line, rest) ↔
  ∃ w c, input = w ++ c :: rest ∧ one_line w ∧ eol c
    ∧ line = b ++ take (maxLine - length b) w.
Proof.
  induction input as [|c input IH]; intros b line rest; cbn [readLine_loop].
  - split; [done|]. intros ([|? ?] & ? & ? & _); done.
  - destruct ((bz c =? 13) || (bz c =? 10)) eqn:E.
    + assert (eol c) as He.
      { apply orb_true_iff in E as [E|E]; apply Z.eqb_eq in E; [by left|by right]. }
      split.
      * intros [= <- <-]. exists [], c. split_and!; try done. by rewrite take_nil, app_nil_r.
      * intros ([|d w] & e & Hi & Hw & He' & ->).
        -- injection Hi as _ ->. by rewrite take_nil, app_nil_r.
        -- injection Hi as <- _. by apply Forall_cons in Hw as [? _].
    + assert (¬ eol c) as He.
      { apply orb_false_iff in E as [E1 E2]. apply Z.eqb_neq in E1, E2. by intros [?|?]. }
      rewrite IH. split.
      * intros (w & d & -> & Hw & Hd & ->). exists (c :: w), d. split_and!; [done| |done|].
        { by constructor. }
        destruct (Nat.ltb_spec (length b) maxLine).
        { rewrite length_app. cbn [length]. rewrite <- app_assoc. f_equal.
          replace (maxLine - length b)%nat with (S (maxLine - (length b + 1)))%nat by lia.
          done. }
        { replace (maxLine - length b)%nat with 0%nat by lia. done. }
      * intros ([|d w] & e & Hi & Hw & He' & ->); injection Hi as -> ->; [done|].
        apply Forall_cons in Hw as [_ Hw]. exists w, e. split_and!; try done.
        destruct (Nat.ltb_spec (length b) maxLine).
        { rewrite length_app. cbn [length]. rewrite <- app_assoc. f_equal.
          replace (maxLine - length b)%nat with (S (maxLine - (length b + 1)))%nat by lia.
          done. }
        { replace (maxLine - length b)%nat with 0%nat by lia. done. }
Qed.

Lemma readLine_wire line rest :
  one_line line → (length line ≤ maxLine)%nat →
  readLine (line ++ zb 13 :: rest) = Some (line, rest).
Proof.
  intros Hl Hb. apply readLine_loop_spec. exists line, (zb 13). split_and!; try done; [by left|].
  cbn [length app]. rewrite Nat.sub_0_r. by rewrite take_ge.
Qed.

Lemma readLine_shorter br line rest :
  readLine br = Some (line, rest) → (length rest < length br)%nat.
Proof.
  intros H. apply readLine_loop_spec in H as (w & c & -> & _).
  rewrite length_app. simpl. lia.
Qed.

(** A run of short lines is read back line by line. *)
Definition short_line (s : gostring) : Prop := one_line s ∧ (length s ≤ maxLine)%nat.

Lemma wire_cons s ls : wire (s :: ls) = s ++ zb 13 :: wire ls.
Proof. unfold wire. rewrite fmap_cons. cbn [concat]. by rewrite <- app_assoc. Qed.

Lemma wire_app l1 l2 : wire (l1 ++ l2) = wire l1 ++ wire l2.
Proof. unfold wire. by rewrite fmap_app, concat_app. Qed.

Lemma readLines_fuel_wire ls : ∀ n, Forall short_line ls → (length (wire ls) ≤ n)%nat →
  readLines_fuel n (wire ls) = ls.
Proof.
  induction ls as [|s ls IH]; intros n Hs Hn; [by destruct n|].
  apply Forall_cons in Hs as [[H1 H2] Hs]. rewrite wire_cons in *.
  rewrite length_app in Hn. cbn [length] in Hn. destruct n as [|n]; [lia|].
  cbn [readLines_fuel]. rewrite readLine_wire by done. f_equal. apply IH; [done|lia].
Qed.

(** [readUntil] drops the lines before the first match. *)
Lemma readUntil_fuel_skip pred ls : ∀ n s rest,
  Forall short_line ls → Forall (λ l, pred l = false) ls → short_line s → pred s = true →
  (length (wire (ls ++ [s]) ++ rest) ≤ n)%nat →
  readUntil_fuel n pred (wire (ls ++ [s]) ++ rest) = Some rest.
Proof.
  induction ls as [|l ls IH]; intros n s rest Hl Hp Hs Hps Hn; cbn [app] in *;
    rewrite wire_cons in *; rewrite <- app_assoc in *; cbn [app] in *;
    rewrite length_app in Hn; cbn [length] in Hn; (destruct n as [|n]; [lia|]);
    cbn [readUntil_fuel].
  - destruct Hs as [H1 H2]. rewrite readLine_wire by done. by rewrite Hps.
  - apply Forall_cons in Hl as [[H1 H2] Hl]. apply Forall_cons in Hp as [Hp1 Hp].
    rewrite readLine_wire by done. rewrite Hp1. apply IH; try done. lia.
Qed.

Lemma readUntil_skip pred ls s rest :
  Forall short_line ls → Forall (λ l, pred l = false) ls → short_line s → pred s = true →
  readUntil pred (wire (ls ++ [s]) ++ rest) = Some rest.
Proof. intros. by apply readUntil_fuel_skip. Qed.

(** ** Writing lines to a link *)

Section writing.
Context {St : Type} `{!Store St}.
Implicit Types (w : World St).

Lemma sendRaw_up ref raw w l :
  w_heap w !! ref = Some l → l_up l = true →
  sendRaw ref raw w = (true, upd_heap <[ref := link_sent (λ s, s ++ [raw]) l]> w).
Proof. intros E Hu. unfold sendRaw. st_simpl. by rewrite E, Hu. Qed.

(** The node after lines have been written to an up link. *)
Definition wrote (ref : nat) (l : Link) (lines : list gostring) w : World St :=
  upd_heap <[ref := link_sent (λ s, s ++ lines) l]> w.

Lemma wrote_wrote ref l l1 l2 w :
  wrote ref (link_sent (λ s, s ++ l1) l) l2 (wrote ref l l1 w) = wrote ref l (l1 ++ l2) w.
Proof.
  unfold wrote, upd_heap. cbn. f_equal. rewrite insert_insert_eq. f_equal.
  unfold link_sent. cbn. by rewrite app_assoc.
Qed.

Lemma sendRaw_wrote ref l lines raw w :
  l_up l = true →
  sendRaw ref raw (wrote ref l lines w) = (true, wrote ref l (lines ++ [raw]) w).
Proof.
  intros Hu. rewrite (sendRaw_up _ _ _ (link_sent (λ s, s ++ lines) l));
    [|apply lookup_insert_eq|done]. f_equal.
  exact (wrote_wrote ref l lines [raw] w).
Qed.

Lemma sendRaw_first ref l raw w :
  w_heap w !! ref = Some l → l_up l = true →
  sendRaw ref raw w = (true, wrote ref l [raw] w).
Proof. intros E Hu. by rewrite (sendRaw_up _ _ _ l). Qed.

Definition keepalive_line (l : Link) : gostring :=
  encodeKeepalive (l_ourNode l) (l_peerCall l) (l_version l).

Lemma sendKeepalive_wrote ref l lines w :
  l_up l = true →
  sendKeepalive ref (wrote ref l lines w)
  = (true, wrote ref l (lines ++ [keepalive_line l]) w).
Proof.
  intros Hu. unfold sendKeepalive. st_simpl. unfold wrote at 1. cbn [w_heap upd_heap].
  rewrite lookup_insert_eq. by apply sendRaw_wrote.
Qed.

(** What each side of the handshake writes. *)
Definition dialer_lines (l : Link) : list gostring := [rtlLogin; keepalive_line l].
Definition listener_lines (l : Link) : list gostring :=
  (if l_greeted l then [] else [banner]) ++ [bs "OK"; keepalive_line l].

Lemma handshake_outbound ref l w br br1 br2 :
  w_heap w !! ref = Some l → l_up l = true → l_outbound l = true →
  readUntil isBanner br = Some br1 → readUntil ok_reply br1 = Some br2 →
  handshake ref l br w = (Some br2, wrote ref l (dialer_lines l) w).
Proof.
  intros E Hu Ho H1 H2. unfold handshake. rewrite Ho, H1. st_simpl.
  rewrite (sendRaw_first _ l) by done. cbn [fst snd negb].
  rewrite sendKeepalive_wrote by done. cbn [fst snd negb app]. by rewrite H2.
Qed.

Lemma handshake_inbound ref l w br br1 :
  w_heap w !! ref = Some l → l_up l = true → l_outbound l = false →
  (if l_greeted l then br1 = br else readUntil IsRTL br = Some br1) →
  handshake ref l br w = (Some br1, wrote ref l (listener_lines l) w).
Proof.
  intros E Hu Ho H. unfold handshake, listener_lines. rewrite Ho. st_simpl.
  destruct (l_greeted l); st_simpl.
  - subst br1. rewrite (sendRaw_first _ l) by done. cbn [fst snd negb].
    rewrite sendKeepalive_wrote by done. done.
  - rewrite (sendRaw_first _ l) by done. cbn [fst snd negb]. st_simpl. rewrite H.
    rewrite sendRaw_wrote by done. cbn [fst snd negb].
    rewrite sendKeepalive_wrote by done. done.
Qed.

End writing.

(** C32. The two halves of the handshake fit.  A dialling link fed what a listening
    link writes, and a listening link fed what a dialling link writes, both succeed,
    whatever order their writes and reads interleave in (neither's output depends on
    its input): the dialler is left with exactly the peer's keepalive and what
    follows, the listener likewise, and each has written exactly its own lines. *)
Theorem handshake_interop {St : Type} `{!Store St} (wa wb : World St) ra rb la lb resta restb :
  w_heap wa !! ra = Some la → l_up la = true → l_outbound la = true →
  w_heap wb !! rb = Some lb → l_up lb = true → l_outbound lb = false → l_greeted lb = false →
  handshake ra la (wire (listener_lines lb) ++ resta) wa
  = (Some (wire [keepalive_line lb] ++ resta), wrote ra la (dialer_lines la) wa)
  ∧ handshake rb lb (wire (dialer_lines la) ++ restb) wb
  = (Some (wire [keepalive_line la] ++ restb), wrote rb lb (listener_lines lb) wb).
Proof.
  intros Ea Ua Oa Eb Ub Ob Gb.
  split.
  - apply handshake_outbound with (br1 := wire [bs "OK"; keepalive_line lb] ++ resta); try done.
    unfold listener_lines. by rewrite Gb.
  - apply handshake_inbound; try done. by rewrite Gb.
Qed.

Definition sample_dialler : Link :=
  NewLink (mkConfig (bs "gb7bbb-9") (bs "GB7AAA-9") [] true false 0 0).
Definition sample_listener : Link :=
  NewLink (mkConfig (bs "GB7AAA-9") (bs "GB7BBB-9") [] false false 0 0).
Definition world_with (l : Link) : World MemStore.MemStore :=
  upd_heap (λ _, {[7%nat := l]}) (NewRouter sample_hub).

Lemma handshake_interop_witness :
  ∃ w, handshake 7 sample_dialler (wire (listener_lines sample_listener) ++ bs "x")
         (world_with sample_dialler)
       = (Some (wire [keepalive_line sample_listener] ++ bs "x"), w).
Proof.
  eexists. apply (proj1 (handshake_interop (world_with sample_dialler)
    (world_with sample_listener) 7 7 sample_dialler sample_listener (bs "x") []
    eq_refl eq_refl eq_refl eq_refl eq_refl eq_refl eq_refl)).
Defined.

(** Lines.  [readLine] returns the bytes before the first CR or LF, cut to 4096,
    and leaves exactly what follows that terminator, never more; it fails only when
    no terminator is left.  So a run of lines without terminators of their own and
    of at most 4096 bytes, each written with its CR, is read back unchanged. *)
Theorem line_framing br :
  (∀ line rest, readLine br = Some (line, rest) ↔
     ∃ w c, br = w ++ c :: rest ∧ one_line w ∧ eol c ∧ line = take maxLine w)
  ∧ (∀ ls, Forall short_line ls → br = wire ls → readLines br = ls).
Proof.
  split.
  - intros line rest. unfold readLine. rewrite readLine_loop_spec.
    cbn [length app]. by rewrite Nat.sub_0_r.
  - intros ls Hs ->. by apply readLines_fuel_wire.
Qed.

(** ** Admission *)

Section admission.
Context {St : Type} `{!Store St}.
Implicit Types (w : World St).

Lemma sendRaw_hub ref raw w : w_hub (sendRaw ref raw w).2 = w_hub w
  ∧ w_links (sendRaw ref raw w).2 = w_links w.
Proof. destruct (sendRaw_spec ref raw w) as ((E1 & _ & _ & E4) & _). done. Qed.

Lemma sendKeepalive_hub ref w : w_hub (sendKeepalive ref w).2 = w_hub w
  ∧ w_links (sendKeepalive ref w).2 = w_links w.
Proof.
  unfold sendKeepalive. st_simpl. destruct (w_heap w !! ref); [apply sendRaw_hub|done].
Qed.
End admission.

(** C6. Default deny at the IP ingress.  However an inbound connection behaves, if
    the call does not end with the link having been served then the hub and the
    router's table are untouched and, unless the greeting succeeded and a record
    naming an allowed node arrived, nothing was written to any link; a refusal is
    counted; and a link is served only for a connection whose first record's node is
    on the allow-list (so never with a nil list). *)
Theorem ingress_default_deny {St : Type} `{!Store St} now ref ourNode allow up br (w : World St) :
  let '(res, allow') := (ServeInboundIP now ref ourNode allow up br w).1 in
  let w' := (ServeInboundIP now ref ourNode allow up br w).2 in
  let admitted := ∃ br1 first br2, readUntil IsRTL br = Some br1
    ∧ readFirstRecord br1 = Some (first, br2) ∧ Allowed allow (r_Node first) = true in
  (res = IngressServed → admitted ∧ is_Some allow)
  ∧ (res ≠ IngressServed → w_hub w' = w_hub w ∧ w_links w' = w_links w)
  ∧ (¬ admitted → w' = w)
  ∧ Rejected allow' = (if decide (res = IngressRefused ∧ is_Some allow)
                       then wrap64 (Rejected allow + 1) else Rejected allow).
Proof.
  unfold ServeInboundIP. destruct up; cbn [negb]; [|by split_and!].
  destruct (readUntil IsRTL br) as [br1|]; [|by split_and!].
  destruct (readFirstRecord br1) as [[first br2]|] eqn:E2; [|by split_and!].
  case_decide; [by split_and!|].
  destruct (Allowed allow (r_Node first)) eqn:Ea; cbn [negb].
  - assert (is_Some allow) as Hn by (destruct allow; [eauto|done]).
    assert (∃ br3 f br2', Some br1 = Some br3 ∧ readFirstRecord br3 = Some (f, br2')
      ∧ Allowed allow (r_Node f) = true) as Had by (by exists br1, first, br2).
    st_simpl.
    match goal with |- context [sendRaw ref ?x ?y] =>
      destruct (sendRaw_hub ref x y) as [A1 A2]; destruct (sendRaw ref x y) as [[] w1] end;
      cbn [fst snd negb] in *; st_simpl.
    + destruct (sendKeepalive_hub ref w1) as [B1 B2];
        destruct (sendKeepalive ref w1) as [[] w2]; cbn [fst snd negb] in *; st_simpl.
      * split_and!; try done.
      * split_and!; try done; intros _; split; etrans; eassumption.
    + split_and!; try done; intros _; by split.
  - split_and!; try done. destruct allow; [|done]. by rewrite decide_True by eauto.
Qed.

Lemma ingress_default_deny_witness :
  let w := NewRouter sample_hub in
  let br := wire [bs "*RTL"; FORMAT :: bs "KGB7BBB-9 GB7AAA-9 pdn"] in
  w_hub (ServeInboundIP 0 7 (bs "GB7AAA-9") (Some (NewAllowList [])) true br w).2 = w_hub w.
Proof.
  intros w br. pose proof (ingress_default_deny 0 7 (bs "GB7AAA-9")
    (Some (NewAllowList [])) true br w) as H.
  destruct (ServeInboundIP 0 7 (bs "GB7AAA-9") (Some (NewAllowList [])) true br w).1
    as [res allow'] eqn:E.
  assert (res = IngressRefused) as -> by (vm_compute in E; congruence).
  exact (proj1 (proj1 (proj2 H) ltac:(discriminate))).
Defined.

(** ** The hub stays well-formed while a link is served *)

Section serving.
Context {St : Type} `{!Store St}.
Implicit Types (w : World St).

Lemma tell_users_hub ref our us : ∀ w, w_hub (tell_users ref our us w).2 = w_hub w.
Proof.
  induction us as [|u us IH]; intros w; [done|]. cbn [tell_users]. st_simpl. rewrite IH.
  case_decide; [|done]. st_simpl. destruct (EqualFold _ _); st_simpl;
    by rewrite ?(proj1 (sendRaw_hub _ _ _)).
Qed.

Lemma handleRecord_wf now ref rec w :
  hub_wf (w_hub w) → hub_wf (w_hub (handleRecord now ref rec w).2).
Proof.
  intros Hx. unfold handleRecord. st_simpl. cbn [fst snd on_link st_mod upd_heap w_heap].
  destruct (alter _ _ _ !! ref); [|done]. repeat case_decide; st_simpl; try done.
  - by rewrite (proj1 (sendRaw_hub _ _ _)).
  - by apply Ingest_wf.
Qed.

Lemma handle_wf now ref line w :
  hub_wf (w_hub w) → hub_wf (w_hub (handle now ref line w).2).
Proof.
  intros Hx. unfold handle. destruct (IsControl line); [|done]. cbn [negb].
  destruct (Decode line); [|done]. by apply handleRecord_wf.
Qed.

Lemma serve_lines_wf ref lines : ∀ w,
  hub_wf (w_hub w) → hub_wf (w_hub (serve_lines ref lines w).2).
Proof.
  induction lines as [|[now line] lines IH]; intros w Hx; [done|]. cbn [serve_lines].
  st_simpl. by apply IH, handle_wf.
Qed.

Lemma serve_start_wf now ref pending w :
  hub_wf (w_hub w) → hub_wf (w_hub (serve_start now ref pending w).2).
Proof.
  intros Hx. unfold serve_start. st_simpl.
  set (w1 := (AddLink ref _).2). assert (w_hub w1 = w_hub w) as Hw1.
  { unfold w1, AddLink. st_simpl. by destruct (_ !! _). }
  destruct (w_heap w1 !! ref) as [l|]; st_simpl; [|by rewrite Hw1].
  unfold stateTell. st_simpl.
  assert (∀ w, hub_wf (w_hub w) →
    hub_wf (w_hub (on_hub (LinkNode (l_peerCall l) [] (l_version l)) w).2)) as Hl
    by (intros x Hw; by apply LinkNode_keeps).
  destruct pending as [[t rec]|]; [apply handleRecord_wf|]; destruct (_ !! ref);
    cbn [fst snd]; rewrite ?tell_users_hub; apply Hl; by rewrite Hw1.
Qed.
End serving.

(** C33. The end of a link.  It is taken out of the router's table whatever happened on
    it.  When the hub still knows its peer as a node, exactly the users that have the peer
    as their receiving link or as their node are removed, whichever link told of them, and
    exactly the peer's node: the nodes the peer announced stay known.  Every subscriber is
    offered one departure for each user removed, and then the end of the node.  When the
    hub no longer knows the peer, the hub stays as it is, and users learned through the
    link stay. *)
Theorem link_drop_cleans_up {St : Type} `{!Store St} ref l (w : World St) :
  hub_wf (w_hub w) → w_heap w !! ref = Some l →
  let w' := (serve_stop ref w).2 in let peer := normCall (l_peerCall l) in
  w_links w' = delete (l_peerCall l) (w_links w)
  ∧ match h_nodes (w_hub w) !! peer with
    | Some n =>
        (∀ k u, h_users (w_hub w') !! k = Some u ↔
           h_users (w_hub w) !! k = Some u
           ∧ o_Link (u_Origin u) ≠ peer ∧ o_Node (u_Origin u) ≠ peer)
        ∧ h_nodes (w_hub w') = delete peer (h_nodes (w_hub w))
        ∧ ∃ left, NoDup left
          ∧ (∀ u, u ∈ left ↔ h_users (w_hub w) !! Key u = Some u
               ∧ (o_Link (u_Origin u) = peer ∨ o_Node (u_Origin u) = peer))
          ∧ ∀ id, h_chans (w_hub w') !! id
              = (λ ch, if decide (id ∈ h_subs (w_hub w))
                       then delivered ((UserLeft <$> left) ++ [NodeUnlinked n]) ch else ch)
                <$> h_chans (w_hub w) !! id
    | None => w_hub w' = w_hub w
    end.
Proof.
  intros Hwf El. unfold serve_stop. st_simpl. rewrite El. unfold on_hub, RemoveLink.
  st_simpl. cbn. pose proof (UnlinkNode_spec (l_peerCall l) (w_hub w) Hwf) as H.
  cbv zeta in H. split; [done|]. destruct (h_nodes (w_hub w) !! normCall (l_peerCall l)) as [n|].
  - destruct H as (_ & H1 & H2 & H3). by split_and!.
  - by rewrite H.
Qed.

(** A served session as the peer's lines after the handshake. *)
Definition served (lines : list gostring) : World MemStore.MemStore :=
  (serve 1 7 None ((λ s, (2, FORMAT :: s)) <$> lines) (world_with sample_dialler)).2.

Definition sample_session : World MemStore.MemStore :=
  (serve_lines 7 [(2, FORMAT :: bs "JGB7DDD M0XYZ a b")]
     (serve_start 1 7 None (world_with sample_dialler)).2).2.

Lemma link_drop_cleans_up_witness :
  hub_wf (w_hub sample_session)
  ∧ w_links (serve_stop 7 sample_session).2 = delete (bs "GB7BBB-9") (w_links sample_session).
Proof.
  assert (hub_wf (w_hub sample_session)) as Hwf.
  { apply serve_lines_wf, serve_start_wf.
    exact (proj1 (Subscribe_keeps _ (proj1 (NewHub_wf _ _ _)))). }
  split; [exact Hwf|].
  destruct (w_heap sample_session !! 7%nat) as [l|] eqn:El;
    [|exfalso; revert El; vm_compute; discriminate].
  assert (l_peerCall l = bs "GB7BBB-9") as Ep by (vm_compute in El; by injection El as <-).
  destruct (link_drop_cleans_up 7 l sample_session Hwf El) as [H _]. rewrite H, Ep. reflexivity.
Defined.

(** If the peer itself announces, by an unlink record, that it lost its own
    callsign, the hub forgets the node while the link lives; users announced after
    that stay present when the link ends. *)
Theorem unlinked_peer_leaves_ghosts :
  Users (w_hub (served [bs "JGB7DDD M0XYZ a b"])) = []
  ∧ Users (w_hub (served [bs "QGB7DDD X GB7BBB-9"; bs "JGB7DDD M0XYZ a b"])) ≠ [].
Proof. split; [by vm_compute|vm_compute; discriminate]. Qed.

(** ** Telemetry *)

(** What touches a link's timing: a record arrives, a keepalive is sent, a poll
    response arrives. *)
Inductive tele := TSeen (t : Time) | TPing (t : Time) | TPong (t : Time).
Definition tele_exec (l : Link) (e : tele) : Link :=
  match e with
  | TSeen t => markSeen t l
  | TPing t => markPingSent t l
  | TPong t => recordPong t (markSeen t l)
  end.

Lemma tele_outstanding es : ∀ l t,
  l_sentPing l = t → t ≠ 0 → (∀ e, e ∈ es → match e with TPong _ => False | _ => True end) →
  l_sentPing (foldl tele_exec l es) = t ∧ l_rtt (foldl tele_exec l es) = l_rtt l.
Proof.
  induction es as [|e es IH]; intros l t Hl Ht Hes; [done|]. cbn [foldl].
  destruct (IH (tele_exec l e) t) as [A B].
  - destruct e; cbn; try done; [|by destruct (Hes (TPong t0)); left].
    unfold markPingSent. by rewrite (proj2 (Z.eqb_neq _ _)) by congruence.
  - done.
  - intros e' He'. apply Hes. by right.
  - split; [done|]. rewrite B. destruct e; cbn; try done.
    + unfold markPingSent. by case_match.
    + by destruct (Hes (TPong t0)); left.
Qed.

(** The round-trip time is measured from the first keepalive of a burst: with no
    keepalive outstanding, after one sent at [t1], any further keepalives and
    records, and a poll response at [t2], the reported time is [t2 - t1], nothing is
    outstanding, and the last-seen time is [t2]; a further poll response with nothing
    outstanding does not change it. *)
Theorem rtt_times_first_ping l t1 t2 t3 es :
  l_sentPing l = 0 → t1 ≠ 0 →
  (∀ e, e ∈ es → match e with TPong _ => False | _ => True end) →
  let l' := foldl tele_exec l (TPing t1 :: es ++ [TPong t2]) in
  ls_RTT (Status l') = t2 - t1 ∧ l_sentPing l' = 0 ∧ ls_LastSeen (Status l') = t2
  ∧ ls_RTT (Status (tele_exec l' (TPong t3))) = t2 - t1.
Proof.
  intros Hl Ht Hes. cbn [foldl]. rewrite foldl_app. cbn [foldl].
  assert (l_sentPing (tele_exec l (TPing t1)) = t1) as Hp.
  { cbn. unfold markPingSent. by rewrite Hl. }
  destruct (tele_outstanding es _ t1 Hp Ht Hes) as [A _].
  set (lm := foldl tele_exec _ es) in *. cbn [tele_exec].
  assert (recordPong t2 (markSeen t2 lm)
    = link_stat t2 (t2 - t1) 0 (l_linkedAt lm) (markSeen t2 lm)) as ->.
  { unfold recordPong. cbn [markSeen link_stat l_sentPing]. rewrite A.
    by rewrite (proj2 (Z.eqb_neq _ _)). }
  done.
Qed.

Lemma rtt_times_first_ping_witness :
  ls_RTT (Status (foldl tele_exec sample_dialler [TPing 5; TSeen 6; TPing 65; TPong 70])) = 65.
Proof.
  refine (proj1 (rtt_times_first_ping sample_dialler 5 70 71 [TSeen 6; TPing 65] eq_refl _ _));
    [lia|]. intros e He. by repeat (apply elem_of_cons in He as [->|He]); [..|set_solver].
Defined.

(** ** The connect script's expect *)

(** [W] occurs in [s]. *)
Definition occurs (W s : gostring) : Prop := ∃ k l, s = k ++ W ++ l.

Lemma occurs_suffix (W X V : gostring) :
  occurs W V → V `suffix_of` X → occurs W X.
Proof. intros (k & l & ->) [m ->]. exists (m ++ k), l. by rewrite <- app_assoc. Qed.

Lemma suffix_long (W V X : gostring) :
  W `suffix_of` X → V `suffix_of` X → (length W ≤ length V)%nat → W `suffix_of` V.
Proof.
  intros [a ->] [b E] Hlen.
  assert (length b ≤ length a)%nat as Hb by (apply (f_equal length) in E; rewrite !length_app in E; lia).
  exists (drop (length b) a). apply (f_equal (drop (length b))) in E.
  rewrite drop_app_length in E. by rewrite <- E, drop_app_le.
Qed.

(** Adding one byte to a string in which [W] does not occur, it is enough to look at
    a suffix as long as [W]. *)
Lemma occurs_snoc (W s V : gostring) b :
  ¬ occurs W s → V `suffix_of` (s ++ [b]) → (length W ≤ length V)%nat ∨ V = s ++ [b] →
  occurs W (s ++ [b]) ↔ occurs W V.
Proof.
  intros Hn HV Hlen. split; [|intros H; by eapply occurs_suffix].
  intros (k & l & E). destruct (decide (l = [])) as [->|Hl].
  - rewrite app_nil_r in E.
    assert (W `suffix_of` V) as [m ->].
    { destruct Hlen as [Hlen| ->]; [|by exists k].
      eapply suffix_long; [|exact HV|done]. by exists k. }
    exists m, []. by rewrite app_nil_r.
  - destruct Hn. destruct (exists_last Hl) as (l' & c & ->).
    rewrite !app_assoc in E. apply app_inj_tail in E as [-> _].
    exists k, l'. by rewrite <- app_assoc.
Qed.

Lemma expect_loop_spec keep W : ∀ br window consumed rest,
  ascii br → ascii consumed →
  window `suffix_of` consumed → (length window = length consumed ∨ keep ≤ length window)%nat →
  (length W ≤ keep)%nat → ¬ occurs W (ascii_upper <$> consumed) →
  expect_loop keep W window br = Some rest ↔
  ∃ pre, br = pre ++ rest ∧ occurs W (ascii_upper <$> (consumed ++ pre))
    ∧ ∀ p, p `prefix_of` pre → p ≠ pre → ¬ occurs W (ascii_upper <$> (consumed ++ p)).
Proof.
  induction br as [|b br IH]; intros window consumed rest Hbr Hc Hw Hlen HW Hno;
    cbn [expect_loop].
  { split; [done|]. intros (pre & E & Ho & _). symmetry in E.
    apply app_eq_nil in E as [-> _]. by rewrite app_nil_r in Ho. }
  apply Forall_cons in Hbr as [Hb Hbr]. cbv zeta.
  set (w1 := window ++ [b]).
  set (w2 := if (keep * 2 <? length w1)%nat then drop (length w1 - keep) w1 else w1).
  assert (ascii (consumed ++ [b])) as Hc1 by (apply Forall_app; split; [done|by constructor]).
  assert (w1 `suffix_of` (consumed ++ [b])) as Hw1 by (destruct Hw as [m ->]; exists m; by rewrite <- app_assoc).
  assert (w2 `suffix_of` (consumed ++ [b])) as Hw2.
  { unfold w2. case_match; [|done]. etrans; [apply suffix_drop|done]. }
  assert (length w2 = length (consumed ++ [b]) ∨ keep ≤ length w2)%nat as Hl2.
  { unfold w2. destruct (Nat.ltb_spec (keep * 2) (length w1)).
    - right. rewrite length_drop. lia.
    - unfold w1. rewrite !length_app. cbn. lia. }
  assert (ascii w2) as Ha2.
  { destruct Hw2 as [m E]. rewrite E in Hc1. by apply Forall_app in Hc1 as [_ ?]. }
  assert (Contains (ToUpper w2) W = true ↔ occurs W (ascii_upper <$> (consumed ++ [b]))) as Hm.
  { rewrite Contains_spec, ToUpper_ascii by done. rewrite fmap_app. cbn [fmap list_fmap].
    symmetry. apply occurs_snoc; [done| |].
    - destruct Hw2 as [m E]. exists (ascii_upper <$> m).
      change [ascii_upper b] with (ascii_upper <$> [b]). by rewrite <- !fmap_app, E.
    - destruct Hl2 as [Hl2|Hl2]; [right|left; rewrite length_fmap; lia].
      change [ascii_upper b] with (ascii_upper <$> [b]). rewrite <- fmap_app. f_equal.
      destruct Hw2 as [m E]. rewrite E, length_app in Hl2. destruct m; [done|]. cbn in Hl2. lia. }
  destruct (Contains (ToUpper w2) W) eqn:Em.
  - assert (occurs W (ascii_upper <$> (consumed ++ [b]))) as Hocc by by apply Hm.
    split.
    + intros [= <-]. exists [b]. split_and!; [done|done|]. intros p [q Eq] Hp.
      destruct p as [|c p]; [by rewrite app_nil_r|]. injection Eq as <- Eq.
      symmetry in Eq. apply app_eq_nil in Eq as [-> _]. done.
    + intros (pre & E & Ho & Hmin). destruct pre as [|c pre]; [by rewrite app_nil_r in Ho|].
      injection E as <- ->. destruct pre as [|d pre]; [done|].
      exfalso. by apply (Hmin [b]); [exists (d :: pre)|discriminate|].
  - assert (¬ occurs W (ascii_upper <$> (consumed ++ [b]))) as Hnocc.
    { intros H. apply Hm in H. congruence. }
    rewrite (IH w2 (consumed ++ [b]) rest) by done. split.
    + intros (pre & -> & Ho & Hmin). exists (b :: pre). split_and!; [done| |].
      { by rewrite <- app_assoc in Ho. }
      intros [|c p] Hp Hne; [by rewrite app_nil_r|].
      apply prefix_cons_inv_1 in Hp as Ec. subst c. apply prefix_cons_inv_2 in Hp.
      rewrite cons_middle, app_assoc. apply Hmin; congruence.
    + intros (pre & E & Ho & Hmin). destruct pre as [|c pre]; [by rewrite app_nil_r in Ho|].
      injection E as <- ->. exists pre. split_and!; [done|by rewrite <- app_assoc|].
      intros p Hp Hne. rewrite <- app_assoc. apply (Hmin (b :: p)); [by apply prefix_cons|congruence].
Qed.

(** [expect] stops exactly at the first match.  On an ASCII stream it succeeds
    if and only if the wanted text occurs in it up to case, and then it has consumed
    precisely the shortest prefix that contains it, whatever the sliding window has
    dropped; the rest is left for the next step. *)
Theorem expect_first_match want br rest :
  ascii want → want ≠ [] → ascii br →
  expect want br = Some rest ↔
  ∃ pre, br = pre ++ rest ∧ occurs (ToUpper want) (ToUpper pre)
    ∧ ∀ p, p `prefix_of` pre → p ≠ pre → ¬ occurs (ToUpper want) (ToUpper p).
Proof.
  intros Hw Hne Hbr. unfold expect.
  assert (length (ToUpper want) = length want) as HL by (by rewrite ToUpper_ascii, length_fmap).
  assert (ToUpper want ≠ []) as HneU.
  { intros H. rewrite H in HL. by destruct want. }
  rewrite (expect_loop_spec _ _ br [] [] rest); try done; [| |lia|].
  - split; intros (pre & -> & Ho & Hmin); exists pre; (split; [done|]);
      apply Forall_app in Hbr as [Hpre _]; cbn [app] in *.
    + rewrite (ToUpper_ascii pre) by done. split; [done|]. intros p Hp Hn.
      assert (ascii p) by (destruct Hp as [q ->]; by apply Forall_app in Hpre as [? _]).
      rewrite (ToUpper_ascii p) by done. by apply Hmin.
    + rewrite (ToUpper_ascii pre) in Ho by done. split; [done|]. intros p Hp Hn.
      assert (ascii p) by (destruct Hp as [q ->]; by apply Forall_app in Hpre as [? _]).
      rewrite <- (ToUpper_ascii p) by done. by apply Hmin.
  - by left.
  - intros (k & l & E). cbn in E. symmetry in E. apply app_eq_nil in E as [_ E].
    apply app_eq_nil in E as [E _]. done.
Qed.

Lemma expect_first_match_witness :
  ∃ pre, bs "LEEDS:GB7LDS> cmd" = pre ++ bs " cmd"
    ∧ occurs (ToUpper (bs "gb7lds>")) (ToUpper pre).
Proof.
  assert (expect (bs "gb7lds>") (bs "LEEDS:GB7LDS> cmd") = Some (bs " cmd")) as E by by vm_compute.
  apply expect_first_match in E as (pre & E1 & E2 & _).
  - by exists pre.
  - by apply (bool_decide_unpack _); vm_compute.
  - discriminate.
  - by apply (bool_decide_unpack _); vm_compute.
Defined.
