(* ===== verification/Mesh.v ===== *)
(** * Storm freedom of the mesh

    Several nodes joined by links, with lines in flight between them, delivered in
    any order or lost.  Each node is a full [Router.World] and a delivery runs the
    link's own [handle].  Within one time to live of the seen-set, the traffic a
    finite set of records can cause is finite, whatever the topology: a potential
    that counts the lines in flight and, for every node, the ids it has not seen
    weighted by its number of links, decreases at every delivery. *)
From S2P Require Import Prelude Unicode GoStrings ChatModel ChatSeen ChatStore ChatHub.
From S2P Require Import HubProps HubTheorems PeerProto PeerRouter RouterProps PeerLink LinkProps.
From stdpp Require Import options.
Import Hub Router.

(** A link end: node and link reference. *)
Abbreviation endpoint := (nat * nat)%type.
Abbreviation packet := (endpoint * gostring)%type.

Fixpoint total (l : list nat) : nat :=
  match l with [] => 0 | x :: l' => x + total l' end.

Section mesh.
Context {St : Type} `{!Store St}.
Implicit Types (w : World St) (h : Hub St).

Record Net := mkNet {
  nt_nodes : gmap nat (World St);
  nt_wires : gmap endpoint endpoint;      (* where a line written at an end arrives *)
  nt_flight : list packet }.              (* lines in flight, with their destination *)

(** The lines [w'] has written beyond [w], as packets. *)
Definition new_on (n : nat) (wires : gmap endpoint endpoint) w (e : nat * Link) : list packet :=
  match wires !! (n, e.1) with
  | Some dst =>
      (λ raw, (dst, raw)) <$> drop (length (from_option l_sent [] (w_heap w !! e.1))) (l_sent e.2)
  | None => []
  end.
Definition new_packets (n : nat) (wires : gmap endpoint endpoint) w w' : list packet :=
  concat (new_on n wires w <$> map_to_list (w_heap w')).

Inductive net_step : Net → Net → Prop :=
| deliver_step net l1 l2 n ref raw w now :
    nt_flight net = l1 ++ ((n, ref), raw) :: l2 →
    nt_nodes net !! n = Some w →
    let w' := (handle now ref raw w).2 in
    net_step net (mkNet (<[n := w']> (nt_nodes net)) (nt_wires net)
                    (l1 ++ l2 ++ new_packets n (nt_wires net) w w'))
| lose_step net l1 l2 p :
    nt_flight net = l1 ++ p :: l2 →
    net_step net (mkNet (nt_nodes net) (nt_wires net) (l1 ++ l2)).

(** ** The potential *)

(** A keepalive or poll may cause one more line, its response. *)
Definition weight (raw : gostring) : nat :=
  match Decode raw with
  | Some rec => if decide (r_Type rec = IDKeepalive ∨ r_Type rec = IDPoll) then 2 else 1
  | None => 1
  end.

(** The ids a line may be given, over the topics a sender may be in. *)
Definition recordID_at (topic : gostring) (rec : WireRecord) : gostring :=
  if decide (r_Type rec = IDData) then
    SynthID (r_Node rec) (r_User rec) KindTopic topic (Tail rec 0)
  else if decide (r_Type rec = IDSend) then
    SynthID (r_Node rec) (r_User rec) KindPrivate (Field rec 0) (Tail rec 1)
  else bs "rec:" ++ encode_rune (bz (r_Type rec)) ++ bs ":" ++ r_Raw rec.

Definition ids_of (topics : list gostring) (raw : gostring) : list gostring :=
  match Decode raw with
  | Some rec => (λ t, recordID_at t rec) <$> topics
  | None => []
  end.
Definition universe (topics raws : list gostring) : gset gostring :=
  list_to_set (concat (ids_of topics <$> raws)).

Definition aliveb (e : Time) h (id : gostring) : bool :=
  match ss_entries (h_seen h) !! id with Some e' => (e <=? e')%Z | None => false end.

Definition unseen (e : Time) (U : gset gostring) h : nat :=
  size (filter (λ id, aliveb e h id = false) U).

Definition node_cost (e : Time) (U : gset gostring) w : nat :=
  size (w_links w) * unseen e U (w_hub w).

Definition potential (e : Time) (U : gset gostring) (net : Net) : nat :=
  total (weight ∘ snd <$> nt_flight net)
  + total (node_cost e U ∘ snd <$> map_to_list (nt_nodes net)).

(** ** Invariant: the topics and the lines that can occur *)

Definition topics_in (topics : list gostring) h : Prop :=
  ∀ t c, h_topics h !! t = Some c → c ∈ topics.

(** [topics] contains the default topic and every topic a line names. *)
Definition topics_closed (topics raws : list gostring) : Prop :=
  DefaultTopic ∈ topics
  ∧ ∀ raw rec, raw ∈ raws → Decode raw = Some rec → r_Type rec = IDTopic →
      TrimSpace (Field rec 0) ∈ topics.

(** Lines [handle] passes to [Ingest]. *)
Definition ingestable (raw : gostring) : Prop :=
  match Decode raw with
  | Some rec => r_Type rec ≠ IDKeepalive ∧ r_Type rec ≠ IDPoll ∧ r_Type rec ≠ IDPollResp
  | None => False
  end.

Record node_ok (topics : list gostring) w : Prop := {
  no_hub : hub_wf (w_hub w);
  no_table : table_wf w;
  no_topics : topics_in topics (w_hub w) }.

Record net_ok (topics raws : list gostring) (net : Net) : Prop := {
  nk_nodes n w : nt_nodes net !! n = Some w → node_ok topics w;
  nk_flight p : p ∈ nt_flight net → ingestable p.2 → p.2 ∈ raws }.

(** Clock readings: none before [e - ttl], none at or after [e]. *)
Definition since (e : Time) (net : Net) : Prop :=
  ∀ n w, nt_nodes net !! n = Some w →
    mono_clock (h_clock (w_hub w))
    ∧ (e ≤ h_clock (w_hub w) (h_tick (w_hub w)) + ss_ttl (h_seen (w_hub w)))%Z.
Definition until (e : Time) (net : Net) : Prop :=
  ∀ n w, nt_nodes net !! n = Some w → (h_clock (w_hub w) (h_tick (w_hub w)) < e)%Z.

(** ** What a delivery writes *)

Lemma recordID_topic h rec : recordID h rec = recordID_at (topicOf h (rec_key rec)) rec.
Proof. done. Qed.

(** At most the line [r0] is added, to links of [S] only. *)
Definition adds (S : list nat) (r0 : gostring) w w' : Prop :=
  ∀ r l', w_heap w' !! r = Some l' → ∃ l, w_heap w !! r = Some l ∧ link_id l' = link_id l
    ∧ (l_sent l' = l_sent l ∨ (r ∈ S ∧ l_sent l' = l_sent l ++ [r0])).

Lemma new_on_adds S r0 n wires w w' e :
  adds S r0 w w' → w_heap w' !! e.1 = Some e.2 →
  length (new_on n wires w e) ≤ (if decide (e.1 ∈ S) then 1 else 0)
  ∧ ∀ p, p ∈ new_on n wires w e → p.2 = r0.
Proof.
  intros Ha He. destruct (Ha _ _ He) as (l & El & _ & Hs). unfold new_on.
  destruct (wires !! (n, e.1)) as [dst|]; [|split; [apply Nat.le_0_l|set_solver]].
  rewrite El. cbn [from_option]. destruct Hs as [->|[Hin ->]].
  - rewrite drop_all. split; [apply Nat.le_0_l|]. intros p Hp. by apply elem_of_nil in Hp.
  - rewrite drop_app_length. rewrite decide_True by done. split; [done|].
    intros p Hp. apply list_elem_of_singleton in Hp. by subst.
Qed.

Lemma count_in_le (S l : list nat) :
  NoDup l → total ((λ r, if decide (r ∈ S) then 1 else 0) <$> l) ≤ length S.
Proof.
  intros Hl. assert (total ((λ r, if decide (r ∈ S) then 1 else 0) <$> l)
    = length (filter (.∈ S) l)) as ->.
  { induction l as [|r l IH]; [done|]. apply NoDup_cons in Hl as [_ Hl].
    rewrite fmap_cons. cbn [total]. rewrite filter_cons, IH by done.
    by case_decide. }
  apply submseteq_length, NoDup_submseteq; [by apply NoDup_filter|].
  intros r Hr. by apply list_elem_of_filter in Hr as [? _].
Qed.

Lemma new_packets_adds S r0 n wires w w' :
  adds S r0 w w' →
  length (new_packets n wires w w') ≤ length S
  ∧ ∀ p, p ∈ new_packets n wires w w' → p.2 = r0.
Proof.
  intros Ha. unfold new_packets. split.
  - assert (∀ l : list (nat * Link), (∀ e, e ∈ l → w_heap w' !! e.1 = Some e.2) →
      length (concat (new_on n wires w <$> l))
      ≤ total ((λ r, if decide (r ∈ S) then 1 else 0) <$> l.*1)) as Hl.
    { induction l as [|e l IH]; intros Hin; [done|].
      rewrite !fmap_cons. cbn [concat total]. rewrite length_app.
      destruct (new_on_adds S r0 n wires w w' e Ha) as [Hn _]; [apply Hin; by left|].
      specialize (IH ltac:(intros; apply Hin; by right)). by apply Nat.add_le_mono. }
    etrans; [apply Hl|apply count_in_le, NoDup_fst_map_to_list].
    intros [r l]. apply elem_of_map_to_list.
  - intros p Hp. apply list_elem_of_In, in_concat in Hp as (ps & Hps & Hp).
    apply list_elem_of_In in Hps, Hp.
    apply list_elem_of_fmap in Hps as ([r l] & -> & Hr). apply elem_of_map_to_list in Hr.
    by eapply (new_on_adds S r0 n wires w w' (r, l)).
Qed.

Lemma targets_length w except : length (targets w except) ≤ size (w_links w).
Proof.
  unfold targets. rewrite length_fmap.
  rewrite <- length_map_to_list.
  induction (map_to_list (w_links w)) as [|e l IH]; [done|]. cbn.
  destruct (negb _); cbn; lia.
Qed.

Lemma poll_response_inert our peer :
  weight (encodePollResp our peer) = 1 ∧ ¬ ingestable (encodePollResp our peer).
Proof.
  unfold weight, ingestable. destruct (Decode (encodePollResp our peer)) as [rec|] eqn:E; [|by split; [|intros []]].
  destruct (Decode_Some _ _ E) as (_ & _ & body & Eb & _). injection Eb as Et _.
  rewrite <- Et. split; [by vm_compute|]. by intros (_ & _ & H).
Qed.

Lemma on_link_adds ref f r0 S w :
  (∀ l, link_id (f l) = link_id l ∧ l_sent (f l) = l_sent l) →
  adds S r0 w (on_link ref f w).2.
Proof.
  intros Hf r l' H. cbn in H. rewrite lookup_alter in H. case_decide as Er.
  - apply fmap_Some in H as (l & E & ->). exists l. destruct (Hf l). subst. eauto.
  - eauto.
Qed.

Lemma adds_trans_quiet S r0 w1 w2 w3 :
  adds [] r0 w1 w2 → adds S r0 w2 w3 → adds S r0 w1 w3.
Proof.
  intros H1 H2 r l3 E3. destruct (H2 r l3 E3) as (l2 & E2 & I2 & D2).
  destruct (H1 r l2 E2) as (l1 & E1 & I1 & D1). exists l1. split; [done|].
  split; [congruence|]. destruct D1 as [D1|[D1 _]]; [|set_solver]. by rewrite <- D1.
Qed.

Lemma telemetry_inert ref f w :
  (∀ l, link_id (f l) = link_id l) → table_wf w → table_wf (on_link ref f w).2.
Proof.
  intros Hf Hwf. apply (table_wf_same w); [done| |done]. intros r l E. cbn.
  rewrite lookup_alter. case_decide as Er; [subst|]; rewrite E; cbn; eexists;
    (split; [done|]); auto.
Qed.

Lemma sendRaw_adds ref raw w : adds [ref] raw w (sendRaw ref raw w).2.
Proof.
  intros r l' H. destruct (sendRaw_spec ref raw w) as [_ Hs]. rewrite Hs in H.
  apply fmap_Some in H as (l & E & ->). exists l. split; [done|].
  case_decide as Er; [|by auto]. subst. split; [apply bump_id|].
  unfold bump. destruct (l_up l); [right|by left]. split; [set_solver|done].
Qed.

Lemma forward_adds raw except w :
  table_wf w → adds (targets w except) raw w (forward raw except w).2.
Proof.
  intros Hwf r l' H. destruct (forward_spec raw except w Hwf) as [_ Hs]. rewrite Hs in H.
  apply fmap_Some in H as (l & E & ->). exists l. split; [done|].
  case_decide as Er; [|by auto]. split; [apply bump_id|].
  unfold bump. destruct (l_up l); [right|by left]. split; [|done].
  apply targets_elem. exists (link_id l). by destruct Er.
Qed.

Lemma weight_pos raw : 1 ≤ weight raw.
Proof. unfold weight. destruct (Decode raw); [case_decide|]; lia. Qed.

(** The three ways a delivered line is handled: without touching the hub, as a
    duplicate, or accepted. *)
Inductive effect (raw : gostring) w w' : Prop :=
| eff_quiet S r0 :
    w_hub w' = w_hub w → adds S r0 w w' → weight r0 * length S < weight raw →
    ¬ ingestable r0 → effect raw w w'
| eff_dup rec :
    Decode raw = Some rec → ingestable raw →
    w_hub w' = (SeenID (recordID (w_hub w) rec) (w_hub w)).2 →
    adds [] raw w w' → effect raw w w'
| eff_accept rec from S :
    Decode raw = Some rec → ingestable raw →
    (SeenID (recordID (w_hub w) rec) (w_hub w)).1 = false →
    w_hub w' = (apply rec from (SeenID (recordID (w_hub w) rec) (w_hub w)).2).2 →
    length S ≤ size (w_links w) → adds S raw w w' → effect raw w w'.

Lemma adds_same S r0 w w' : w_heap w' = w_heap w → adds S r0 w w'.
Proof. intros E r l' H. rewrite E in H. eauto. Qed.

Lemma markSeen_inert now l :
  link_id (markSeen now l) = link_id l ∧ l_sent (markSeen now l) = l_sent l.
Proof. done. Qed.
Lemma recordPong_inert now l :
  link_id (recordPong now l) = link_id l ∧ l_sent (recordPong now l) = l_sent l.
Proof. unfold recordPong. by destruct (_ =? _)%Z. Qed.

Lemma Ingest_effect rec from raw w :
  table_wf w → Decode raw = Some rec → ingestable raw →
  effect raw w (Ingest rec from w).2
  ∧ table_wf (Ingest rec from w).2 ∧ w_links (Ingest rec from w).2 = w_links w.
Proof.
  intros Hwf Hd Hi. destruct (Decode_Some raw rec Hd) as (_ & HR & _).
  rewrite Ingest_eq. unfold accepts. destruct (foreign rec w) eqn:Ef; cbn [andb].
  - destruct (SeenID (recordID (w_hub w) rec) (w_hub w)).1 eqn:Es; cbn [negb].
    + split; [|done]. by eapply eff_dup; [..|apply adds_same].
    + set (w1 := (on_hub (apply rec from) (checked rec w)).2).
      assert (table_wf w1) as Hwf1 by exact Hwf.
      destruct (forward_spec (r_Raw rec) from w1 Hwf1) as [(E1 & _ & _ & E4) _].
      split; [|split; [by apply forward_table_wf|by rewrite E4]].
      eapply (eff_accept raw w _ rec from (targets w1 from)); try done.
      * apply (targets_length w1 from).
      * rewrite <- HR. exact (forward_adds (r_Raw rec) from w1 Hwf1).
  - split; [|done]. apply (eff_quiet raw w w [] []); [done|by apply adds_same| |by intros []].
    cbn. pose proof (weight_pos raw). lia.
Qed.

Lemma effect_frame raw w0 w w' :
  w_hub w0 = w_hub w → w_links w0 = w_links w → (∀ r0, adds [] r0 w w0) →
  effect raw w0 w' → effect raw w w'.
Proof.
  intros Eh El Ha [S r0 H1 H2 H3 H4|rec H1 H2 H3 H4|rec from S H1 H2 H3 H4 H5 H6];
    rewrite ?Eh, ?El in *.
  - eapply eff_quiet; try done. by eapply adds_trans_quiet.
  - eapply eff_dup; try done. by eapply adds_trans_quiet.
  - eapply eff_accept; try done. by eapply adds_trans_quiet.
Qed.

Lemma quiet_effect S r0 raw w w' :
  w_hub w' = w_hub w → adds S r0 w w' → weight r0 * length S < weight raw →
  ¬ ingestable r0 → effect raw w w'.
Proof. apply eff_quiet. Qed.

(** Every delivery has one of these effects. *)
Lemma handle_effect now ref raw w :
  table_wf w →
  effect raw w (handle now ref raw w).2
  ∧ table_wf (handle now ref raw w).2 ∧ w_links (handle now ref raw w).2 = w_links w.
Proof.
  intros Hwf. pose proof (weight_pos raw) as Hp.
  assert (∀ w', w_hub w' = w_hub w → adds [] [] w w' → effect raw w w') as Hq.
  { intros w' Eh Ha. apply (eff_quiet raw w w' [] []); [done|done|cbn; lia|by intros []]. }
  unfold handle. destruct (IsControl raw); cbn [negb];
    [|split; [by apply Hq; [|apply adds_same]|done]].
  destruct (Decode raw) as [rec|] eqn:Ed; [|split; [by apply Hq; [|apply adds_same]|done]].
  unfold handleRecord. st_simpl. set (w0 := (on_link ref (markSeen now) w).2).
  assert (table_wf w0) as Hwf0 by (apply telemetry_inert; [apply markSeen_inert|done]).
  assert (∀ r0, adds [] r0 w w0) as Ha0 by (intros; apply on_link_adds, markSeen_inert).
  destruct (w_heap w0 !! ref) as [l|] eqn:El; [|split; [by apply Hq|done]].
  case_decide as Ht.
  - st_simpl. destruct (sendRaw_spec ref (encodePollResp (l_ourNode l) (l_peerCall l)) w0)
      as ((E1 & _ & _ & E4) & Hs).
    destruct (poll_response_inert (l_ourNode l) (l_peerCall l)) as [Hw1 Hni].
    split; [|split; [|by rewrite E4]].
    + eapply eff_quiet; [by rewrite E1| | |exact Hni].
      * eapply adds_trans_quiet; [apply Ha0|apply sendRaw_adds].
      * rewrite Hw1. unfold weight. rewrite Ed, decide_True by done. cbn. lia.
    + apply (table_wf_same w0); [done| |done]. intros r lr Er. rewrite Hs, Er. eexists.
      split; [done|]. case_decide; [apply bump_id|done].
  - case_decide as Hr.
    + split; [|split; [|done]].
      * apply Hq; [done|]. eapply adds_trans_quiet; [apply Ha0|].
        apply on_link_adds, recordPong_inert.
      * apply telemetry_inert; [apply recordPong_inert|done].
    + assert (ingestable raw) as Hi.
      { unfold ingestable. rewrite Ed. naive_solver. }
      destruct (Ingest_effect rec (link_id l) raw w0 Hwf0 Ed Hi) as (He & Ht' & El').
      split; [exact (effect_frame raw w0 w _ eq_refl eq_refl Ha0 He)|]. split; [done|]. by rewrite El'.
Qed.

(** ** The topics stay within the closure *)

Lemma emit_topics es h : h_topics (emit es h).2 = h_topics h.
Proof. by destruct (emit_core es h) as (_ & -> & _). Qed.

Lemma publish_topics ev m h : h_topics (publish ev m h).2 = h_topics h.
Proof.
  pose proof (publish_spec ev m h) as H. cbn zeta in H.
  destruct (SaveMessage (h_store h) m) as [s err]. rewrite H.
  destruct err; cbn [snd]; by rewrite ?emit_topics.
Qed.

Lemma member_add_topics t k h : h_topics (member_add t k h).2 = h_topics h.
Proof. unfold member_add. by destruct (_ !! _). Qed.

Lemma ensure_topics T name h :
  topics_in T h → TrimSpace name ∈ T → topics_in T (ensureTopicLocked name h).2.
Proof.
  intros HT Hn. unfold ensureTopicLocked. st_simpl. destruct (_ !! _); [done|].
  intros t c. cbn. intros [[_ <-]|[_ H]]%lookup_insert_Some; [done|]. by eapply HT.
Qed.

Lemma Join_topics T u h :
  topics_in T h → TrimSpace (join_topic u) ∈ T → topics_in T (Join u h).2.
Proof.
  intros HT Hu. unfold Join. st_simpl. case_decide; [done|]. st_simpl. cbn [now fst snd].
  unfold topics_in. rewrite emit_topics, member_add_topics.
  apply (ensure_topics T _ (upd_tick S h) HT).
  assert (∀ v w : User, u_Topic v = u_Topic u → TrimSpace (u_Topic (user_times (h_clock h (h_tick h))
    (if decide (u_Topic v = []) then user_topic DefaultTopic v else v))) = TrimSpace (join_topic u))
    as ->; [|done..].
  intros v _ Hv. unfold join_topic. rewrite Hv. case_decide; cbn; [done|by rewrite Hv].
Qed.

Lemma SetTopic_topics T k name h :
  topics_in T h → TrimSpace name ∈ T → topics_in T (SetTopic k name h).2.
Proof.
  intros HT Hn. unfold SetTopic. case_decide; [done|]. st_simpl.
  destruct (_ !! _); [|done]. case_decide; [done|]. st_simpl.
  unfold topics_in. rewrite emit_topics, member_add_topics. by apply (ensure_topics T).
Qed.

Lemma quiet_topics h :
  (∀ k, h_topics (Leave k h).2 = h_topics h)
  ∧ (∀ k n q, h_topics (SetInfo k n q h).2 = h_topics h)
  ∧ (∀ k t, h_topics (Post k t h).2 = h_topics h)
  ∧ (∀ k c t, h_topics (Private k c t h).2 = h_topics h)
  ∧ (∀ c a v, h_topics (LinkNode c a v h).2 = h_topics h)
  ∧ (∀ c, h_topics (UnlinkNode c h).2 = h_topics h).
Proof.
  split_and!.
  - intros k. unfold Leave. st_simpl. destruct (_ !! _); [|done]. st_simpl.
    by rewrite emit_topics.
  - intros k n q. unfold SetInfo. st_simpl. destruct (_ !! _); [|done]. case_decide; [done|].
    st_simpl. by rewrite emit_topics.
  - intros k t. unfold Post. case_decide; [done|]. st_simpl. destruct (_ !! _); [|done].
    exact (publish_topics TopicMessage _ _).
  - intros k c t. unfold Private. case_decide; [done|]. st_simpl. destruct (_ !! _); [|done].
    destruct (userPresentLocked _ _); [|done]. exact (publish_topics PrivateMessage _ _).
  - intros c a v. unfold LinkNode. case_decide; [done|]. st_simpl. cbn [now fst snd].
    destruct (_ !! _); st_simpl; [done|]. by rewrite emit_topics.
  - intros c. unfold UnlinkNode. st_simpl. destruct (_ !! _); [|done]. st_simpl.
    rewrite emit_topics. match goal with |- context [drop_users ?l ?x] =>
      destruct (drop_users_spec l x) as (_ & E & _) end. exact E.
Qed.

Lemma ensureUser_topics T rec from h :
  topics_in T h → DefaultTopic ∈ T → topics_in T (ensureUser rec from h).2.
Proof.
  intros HT Hd. unfold ensureUser. st_simpl. destruct (UserOf _ _); [done|].
  apply (Join_topics T); [done|]. unfold join_topic. cbn [u_Topic].
  rewrite decide_True by done.
  assert (TrimSpace DefaultTopic = DefaultTopic) as -> by by vm_compute. done.
Qed.

Lemma apply_topics T rec from h :
  topics_in T h → DefaultTopic ∈ T → (r_Type rec = IDTopic → TrimSpace (Field rec 0) ∈ T) →
  topics_in T (apply rec from h).2.
Proof.
  intros HT Hd Ht. pose proof (ensureUser_topics T rec from h HT Hd) as He.
  destruct (quiet_topics h) as (Q1 & _ & _ & _ & Q5 & Q6).
  destruct (quiet_topics (ensureUser rec from h).2) as (_ & Q2 & Q3 & Q4 & _).
  unfold apply. unfold topics_in in *. repeat case_decide; st_simpl; try done.
  - by rewrite Q2.
  - by rewrite Q1.
  - by rewrite Q2.
  - apply (SetTopic_topics T); auto.
  - by rewrite Q3.
  - by rewrite Q4.
  - by rewrite Q5.
  - by rewrite Q6.
Qed.

(** The topic a node looks up for a sender is in the closure. *)
Lemma topicOf_in T h key : hub_wf h → topics_in T h → DefaultTopic ∈ T → topicOf h key ∈ T.
Proof.
  intros Hwf HT Hd. unfold topicOf, UserOf.
  destruct (h_users h !! canonKey key) as [u|] eqn:E; [|done].
  destruct (cw_home _ _ _ (hw_core _ Hwf) _ _ E) as [H _]. by eapply HT.
Qed.

(** ** Remembering through an applied record *)

Lemma remembers_ensureUser e rec from h : remembers e h (ensureUser rec from h).2.
Proof using St Store0.
  unfold ensureUser. st_simpl. destruct (UserOf _ _); [apply remembers_refl|].
  match goal with |- context [Join ?u h] => apply (remembers_exec e (OpJoin u)) end.
Qed.

Lemma remembers_apply e rec from h : remembers e h (apply rec from h).2.
Proof.
  pose proof (remembers_ensureUser e rec from h) as He.
  unfold apply. repeat case_decide; st_simpl; try done; try apply remembers_refl.
  - eapply remembers_trans; [exact He|].
    match goal with |- context [SetInfo ?k ?n ?q] => apply (remembers_exec e (OpSetInfo k n q)) end.
  - apply (remembers_exec e (OpLeave (rec_key rec))).
  - eapply remembers_trans; [exact He|].
    match goal with |- context [SetInfo ?k ?n ?q] => apply (remembers_exec e (OpSetInfo k n q)) end.
  - eapply remembers_trans; [exact He|].
    apply (remembers_exec e (OpSetTopic (rec_key rec) (Field rec 0))).
  - eapply remembers_trans; [exact He|].
    apply (remembers_exec e (OpPost (rec_key rec) (Tail rec 0))).
  - eapply remembers_trans; [exact He|].
    apply (remembers_exec e (OpPrivate (rec_key rec) (Field rec 0) (Tail rec 1))).
  - match goal with |- context [LinkNode ?c ?a ?v] =>
      apply (remembers_exec e (OpLinkNode c a v)) end.
  - apply (remembers_exec e (OpUnlinkNode (Field rec 0))).
Qed.

(** The hub's clock and seen-set across any delivery. *)
Lemma effect_remembers e raw w w' : effect raw w w' → remembers e (w_hub w) (w_hub w').
Proof.
  intros [S r0 -> _ _ _|rec _ _ -> _|rec from S _ _ _ -> _ _].
  - apply remembers_refl.
  - apply remembers_SeenID.
  - eapply remembers_trans; [apply remembers_SeenID|apply remembers_apply].
Qed.

(** ** The potential decreases *)

Lemma aliveb_alive e h id : aliveb e h id = true ↔ alive id e h.
Proof.
  unfold aliveb, alive. split.
  - destruct (_ !! _) as [e'|]; [|done]. intros H. bools. eauto.
  - intros (e' & -> & H). by apply Z.leb_le.
Qed.

Lemma unseen_mono e U h h' :
  (∀ id, alive id e h → alive id e h') → unseen e U h' ≤ unseen e U h.
Proof.
  intros Ha. apply subseteq_size. intros id. rewrite !elem_of_filter. intros [Hn HU].
  split; [|done]. apply not_true_iff_false. intros H. apply not_true_iff_false in Hn.
  apply Hn. apply aliveb_alive, Ha. by apply aliveb_alive.
Qed.

Lemma unseen_strict e U h h' id :
  (∀ i, alive i e h → alive i e h') → id ∈ U → ¬ alive id e h → alive id e h' →
  unseen e U h' < unseen e U h.
Proof.
  intros Ha HU Hn Hy. apply subset_size. split.
  - intros i. rewrite !elem_of_filter. intros [Hi HiU]. split; [|done].
    apply not_true_iff_false. intros H. apply not_true_iff_false in Hi.
    apply Hi, aliveb_alive, Ha. by apply aliveb_alive.
  - intros Hsub. assert (id ∈ filter (λ i, aliveb e h id = false) U) as Hin.
    { apply elem_of_filter. split; [|done]. apply not_true_iff_false.
      by rewrite aliveb_alive. }
    assert (id ∈ filter (λ i, aliveb e h i = false) U) as Hin'.
    { apply elem_of_filter. apply elem_of_filter in Hin. done. }
    apply Hsub, elem_of_filter in Hin' as [H _]. apply aliveb_alive in Hy. congruence.
Qed.

Lemma total_update (f : World St → nat) (m : gmap nat (World St)) n w w' :
  m !! n = Some w →
  total (f ∘ snd <$> map_to_list (<[n := w']> m)) + f w
  = total (f ∘ snd <$> map_to_list m) + f w'.
Proof.
  intros E. rewrite <- (insert_delete_eq m n w').
  rewrite <- (insert_delete_id m n w E) at 2.
  rewrite !map_to_list_insert by apply lookup_delete_eq.
  rewrite !fmap_cons. cbn. lia.
Qed.

Lemma total_app (l k : list nat) : total (l ++ k) = total l + total k.
Proof. induction l as [|x l IH]; [done|]. cbn. lia. Qed.

Lemma new_packets_weight S r0 n wires w w' :
  adds S r0 w w' →
  total (weight ∘ snd <$> new_packets n wires w w') ≤ weight r0 * length S.
Proof.
  intros Ha. destruct (new_packets_adds S r0 n wires w w' Ha) as [Hlen Hall].
  assert (total (weight ∘ snd <$> new_packets n wires w w')
    = weight r0 * length (new_packets n wires w w')) as ->; [|by apply Nat.mul_le_mono_l].
  clear Hlen. induction (new_packets n wires w w') as [|p ps IH]; [cbn; lia|].
  rewrite fmap_cons. cbn [length total]. rewrite (IH (λ q Hq, Hall q (list_elem_of_further _ _ _ Hq))).
  cbn. rewrite (Hall p) by by left. lia.
Qed.

(** A delivered id is in the universe. *)
Lemma recordID_in_universe T raws raw rec h :
  raw ∈ raws → Decode raw = Some rec → topicOf h (rec_key rec) ∈ T →
  recordID h rec ∈ universe T raws.
Proof.
  intros Hr Hd Ht. unfold universe. rewrite elem_of_list_to_set, list_elem_of_In, in_concat.
  exists (ids_of T raw). split; apply list_elem_of_In; [by apply list_elem_of_fmap_2|].
  unfold ids_of. rewrite Hd, recordID_topic. by apply (list_elem_of_fmap_2 (λ t, recordID_at t rec)).
Qed.

Lemma ingestable_weight raw : ingestable raw → weight raw = 1.
Proof.
  unfold ingestable, weight. destruct (Decode raw); [|done]. intros (? & ? & ?).
  by rewrite decide_False by tauto.
Qed.

(** One delivery at one node: invariant, clock and cost. *)
Lemma effect_cost T raws e raw w w' :
  topics_closed T raws → node_ok T w → (ingestable raw → raw ∈ raws) →
  mono_clock (h_clock (w_hub w)) →
  (e ≤ h_clock (w_hub w) (h_tick (w_hub w)) + ss_ttl (h_seen (w_hub w)))%Z →
  (h_clock (w_hub w) (h_tick (w_hub w')) < e)%Z →
  effect raw w w' → w_links w' = w_links w →
  ∃ S r0, adds S r0 w w' ∧ (ingestable r0 → r0 ∈ raws)
    ∧ node_cost e (universe T raws) w' + weight r0 * length S
      < node_cost e (universe T raws) w + weight raw
    ∧ topics_in T (w_hub w').
Proof.
  intros [HD HT] [Hwf Htab Htop] Hraw Hm Hlo Hhi Heff HL.
  destruct (effect_remembers e raw w w' Heff) as (C & Tk & L & A).
  assert (∀ id, alive id e (w_hub w) → alive id e (w_hub w')) as Ha.
  { apply A; [done|done|]. intros i Hi. pose proof (Hm i (h_tick (w_hub w')) ltac:(lia)). lia. }
  unfold node_cost. rewrite HL. set (U := universe T raws).
  pose proof (unseen_mono e U _ _ Ha) as Hle.
  pose proof (Nat.mul_le_mono_l _ _ (size (w_links w)) Hle) as Hmul.
  destruct Heff as [S r0 H1 H2 H3 H4|rec H1 H2 H3 H4|rec from S H1 H2 H3 H4 H5 H6].
  - exists S, r0. split_and!; [done|done|lia|]. by rewrite H1.
  - exists [], raw. split_and!; [done|done| |].
    + cbn [length]. rewrite (ingestable_weight raw H2). lia.
    + rewrite H3. done.
  - exists S, raw. split_and!; [done|done| |].
    + rewrite (ingestable_weight raw H2).
      assert (unseen e U (w_hub w') < unseen e U (w_hub w)) as Hlt.
      { apply (unseen_strict e U _ _ (recordID (w_hub w) rec)); [done| | |].
        - eapply recordID_in_universe; [by apply Hraw|done|]. by apply topicOf_in.
        - intros Hal. apply alive_seen in Hal; [congruence|].
          pose proof (Hm (h_tick (w_hub w)) (h_tick (w_hub w')) Tk). lia.
        - rewrite H4. destruct (remembers_apply e rec from
            (SeenID (recordID (w_hub w) rec) (w_hub w)).2) as (C2 & T2 & L2 & A2).
          destruct (remembers_SeenID e (recordID (w_hub w) rec) (w_hub w)) as (C1 & _ & L1 & _).
          rewrite <- H4 in *. rewrite C1, L1 in A2. apply A2.
          + done.
          + change (h_tick (SeenID (recordID (w_hub w) rec) (w_hub w)).2)
              with (1 + h_tick (w_hub w)).
            pose proof (Hm (h_tick (w_hub w)) (1 + h_tick (w_hub w)) ltac:(lia)). lia.
          + intros i Hi. pose proof (Hm i (h_tick (w_hub w')) ltac:(lia)). lia.
          + eexists. split; [apply Seen_entry|]. exact Hlo. }
      nia.
    + rewrite H4. apply apply_topics; [done|done|]. intros Ht. by eapply HT; [apply Hraw| |].
Qed.

(** The part of the invariant that does not depend on the clock. *)
Lemma effect_keeps T raws raw w w' :
  topics_closed T raws → node_ok T w → (ingestable raw → raw ∈ raws) → effect raw w w' →
  topics_in T (w_hub w')
  ∧ ∀ n wires p, p ∈ new_packets n wires w w' → ingestable p.2 → p.2 ∈ raws.
Proof.
  intros [HD HT] [Hwf Htab Htop] Hraw.
  intros [S r0 H1 H2 H3 H4|rec H1 H2 H3 H4|rec from S H1 H2 H3 H4 H5 H6]; split.
  - by rewrite H1.
  - intros n wires p Hp. by rewrite (proj2 (new_packets_adds _ _ n wires _ _ H2) p Hp).
  - by rewrite H3.
  - intros n wires p Hp. by rewrite (proj2 (new_packets_adds _ _ n wires _ _ H4) p Hp).
  - rewrite H4. apply apply_topics; [done|done|]. intros Ht. by eapply HT; [apply Hraw| |].
  - intros n wires p Hp. by rewrite (proj2 (new_packets_adds _ _ n wires _ _ H6) p Hp).
Qed.

Lemma step_keeps T raws e net net' :
  topics_closed T raws → net_ok T raws net → since e net → net_step net net' →
  net_ok T raws net' ∧ since e net' ∧ (until e net' → until e net).
Proof.
  intros HT Hok Hs Hst. revert Hok Hs.
  destruct Hst as [x l1 l2 n ref raw w now Ef En w'|x l1 l2 p Ef]; intros [Hn Hf] Hs.
  - destruct (Hn _ _ En) as [Hwf Htab Htop].
    destruct (handle_effect now ref raw w Htab) as (Heff & Htab' & HL).
    pose proof (handle_wf now ref raw w Hwf) as Hwf'.
    change (handle now ref raw w).2 with w' in Heff, Htab', HL, Hwf'. clearbody w'.
    assert (ingestable raw → raw ∈ raws) as Hraw.
    { apply (Hf ((n, ref), raw)). rewrite Ef. set_solver. }
    destruct (effect_keeps T raws raw w w' HT (Hn _ _ En) Hraw Heff) as [Htop' Hnew].
    destruct (effect_remembers e raw w w' Heff) as (C & Tk & L & _).
    destruct (Hs _ _ En) as [Hm Hlo]. split_and!.
    + split; cbn.
      * intros m v [[<- <-]|[_ Ev]]%lookup_insert_Some; [|by eauto].
        by split.
      * intros q Hq Hi. rewrite !elem_of_app in Hq.
        destruct Hq as [Hq|[Hq|Hq]]; [..|by eapply Hnew];
          apply Hf; [rewrite Ef; set_solver|done|rewrite Ef; set_solver|done].
    + intros m v. cbn. intros [[<- <-]|[_ Ev]]%lookup_insert_Some; [|by eauto].
      rewrite C, L. split; [done|]. pose proof (Hm _ _ Tk). lia.
    + intros Hu m v Ev. destruct (decide (m = n)) as [->|Hne].
      * assert (v = w) as -> by congruence.
        specialize (Hu n w'). cbn in Hu. rewrite lookup_insert_eq in Hu. specialize (Hu eq_refl).
        rewrite C in Hu. pose proof (Hm _ _ Tk). lia.
      * apply (Hu m v). cbn. by rewrite lookup_insert_ne.
  - split_and!; [|done|done]. split; [done|]. cbn. intros q Hq. apply Hf. rewrite Ef. set_solver.
Qed.

Lemma step_potential T raws e net net' :
  topics_closed T raws → net_ok T raws net → since e net → net_step net net' → until e net' →
  potential e (universe T raws) net' < potential e (universe T raws) net.
Proof.
  intros HT Hok Hs Hst. revert Hok Hs.
  destruct Hst as [x l1 l2 n ref raw w now Ef En w'|x l1 l2 p Ef]; intros [Hn Hf] Hs Hu;
    unfold potential.
  - destruct (Hn _ _ En) as [Hwf Htab Htop].
    destruct (handle_effect now ref raw w Htab) as (Heff & Htab' & HL).
    pose proof (handle_wf now ref raw w Hwf) as Hwf'.
    change (handle now ref raw w).2 with w' in Heff, Htab', HL, Hwf'. clearbody w'.
    assert (ingestable raw → raw ∈ raws) as Hraw.
    { apply (Hf ((n, ref), raw)). rewrite Ef. set_solver. }
    destruct (Hs _ _ En) as [Hm Hlo].
    specialize (Hu n w'). cbn in Hu. rewrite lookup_insert_eq in Hu. specialize (Hu eq_refl).
    destruct (effect_remembers e raw w w' Heff) as (C & _).
    rewrite C in Hu.
    destruct (effect_cost T raws e raw w w' HT (Hn _ _ En) Hraw Hm Hlo Hu Heff HL)
      as (S & r0 & Ha & _ & Hc & _).
    pose proof (new_packets_weight S r0 n (nt_wires x) w w' Ha) as Hp.
    pose proof (total_update (node_cost e (universe T raws)) (nt_nodes x) n w w' En) as Hsum.
    cbn [nt_flight nt_nodes nt_wires]. rewrite Ef, !fmap_app, fmap_cons, !total_app.
    cbn [total]. cbn [compose snd]. change (weight ∘ snd) with (λ p : packet, weight p.2) in *.
    cbn. lia.
  - cbn [nt_flight nt_nodes]. rewrite Ef, !fmap_app, fmap_cons, !total_app.
    cbn. pose proof (weight_pos p.2). lia.
Qed.

Lemma run_potential T raws e k net net' :
  topics_closed T raws → nsteps_to net_step k net net' →
  net_ok T raws net → since e net → until e net' →
  until e net ∧ k + potential e (universe T raws) net' ≤ potential e (universe T raws) net.
Proof.
  intros HT. induction 1 as [a|k a b c Hab _ IH]; intros Hok Hs Hu; [split; [done|lia]|].
  destruct (step_keeps T raws e a b HT Hok Hs Hab) as (Hok' & Hs' & Hback).
  destruct (IH Hok' Hs' Hu) as [Hub Hle].
  pose proof (step_potential T raws e a b HT Hok Hs Hab Hub). split; [auto|lia].
Qed.

Lemma unseen_le e U h : unseen e U h ≤ size U.
Proof. apply subseteq_size. by intros id [_ H]%elem_of_filter. Qed.

Lemma size_list_to_set_le (l : list gostring) : size (list_to_set l : gset gostring) ≤ length l.
Proof.
  induction l as [|x l IH]; [by rewrite list_to_set_nil, size_empty|].
  rewrite list_to_set_cons, size_union_alt, size_singleton. cbn [length].
  apply le_n_S. etrans; [apply subseteq_size, subseteq_difference_l; reflexivity|done].
Qed.

Lemma universe_size T raws : size (universe T raws) ≤ length T * length raws.
Proof.
  etrans; [apply size_list_to_set_le|]. induction raws as [|raw raws IH]; [cbn; lia|].
  rewrite fmap_cons. cbn [concat length]. rewrite length_app.
  assert (length (ids_of T raw) ≤ length T).
  { unfold ids_of. destruct (Decode raw); [by rewrite length_fmap|cbn; lia]. }
  lia.
Qed.

(** The links of all nodes together. *)
Definition link_count (net : Net) : nat :=
  total ((λ e : nat * World St, size (w_links e.2)) <$> map_to_list (nt_nodes net)).

Lemma potential_le e T raws net :
  potential e (universe T raws) net
  ≤ 2 * length (nt_flight net) + link_count net * (length T * length raws).
Proof.
  unfold potential, link_count. apply Nat.add_le_mono.
  - induction (nt_flight net) as [|p ps IH]; [done|]. rewrite fmap_cons. cbn [total length].
    assert (weight p.2 ≤ 2) by (unfold weight; destruct (Decode p.2); [case_decide|]; lia).
    cbn [compose]. lia.
  - induction (map_to_list (nt_nodes net)) as [|[n w] l IH]; [done|]. rewrite !fmap_cons.
    cbn [total]. unfold node_cost at 1. cbn [compose snd].
    pose proof (unseen_le e (universe T raws) (w_hub w)). pose proof (universe_size T raws).
    nia.
Qed.

End mesh.
Arguments Net : clear implicits.

(** ** The main theorem *)

(** C2. A cycle cannot storm.  Take any network of well-formed nodes, links and lines
    in flight, in any topology, cyclic or not, whose lines come from a finite list
    [raws] and name topics from a list [T]; let lines be delivered in any order, or
    be lost, each delivery running the receiving link's handler with its relaying.
    As long as all clock readings fall within one time to live of the duplicate
    filter, the number of deliveries is at most twice the lines in flight plus, for
    every link in the network, one line for each record and topic: however many
    paths there are, the traffic dies out. *)
Theorem cycle_cannot_storm {St : Type} `{!Store St} (T raws : list gostring)
    (t0 : Time) (net0 net : Net St) k :
  topics_closed T raws → net_ok T raws net0 →
  (∀ n w, nt_nodes net0 !! n = Some w →
     mono_clock (h_clock (w_hub w)) ∧ ss_ttl (h_seen (w_hub w)) = DefaultSeenTTL
     ∧ (t0 ≤ h_clock (w_hub w) (h_tick (w_hub w)))%Z) →
  nsteps_to net_step k net0 net →
  (∀ n w, nt_nodes net !! n = Some w →
     (h_clock (w_hub w) (h_tick (w_hub w)) < t0 + DefaultSeenTTL)%Z) →
  k ≤ 2 * length (nt_flight net0) + link_count net0 * (length T * length raws).
Proof.
  intros HT Hok Hc Hrun Hu.
  destruct (run_potential T raws (t0 + DefaultSeenTTL)%Z k net0 net HT Hrun Hok) as [_ Hk].
  - intros n w E. destruct (Hc n w E) as (Hm & -> & Ht). split; [done|]. lia.
  - intros n w E. by apply (Hu n w).
  - pose proof (potential_le (t0 + DefaultSeenTTL)%Z T raws net0). lia.
Qed.

(** Three nodes in a triangle, with a line of node [GB7AAA-9] in flight to the other
    two. *)
Definition tri_node (call p0 p1 : gostring) : World MemStore.MemStore :=
  (AddLink 1 (AddLink 0 (upd_heap (λ _, {[0%nat := sample_link p0; 1%nat := sample_link p1]})
    (NewRouter (NewHub call MemStore.NewMemStore (λ _, 1000%Z))))).2).2.
Definition tri_line : gostring := FORMAT :: bs "DGB7AAA-9 M0ABC hello".
Definition triangle : Net MemStore.MemStore :=
  mkNet
    {[0%nat := tri_node (bs "GB7AAA-9") (bs "GB7BBB-9") (bs "GB7CCC-9");
      1%nat := tri_node (bs "GB7BBB-9") (bs "GB7AAA-9") (bs "GB7CCC-9");
      2%nat := tri_node (bs "GB7CCC-9") (bs "GB7AAA-9") (bs "GB7BBB-9")]}
    {[(0, 0) := (1, 0); (0, 1) := (2, 0); (1, 0) := (0, 0); (1, 1) := (2, 1);
      (2, 0) := (0, 1); (2, 1) := (1, 1)]}
    [((1, 0), tri_line); ((2, 0), tri_line)].

Lemma tri_node_ok call p0 p1 : node_ok [DefaultTopic] (tri_node call p0 p1).
Proof.
  split.
  - unfold tri_node, AddLink. st_simpl. cbn.
    exact (proj1 (Subscribe_keeps _ (proj1 (NewHub_wf _ _ _)))).
  - apply AddLink_table_wf, AddLink_table_wf. intros id ref H.
    change ((∅ : gmap gostring nat) !! id = Some ref) in H. by rewrite lookup_empty in H.
  - intros t c H. change (<[normTopicKey DefaultTopic := TrimSpace DefaultTopic]>
      (∅ : gmap gostring gostring) !! t = Some c) in H.
    apply lookup_insert_Some in H as [[_ <-]|[_ H]]; [|by rewrite lookup_empty in H].
    apply list_elem_of_singleton. by vm_compute.
Qed.

Lemma tri_node_clock call p0 p1 :
  h_clock (w_hub (tri_node call p0 p1)) = (λ _, 1000%Z)
  ∧ ss_ttl (h_seen (w_hub (tri_node call p0 p1))) = DefaultSeenTTL
  ∧ h_tick (w_hub (tri_node call p0 p1)) = 0.
Proof. by split_and!. Qed.

Lemma triangle_nodes n w : nt_nodes triangle !! n = Some w →
  ∃ c p0 p1, w = tri_node c p0 p1.
Proof.
  intros H. cbn in H. apply lookup_insert_Some in H as [[_ <-]|[_ H]]; [by do 3 eexists|].
  apply lookup_insert_Some in H as [[_ <-]|[_ H]]; [by do 3 eexists|].
  apply lookup_singleton_Some in H as [_ <-]. by do 3 eexists.
Qed.

Lemma cycle_cannot_storm_witness :
  ∃ net, nsteps_to net_step 1 triangle net
    ∧ length (nt_flight net) = 2%nat
    ∧ 1 ≤ 2 * length (nt_flight triangle) + link_count triangle * (1 * 1).
Proof.
  pose (w1 := tri_node (bs "GB7BBB-9") (bs "GB7AAA-9") (bs "GB7CCC-9")).
  pose (net := mkNet (<[1 := (handle 0 0 tri_line w1).2]> (nt_nodes triangle))
    (nt_wires triangle)
    ([] ++ [((2, 0), tri_line)] ++ new_packets 1 (nt_wires triangle) w1 (handle 0 0 tri_line w1).2)).
  assert (net_step triangle net) as Hstep.
  { exact (deliver_step triangle [] [((2, 0), tri_line)] 1 0 tri_line w1 0 eq_refl eq_refl). }
  exists net. split; [eapply nst_step; [exact Hstep|constructor]|].
  split; [by vm_compute|].
  apply (cycle_cannot_storm [DefaultTopic] [tri_line] 1000 triangle net 1).
  - split; [by left|]. intros raw rec Hr Hd Ht. apply list_elem_of_singleton in Hr as ->.
    exfalso. vm_compute in Hd. injection Hd as <-. revert Ht. vm_compute. discriminate.
  - split.
    + intros n w H. destruct (triangle_nodes n w H) as (c & p0 & p1 & ->). apply tri_node_ok.
    + intros p Hp _. cbn in Hp. repeat (apply elem_of_cons in Hp as [->|Hp]; [by left|]).
      by apply elem_of_nil in Hp.
  - intros n w H. destruct (triangle_nodes n w H) as (c & p0 & p1 & ->).
    destruct (tri_node_clock c p0 p1) as (-> & -> & _). split; [|split; [done|lia]].
    intros i j _. lia.
  - eapply nst_step; [exact Hstep|constructor].
  - intros n w H. unfold net in H. cbn [nt_nodes] in H. apply lookup_insert_Some in H as [[_ <-]|[_ H]].
    + by vm_compute.
    + destruct (triangle_nodes n w H) as (c & p0 & p1 & ->).
      destruct (tri_node_clock c p0 p1) as (-> & _ & _). unfold DefaultSeenTTL. lia.
Defined.
