(* ===== verification/MeshFlood.v ===== *)
(** * Flooding of the mesh

    One record on its way through a network of nodes, with keepalives and their answers
    beside it: every node connected to the origin takes the record in, exactly once,
    in any topology and any order of deliveries. *)
From S2P Require Import Prelude Unicode GoStrings ChatModel ChatSeen ChatStore ChatHub.
From S2P Require Import HubProps HubTheorems PeerProto PeerRouter RouterProps PeerLink LinkProps Mesh.
From stdpp Require Import options.
Import Hub Router.

(** ** The id of a record at a node does not change when the record is applied *)

Section same_id.
Context {St : Type} `{!Store St}.
Implicit Types h : Hub St.

Lemma Post_topics k text h key :
  topicOf (Post k text h).2 key = topicOf h key.
Proof.
  unfold topicOf, UserOf. destruct (decide (clip text = [])) as [E|E].
  { unfold Post. by rewrite decide_True. }
  destruct (h_users h !! canonKey k) as [u|] eqn:Eu.
  - rewrite (Post_publish k text h u E Eu). cbv zeta. rewrite publish_users. cbn.
    destruct (decide (canonKey key = canonKey k)) as [Ek|Ek].
    + by rewrite Ek, lookup_insert_eq, Eu.
    + by rewrite lookup_insert_ne by congruence.
  - unfold Post. rewrite decide_False by done. st_simpl. by rewrite Eu.
Qed.

Lemma member_add_users t k h : h_users (member_add t k h).2 = h_users h.
Proof. unfold member_add. by destruct (_ !! _). Qed.

(** A user who joins without a topic is in the default one. *)
Lemma Join_topicOf u h :
  hub_wf h → u_Topic u = [] → UserOf h (Key u) = None →
  topicOf (Join u h).2 (Key u) = DefaultTopic.
Proof.
  intros Hwf Ht Hu. unfold topicOf, UserOf in *. unfold Join. st_simpl. case_decide as Hd.
  { st_simpl. by rewrite Hu. }
  st_simpl. cbn [now fst snd]. rewrite (proj1 (emit_core _ _)), member_add_users.
  set (w := user_times _ _).
  assert (u_Topic w = DefaultTopic) as EwT by (unfold w; cbn; rewrite Ht; by rewrite decide_True).
  assert (Key w = canonKey (Key u)) as EwK by (unfold w; by case_decide).
  assert ((ensureTopicLocked (u_Topic w) (upd_tick S h)).1 = DefaultTopic) as ->.
  { rewrite EwT. unfold ensureTopicLocked. st_simpl.
    change (h_topics (upd_tick S h)) with (h_topics h).
    by rewrite (cw_default _ _ _ (hw_core _ Hwf)). }
  cbn. change (Key (user_topic DefaultTopic w)) with (Key w). rewrite EwK.
  by rewrite lookup_insert_eq.
Qed.

Lemma ensureUser_topic rec from h :
  hub_wf h → topicOf (ensureUser rec from h).2 (rec_key rec) = topicOf h (rec_key rec).
Proof.
  intros Hwf. unfold ensureUser. st_simpl. destruct (UserOf h (rec_key rec)) eqn:Eu; [done|].
  set (usr := mkUser _ _ _ _ _ _ _ _). change (rec_key rec) with (Key usr) in *.
  cbn [snd]. rewrite Join_topicOf by done. unfold topicOf. by rewrite Eu.
Qed.

Lemma apply_same_id rec from h :
  hub_wf h → recordID (apply rec from h).2 rec = recordID h rec.
Proof.
  intros Hwf. unfold recordID. destruct (decide (r_Type rec = IDData)) as [E|E]; [|done].
  f_equal. unfold apply. rewrite !decide_False by (rewrite E; done). rewrite decide_True by done.
  st_simpl. rewrite Post_topics. by apply ensureUser_topic.
Qed.

Lemma SeenID_same_id id rec h : recordID (SeenID id h).2 rec = recordID h rec.
Proof. done. Qed.
End same_id.

(** ** One delivery *)

Section deliver.
Context {St : Type} `{!Store St}.
Implicit Types (w : World St) (net : Net St).

(** The link objects stay: their identity, their state, and what they have sent. *)
Definition kept w w' : Prop :=
  w_links w' = w_links w ∧ w_ourNode w' = w_ourNode w
  ∧ ∀ r l, w_heap w !! r = Some l →
      ∃ l', w_heap w' !! r = Some l' ∧ link_id l' = link_id l ∧ l_up l' = l_up l.

Lemma kept_refl w : kept w w.
Proof. split_and!; eauto. Qed.
Lemma kept_trans w1 w2 w3 : kept w1 w2 → kept w2 w3 → kept w1 w3.
Proof.
  intros (A1 & A2 & A3) (B1 & B2 & B3). split_and!; [congruence..|].
  intros r l E. destruct (A3 r l E) as (l2 & E2 & ? & ?).
  destruct (B3 r l2 E2) as (l3 & E3 & ? & ?). exists l3. split_and!; congruence.
Qed.
Lemma kept_map w w' (f : nat → Link → Link) :
  w_links w' = w_links w → w_ourNode w' = w_ourNode w →
  (∀ r, w_heap w' !! r = f r <$> w_heap w !! r) →
  (∀ r l, link_id (f r l) = link_id l ∧ l_up (f r l) = l_up l) → kept w w'.
Proof.
  intros E1 E2 E3 Hf. split_and!; [done..|]. intros r l E. exists (f r l).
  rewrite E3, E. split; [done|apply Hf].
Qed.
Lemma bump_up raw l : l_up (bump raw l) = l_up l.
Proof. unfold bump. by destruct (l_up l) eqn:E. Qed.

Lemma on_link_kept ref f w :
  (∀ l, link_id (f l) = link_id l ∧ l_up (f l) = l_up l) → kept w (on_link ref f w).2.
Proof.
  intros Hf. apply (kept_map _ _ (λ r l, if decide (ref = r) then f l else l)); [done..| |].
  - intros r. cbn. rewrite lookup_alter. destruct (decide (ref = r)) as [->|]; by destruct (w_heap w !! r).
  - intros r l. by destruct (decide (ref = r)).
Qed.
Lemma sendRaw_kept ref raw w : kept w (sendRaw ref raw w).2.
Proof.
  destruct (sendRaw_spec ref raw w) as [(E1 & E2 & E3 & E4) Hs].
  apply (kept_map _ _ (λ r l, if decide (r = ref) then bump raw l else l)); [done..|].
  intros r l. case_decide; [|done]. by rewrite bump_id, bump_up.
Qed.
Lemma forward_kept raw except w : table_wf w → kept w (forward raw except w).2.
Proof.
  intros Hwf. destruct (forward_spec raw except w Hwf) as [(E1 & E2 & E3 & E4) Hs].
  apply (kept_map _ _ (λ r l, if decide (is_target w except r l) then bump raw l else l)); [done..|].
  intros r l. case_decide; [|done]. by rewrite bump_id, bump_up.
Qed.

Lemma Ingest_kept rec from w : table_wf w → kept w (Ingest rec from w).2.
Proof.
  intros Hwf. rewrite Ingest_eq. assert (kept w (checked rec w)) as Hc by (split_and!; eauto).
  destruct (accepts rec w); [|destruct (foreign rec w); [done|apply kept_refl]].
  eapply kept_trans; [|by apply forward_kept]. exact Hc.
Qed.

Lemma handle_kept now ref line w : table_wf w → kept w (handle now ref line w).2.
Proof.
  intros Hwf. unfold handle. destruct (negb _); [apply kept_refl|].
  destruct (Decode line) as [rec|]; [|apply kept_refl]. unfold handleRecord. st_simpl.
  assert (kept w (on_link ref (markSeen now) w).2) as H0 by by apply on_link_kept.
  eapply kept_trans; [exact H0|]. set (w0 := (on_link ref (markSeen now) w).2) in *.
  assert (table_wf w0) as Hwf0 by by apply telemetry_inert.
  destruct (w_heap w0 !! ref) as [l|]; [|apply kept_refl].
  case_decide; [apply sendRaw_kept|]. case_decide; [|by apply Ingest_kept].
  apply on_link_kept. intros k. unfold recordPong. by destruct (_ =? _)%Z.
Qed.

(** A record that is no keepalive goes to [Ingest]. *)
Lemma handle_ingest now ref line rec w l :
  Decode line = Some rec → ingestable line → w_heap w !! ref = Some l →
  (handle now ref line w).2 = (Ingest rec (link_id l) (on_link ref (markSeen now) w).2).2.
Proof.
  intros Hd Hi El. assert (IsControl line = true) as Hc.
  { unfold Decode in Hd. by destruct (IsControl line). }
  unfold handle.
  unfold ingestable in Hi. rewrite Hd in Hi. rewrite Hc, Hd. cbn [negb]. unfold handleRecord. st_simpl.
  assert (w_heap (on_link ref (markSeen now) w).2 !! ref = Some (markSeen now l)) as ->.
  { cbn. rewrite lookup_alter, decide_True by done. by rewrite El. }
  by rewrite !decide_False by tauto.
Qed.
End deliver.

(** ** The flood of one record *)

Section flood.
Context {St : Type} `{!Store St}.
Context (raw : gostring) (rec : WireRecord) (origin : nat).
Implicit Types (w : World St) (net : Net St).

(** A node takes the record in: it is not its own, and its id is new. *)
Definition takes (line : gostring) w : bool := bool_decide (line = raw) && accepts rec w.

(** Deliveries one after the other, with the nodes that take the record in. *)
Inductive flood_run : list nat → Net St → Net St → Prop :=
| flood_done net : flood_run [] net net
| flood_deliver tr net l1 l2 n ref line w now net' :
    nt_flight net = l1 ++ ((n, ref), line) :: l2 →
    nt_nodes net !! n = Some w →
    let w' := (handle now ref line w).2 in
    flood_run tr (mkNet (<[n := w']> (nt_nodes net)) (nt_wires net)
                    (l1 ++ l2 ++ new_packets n (nt_wires net) w w')) net' →
    flood_run ((if takes line w then [n] else []) ++ tr) net net'.

(** Well-formed nodes on links that work both ways; the record is the origin's own. *)
Record node_shape (e : Time) (n : nat) w : Prop := {
  ns_hub : hub_wf (w_hub w);
  ns_table : table_wf w;
  ns_foreign : foreign rec w = bool_decide (n ≠ origin);
  ns_clock : mono_clock (h_clock (w_hub w));
  ns_since : (e ≤ h_clock (w_hub w) (h_tick (w_hub w)) + ss_ttl (h_seen (w_hub w)))%Z }.
(** A link object that is up and in the table. *)
Definition working w (ref : nat) : Prop :=
  ∃ l, w_heap w !! ref = Some l ∧ l_up l = true ∧ w_links w !! link_id l = Some ref.
Record shape (e : Time) net : Prop := {
  sh_nodes n w : nt_nodes net !! n = Some w → node_shape e n w;
  sh_sym a b : nt_wires net !! a = Some b → nt_wires net !! b = Some a;
  sh_wired n ref b : nt_wires net !! (n, ref) = Some b →
    ∃ w, nt_nodes net !! n = Some w ∧ working w ref }.

Lemma handle_shape e n now ref line w :
  node_shape e n w → node_shape e n (handle now ref line w).2
  ∧ (∀ r, working w r → working (handle now ref line w).2 r)
  ∧ h_clock (w_hub (handle now ref line w).2) = h_clock (w_hub w)
  ∧ h_tick (w_hub w) ≤ h_tick (w_hub (handle now ref line w).2).
Proof.
  intros [H1 H2 H3 H4 H5]. destruct (handle_effect now ref line w H2) as (He & Ht & _).
  destruct (handle_kept now ref line w H2) as (K1 & K2 & K3).
  destruct (effect_remembers e line w _ He) as (C & T & L & _).
  pose proof (handle_wf now ref line w H1) as Hwf. split; [|split; [|done]].
  - split; [done|done| | |].
    + unfold foreign in *. by rewrite K2.
    + by rewrite C.
    + rewrite C, L. pose proof (H4 _ _ T). lia.
  - intros r (l & E & Hu & Hl). destruct (K3 r l E) as (l' & E' & Hid & Hu').
    exists l'. split_and!; [done|congruence|]. by rewrite Hid, K1.
Qed.

Lemma deliver_shape e net l1 l2 n ref line w now :
  nt_flight net = l1 ++ ((n, ref), line) :: l2 → nt_nodes net !! n = Some w →
  let w' := (handle now ref line w).2 in
  let net' := mkNet (<[n := w']> (nt_nodes net)) (nt_wires net)
                (l1 ++ l2 ++ new_packets n (nt_wires net) w w') in
  shape e net → shape e net' ∧ (until e net' → until e net).
Proof.
  intros Ef En w' net' [Hn Hs Hw]. destruct (handle_shape e n now ref line w (Hn _ _ En)) as (H1 & H2 & C & T).
  change (handle now ref line w).2 with w' in H1, H2, C, T. subst net'. clearbody w'. split.
  - split; cbn.
    + intros m v [[<- <-]|[_ Ev]]%lookup_insert_Some; [done|by eauto].
    + done.
    + intros m r b Eb. destruct (Hw m r b Eb) as (v & Ev & Hv).
      destruct (decide (m = n)) as [->|Hne].
      * exists w'. rewrite lookup_insert_eq. split; [done|]. apply H2. by simplify_eq.
      * exists v. by rewrite lookup_insert_ne.
  - intros Hu m v Ev. destruct (decide (m = n)) as [->|Hne].
    + simplify_eq. specialize (Hu n w'). cbn in Hu. rewrite lookup_insert_eq in Hu.
      specialize (Hu eq_refl). rewrite C in Hu.
      pose proof (ns_clock _ _ _ (Hn _ _ En) _ _ T). lia.
    + apply (Hu m v). cbn. by rewrite lookup_insert_ne.
Qed.

Lemma run_shape e tr net net' :
  flood_run tr net net' → shape e net → shape e net' ∧ (until e net' → until e net).
Proof.
  induction 1 as [net|tr net l1 l2 n ref line w now net' Ef En w' _ IH]; intros Hs; [done|].
  destruct (deliver_shape e net l1 l2 n ref line w now Ef En Hs) as [Hs1 Hu1].
  destruct (IH Hs1) as [Hs2 Hu2]. split; [done|]. auto.
Qed.
(** *** Packets of a delivery *)

Lemma new_packet_src n wires w w' p :
  p ∈ new_packets n wires w w' → ∃ ref, wires !! (n, ref) = Some p.1.
Proof.
  unfold new_packets. intros Hp. apply list_elem_of_In, in_concat in Hp as (ps & Hps & Hp).
  apply list_elem_of_In in Hps, Hp. apply list_elem_of_fmap in Hps as ([r l] & -> & _).
  unfold new_on in Hp. cbn [fst snd] in Hp. destruct (wires !! (n, r)) as [dst|] eqn:E.
  - apply list_elem_of_fmap in Hp as (line & -> & _). by exists r.
  - by apply elem_of_nil in Hp.
Qed.

Lemma new_packet_sent n wires w w' ref dst l l' :
  wires !! (n, ref) = Some dst → w_heap w !! ref = Some l → w_heap w' !! ref = Some l' →
  l_sent l' = l_sent l ++ [raw] → (dst, raw) ∈ new_packets n wires w w'.
Proof.
  intros Hw El El' Hs. unfold new_packets. apply list_elem_of_In, in_concat.
  exists (new_on n wires w (ref, l')). split; apply list_elem_of_In.
  - apply (list_elem_of_fmap_2 (new_on n wires w)). by apply elem_of_map_to_list.
  - unfold new_on. cbn [fst snd]. rewrite Hw, El. cbn [from_option]. rewrite Hs, drop_app_length.
    by left.
Qed.

Lemma no_new_packets n wires w w' r0 :
  adds [] r0 w w' → new_packets n wires w w' = [].
Proof.
  intros Ha. destruct (new_packets_adds [] r0 n wires w w' Ha) as [Hl _].
  destruct (new_packets n wires w w'); [done|]. cbn in Hl. lia.
Qed.

(** *** The record at one node *)

Context (Hdec : Decode raw = Some rec) (Hing : ingestable raw).

Definition id_at w : gostring := recordID (w_hub w) rec.
(** The node has it, or has never heard of it. *)
Definition has (e : Time) w : Prop := alive (id_at w) e (w_hub w).
Definition fresh w : Prop := ss_entries (h_seen (w_hub w)) !! id_at w = None.

(** What a delivery of the record does at a node: nothing at the origin, nothing but a
    refreshed entry where it is known, and where it is new it is applied and written to
    every working link but the one it came by. *)
Lemma deliver_record e n now ref w l :
  node_shape e n w → w_heap w !! ref = Some l →
  let w' := (handle now ref raw w).2 in
  (h_clock (w_hub w) (h_tick (w_hub w')) < e)%Z →
  (n = origin → takes raw w = false ∧ w_hub w' = w_hub w ∧ adds [] raw w w')
  ∧ (n ≠ origin → has e w → takes raw w = false ∧ has e w' ∧ adds [] raw w w')
  ∧ (n ≠ origin → fresh w → takes raw w = true ∧ has e w'
     ∧ (∃ S, adds S raw w w')
     ∧ ∀ r lr, w_heap w !! r = Some lr → l_up lr = true → w_links w !! link_id lr = Some r →
         link_id lr ≠ link_id l →
         ∃ lr', w_heap w' !! r = Some lr' ∧ l_sent lr' = l_sent lr ++ [raw]).
Proof using Hdec Hing.
  intros [H1 H2 H3 H4 H5] El w'.
  destruct (handle_shape e n now ref raw w ltac:(by split)) as (_ & _ & C & T).
  change (handle now ref raw w).2 with w' in C, T.
  assert (w' = (Ingest rec (link_id l) (on_link ref (markSeen now) w).2).2) as Ew.
  { by apply handle_ingest. }
  set (w0 := (on_link ref (markSeen now) w).2) in *.
  assert (table_wf w0) as Hwf0 by by apply telemetry_inert.
  assert (∀ r0, adds [] r0 w w0) as Ha0 by (intros; apply on_link_adds, markSeen_inert).
  destruct (Decode_Some raw rec Hdec) as (_ & HR & _).
  rewrite Ingest_eq in Ew. change (accepts rec w0) with (accepts rec w) in Ew.
  change (foreign rec w0) with (foreign rec w) in Ew.
  unfold takes. rewrite bool_decide_true by done. cbn [andb]. unfold accepts in *.
  rewrite H3 in *. intros Hhi. split_and!.
  - intros ->. rewrite bool_decide_false in * by tauto. cbn [andb] in *. rewrite Ew. by split_and!.
  - intros Hn Hhas. rewrite bool_decide_true in * by done. cbn [andb] in *.
    assert ((SeenID (recordID (w_hub w) rec) (w_hub w)).1 = true) as Hs.
    { apply (alive_seen _ e); [done|]. pose proof (H4 _ _ T). lia. }
    rewrite Hs in *. cbn [negb] in *. rewrite Ew. split_and!; [done| |].
    + eexists. split; [apply Seen_entry|]. exact H5.
    + intros r l' Hr. by apply (Ha0 raw).
  - intros Hn Hf. rewrite bool_decide_true in * by done. cbn [andb] in *.
    assert ((SeenID (recordID (w_hub w) rec) (w_hub w)).1 = false) as Hs.
    { unfold fresh, id_at in Hf. unfold SeenID, seen_at. st_simpl. cbn. by rewrite Seen_answer, Hf. }
    rewrite Hs in *. cbn [negb] in *.
    set (w1 := (on_hub (apply rec (link_id l)) (checked rec w0)).2) in *.
    assert (table_wf w1) as Hwf1 by exact Hwf0.
    destruct (forward_spec (r_Raw rec) (link_id l) w1 Hwf1) as [(E1 & _ & _ & E4) Hsp].
    rewrite HR in *. rewrite <- Ew in *. split_and!; [done| | |].
    + unfold has, id_at. rewrite E1.
      change (w_hub w1) with (apply rec (link_id l) (SeenID (recordID (w_hub w) rec) (w_hub w)).2).2.
      assert (h_tick (w_hub w') = h_tick (apply rec (link_id l)
        (SeenID (recordID (w_hub w) rec) (w_hub w)).2).2) as Et by by rewrite E1.
      rewrite apply_same_id, SeenID_same_id by (by apply SeenID_keeps).
      destruct (remembers_apply e rec (link_id l) (SeenID (recordID (w_hub w) rec) (w_hub w)).2)
        as (C2 & T2 & L2 & A2). apply A2.
      * done.
      * change (h_clock (SeenID (recordID (w_hub w) rec) (w_hub w)).2) with (h_clock (w_hub w)).
        change (h_tick (SeenID (recordID (w_hub w) rec) (w_hub w)).2) with (1 + h_tick (w_hub w)).
        destruct (remembers_SeenID e (recordID (w_hub w) rec) (w_hub w)) as (_ & _ & -> & _).
        pose proof (H4 (h_tick (w_hub w)) (1 + h_tick (w_hub w)) ltac:(lia)). lia.
      * rewrite <- Et. intros i Hlt.
        change (h_clock (SeenID (recordID (w_hub w) rec) (w_hub w)).2) with (h_clock (w_hub w)).
        pose proof (H4 i (h_tick (w_hub w')) ltac:(lia)). lia.
      * eexists. split; [apply Seen_entry|]. exact H5.
    + exists (targets w1 (link_id l)). eapply adds_trans_quiet; [apply (Ha0 raw)|]. rewrite Ew.
      by apply (forward_adds raw (link_id l) w1).
    + intros r lr Er Hu Hl Hne. rewrite Hsp.
      change (w_heap w1) with (alter (markSeen now) ref (w_heap w)). rewrite lookup_alter.
      assert (∀ lk, link_id lk = link_id lr → l_up lk = true → l_sent lk = l_sent lr →
        ∃ lr', (λ l0, if decide (is_target w1 (link_id l) r l0) then bump raw l0 else l0) <$> Some lk
               = Some lr' ∧ l_sent lr' = l_sent lr ++ [raw]) as Hgo.
      { intros lk Hid Hup Hsent. eexists. split; [reflexivity|].
        rewrite decide_True by (split; rewrite Hid; done). unfold bump. rewrite Hup. cbn. by rewrite Hsent. }
      destruct (decide (ref = r)) as [->|]; rewrite Er; by apply Hgo.
Qed.

(** A keepalive, a poll or its answer leaves the hub as it was and brings no record. *)
Lemma deliver_other n now ref line w wires :
  table_wf w → ¬ ingestable line →
  let w' := (handle now ref line w).2 in
  w_hub w' = w_hub w ∧ ∀ p, p ∈ new_packets n wires w w' → ¬ ingestable p.2.
Proof.
  intros Hwf Hno w'. destruct (handle_effect now ref line w Hwf) as (He & _).
  change (handle now ref line w).2 with w' in He.
  destruct He as [S r0 H1 H2 _ H4|? ? ? |? ? ? ? ?]; [|done..].
  split; [done|]. intros p Hp. by rewrite (proj2 (new_packets_adds S r0 n wires w w' H2) p Hp).
Qed.
(** *** The invariant of the flood

    [acc] are the nodes that have taken the record in so far.  It is on its way only over
    wires that start at them or at the origin; whoever is wired to one of them has it or
    has a copy on its way; and the duplicate filters tell exactly who has it. *)
Definition informed (acc : list nat) (n : nat) : Prop := n = origin ∨ n ∈ acc.

Record flood_inv (e : Time) (acc : list nat) net : Prop := {
  fi_flight p : p ∈ nt_flight net → ingestable p.2 →
    p.2 = raw ∧ ∃ src, nt_wires net !! src = Some p.1 ∧ informed acc src.1;
  fi_pending n ref dst : informed acc n → nt_wires net !! (n, ref) = Some dst →
    informed acc dst.1 ∨ ∃ r, ((dst.1, r), raw) ∈ nt_flight net;
  fi_nodes n w : nt_nodes net !! n = Some w → n ≠ origin →
    (n ∈ acc ∧ has e w) ∨ ((n ∉ acc) ∧ fresh w);
  fi_once : NoDup acc ∧ origin ∉ acc }.

Lemma informed_app acc l n : informed acc n → informed (acc ++ l) n.
Proof. clear. unfold informed. set_solver. Qed.

(** What a step has to do to keep the invariant. *)
Lemma step_inv e acc add net l1 l2 n ref line w w' :
  nt_flight net = l1 ++ ((n, ref), line) :: l2 → nt_nodes net !! n = Some w →
  flood_inv e acc net →
  let new := new_packets n (nt_wires net) w w' in
  add = [] ∨ (add = [n] ∧ (n ∉ acc) ∧ n ≠ origin) →
  (∀ p, p ∈ new → ingestable p.2 → p.2 = raw ∧ informed (acc ++ add) n) →
  (line = raw → informed (acc ++ add) n) →
  (add = [n] → ∀ r dst, nt_wires net !! (n, r) = Some dst →
     informed acc dst.1 ∨ (dst, raw) ∈ new) →
  (n ≠ origin → (n ∈ acc ++ add ∧ has e w') ∨ ((n ∉ acc ++ add) ∧ fresh w')) →
  flood_inv e (acc ++ add)
    (mkNet (<[n := w']> (nt_nodes net)) (nt_wires net) (l1 ++ l2 ++ new)).
Proof.
  clear Hdec Hing. intros Ef En [Hfl Hpe Hno [Hnd Hor]] new Hadd Hnew Hline Hsend Hnode.
  split; cbn [nt_flight nt_wires nt_nodes].
  - intros p Hp Hi. rewrite app_assoc in Hp. apply elem_of_app in Hp as [Hp|Hp].
    + destruct (Hfl p) as (E & src & Hs & Hin); [rewrite Ef; set_solver|done|].
      split; [done|]. exists src. split; [done|]. by apply informed_app.
    + destruct (Hnew p Hp Hi) as [E Hin]. destruct (new_packet_src n _ w w' p Hp) as [r Hr].
      split; [done|]. by exists (n, r).
  - intros m r dst Hm Hw. assert (informed acc m ∨ (m = n ∧ add = [n])) as [Hm'|[-> Ea]].
    { destruct Hm as [->|[Hm|Hm]%elem_of_app]; [by left; left|by left; right|].
      destruct Hadd as [->|[-> _]]; [by apply elem_of_nil in Hm|].
      apply list_elem_of_singleton in Hm. by right. }
    + destruct (Hpe m r dst Hm' Hw) as [Hd|[r' Hr']]; [left; by apply informed_app|].
      rewrite Ef in Hr'. assert (((dst.1, r'), raw) = ((n, ref), line)
        ∨ ((dst.1, r'), raw) ∈ l1 ++ l2 ++ new) as [E|Hin] by set_solver.
      * injection E as -> -> ->. left. by apply Hline.
      * right. by exists r'.
    + destruct (Hsend Ea r dst Hw) as [Hd|Hd]; [left; by apply informed_app|].
      right. exists dst.2. destruct dst. rewrite !elem_of_app. auto.
  - intros m v Ev Hm. destruct (decide (m = n)) as [->|Hne].
    + rewrite lookup_insert_eq in Ev. injection Ev as <-. by apply Hnode.
    + rewrite lookup_insert_ne in Ev by done. destruct (Hno m v Ev Hm) as [[H1 H2]|[H1 H2]].
      * left. split; [set_solver|done].
      * right. split; [|done]. destruct Hadd as [->|[-> _]]; set_solver.
  - destruct Hadd as [->|(-> & Hn & Hne)]; [by rewrite app_nil_r|]. split; [|set_solver].
    apply NoDup_app. split; [done|]. split; [set_solver|apply NoDup_singleton].
Qed.

Lemma deliver_inv e acc net l1 l2 n ref line w now :
  nt_flight net = l1 ++ ((n, ref), line) :: l2 → nt_nodes net !! n = Some w →
  let w' := (handle now ref line w).2 in
  let net' := mkNet (<[n := w']> (nt_nodes net)) (nt_wires net)
                (l1 ++ l2 ++ new_packets n (nt_wires net) w w') in
  shape e net → flood_inv e acc net → until e net' →
  flood_inv e (acc ++ if takes line w then [n] else []) net'.
Proof using Hdec Hing.
  intros Ef En w' net' Hsh Hinv Hu.
  pose proof (sh_nodes _ _ Hsh _ _ En) as Hns.
  assert (h_clock (w_hub w) (h_tick (w_hub w')) < e)%Z as Hhi.
  { specialize (Hu n w'). cbn in Hu. rewrite lookup_insert_eq in Hu. specialize (Hu eq_refl).
    destruct (handle_shape e n now ref line w Hns) as (_ & _ & C & _).
    change (handle now ref line w).2 with w' in C. by rewrite C in Hu. }
  assert (((n, ref), line) ∈ nt_flight net) as Hin by (rewrite Ef; set_solver).
  destruct (decide (line = raw)) as [->|Hne].
  - destruct (fi_flight _ _ _ Hinv _ Hin Hing) as (_ & src & Hsrc & Hinf). cbn [fst] in Hsrc.
    pose proof (sh_sym _ _ Hsh _ _ Hsrc) as Hback.
    destruct (sh_wired _ _ Hsh _ _ _ Hback) as (v & Ev & l & El & _ & Hl). simplify_eq.
    destruct (deliver_record e n now ref w l Hns El Hhi) as (C1 & C2 & C3).
    change (handle now ref raw w).2 with w' in C1, C2, C3.
    assert (∀ S, adds S raw w w' → ∀ p, p ∈ new_packets n (nt_wires net) w w' → p.2 = raw) as Hraw.
    { intros S Ha. by apply (new_packets_adds S raw n (nt_wires net) w w' Ha). }
    destruct (decide (n = origin)) as [->|Hno].
    + destruct (C1 eq_refl) as (-> & Hh & Ha). rewrite app_nil_r.
      pose proof (no_new_packets origin (nt_wires net) w w' raw Ha) as Hnil.
      rewrite <- (app_nil_r acc). apply (step_inv e acc [] net l1 l2 origin ref raw w w'); try done.
      * by left.
      * rewrite Hnil. intros p Hp. by apply elem_of_nil in Hp.
      * intros _. by left.
    + destruct (fi_nodes _ _ _ Hinv _ _ En Hno) as [[Hacc Hhas]|[Hacc Hfr]].
      * destruct (C2 Hno Hhas) as (-> & Hh & Ha).
        pose proof (no_new_packets n (nt_wires net) w w' raw Ha) as Hnil.
        apply (step_inv e acc [] net l1 l2 n ref raw w w'); try done.
        -- by left.
        -- rewrite Hnil. intros p Hp. by apply elem_of_nil in Hp.
        -- intros _. right. set_solver.
        -- intros _. left. split; [set_solver|done].
      * destruct (C3 Hno Hfr) as (-> & Hh & [S Ha] & Hsent).
        assert (informed (acc ++ [n]) n) as Hn by (right; set_solver).
        apply (step_inv e acc [n] net l1 l2 n ref raw w w'); try done.
        -- by right.
        -- intros p Hp _. split; [by eapply Hraw|done].
        -- intros _ r dst Hr. destruct (decide (r = ref)) as [->|Hner].
           { left. assert (dst = src) as -> by congruence. done. }
           right. destruct (sh_wired _ _ Hsh _ _ _ Hr) as (v & Ev & lr & Elr & Hup & Hlr). simplify_eq.
           destruct (Hsent r lr Elr Hup Hlr) as (lr' & Elr' & Hs); [congruence|].
           by eapply new_packet_sent.
        -- intros _. left. split; [set_solver|done].
  - assert (takes line w = false) as ->.
    { unfold takes. by rewrite bool_decide_false. }
    assert (¬ ingestable line) as Hni.
    { intros Hi. destruct (fi_flight _ _ _ Hinv _ Hin Hi) as [E _]. done. }
    destruct (deliver_other n now ref line w (nt_wires net) (ns_table _ _ _ Hns) Hni) as [Hh Hnew].
    change (handle now ref line w).2 with w' in Hh, Hnew.
    apply (step_inv e acc [] net l1 l2 n ref line w w'); try done.
    + by left.
    + intros p Hp Hi. by destruct (Hnew p Hp).
    + intros Hno. rewrite app_nil_r. unfold has, fresh, id_at. rewrite Hh.
      by apply (fi_nodes _ _ _ Hinv).
Qed.

Lemma run_inv e tr net net' :
  flood_run tr net net' → ∀ acc, shape e net → flood_inv e acc net → until e net' →
  flood_inv e (acc ++ tr) net'.
Proof using Hdec Hing.
  induction 1 as [net|tr net l1 l2 n ref line w now net' Ef En w' Hrun IH]; intros acc Hs Hi Hu.
  - by rewrite app_nil_r.
  - destruct (deliver_shape e net l1 l2 n ref line w now Ef En Hs) as [Hs1 _].
    destruct (run_shape e _ _ _ Hrun Hs1) as [_ Hu1].
    rewrite app_assoc. apply IH; [done| |done].
    by apply (deliver_inv e acc net l1 l2 n ref line w now Ef En Hs Hi (Hu1 Hu)).
Qed.

(** Nodes joined by a wire. *)
Definition joined (wires : gmap endpoint endpoint) (a b : nat) : Prop :=
  ∃ r r', wires !! (a, r) = Some (b, r').

Lemma inv_quiet e acc net n :
  flood_inv e acc net → (∀ p, p ∈ nt_flight net → ¬ ingestable p.2) →
  rtc (joined (nt_wires net)) origin n → n = origin ∨ n ∈ acc.
Proof using Hdec Hing.
  intros Hi Hq Hr.
  assert (∀ a, rtc (joined (nt_wires net)) a n → informed acc a → informed acc n) as Ha.
  { clear Hr. intros a. induction 1 as [a|a b c (r & r' & Hw) _ IH]; [done|]. intros Ha. apply IH.
    destruct (fi_pending _ _ _ Hi a r (b, r') Ha Hw) as [Hb|[r2 Hb]]; [done|].
    by destruct (Hq _ Hb). }
  apply (Ha origin Hr). by left.
Qed.
End flood.

(** C3. A record reaches every node, once.  Let a record its origin has just written to
    all its links be on its way in a mesh of well-formed nodes none of which has heard of
    it, in any topology, with any number of keepalives, polls and answers beside it; let
    lines be delivered in any order, none lost, within one time to live of the duplicate
    filter.  Then no node takes the record in more than once; and when no record is on its
    way any more, every node connected to the origin by working links, over whatever
    number of hops, has taken it in exactly once.  (How many deliveries that takes at
    most is [cycle_cannot_storm]; what taking in does is [relay_rule].) *)
Theorem record_reaches_all {St : Type} `{!Store St} (raw : gostring) (rec : WireRecord)
    (origin : nat) (e : Time) (tr : list nat) (net0 net : Net St) :
  Decode raw = Some rec → ingestable raw → shape rec origin e net0 →
  (∀ p, p ∈ nt_flight net0 → ingestable p.2 →
     p.2 = raw ∧ ∃ ref, nt_wires net0 !! (origin, ref) = Some p.1) →
  (∀ ref dst, nt_wires net0 !! (origin, ref) = Some dst → (dst, raw) ∈ nt_flight net0) →
  (∀ n w, nt_nodes net0 !! n = Some w → n ≠ origin → fresh rec w) →
  flood_run raw rec tr net0 net → until e net →
  NoDup tr ∧ (origin ∉ tr)
  ∧ ((∀ p, p ∈ nt_flight net → ¬ ingestable p.2) →
     ∀ n, rtc (joined (nt_wires net0)) origin n → n ≠ origin → n ∈ tr).
Proof.
  intros Hd Hi Hs Hf Ho Hn Hrun Hu.
  assert (flood_inv raw rec origin e [] net0) as H0.
  { split.
    - intros p Hp Hip. destruct (Hf p Hp Hip) as [E [ref Hr]]. split; [done|].
      exists (origin, ref). split; [done|by left].
    - intros n ref dst [->|Hx] Hw; [|by apply elem_of_nil in Hx]. right. exists dst.2.
      destruct dst. by eapply Ho.
    - intros n w En Hne. right. split; [apply not_elem_of_nil|by eapply Hn].
    - split; [apply NoDup_nil_2|apply not_elem_of_nil]. }
  pose proof (run_inv raw rec origin Hd Hi e tr net0 net Hrun [] Hs H0 Hu) as H1.
  destruct (fi_once _ _ _ _ _ _ H1) as [Hnd Hor]. split; [done|]. split; [done|].
  intros Hq n Hr Hne. assert (nt_wires net = nt_wires net0) as Ew.
  { clear -Hrun. by induction Hrun. }
  rewrite <- Ew in Hr. by destruct (inv_quiet raw rec origin Hd Hi e tr net n H1 Hq Hr) as [?|?].
Qed.

(** *** The triangle, run to its end *)

Section first.
Context {St : Type} `{!Store St} (raw : gostring) (rec : WireRecord).

(** Deliver the line that has been in flight longest, [k] times. *)
Fixpoint deliver_first (k : nat) (net : Net St) : list nat * Net St :=
  match k, nt_flight net with
  | S k', ((n, ref), line) :: l2 =>
      match nt_nodes net !! n with
      | Some w =>
          let w' := (handle 0 ref line w).2 in
          let '(tr, net') := deliver_first k' (mkNet (<[n := w']> (nt_nodes net)) (nt_wires net)
            ([] ++ l2 ++ new_packets n (nt_wires net) w w')) in
          ((if takes raw rec line w then [n] else []) ++ tr, net')
      | None => ([], net)
      end
  | _, _ => ([], net)
  end.

Lemma deliver_first_run k : ∀ net,
  flood_run raw rec (deliver_first k net).1 net (deliver_first k net).2.
Proof.
  induction k as [|k IH]; intros net; cbn [deliver_first]; [constructor|].
  destruct (nt_flight net) as [|[[n ref] line] l2] eqn:Ef; [constructor|].
  destruct (nt_nodes net !! n) as [w|] eqn:En; [|constructor].
  cbv zeta. specialize (IH (mkNet (<[n := (handle 0 ref line w).2]> (nt_nodes net)) (nt_wires net)
    ([] ++ l2 ++ new_packets n (nt_wires net) w (handle 0 ref line w).2))).
  destruct (deliver_first k _) as [tr net']. exact (flood_deliver raw rec tr net [] l2 n ref line w 0 net' Ef En IH).
Qed.

Lemma clock_stays e tr (net net' : Net St) :
  flood_run raw rec tr net net' →
  (∀ n w, nt_nodes net !! n = Some w → table_wf w ∧ ∀ i, (h_clock (w_hub w) i < e)%Z) →
  until e net'.
Proof.
  induction 1 as [net|tr net l1 l2 n ref line w now net' Ef En w' _ IH]; intros Hc.
  - intros n w En. by apply Hc with n.
  - apply IH. cbn. intros m v [[<- <-]|[_ Ev]]%lookup_insert_Some; [|by eauto].
    destruct (Hc _ _ En) as [Ht Hlt]. destruct (handle_effect now ref line w Ht) as (He & Ht' & _).
    destruct (effect_remembers e line w _ He) as (C & _). split; [done|]. intros i.
    unfold w'. rewrite C. apply Hlt.
Qed.
End first.

Definition tri_rec : WireRecord := sample_rec (bs "DGB7AAA-9 M0ABC hello").

(** Whether an end of a wire is a working link of a node that is there. *)
Definition wiredb {St} (net : Net St) (ep : endpoint) : bool :=
  match nt_nodes net !! ep.1 with
  | Some w =>
      match w_heap w !! ep.2 with
      | Some l => l_up l && bool_decide (w_links w !! link_id l = Some ep.2)
      | None => false
      end
  | None => false
  end.

Lemma wiredb_sound {St} (net : Net St) n ref :
  wiredb net (n, ref) = true → ∃ w, nt_nodes net !! n = Some w ∧ working w ref.
Proof.
  unfold wiredb, working. cbn. destruct (nt_nodes net !! n) as [w|]; [|done].
  destruct (w_heap w !! ref) as [l|] eqn:El; [|done].
  intros [Hu Hl]%andb_true_iff. apply bool_decide_eq_true in Hl. eauto 10.
Qed.

(** A property of the six ends of the triangle's wires, checked end by end. *)
Lemma triangle_wires (P : endpoint → endpoint → Prop) :
  P (0, 0) (1, 0) → P (0, 1) (2, 0) → P (1, 0) (0, 0) → P (1, 1) (2, 1) →
  P (2, 0) (0, 1) → P (2, 1) (1, 1) →
  ∀ a b, nt_wires triangle !! a = Some b → P a b.
Proof.
  intros H1 H2 H3 H4 H5 H6 a b. cbn. intros Hab.
  repeat (apply lookup_insert_Some in Hab as [[<- <-]|[_ Hab]]; [done|]).
  by apply lookup_singleton_Some in Hab as [<- <-].
Qed.

Lemma triangle_origin a b :
  nt_wires triangle !! a = Some b → a.1 = 0 → (b, tri_line) ∈ nt_flight triangle.
Proof.
  revert a b. apply (triangle_wires (λ a b, a.1 = 0 → (b, tri_line) ∈ nt_flight triangle)); cbn [fst].
  - intros _. apply list_elem_of_here.
  - intros _. apply list_elem_of_further, list_elem_of_here.
  - discriminate.
  - discriminate.
  - discriminate.
  - discriminate.
Qed.

Lemma triangle_shape :
  shape tri_rec 0 (1000 + DefaultSeenTTL)%Z triangle.
Proof.
  split.
  - intros n w En. destruct (triangle_nodes n w En) as (c & p0 & p1 & Ew).
    assert (foreign tri_rec w = bool_decide (n ≠ 0)) as Hf.
    { revert En. cbn. intros [[<- <-]|[_ En]]%lookup_insert_Some; [by vm_compute|].
      apply lookup_insert_Some in En as [[<- <-]|[_ En]]; [by vm_compute|].
      apply lookup_singleton_Some in En as [<- <-]. by vm_compute. }
    destruct (tri_node_ok c p0 p1) as [H1 H2 _].
    destruct (tri_node_clock c p0 p1) as (C & L & _). subst w. split; [done|done|done| |].
    + rewrite C. intros i j _. lia.
    + rewrite C, L. lia.
  - apply triangle_wires; by vm_compute.
  - intros n ref b Hab. apply wiredb_sound.
    refine (triangle_wires (λ a _, wiredb triangle a = true) _ _ _ _ _ _ (n, ref) b Hab); by vm_compute.
Qed.

Lemma triangle_settles : nt_flight (deliver_first tri_line tri_rec 4 triangle).2 = [].
Proof. vm_compute. reflexivity. Qed.

Lemma triangle_joined :
  joined (nt_wires triangle) 0 1 ∧ joined (nt_wires triangle) 0 2.
Proof. split; [exists 0, 0|exists 1, 0]; vm_compute; reflexivity. Qed.

Lemma triangle_until tr net :
  flood_run tri_line tri_rec tr triangle net → until (1000 + DefaultSeenTTL)%Z net.
Proof.
  intros Hrun. apply (clock_stays tri_line tri_rec _ _ _ _ Hrun). intros n w En.
  destruct (triangle_nodes n w En) as (c & p0 & p1 & ->).
  destruct (tri_node_ok c p0 p1) as [_ Ht _]. split; [done|].
  destruct (tri_node_clock c p0 p1) as (-> & _). intros _. unfold DefaultSeenTTL. lia.
Qed.

Lemma tri_line_ok : Decode tri_line = Some tri_rec ∧ ingestable tri_line.
Proof. by vm_compute. Qed.

Lemma triangle_flight p :
  p ∈ nt_flight triangle →
  p.2 = tri_line ∧ ∃ ref, nt_wires triangle !! (0, ref) = Some p.1.
Proof.
  intros Hp. apply elem_of_cons in Hp as [->|Hp].
  - split; [reflexivity|]. exists 0. vm_compute. reflexivity.
  - apply list_elem_of_singleton in Hp as ->. split; [reflexivity|]. exists 1. vm_compute. reflexivity.
Qed.

Lemma triangle_fresh n w : nt_nodes triangle !! n = Some w → fresh tri_rec w.
Proof.
  intros En. destruct (triangle_nodes n w En) as (c & p0 & p1 & ->). unfold fresh.
  assert (ss_entries (h_seen (w_hub (tri_node c p0 p1))) = ∅) as -> by reflexivity.
  apply lookup_empty.
Qed.

Lemma record_reaches_all_witness :
  ∃ tr net, deliver_first tri_line tri_rec 4 triangle = (tr, net)
    ∧ NoDup tr ∧ 1 ∈ tr ∧ 2 ∈ tr.
Proof.
  pose proof (deliver_first_run tri_line tri_rec 4 triangle) as Hrun.
  pose proof triangle_settles as Hq. destruct (deliver_first _ _ _ _) as [tr net].
  exists tr, net. split; [done|]. cbn [fst snd] in Hrun, Hq.
  destruct (record_reaches_all tri_line tri_rec 0 (1000 + DefaultSeenTTL)%Z tr triangle net)
    as (H1 & _ & H2).
  - exact (proj1 tri_line_ok).
  - exact (proj2 tri_line_ok).
  - exact triangle_shape.
  - intros p Hp _. exact (triangle_flight p Hp).
  - intros ref dst Hd. exact (triangle_origin (0, ref) dst Hd eq_refl).
  - intros n w En _. exact (triangle_fresh n w En).
  - exact Hrun.
  - exact (triangle_until tr net Hrun).
  - rewrite Hq in H2. split; [exact H1|]. split.
    + apply H2; [by intros p Hp%elem_of_nil|apply rtc_once, triangle_joined|discriminate].
    + apply H2; [by intros p Hp%elem_of_nil|apply rtc_once, triangle_joined|discriminate].
Defined.
