(* ===== verification/SessionInput.v ===== *)
(** * Session input ([internal/session/assembler.go])

    The line assembler of the RF sessions and the control-byte filter.  The main
    results: however the byte stream is cut into chunks the non-empty lines are the
    same, lines are bounded, and sanitised text has no control characters and is
    accepted by the inter-node protocol. *)
From S2P Require Import Prelude Unicode GoStrings PeerProto.
From stdpp Require Import options.
Local Open Scope Z_scope.

Definition MaxLine : Z := 512.

Record LineAssembler := mkLineAssembler {
  a_max : Z;
  a_buf : gostring;
  a_overflow : bool }.

Definition NewLineAssembler (max : Z) : LineAssembler :=
  mkLineAssembler (if max <=? 0 then MaxLine else max) [] false.

Definition is_eol (c : byte) : bool := (bz c =? 13) || (bz c =? 10).

(** [a.buf] after one byte that is not a terminator. *)
Definition feed_byte (a : LineAssembler) (c : byte) : LineAssembler :=
  if a_overflow a then a
  else if a_max a <=? Z.of_nat (length (a_buf a))
  then mkLineAssembler (a_max a) (a_buf a) true
  else mkLineAssembler (a_max a) (a_buf a ++ [c]) false.

(** [Feed]; [skip] says that this byte is the second half of a CRLF or LFCR pair,
    which the loop's [i++] steps over. *)
Fixpoint feed_loop (skip : bool) (a : LineAssembler) (data : gostring)
    : list gostring * LineAssembler :=
  match data with
  | [] => ([], a)
  | c :: data' =>
      if skip then feed_loop false a data'
      else if is_eol c then
        let pair := match data' with
                    | d :: _ => is_eol d && negb (bz d =? bz c)
                    | [] => false
                    end in
        let '(out, a') := feed_loop pair (mkLineAssembler (a_max a) [] false) data' in
        (a_buf a :: out, a')
      else feed_loop false (feed_byte a c) data'
  end.
Definition Feed (data : gostring) (a : LineAssembler) : list gostring * LineAssembler :=
  feed_loop false a data.

Definition Pending (a : LineAssembler) : bool :=
  (0 <? length (a_buf a))%nat || a_overflow a.

(** One segment of [sanitise]'s loop over runes. *)
Definition sanitise_rune (r : rune) : gostring :=
  if r =? 9 then [zb 32]
  else if (r <? 32) || (r =? 127) then []
  else encode_rune r.
Definition sanitise (s : gostring) : gostring := concat (sanitise_rune <$> runes s).

(** ** Lemmas *)

(** Feeding chunk after chunk. *)
Fixpoint feed_all (chunks : list gostring) (a : LineAssembler) : list gostring * LineAssembler :=
  match chunks with
  | [] => ([], a)
  | d :: chunks' =>
      let '(out, a1) := Feed d a in
      let '(out', a2) := feed_all chunks' a1 in (out ++ out', a2)
  end.

(** The reference: every terminator ends a line, pairs included. *)
Fixpoint plain_loop (a : LineAssembler) (data : gostring) : list gostring * LineAssembler :=
  match data with
  | [] => ([], a)
  | c :: data' =>
      if is_eol c then
        let '(out, a') := plain_loop (mkLineAssembler (a_max a) [] false) data' in
        (a_buf a :: out, a')
      else plain_loop (feed_byte a c) data'
  end.

Abbreviation nonempty := (List.filter (λ l : gostring, negb (bool_decide (l = [])))).

Lemma nonempty_app l k : nonempty (l ++ k) = nonempty l ++ nonempty k.
Proof. apply List.filter_app. Qed.

Lemma plain_app d1 : ∀ a d2,
  plain_loop a (d1 ++ d2)
  = (let '(o1, a1) := plain_loop a d1 in let '(o2, a2) := plain_loop a1 d2 in (o1 ++ o2, a2)).
Proof.
  induction d1 as [|c d1 IH]; intros a d2; cbn [app plain_loop].
  - by destruct (plain_loop a d2).
  - destruct (is_eol c); rewrite IH.
    + destruct (plain_loop (mkLineAssembler (a_max a) [] false) d1) as [o1 a1].
      by destruct (plain_loop a1 d2).
    + done.
Qed.

(** Collapsing pairs only removes empty lines; [skip] is entered with an empty
    buffer. *)
Lemma feed_plain data : ∀ skip a,
  (skip = true → a_buf a = [] ∧ a_overflow a = false ∧ ∃ c data', data = c :: data' ∧ is_eol c = true) →
  nonempty (feed_loop skip a data).1 = nonempty (plain_loop a data).1
  ∧ (feed_loop skip a data).2 = (plain_loop a data).2.
Proof.
  induction data as [|c data IH]; intros skip a Hs; cbn [feed_loop plain_loop]; [done|].
  destruct skip.
  - destruct (Hs eq_refl) as (Hb & Ho & c' & d' & [= <- <-] & He). rewrite He.
    destruct (IH false a ltac:(done)) as [IH1 IH2].
    assert (mkLineAssembler (a_max a) [] false = a) as -> by (destruct a; cbn in *; by subst).
    destruct (plain_loop a data) as [o a']. cbn [fst snd] in *. rewrite IH1, IH2, Hb. done.
  - destruct (is_eol c) eqn:Ec; [|by apply IH].
    match goal with |- context [feed_loop ?p ?a0 data] =>
      destruct (IH p a0) as [IH1 IH2] end.
    { intros Hp. split; [done|]. split; [done|]. destruct data as [|d data]; [done|].
      apply andb_true_iff in Hp as [? _]. eauto. }
    destruct (feed_loop _ _ data) as [o1 a1].
    destruct (plain_loop (mkLineAssembler (a_max a) [] false) data) as [o2 a2].
    cbn [fst snd] in *. cbn [List.filter]. by rewrite IH1, IH2.
Qed.

Lemma feed_all_plain chunks : ∀ a,
  nonempty (feed_all chunks a).1 = nonempty (plain_loop a (concat chunks)).1
  ∧ (feed_all chunks a).2 = (plain_loop a (concat chunks)).2.
Proof.
  induction chunks as [|d chunks IH]; intros a; [done|]. cbn [feed_all concat].
  destruct (feed_plain d false a ltac:(done)) as [H1 H2].
  unfold Feed. destruct (feed_loop false a d) as [o1 a1] eqn:E1. cbn [fst snd] in *.
  destruct (IH a1) as [I1 I2]. destruct (feed_all chunks a1) as [o2 a2]. cbn [fst snd] in *.
  rewrite plain_app. destruct (plain_loop a d) as [p1 b1]. cbn [fst snd] in *. subst b1.
  destruct (plain_loop a1 (concat chunks)) as [p2 b2]. cbn [fst snd] in *.
  by rewrite !nonempty_app, H1, I1.
Qed.

(** Bounds. *)
Definition asm_ok (a : LineAssembler) : Prop :=
  0 < a_max a ∧ Z.of_nat (length (a_buf a)) ≤ a_max a.

Lemma feed_byte_ok a c : asm_ok a → asm_ok (feed_byte a c) ∧ a_max (feed_byte a c) = a_max a.
Proof.
  intros [H1 H2]. unfold feed_byte. destruct (a_overflow a); [done|].
  destruct (Z.leb_spec (a_max a) (Z.of_nat (length (a_buf a)))); split; try done.
  split; [done|]. cbn. rewrite length_app. cbn. lia.
Qed.

Lemma feed_loop_ok data : ∀ skip a, asm_ok a →
  asm_ok (feed_loop skip a data).2 ∧ a_max (feed_loop skip a data).2 = a_max a
  ∧ Forall (λ l, Z.of_nat (length l) ≤ a_max a) (feed_loop skip a data).1.
Proof.
  induction data as [|c data IH]; intros skip a Ha; cbn [feed_loop]; [by split_and!|].
  destruct skip; [by apply IH|]. destruct (is_eol c).
  - match goal with |- context [feed_loop ?p ?a0 data] =>
      destruct (IH p a0) as (I1 & I2 & I3); [split; [apply Ha|cbn; destruct Ha; lia]|];
      destruct (feed_loop p a0 data) as [o a'] end.
    cbn [fst snd a_max] in *. split_and!; [done|done|]. constructor; [apply Ha|done].
  - destruct (feed_byte_ok a c Ha) as [H1 H2].
    destruct (IH false (feed_byte a c) H1) as (I1 & I2 & I3). rewrite H2 in *. done.
Qed.

(** ** The main theorems *)

(** Chunking does not matter.  However the received bytes are cut into chunks,
    feeding them one by one yields the same non-empty lines and the same pending
    state as feeding their concatenation at once, and the same as ending a line at
    every single CR or LF; only empty lines, which the session ignores, can differ. *)
Lemma feed_same chunks a :
  nonempty (feed_all chunks a).1 = nonempty (Feed (concat chunks) a).1
  ∧ (feed_all chunks a).2 = (Feed (concat chunks) a).2
  ∧ nonempty (Feed (concat chunks) a).1 = nonempty (plain_loop a (concat chunks)).1.
Proof.
  destruct (feed_all_plain chunks a) as [H1 H2].
  destruct (feed_plain (concat chunks) false a ltac:(done)) as [H3 H4].
  unfold Feed. by rewrite H1, H2, H3, H4.
Qed.

(** Input is bounded: whatever bytes arrive, in whatever chunks, every line a new
    assembler returns and the line it buffers have at most the configured number of
    bytes (512 unless a positive cap is given). *)
Lemma feed_bounded max chunks :
  let a := (feed_all chunks (NewLineAssembler max)).2 in
  let cap := if max <=? 0 then 512 else max in
  Z.of_nat (length (a_buf a)) ≤ cap
  ∧ Forall (λ l, Z.of_nat (length l) ≤ cap) (feed_all chunks (NewLineAssembler max)).1.
Proof.
  assert (∀ chunks b, asm_ok b →
    asm_ok (feed_all chunks b).2 ∧ a_max (feed_all chunks b).2 = a_max b
    ∧ Forall (λ l, Z.of_nat (length l) ≤ a_max b) (feed_all chunks b).1) as H.
  { clear. induction chunks as [|d chunks IH]; intros b Hb; [by split_and!|].
    cbn [feed_all]. destruct (feed_loop_ok d false b Hb) as (F1 & F2 & F3).
    unfold Feed. destruct (feed_loop false b d) as [o1 b1]. cbn [fst snd] in *.
    destruct (IH b1 F1) as (I1 & I2 & I3). destruct (feed_all chunks b1) as [o2 b2].
    cbn [fst snd] in *. rewrite F2 in *. split_and!; [done|done|]. by apply Forall_app. }
  destruct (H chunks (NewLineAssembler max)) as ([_ H1] & H2 & H3).
  { unfold asm_ok, NewLineAssembler, MaxLine. cbn. destruct (Z.leb_spec max 0); lia. }
  rewrite H2 in H1. done.
Qed.

(** The input lines of a session.  However the received bytes are cut into chunks,
    feeding them one by one to a new assembler yields the same non-empty lines and the
    same pending state as feeding them at once, namely those of a plain reader that
    ends a line at every single CR or LF (only empty lines, which the session ignores,
    can differ); and every line, like the one being buffered, has at most the
    configured number of bytes (512 unless a positive cap is given). *)
Theorem feed_chunking max chunks :
  let a := NewLineAssembler max in
  let cap := if max <=? 0 then 512 else max in
  nonempty (feed_all chunks a).1 = nonempty (Feed (concat chunks) a).1
  ∧ nonempty (feed_all chunks a).1 = nonempty (plain_loop a (concat chunks)).1
  ∧ (feed_all chunks a).2 = (Feed (concat chunks) a).2
  ∧ Z.of_nat (length (a_buf (feed_all chunks a).2)) ≤ cap
  ∧ Forall (λ l, Z.of_nat (length l) ≤ cap) (feed_all chunks a).1.
Proof.
  intros a cap. destruct (feed_same chunks a) as (H1 & H2 & H3).
  destruct (feed_bounded max chunks) as [H4 H5].
  split_and!; [done|by rewrite H1|done|done|done].
Qed.

(** A CRLF pair cut between two chunks does yield an extra empty line. *)
Example split_crlf_extra_line :
  let a := NewLineAssembler 0 in
  (feed_all [bs "hi" ++ [zb 13; zb 10]] a).1 = [bs "hi"]
  ∧ (feed_all [bs "hi" ++ [zb 13]; [zb 10]] a).1 = [bs "hi"; []].
Proof. by split; vm_compute. Qed.

(** ** Sanitised text *)

Definition keep_rune (r : rune) : option rune :=
  if r =? 9 then Some 32 else if (r <? 32) || (r =? 127) then None else Some r.

Lemma sanitise_alt s : sanitise s = string_of_runes (omap keep_rune (runes s)).
Proof.
  unfold sanitise, string_of_runes. induction (runes s) as [|r l IH]; [done|].
  rewrite fmap_cons. cbn [concat]. rewrite IH. unfold sanitise_rune, keep_rune. cbn.
  destruct (r =? 9); [done|]. by destruct ((r <? 32) || (r =? 127)).
Qed.

Definition printable (r : rune) : Prop := 32 ≤ r ∧ r ≠ 127.

Lemma keep_rune_spec r r' :
  keep_rune r = Some r' → printable r' ∧ (valid_rune r = true → valid_rune r' = true).
Proof.
  unfold keep_rune, printable. destruct (Z.eqb_spec r 9); [intros [= <-]; by split|].
  destruct ((r <? 32) || (r =? 127)) eqn:E; [done|]. intros [= <-].
  apply orb_false_iff in E as [E1 E2]. bools. by split.
Qed.

Lemma keep_rune_printable r : printable r → keep_rune r = Some r.
Proof.
  unfold keep_rune, printable. intros [H1 H2].
  destruct (Z.eqb_spec r 9); [lia|]. rewrite (proj2 (Z.ltb_ge r 32) H1).
  by rewrite (proj2 (Z.eqb_neq r 127) H2).
Qed.

Lemma keep_runes_spec l :
  Forall (λ r, valid_rune r = true) l →
  Forall (λ r, valid_rune r = true) (omap keep_rune l) ∧ Forall printable (omap keep_rune l).
Proof.
  induction 1 as [|r l Hr _ [IH1 IH2]]; [done|]. cbn.
  destruct (keep_rune r) as [r'|] eqn:E; [|done]. apply keep_rune_spec in E as [H1 H2].
  split; constructor; auto.
Qed.

Lemma runes_sanitise s :
  runes (sanitise s) = omap keep_rune (runes s) ∧ Forall printable (runes (sanitise s)).
Proof.
  destruct (keep_runes_spec (runes s) (runes_valid s)) as [H1 H2].
  by rewrite sanitise_alt, runes_string_of_runes.
Qed.

(** A string whose runes are printable has no control byte. *)
Lemma printable_clean s : Forall printable (runes s) → Forall (λ c, 32 ≤ bz c ∧ bz c ≠ 127) s.
Proof.
  intros H. apply Forall_forall. intros c Hc.
  destruct (Z.lt_ge_cases (bz c) 128) as [Hl|Hl]; [|lia].
  rewrite (ascii_runes c s Hl) in Hc. rewrite Forall_forall in H. destruct (H _ Hc). lia.
Qed.

(** Sanitised text is safe to show, store and relay: its characters are all
    printable (no control character, no DEL), none of its bytes is one, so the
    inter-node protocol accepts it; sanitising again changes nothing; and a text of
    printable characters in valid UTF-8 is left as it is. *)
Lemma sanitise_safe s :
  Forall printable (runes (sanitise s))
  ∧ Forall (λ c, 32 ≤ bz c ∧ bz c ≠ 127) (sanitise s)
  ∧ clean (sanitise s)
  ∧ sanitise (sanitise s) = sanitise s
  ∧ (Forall printable (runes s) → string_of_runes (runes s) = s → sanitise s = s).
Proof.
  destruct (runes_sanitise s) as [H1 H2].
  assert (∀ l, Forall printable l → omap keep_rune l = l) as Hid.
  { induction 1 as [|r l Hr _ IH]; [done|]. cbn. by rewrite (keep_rune_printable r Hr), IH. }
  pose proof (printable_clean _ H2) as Hc. split_and!; [done|done| | |].
  - refine (Forall_impl _ _ _ Hc _). intros c [? _]. by left.
  - rewrite (sanitise_alt (sanitise s)), Hid by done. rewrite H1. by rewrite <- sanitise_alt.
  - intros Hp Hs. by rewrite sanitise_alt, Hid.
Qed.

Lemma sanitise_utf8 s : utf8 (sanitise s).
Proof.
  rewrite sanitise_alt. apply utf8_string_of_runes. by destruct (keep_runes_spec (runes s) (runes_valid s)).
Qed.

(** What a line leaves after cleaning and trimming is clean. *)
Lemma sanitise_TrimSpace s : sanitise (TrimSpace (sanitise s)) = TrimSpace (sanitise s).
Proof.
  apply sanitise_safe; [|apply TrimSpace_utf8, sanitise_utf8].
  rewrite runes_TrimSpace. destruct (runes_sanitise s) as [_ H].
  rewrite Forall_forall in *. intros r Hr. apply H.
  destruct (drop_while_suffix is_space (runes (sanitise s))) as [k [E _]].
  destruct (trim_end_split is_space (drop_while is_space (runes (sanitise s)))) as [m [Em _]].
  rewrite E, Em. set_solver.
Qed.

Lemma sanitise_clean s : clean (sanitise s).
Proof. apply sanitise_safe. Qed.
