(* ===== verification/Session.v ===== *)
(** * The RF session ([internal/session/session.go])

    A connected user: the command interpreter, the rendering of hub events, and the
    run loop as a step relation over the hub and the session.  The connection's
    [Send] number [i] succeeds when [s_sends i] says so; what is sent is recorded.
    Two goroutines meet in a session, its run loop and the reader that delivers
    bytes; their channel has room for 32 chunks. *)
From S2P Require Import Prelude Unicode GoStrings ChatModel ChatSeen ChatStore ChatHub.
From S2P Require Import HubProps PeerProto SessionInput.
From stdpp Require Import options.
Import Hub.

Inductive EndReason := EndPeerClosed | EndBye | EndQuit.
#[export] Instance EndReason_eq_dec : EqDecision EndReason.
Proof. solve_decision. Defined.

Definition inboundCap : nat := 32.
Definition CR : byte := zb 13.

Module Sess.
Section session.
Context {St : Type} `{!Store St}.

Record Session := mkSession {
  s_hub : Hub St;                    (* the hub it shares with everyone *)
  s_key : UserKey;
  s_asm : LineAssembler;
  s_sub : Z;
  s_inbound : list gostring;
  s_sends : nat → bool;
  s_nsent : nat;
  s_out : list gostring;             (* successful sends, oldest first *)
  s_closed : bool;                   (* [conn.Close] has been called *)
  s_ended : option EndReason;        (* [endOnce] has fired *)
  s_stopped : bool }.                (* the run loop has returned *)

Definition upd_hub g (s : Session) : Session :=
  mkSession (g (s_hub s)) (s_key s) (s_asm s) (s_sub s) (s_inbound s) (s_sends s)
    (s_nsent s) (s_out s) (s_closed s) (s_ended s) (s_stopped s).
Definition upd_asm g (s : Session) : Session :=
  mkSession (s_hub s) (s_key s) (g (s_asm s)) (s_sub s) (s_inbound s) (s_sends s)
    (s_nsent s) (s_out s) (s_closed s) (s_ended s) (s_stopped s).
Definition upd_inbound g (s : Session) : Session :=
  mkSession (s_hub s) (s_key s) (s_asm s) (s_sub s) (g (s_inbound s)) (s_sends s)
    (s_nsent s) (s_out s) (s_closed s) (s_ended s) (s_stopped s).
Definition upd_out g (s : Session) : Session :=
  mkSession (s_hub s) (s_key s) (s_asm s) (s_sub s) (s_inbound s) (s_sends s)
    (S (s_nsent s)) (g (s_out s)) (s_closed s) (s_ended s) (s_stopped s).
Definition upd_ended r (s : Session) : Session :=
  mkSession (s_hub s) (s_key s) (s_asm s) (s_sub s) (s_inbound s) (s_sends s)
    (s_nsent s) (s_out s) (s_closed s) (Some r) (s_stopped s).
Definition upd_stopped (s : Session) : Session :=
  mkSession (s_hub s) (s_key s) (s_asm s) (s_sub s) (s_inbound s) (s_sends s)
    (s_nsent s) (s_out s) true (s_ended s) true.

Abbreviation SessM := (ST Session).

Definition on_hub {A} (m : ST (Hub St) A) : SessM A :=
  λ s, ((m (s_hub s)).1, upd_hub (λ _, (m (s_hub s)).2) s).

(** [end] under its [sync.Once]. *)
Definition end_session (reason : EndReason) : SessM unit :=
  ended ← st_get s_ended;
  match ended with
  | Some _ => mret tt
  | None =>
      st_mod (upd_ended reason);;
      sub ← st_get s_sub;
      key ← st_get s_key;
      on_hub (cancel sub);;
      on_hub (Leave key)
  end.

(** ** Output *)

Definition send (text : gostring) : SessM unit :=
  ok ← st_get (λ s, s_sends s (s_nsent s));
  if ok : bool then st_mod (upd_out (λ o, o ++ [text]))
  else st_mod (upd_out id);; end_session EndPeerClosed.

Definition sendLine (text : gostring) : SessM unit := send (text ++ [CR]).

Definition me (s : Session) : option User := UserOf (s_hub s) (s_key s).
Definition name (s : Session) : gostring := match me s with Some u => u_Name u | None => [] end.
Definition qth (s : Session) : gostring := match me s with Some u => u_QTH u | None => [] end.

Definition formatMsg (from text : gostring) : gostring := bs "<" ++ from ++ bs "> " ++ text.

Definition alias (a : gostring) : gostring :=
  if decide (a = []) then [] else bs " (" ++ a ++ bs ")".

Definition errText (err : error) : gostring :=
  match err with
  | ErrNoSuchUser => bs "You are not logged in."
  | ErrEmptyText => bs "Nothing to send."
  | ErrNoSuchTopic => bs "No such topic."
  | ErrStore text => text
  end.

Definition inMyTopic (s : Session) (topic : gostring) : bool :=
  match me s with Some u => EqualFold (u_Topic u) topic | None => false end.

(** ** Commands *)

Definition topics_listing (ts : list Topic) : gostring :=
  bs "Topics:" ++ [CR] ++ concat ((λ t, bs "  " ++ t_Name t ++ bs " ("
    ++ itoa (Z.of_nat (t_Members t)) ++ bs ")" ++ [CR]) <$> ts).

Definition topic (nm : gostring) : SessM unit :=
  if decide (nm = []) then
    ts ← st_get (λ s, Topics (s_hub s));
    send (topics_listing ts)
  else
    key ← st_get s_key;
    r ← on_hub (SetTopic key nm);
    match r with
    | inr err => sendLine (bs "*** " ++ errText err)
    | inl changed =>
        u ← st_get me;
        match u with
        | None => mret tt
        | Some u =>
            if changed : bool then sendLine (bs "*** Now in topic " ++ u_Topic u ++ bs ".")
            else sendLine (bs "*** Already in topic " ++ u_Topic u ++ bs ".")
        end
    end.

Definition setName (nm : gostring) : SessM unit :=
  if decide (nm = []) then
    u ← st_get me;
    match u with
    | Some u => sendLine (bs "Name is " ++ u_Name u)
    | None => mret tt
    end
  else
    key ← st_get s_key;
    q ← st_get qth;
    r ← on_hub (SetInfo key nm q);
    match r with
    | inl _ => sendLine (bs "Name set to " ++ nm)
    | inr _ => mret tt
    end.

Definition setQTH (q : gostring) : SessM unit :=
  if decide (q = []) then
    q0 ← st_get qth;
    sendLine (bs "QTH is " ++ q0)
  else
    key ← st_get s_key;
    n ← st_get name;
    r ← on_hub (SetInfo key n q);
    match r with
    | inl _ => sendLine (bs "QTH set to " ++ q)
    | inr _ => mret tt
    end.

Definition private (rest : gostring) : SessM unit :=
  let '(to, text, ok) := Cut rest SP in
  if negb ok || bool_decide (TrimSpace text = []) then
    sendLine (bs "*** Usage: /S CALL message")
  else
    key ← st_get s_key;
    r ← on_hub (Private key to (TrimSpace text));
    match r with
    | inr _ => sendLine (bs "*** That user is not logged in.")
    | inl _ => mret tt
    end.

Definition user_line (our : gostring) (m : User) : gostring :=
  let who := if decide (o_Node (u_Origin m) = our) then u_Call m
             else u_Call m ++ bs " @ " ++ o_Node (u_Origin m) in
  bs "  " ++ who ++ [CR].

Definition showUsers : SessM unit :=
  u ← st_get me;
  let t := match u with Some u => u_Topic u | None => [] end in
  us ← st_get (λ s, UsersInTopic (s_hub s) t);
  our ← st_get (λ s, h_ourNode (s_hub s));
  send (bs "Users in " ++ t ++ bs ":" ++ [CR] ++ concat (user_line our <$> us)).

Definition showNodes : SessM unit :=
  nodes ← st_get (λ s, Nodes (s_hub s));
  match nodes with
  | [] => sendLine (bs "No linked nodes.")
  | _ => send (bs "Linked nodes:" ++ [CR]
           ++ concat ((λ n, bs "  " ++ n_Call n ++ alias (n_Alias n) ++ [CR]) <$> nodes))
  end.

Definition help : SessM unit :=
  send (bs "Commands (upper or lower case):" ++ [CR]
    ++ bs "/U - show users    /T [topic] - show/join topic" ++ [CR]
    ++ bs "/N [name] - name    /Q [qth] - QTH" ++ [CR]
    ++ bs "/S call msg - private message" ++ [CR]
    ++ bs "/P /K - show linked nodes" ++ [CR]
    ++ bs "/B - back to node   /QUIT - disconnect   /H - help" ++ [CR]).

(** The commands of the interpreter. *)
Inductive Command :=
| CUsers | CTopic (rest : gostring) | CName (rest : gostring) | CQTH (rest : gostring)
| CSend (rest : gostring) | CNodes | CHelp | CBye | CQuit | CUnknown.

(** The parsing half of [command]. *)
Definition parse_command (line : gostring) : Command :=
  let '(verb, rest) := match IndexByte line SP with
                       | Some i => (take i line, TrimSpace (drop (S i) line))
                       | None => (line, [])
                       end in
  let v := ToUpper verb in
  if decide (v = bs "/U") then CUsers
  else if decide (v = bs "/T") then CTopic rest
  else if decide (v = bs "/N") then CName rest
  else if decide (v = bs "/Q") then CQTH rest
  else if decide (v = bs "/S") then CSend rest
  else if decide (v = bs "/P" ∨ v = bs "/K") then CNodes
  else if decide (v = bs "/H" ∨ v = bs "/?") then CHelp
  else if decide (v = bs "/B") then CBye
  else if decide (v = bs "/QUIT") then CQuit
  else CUnknown.

Definition command (line : gostring) : SessM bool :=
  match parse_command line with
  | CUsers => showUsers;; mret false
  | CTopic rest => topic rest;; mret false
  | CName rest => setName rest;; mret false
  | CQTH rest => setQTH rest;; mret false
  | CSend rest => private rest;; mret false
  | CNodes => showNodes;; mret false
  | CHelp => help;; mret false
  | CBye => sendLine (bs "*** Returning to node.");; end_session EndBye;; mret true
  | CQuit => sendLine (bs "*** 73!");; end_session EndQuit;; mret true
  | CUnknown => sendLine (bs "*** Unknown command. /H for help.");; mret false
  end.

(** [processLine]: [true] stops the session. *)
Definition processLine (line0 : gostring) : SessM bool :=
  let line := sanitise line0 in
  let trimmed := TrimSpace line in
  match trimmed with
  | [] => mret false
  | c :: _ =>
      if (bz c =? 47)%Z then command trimmed
      else
        key ← st_get s_key;
        r ← on_hub (Post key trimmed);
        match r with
        | inr err => sendLine (bs "*** " ++ errText err);; mret false
        | inl _ => mret false
        end
  end.

(** The loop of [run] over the lines of one chunk. *)
Fixpoint processLines (lines : list gostring) : SessM bool :=
  match lines with
  | [] => mret false
  | line :: lines' =>
      stop ← processLine line;
      if stop : bool then mret true else processLines lines'
  end.

(** ** Rendering *)

(** The line [render] sends for an event, if any. *)
Definition render_line (s : Session) (ev : Event) : option gostring :=
  match ev with
  | TopicMessage m =>
      if inMyTopic s (m_Topic m) then Some (formatMsg (m_FromCall m) (m_Text m)) else None
  | PrivateMessage m =>
      if EqualFold (m_ToCall m) (uk_Call (s_key s))
      then Some (bs "<*" ++ m_FromCall m ++ bs "*> " ++ m_Text m) else None
  | UserJoined u | TopicChanged u _ =>
      if decide (Key u ≠ s_key s) then
        if inMyTopic s (u_Topic u)
        then Some (bs "*** " ++ u_Call u ++ bs " has joined " ++ u_Topic u) else None
      else None
  | UserLeft u =>
      if decide (Key u ≠ s_key s) then Some (bs "*** " ++ u_Call u ++ bs " has left") else None
  | NodeLinked n => Some (bs "*** Link to node " ++ n_Call n ++ bs " established")
  | NodeUnlinked n => Some (bs "*** Link to node " ++ n_Call n ++ bs " lost")
  | UserInfoChanged _ => None
  end.

Definition render (ev : Event) : SessM unit :=
  l ← st_get (λ s, render_line s ev);
  match l with Some text => sendLine text | None => mret tt end.

Definition greet : SessM unit :=
  our ← st_get (λ s, h_ourNode (s_hub s));
  call ← st_get (λ s, uk_Call (s_key s));
  sendLine (bs "Welcome to the " ++ our ++ bs " chat node, " ++ call ++ bs ".");;
  sendLine (bs "You are in topic " ++ DefaultTopic ++ bs ". Type /H for help.");;
  showUsers.

(** [New] up to the start of the run loop: a refused callsign cancels the
    subscription. *)
Definition New (hub : Hub St) (sends : nat → bool) (callsign : gostring)
    : (Session + error) * Hub St :=
  let '(sub, hub1) := Subscribe hub in
  let u := mkUser callsign [] [] (mkOrigin (h_ourNode hub) true []) [] 0 0
             (mkUserFlags false false false false false) in
  match Join u hub1 with
  | (inr err, hub2) => (inr err, (cancel sub hub2).2)
  | (inl stored, hub2) =>
      let s := mkSession hub2 (Key stored) (NewLineAssembler MaxLine) sub [] sends 0 []
                 false None false in
      let s' := (greet s).2 in
      (inl s', s_hub s')
  end.

(** ** The run loop *)

(** One step of the session or of its surroundings. *)
Inductive sess_step : Session → Session → Prop :=
(** The reader delivers a chunk, when there is room. *)
| step_deliver s data :
    (length (s_inbound s) < inboundCap)%nat →
    sess_step s (upd_inbound (λ q, q ++ [data]) s)
(** [case <-s.done] *)
| step_done s :
    s_stopped s = false → s_ended s ≠ None → sess_step s (upd_stopped s)
(** [case data := <-s.inbound] *)
| step_input s data rest lines asm stop s1 :
    s_stopped s = false → s_inbound s = data :: rest →
    Feed data (s_asm s) = (lines, asm) →
    processLines lines (upd_asm (λ _, asm) (upd_inbound (λ _, rest) s)) = (stop, s1) →
    sess_step s (if stop : bool then upd_stopped s1 else s1)
(** [case ev, ok := <-s.sub] *)
| step_event s ev h1 :
    s_stopped s = false → recv (s_sub s) (s_hub s) = (Some (Some ev), h1) →
    sess_step s (render ev (upd_hub (λ _, h1) s)).2
| step_sub_closed s h1 :
    s_stopped s = false → recv (s_sub s) (s_hub s) = (Some None, h1) →
    sess_step s (upd_stopped (end_session EndPeerClosed (upd_hub (λ _, h1) s)).2)
(** [Close], from outside *)
| step_close s : sess_step s (end_session EndPeerClosed s).2
(** Another user of the hub does something. *)
| step_hub s op : sess_step s (upd_hub (exec op) s).

End session.
End Sess.
Arguments Sess.Session : clear implicits.
