(* ===== verification/SessionProps.v ===== *)
(** * What a session guarantees

    Its life cycle over every run, the commands it understands, and the text it
    lets into the network. *)
From S2P Require Import Prelude Unicode GoStrings ChatModel ChatSeen ChatStore ChatHub.
From S2P Require Import HubProps HubTheorems PeerProto PeerRouter SessionInput Session.
From stdpp Require Import options.
Import Hub Sess.

Section props.
Context {St : Type} `{!Store St}.
Implicit Types s : Session St.

(** ** The end of a session *)

(** A stopped loop has closed the connection and ended the session. *)
Definition stop_ok s : Prop := s_stopped s = true → s_closed s = true ∧ s_ended s ≠ None.

(** What every operation of a session preserves: its key, subscription and send
    oracle; a reason once given; and, once ended, the subscription stays
    cancelled. *)
Record advances s s' : Prop := {
  adv_key : s_key s' = s_key s;
  adv_sub : s_sub s' = s_sub s;
  adv_ended r : s_ended s = Some r → s_ended s' = Some r;
  adv_wf : hub_wf (s_hub s) → hub_wf (s_hub s');
  adv_stop : stop_ok s → stop_ok s';
  adv_closed : s_closed s = true → s_closed s' = true }.

Lemma advances_refl s : advances s s.
Proof. by split. Qed.
Lemma advances_trans s1 s2 s3 : advances s1 s2 → advances s2 s3 → advances s1 s3.
Proof. intros [] []. split; auto; congruence. Qed.

(** Once it has ended, the session's user is gone and its subscription cancelled. *)
Definition gone s : Prop :=
  s_ended s ≠ None ∧ UserOf (s_hub s) (s_key s) = None ∧ s_sub s ∉ h_subs (s_hub s).
Definition tidy s : Prop := s_ended s = None ∨ gone s.

(** What the session's own operations do: they advance it and leave it tidy. *)
Definition acts s s' : Prop := advances s s' ∧ (tidy s → tidy s').

Lemma acts_refl s : acts s s.
Proof. split; [apply advances_refl|done]. Qed.
Lemma acts_trans s1 s2 s3 : acts s1 s2 → acts s2 s3 → acts s1 s3.
Proof. intros [A1 T1] [A2 T2]. split; [by eapply advances_trans|auto]. Qed.

Lemma advances_hub h' s : (hub_wf (s_hub s) → hub_wf h') → advances s (upd_hub (λ _, h') s).
Proof. by split. Qed.

(** An operation on the hub for the session's user does nothing once it is absent. *)
Lemma on_hub_acts {A} (m : ST (Hub St) A) s :
  (hub_wf (s_hub s) → hub_wf (m (s_hub s)).2) →
  (UserOf (s_hub s) (s_key s) = None → (m (s_hub s)).2 = s_hub s) → acts s (on_hub m s).2.
Proof.
  intros Hwf Hab. split; [by apply advances_hub|]. intros [He|(He & Hu & Hs)]; [by left|].
  right. unfold on_hub. cbn. unfold gone. cbn. by rewrite (Hab Hu).
Qed.

Lemma Post_absent k t (h : Hub St) : UserOf h k = None → (Post k t h).2 = h.
Proof. unfold UserOf, Post. intros H. case_decide; [done|]. st_simpl. by rewrite H. Qed.
Lemma Private_absent k c t (h : Hub St) : UserOf h k = None → (Private k c t h).2 = h.
Proof. unfold UserOf, Private. intros H. case_decide; [done|]. st_simpl. by rewrite H. Qed.
Lemma SetTopic_absent k n (h : Hub St) : UserOf h k = None → (SetTopic k n h).2 = h.
Proof. unfold UserOf, SetTopic. intros H. case_decide; [done|]. st_simpl. by rewrite H. Qed.
Lemma SetInfo_absent k n q (h : Hub St) : UserOf h k = None → (SetInfo k n q h).2 = h.
Proof. unfold UserOf, SetInfo. intros H. st_simpl. by rewrite H. Qed.

Lemma Leave_gone k (h : Hub St) :
  UserOf (Leave k h).2 k = None ∧ h_subs (Leave k h).2 = h_subs h.
Proof.
  unfold UserOf, Leave. st_simpl. destruct (h_users h !! canonKey k) as [u|] eqn:E; [|done].
  st_simpl. match goal with |- context [emit ?es ?h0] =>
    destruct (emit_core es h0) as (Hu & _) end.
  rewrite Hu. cbn. rewrite lookup_delete_eq. split; [done|]. reflexivity.
Qed.

Lemma cancel_gone id (h : Hub St) : id ∉ h_subs (cancel id h).2.
Proof. unfold cancel. st_simpl. case_decide; [|done]. cbn. set_solver. Qed.

Lemma end_gone r s : s_ended s = None → gone (end_session r s).2.
Proof.
  intros E. unfold end_session. st_simpl. rewrite E. unfold on_hub. st_simpl.
  destruct (Leave_gone (s_key s) (cancel (s_sub s) (s_hub s)).2) as [H1 H2].
  split_and!; [done|exact H1|].
  change (s_sub s ∉ h_subs (Leave (s_key s) (cancel (s_sub s) (s_hub s)).2).2).
  rewrite H2. apply cancel_gone.
Qed.

Lemma end_acts r s : acts s (end_session r s).2.
Proof.
  destruct (s_ended s) as [r0|] eqn:E.
  - unfold end_session. st_simpl. rewrite E. apply acts_refl.
  - split; [|by intros _; right; apply end_gone].
    unfold end_session. st_simpl. rewrite E. unfold on_hub. st_simpl. split; try done; cbn.
    + congruence.
    + intros Hwf. by apply Leave_keeps, cancel_keeps.
    + intros Hok Hst. by destruct (Hok Hst).
Qed.

Lemma sent_acts g s : acts s (upd_out g s).
Proof. by split. Qed.

Lemma send_acts text s : acts s (send text s).2.
Proof.
  unfold send. st_simpl. destruct (s_sends s (s_nsent s)); st_simpl; [apply sent_acts|].
  eapply acts_trans; [apply (sent_acts id)|apply end_acts].
Qed.

Lemma topic_acts n s : acts s (topic n s).2.
Proof.
  unfold topic. case_decide; st_simpl; [apply send_acts|].
  eapply acts_trans; [apply (on_hub_acts (SetTopic (s_key s) n)); [by apply SetTopic_keeps|apply SetTopic_absent]|].
  destruct (on_hub (SetTopic (s_key s) n) s) as [[[]|err] s1]; cbn [fst snd]; st_simpl;
    try (destruct (me s1); [|apply acts_refl]); apply send_acts.
Qed.

Lemma setName_acts n s : acts s (setName n s).2.
Proof.
  unfold setName. case_decide; st_simpl;
    [destruct (me s); [apply send_acts|apply acts_refl]|].
  eapply acts_trans; [apply (on_hub_acts (SetInfo (s_key s) n (qth s))); [by apply SetInfo_keeps|apply SetInfo_absent]|].
  destruct (on_hub (SetInfo (s_key s) n (qth s)) s) as [[b|err] s1]; cbn [fst snd];
    [apply send_acts|apply acts_refl].
Qed.

Lemma setQTH_acts q s : acts s (setQTH q s).2.
Proof.
  unfold setQTH. case_decide; st_simpl; [apply send_acts|].
  eapply acts_trans; [apply (on_hub_acts (SetInfo (s_key s) (name s) q)); [by apply SetInfo_keeps|apply SetInfo_absent]|].
  destruct (on_hub (SetInfo (s_key s) (name s) q) s) as [[b|err] s1]; cbn [fst snd];
    [apply send_acts|apply acts_refl].
Qed.

Lemma private_acts rest s : acts s (private rest s).2.
Proof.
  unfold private. destruct (Cut rest SP) as [[to text] ok].
  destruct (negb ok || bool_decide (TrimSpace text = [])); [apply send_acts|]. st_simpl.
  eapply acts_trans; [apply (on_hub_acts (Private (s_key s) to (TrimSpace text)));
    [by apply Private_keeps|apply Private_absent]|].
  destruct (on_hub (Private (s_key s) to (TrimSpace text)) s) as [[b|err] s1]; cbn [fst snd];
    [apply acts_refl|apply send_acts].
Qed.

Lemma command_acts line s : acts s (command line s).2.
Proof.
  unfold command. destruct (parse_command line); st_simpl.
  - unfold showUsers. st_simpl. apply send_acts.
  - apply topic_acts.
  - apply setName_acts.
  - apply setQTH_acts.
  - apply private_acts.
  - unfold showNodes. st_simpl. destruct (Nodes (s_hub s)); apply send_acts.
  - apply send_acts.
  - eapply acts_trans; [apply (send_acts (bs "*** Returning to node." ++ [CR]))|apply end_acts].
  - eapply acts_trans; [apply (send_acts (bs "*** 73!" ++ [CR]))|apply end_acts].
  - apply send_acts.
Qed.

Lemma processLine_acts line s : acts s (processLine line s).2.
Proof.
  unfold processLine. destruct (TrimSpace (sanitise line)) as [|c t]; [apply acts_refl|].
  destruct (bz c =? 47)%Z; [apply command_acts|]. st_simpl.
  eapply acts_trans; [apply (on_hub_acts (Post (s_key s) (c :: t))); [by apply Post_keeps|apply Post_absent]|].
  destruct (on_hub (Post (s_key s) (c :: t)) s) as [[b|err] s1]; cbn [fst snd];
    [apply acts_refl|]. st_simpl. apply send_acts.
Qed.

Lemma processLines_acts lines : ∀ s, acts s (processLines lines s).2.
Proof.
  induction lines as [|line lines IH]; intros s; [apply acts_refl|].
  cbn [processLines]. st_simpl. eapply acts_trans; [apply (processLine_acts line)|].
  destruct (processLine line s) as [[] s1]; cbn [fst snd]; [apply acts_refl|apply IH].
Qed.

(** A line that stops the loop has ended the session. *)
Lemma end_ended r s : s_ended (end_session r s).2 ≠ None.
Proof. unfold end_session. st_simpl. by destruct (s_ended s) eqn:E; cbn; [rewrite E|]. Qed.

Lemma processLine_stop line s : (processLine line s).1 = true → s_ended (processLine line s).2 ≠ None.
Proof.
  unfold processLine. destruct (TrimSpace (sanitise line)) as [|c t]; [done|].
  destruct (bz c =? 47)%Z.
  - unfold command. destruct (parse_command (c :: t)); st_simpl; try done; intros _; apply end_ended.
  - st_simpl. by destruct (on_hub (Post (s_key s) (c :: t)) s) as [[b|err] s1].
Qed.

Lemma processLines_stop lines : ∀ s,
  (processLines lines s).1 = true → s_ended (processLines lines s).2 ≠ None.
Proof.
  induction lines as [|line lines IH]; intros s; [done|]. cbn [processLines]. st_simpl.
  pose proof (processLine_stop line s) as Hs.
  destruct (processLine line s) as [[] s1]; cbn [fst snd] in *; [by intros _; apply Hs|apply IH].
Qed.

(** ** Every step *)

Lemma stop_acts s : s_ended s ≠ None → acts s (upd_stopped s).
Proof. intros He. by split; [split|]. Qed.

Lemma render_acts ev s : acts s (render ev s).2.
Proof.
  unfold render. st_simpl. destruct (render_line s ev); [apply send_acts|apply acts_refl].
Qed.

Lemma recv_subs id (h : Hub St) :
  UserOf (recv id h).2 = UserOf h ∧ h_subs (recv id h).2 = h_subs h.
Proof. unfold recv. st_simpl. by destruct (h_chans h !! id) as [[[|? ?] []]|]. Qed.

Lemma recv_acts s ans h1 :
  recv (s_sub s) (s_hub s) = (ans, h1) → acts s (upd_hub (λ _, h1) s).
Proof.
  intros E. destruct (recv_subs (s_sub s) (s_hub s)) as [Hu Hs].
  pose proof (recv_keeps (s_sub s) (s_hub s)) as Hk. rewrite E in Hu, Hs, Hk. cbn in *. split.
  - apply advances_hub. apply Hk.
  - intros [He|(He & Ha & Hn)]; [by left|right]. split_and!; cbn; [done|by rewrite Hu|by rewrite Hs].
Qed.

(** Every step advances the session; all but those of other users keep it tidy. *)
Lemma step_acts s s' :
  sess_step s s' → acts s s' ∨ ∃ op, s' = upd_hub (exec op) s.
Proof.
  intros [t data Hl|t Hs He|t data rest lines asm stop s1 Hs Hi Hf Hp|t ev h1 Hs Hr|t h1 Hs Hr|t|t op].
  - left. by split; [split|].
  - left. by apply stop_acts.
  - left. pose proof (processLines_acts lines (upd_asm (λ _, asm) (upd_inbound (λ _, rest) t))) as Ha.
    rewrite Hp in Ha. assert (acts t s1) as Ht.
    { eapply acts_trans; [|exact Ha]. by split; [split|]. }
    destruct stop; [|done]. eapply acts_trans; [exact Ht|apply stop_acts].
    pose proof (processLines_stop lines (upd_asm (λ _, asm) (upd_inbound (λ _, rest) t))) as Hst.
    rewrite Hp in Hst. by apply Hst.
  - left. eapply acts_trans; [by eapply recv_acts|apply render_acts].
  - left. eapply acts_trans; [|apply stop_acts, end_ended].
    eapply acts_trans; [by eapply recv_acts|apply end_acts].
  - left. apply end_acts.
  - right. by exists op.
Qed.

Lemma step_advances s s' : sess_step s s' → advances s s'.
Proof.
  intros [[Ha _]|[op ->]]%step_acts; [done|].
  split; try done. intros Hwf. by apply exec_keeps.
Qed.

Lemma steps_advance s s' : rtc sess_step s s' → advances s s'.
Proof.
  induction 1 as [|s1 s2 s3 H1 _ IH]; [apply advances_refl|].
  eapply advances_trans; [by apply step_advances|done].
Qed.

Lemma ended_mono s s' : advances s s' → s_ended s ≠ None → s_ended s' ≠ None.
Proof.
  intros Ha He. destruct (s_ended s) as [r|] eqn:E; [|done]. by rewrite (adv_ended _ _ Ha r E).
Qed.

(** ** The start of a session *)

Lemma showUsers_acts s : acts s (showUsers s).2.
Proof. unfold showUsers. st_simpl. apply send_acts. Qed.

Lemma greet_acts s : acts s (greet s).2.
Proof.
  unfold greet. st_simpl. eapply acts_trans; [|apply showUsers_acts].
  eapply acts_trans; apply send_acts.
Qed.

Lemma New_started (h : Hub St) sends callsign s h1 :
  New h sends callsign = (inl s, h1) → h1 = s_hub s ∧ stop_ok s ∧ tidy s ∧ (hub_wf h → hub_wf h1).
Proof.
  unfold New. pose proof (Subscribe_keeps h) as Hs. destruct (Subscribe h) as [sub h2].
  match goal with |- context [Join ?u h2] =>
    pose proof (Join_keeps u h2) as Hj; destruct (Join u h2) as [[stored|err] h3] end; [|done].
  intros [= <- <-]. match goal with |- context [greet ?s0] => destruct (greet_acts s0) as [Ha Ht] end.
  split; [done|]. split; [by apply Ha|]. split; [by apply Ht; left|].
  intros Hwf. apply (adv_wf _ _ Ha). cbn. apply Hj, Hs, Hwf.
Qed.

End props.

(** ** The life cycle *)

(** C21. The life of a session.  Take any run of a session that [New] has started, with
    other users, the reader and [Close] interleaved.  The hub stays well-formed; when
    the run loop has returned, the connection has been closed and the session has
    ended; an end reason, once given, never changes; the step that ends the session
    takes its user out of the hub and cancels its subscription (and a session whose
    greeting already failed is so from the start); and an ended session whose loop
    still runs can stop at once. *)
Theorem session_lifecycle {St : Type} `{!Store St} (h : Hub St) sends callsign s0 h1 s :
  hub_wf h → New h sends callsign = (inl s0, h1) → rtc sess_step s0 s →
  hub_wf (s_hub s)
  ∧ (s_stopped s = true → s_closed s = true ∧ s_ended s ≠ None)
  ∧ (s_ended s0 ≠ None → gone s0)
  ∧ (∀ s' r, sess_step s s' → s_ended s = Some r → s_ended s' = Some r)
  ∧ (∀ s', sess_step s s' → s_ended s = None → s_ended s' ≠ None → gone s')
  ∧ (s_ended s ≠ None → s_stopped s = false → sess_step s (upd_stopped s)).
Proof.
  intros Hwf Hn Hr. destruct (New_started h sends callsign s0 h1 Hn) as (-> & Hok & Ht & Hw).
  destruct (steps_advance _ _ Hr) as [_ _ He Hwf' Hst _]. split_and!.
  - auto.
  - by apply Hst.
  - destruct Ht; [done|auto].
  - intros s' r Hs. apply (adv_ended _ _ (step_advances _ _ Hs)).
  - intros s' [[_ Hty]|[op ->]]%step_acts Hn0 He'; [|done].
    destruct (Hty (or_introl Hn0)); done.
  - intros. by apply step_done.
Qed.

Definition sample_session : Session MemStore.MemStore :=
  match (New sample_hub (λ n, (n <? 4)%nat) (bs "m0abc")).1 with
  | inl s => s
  | inr _ => mkSession sample_hub (sample_key []) (NewLineAssembler 0) 0 [] (λ _, true) 0 [] false
               None false
  end.

Lemma sample_started :
  New sample_hub (λ n, (n <? 4)%nat) (bs "m0abc") = (inl sample_session, s_hub sample_session).
Proof.
  assert (match (New sample_hub (λ n, (n <? 4)%nat) (bs "m0abc")).1 with
          | inl _ => true | inr _ => false end = true) as Ht by (vm_compute; reflexivity).
  unfold sample_session.
  destruct (New sample_hub (λ n, (n <? 4)%nat) (bs "m0abc")) as [[s|e] h1] eqn:E; [|discriminate Ht].
  apply New_started in E as (-> & _). reflexivity.
Qed.

Lemma session_lifecycle_sample : hub_wf (s_hub sample_session).
Proof. apply (New_started _ _ _ _ _ sample_started), NewHub_wf. Qed.

Lemma session_lifecycle_witness :
  hub_wf sample_hub
  ∧ (New sample_hub (λ n, (n <? 4)%nat) (bs "m0abc")).1 = inl sample_session
  ∧ gone (end_session EndPeerClosed sample_session).2.
Proof.
  assert (hub_wf sample_hub) as Hwf by apply NewHub_wf.
  pose proof sample_started as Hn.
  split; [exact Hwf|]. split; [by rewrite Hn|].
  destruct (session_lifecycle sample_hub (λ n, (n <? 4)%nat) (bs "m0abc") sample_session
    (s_hub sample_session) sample_session Hwf Hn (rtc_refl _ _)) as (_ & _ & _ & _ & H & _).
  apply H; [apply step_close|vm_compute; reflexivity|apply end_ended].
Defined.

(** ** What a line does *)

Section lines.
Context {St : Type} `{!Store St}.
Implicit Types s : Session St.

(** With a connection that never fails, what an operation that is not [/B] or
    [/QUIT] leaves alone. *)
Definition talks s s' : Prop :=
  s_ended s = None → (∀ n, s_sends s n = true) →
  s_ended s' = None ∧ s_sends s' = s_sends s ∧ s_out s `prefix_of` s_out s'.

Lemma talks_refl s : talks s s.
Proof. by intros H _. Qed.
Lemma talks_trans s1 s2 s3 : talks s1 s2 → talks s2 s3 → talks s1 s3.
Proof.
  intros H1 H2 He Ha. destruct (H1 He Ha) as (He' & Hs & Hp).
  destruct (H2 He') as (He'' & Hs' & Hp'); [by rewrite Hs|]. rewrite Hs', Hs.
  split_and!; [done|done|]. by etrans.
Qed.

Lemma send_ok text s : (∀ n, s_sends s n = true) → send text s = (tt, upd_out (λ o, o ++ [text]) s).
Proof. intros Ha. unfold send. st_simpl. by rewrite Ha. Qed.

Lemma send_talks text s : talks s (send text s).2.
Proof. intros He Ha. rewrite send_ok by done. split_and!; [done|done|]. apply prefix_app_r, reflexivity. Qed.

Lemma on_hub_talks {A} (m : ST (Hub St) A) s : talks s (on_hub m s).2.
Proof. by intros He Ha. Qed.

Lemma command_talks line s :
  parse_command line ≠ CBye → parse_command line ≠ CQuit → talks s (command line s).2.
Proof.
  intros Hb Hq. unfold command. destruct (parse_command line); try done; st_simpl.
  - unfold showUsers. st_simpl. apply send_talks.
  - unfold topic. case_decide; st_simpl; [apply send_talks|].
    eapply talks_trans; [apply (on_hub_talks (SetTopic (s_key s) rest))|].
    destruct (on_hub (SetTopic (s_key s) rest) s) as [[b|e] s1]; cbn [fst snd]; st_simpl;
      [destruct (me s1); [destruct b|apply talks_refl]|]; apply send_talks.
  - unfold setName. case_decide; st_simpl; [destruct (me s); [apply send_talks|apply talks_refl]|].
    eapply talks_trans; [apply (on_hub_talks (SetInfo (s_key s) rest (qth s)))|].
    destruct (on_hub (SetInfo (s_key s) rest (qth s)) s) as [[b|e] s1]; cbn [fst snd];
      [apply send_talks|apply talks_refl].
  - unfold setQTH. case_decide; st_simpl; [apply send_talks|].
    eapply talks_trans; [apply (on_hub_talks (SetInfo (s_key s) (name s) rest))|].
    destruct (on_hub (SetInfo (s_key s) (name s) rest) s) as [[b|e] s1]; cbn [fst snd];
      [apply send_talks|apply talks_refl].
  - unfold private. destruct (Cut rest SP) as [[to text] ok].
    destruct (negb ok || bool_decide (TrimSpace text = [])); [apply send_talks|]. st_simpl.
    eapply talks_trans; [apply (on_hub_talks (Private (s_key s) to (TrimSpace text)))|].
    destruct (on_hub (Private (s_key s) to (TrimSpace text)) s) as [[b|e] s1]; cbn [fst snd];
      [apply talks_refl|apply send_talks].
  - unfold showNodes. st_simpl. destruct (Nodes (s_hub s)); apply send_talks.
  - apply send_talks.
  - apply send_talks.
Qed.

(** The command a line holds, if it is one. *)
Definition line_command (line : gostring) : option Command :=
  match TrimSpace (sanitise line) with
  | c :: t => if (bz c =? 47)%Z then Some (parse_command (c :: t)) else None
  | [] => None
  end.

Lemma end_first r s : s_ended s = None → s_ended (end_session r s).2 = Some r.
Proof. intros E. unfold end_session. st_simpl. by rewrite E. Qed.

Lemma end_out r s : s_out (end_session r s).2 = s_out s.
Proof. unfold end_session. st_simpl. by destruct (s_ended s). Qed.

End lines.

(** How a line ends a session.  While the connection accepts what is sent and the
    session is live, exactly the commands [/B] and [/QUIT] (in either case, after
    sanitising and trimming, with or without arguments) stop the loop: they send their
    farewell, end the session with their own reason and so take the user out of the
    hub.  Any other line leaves it running, and output is only ever appended. *)
Theorem line_outcome {St : Type} `{!Store St} line (s : Session St) :
  s_ended s = None → (∀ n, s_sends s n = true) →
  let '(stop, s') := processLine line s in
  stop = bool_decide (s_ended s' ≠ None)
  ∧ s_ended s' = match line_command line with
                 | Some CBye => Some EndBye | Some CQuit => Some EndQuit | _ => None end
  ∧ s_out s `prefix_of` s_out s'
  ∧ (stop = true → gone s' ∧ s_out s' = s_out s ++
       [(if decide (s_ended s' = Some EndBye) then bs "*** Returning to node." else bs "*** 73!")
        ++ [CR]]).
Proof.
  intros He Ha.
  assert (∀ r text, let s1 := (end_session r (sendLine text s).2).2 in
    s_ended s1 = Some r ∧ s_out s1 = s_out s ++ [text ++ [CR]] ∧ gone s1) as Hend.
  { intros r text. unfold sendLine. rewrite send_ok by done. cbn [snd]. split; [by apply end_first|].
    split; [by rewrite end_out|by apply end_gone]. }
  assert (∀ st s', talks s s' → st = false → st = bool_decide (s_ended s' ≠ None)
    ∧ s_ended s' = None ∧ s_out s `prefix_of` s_out s' ∧ (st = true → gone s' ∧ s_out s' = s_out s ++
       [(if decide (s_ended s' = Some EndBye) then bs "*** Returning to node." else bs "*** 73!")
        ++ [CR]])) as Hgo.
  { intros st s' Ht ->. destruct (Ht He Ha) as (He' & _ & Hp). rewrite He'. by split_and!. }
  unfold line_command. unfold processLine.
  destruct (TrimSpace (sanitise line)) as [|c t]; [by apply Hgo|].
  destruct (bz c =? 47)%Z.
  - destruct (command (c :: t) s) as [stop s'] eqn:E.
    pose proof (command_talks (c :: t) s) as Ht. rewrite E in Ht. cbn [snd] in Ht.
    unfold command in E. destruct (parse_command (c :: t)) eqn:Ec; st_simpl_in E;
      try (injection E as <- <-; apply Hgo; [by apply Ht|done]).
    + injection E as <- Es. destruct (Hend EndBye (bs "*** Returning to node.")) as (H1 & H2 & H3).
      replace s' with (end_session EndBye (sendLine (bs "*** Returning to node.") s).2).2 by exact Es. rewrite H1. split_and!; [done|done|rewrite H2; apply prefix_app_r, reflexivity|].
      intros _. by split.
    + injection E as <- Es. destruct (Hend EndQuit (bs "*** 73!")) as (H1 & H2 & H3).
      replace s' with (end_session EndQuit (sendLine (bs "*** 73!") s).2).2 by exact Es. rewrite H1. split_and!; [done|done|rewrite H2; apply prefix_app_r, reflexivity|].
      intros _. by split.
  - st_simpl. pose proof (on_hub_talks (Post (s_key s) (c :: t)) s) as Ht.
    destruct (on_hub (Post (s_key s) (c :: t)) s) as [[m|e] s1]; cbn [fst snd] in *;
      apply Hgo; try done.
    eapply talks_trans; [exact Ht|apply send_talks].
Qed.

Lemma line_outcome_witness :
  let s := mkSession (s_hub sample_session) (s_key sample_session) (NewLineAssembler 0) 0 []
             (λ _, true) 0 [] false None false in
  (processLine (bs " /quit now") s).1 = true
  ∧ s_ended (processLine (bs " /quit now") s).2 = Some EndQuit.
Proof.
  intros s. pose proof (line_outcome (bs " /quit now") s eq_refl (λ _, eq_refl)) as H.
  destruct (processLine (bs " /quit now") s) as [stop s']. destruct H as (H1 & H2 & _).
  cbn [fst snd]. rewrite H1, H2. split; vm_compute; reflexivity.
Defined.

(** ** Typed text on the mesh *)

Lemma TrimSpace_Forall (P : byte → Prop) s : Forall P s → Forall P (TrimSpace s).
Proof.
  intros H. destruct (TrimSpace_infix s) as (a & b & E). rewrite E in H.
  apply Forall_app in H as [_ H]. by apply Forall_app in H as [? _].
Qed.

Lemma clip_Forall (P : byte → Prop) s : Forall P s → Forall P (clip s).
Proof.
  intros H. unfold clip. apply TrimSpace_Forall.
  assert (Forall P (TrimRight [zb 13; zb 10] s)) as Ht.
  { unfold TrimRight. destruct (trim_end_split (λ c, existsb (λ d, bz c =? bz d)%Z [zb 13; zb 10]) s)
      as [k [E _]]. rewrite E in H. by apply Forall_app in H as [? _]. }
  destruct (MaxText <? length _)%nat; [by apply Forall_take|done].
Qed.

(** C34. Typed text crosses the mesh.  Whatever bytes a present user of this node types
    on a line that is not a command, if anything is left after sanitising, trimming and
    clipping, it is posted as that text and the session goes on; and whenever the
    node's and the user's callsigns are plain words, the record the router sends for
    that message decodes at a peer to the same node, user and words: no typed byte can
    break a record or forge one. *)
Theorem typed_text_crosses_mesh {St : Type} `{!Store St, !StoreLaws St} line (s : Session St) u :
  hub_wf (s_hub s) → store_ok (h_store (s_hub s)) → UserOf (s_hub s) (s_key s) = Some u →
  o_Node (u_Origin u) = h_ourNode (s_hub s) →
  let t := TrimSpace (sanitise line) in
  line_command line = None → clip t ≠ [] →
  ∃ m, m_Text m = clip t ∧ m_FromCall m = u_Call u ∧ m_Topic m = u_Topic u
  ∧ (processLine line s).1 = false
  ∧ published TopicMessage m
      (upd_users <[canonKey (s_key s) :=
         user_active (h_clock (s_hub s) (h_tick (s_hub s))) u]> (s_hub s))
      (Post (s_key s) t (s_hub s)).1 (Post (s_key s) t (s_hub s)).2
  ∧ (∀ e, (Post (s_key s) t (s_hub s)).1 = inl e → (processLine line s).2
        = upd_hub (λ _, (Post (s_key s) t (s_hub s)).2) s)
  ∧ (is_word (o_Node (u_Origin u)) → clean (o_Node (u_Origin u)) →
     is_word (u_Call u) → clean (u_Call u) →
     ∃ raw r, Router.encodeLocal (h_ourNode (s_hub s)) (TopicMessage m) = Some raw
       ∧ Decode raw = Some r ∧ r_Type r = IDData ∧ r_Node r = ToUpper (o_Node (u_Origin u))
       ∧ r_User r = ToUpper (u_Call u) ∧ Tail r 0 = GoStrings.Join (Fields (clip t)) [SP]).
Proof.
  intros Hwf Hok Hu Hn t Hl Hc. unfold UserOf in Hu.
  destruct (cw_key _ _ _ (hw_core _ Hwf) _ _ Hu) as (HK & _).
  pose proof (Post_publish (s_key s) t (s_hub s) u Hc Hu) as HP. cbn zeta in HP.
  rewrite <- HK in HP. match type of HP with _ = publish _ ?m _ => exists m end.
  assert (processLine line s = (let r := on_hub (Post (s_key s) t) s in
    match r.1 with inr err => (false, (sendLine (bs "*** " ++ errText err) r.2).2)
    | inl _ => (false, r.2) end)) as Epl.
  { unfold line_command in Hl. unfold processLine. fold t in Hl |- *.
    destruct t as [|c t']; [by vm_compute in Hc|]. destruct (bz c =? 47)%Z; [done|]. st_simpl.
    by destruct (on_hub (Post (s_key s) (c :: t')) s) as [[m|e] s1]. }
  split_and!; try done.
  - rewrite Epl. cbn zeta. by destruct (on_hub (Post (s_key s) t) s).1.
  - rewrite <- HK, HP. match goal with |- context [publish TopicMessage ?m ?h1] =>
      pose proof (publish_published TopicMessage m h1 (hw_chans _ Hwf) Hok
        (SynthID_nonempty _ _ _ _ _)) as HPub end.
    exact HPub.
  - intros m Em. rewrite Epl. unfold on_hub. cbn [fst snd]. by rewrite Em.
  - intros Wn Cn Wc Cc. unfold Router.encodeLocal. cbn [m_OriginNode].
    change (uk_Node (Key u)) with (o_Node (u_Origin u)). rewrite decide_True by done.
    eexists _, _. split; [done|]. split.
    + rewrite <- Hn. apply Decode_encode_fields; try done. constructor; [|done].
      apply clip_Forall, TrimSpace_Forall. apply sanitise_clean.
    + split_and!; try done; rewrite (Tail_Join _ 0 _ eq_refl). cbn.
      by rewrite app_nil_r.
Qed.

Lemma typed_text_witness :
  let s := sample_session in
  let u := default (sample_user [] []) (UserOf (s_hub s) (s_key s)) in
  let line := bs "  hi ~all" ++ [zb 7; zb 9; zb 1] ++ bs "73 " in
  ∃ m, m_Text m = bs "hi ~all 73" ∧ m_FromCall m = bs "M0ABC"
    ∧ (processLine line s).1 = false ∧ m_Topic m = u_Topic u.
Proof.
  intros s u line.
  assert (hub_wf (s_hub s)) as Hwf by apply session_lifecycle_sample.
  assert (UserOf (s_hub s) (s_key s) = Some u) as Hu by (vm_compute; reflexivity).
  assert (store_ok (h_store (s_hub s))) as Hok by (replace (h_store (s_hub s)) with MemStore.NewMemStore by (vm_compute; reflexivity); apply MemStore.NewMemStore_ok).
  assert (o_Node (u_Origin u) = h_ourNode (s_hub s)) as Hn by (vm_compute; reflexivity).
  assert (line_command line = None) as Hl by (vm_compute; reflexivity).
  assert (clip (TrimSpace (sanitise line)) ≠ []) as Hc by (vm_compute; discriminate).
  destruct (typed_text_crosses_mesh line s u Hwf Hok Hu Hn Hl Hc) as (m & H1 & H2 & H3 & H4 & _).
  exists m. rewrite H1, H2. split; [vm_compute; reflexivity|]. split; [vm_compute; reflexivity|].
  by split.
Defined.

(** ** Two sessions of one callsign *)

(** The same callsign connecting twice shares one presence, and ending either session
    takes it away: the other is told that its user is not logged in. *)
Theorem duplicate_session_evicts :
  let '(r1, h1) := New sample_hub (λ _, true) (bs "M0ABC") in
  let '(r2, h2) := New h1 (λ _, true) (bs "M0ABC") in
  match r1, r2 with
  | inl s1, inl s2 =>
      let h3 := s_hub (end_session EndPeerClosed (upd_hub (λ _, h2) s1)).2 in
      let s2' := (processLine (bs "still here?") (upd_hub (λ _, h3) s2)).2 in
      s_ended s2 = None ∧ s_key s1 = s_key s2 ∧ UserOf h3 (s_key s2) = None
      ∧ s_out s2' = s_out s2 ++ [bs "*** You are not logged in." ++ [CR]]
  | _, _ => False
  end.
Proof. vm_compute. split_and!; reflexivity. Qed.
