(* ===== verification/Rhp.v ===== *)
(** * The node's host protocol, on the wire ([internal/rhp])

    Length-prefixed frames ([framing.go]), the message record and the Latin-1 data
    field ([message.go]) and the error codes ([errcode.go]).  A reader is the bytes
    that will arrive followed by the error that ends them.  The JSON text inside a
    frame is in [RhpJson.v]; the client of [RhpClient.v] works on messages. *)
From S2P Require Import Prelude Unicode GoStrings.
From stdpp Require Import options.
Open Scope Z_scope.

Module RhpWire.

(** ** Framing *)

Definition MaxPayloadLength : Z := 65535.

Inductive io_error := EOF | ErrUnexpectedEOF | ErrIO (text : gostring).
#[export] Instance io_error_eq_dec : EqDecision io_error.
Proof. solve_decision. Defined.

Record Reader := mkReader { rd_bytes : gostring; rd_err : io_error }.

(** [io.ReadFull] of [n] bytes *)
Definition ReadFull (n : nat) (r : Reader) : (gostring + io_error) * Reader :=
  let got := take n (rd_bytes r) in
  let r' := mkReader (drop n (rd_bytes r)) (rd_err r) in
  if decide (length got = n) then (inl got, r')
  else (inr (match rd_err r with
             | EOF => if decide (got = []) then EOF else ErrUnexpectedEOF
             | e => e end), r').

(** [binary.BigEndian] of 16 bits *)
Definition put16 (n : Z) : gostring := [zb (n / 256); zb n].
Definition get16 (b : gostring) : Z :=
  match b with hi :: lo :: _ => bz hi * 256 + bz lo | _ => 0 end.

Inductive write_error := TooLong | WriteFailed.

(** The bytes [writeFrame] hands to the connection. *)
Definition writeFrame (payload : gostring) : gostring + write_error :=
  if MaxPayloadLength <? Z.of_nat (length payload) then inr TooLong
  else inl (put16 (Z.of_nat (length payload)) ++ payload).

Definition readFrame (r : Reader) : (gostring + io_error) * Reader :=
  match ReadFull 2 r with
  | (inr e, r1) => (inr e, r1)
  | (inl header, r1) =>
      match ReadFull (Z.to_nat (get16 header)) r1 with
      | (inr e, r2) => (inr (if decide (e = EOF) then ErrUnexpectedEOF else e), r2)
      | (inl payload, r2) => (inl payload, r2)
      end
  end.

(** The read loop's use of it: all frames, and the error that ends them; every frame
    takes at least two bytes. *)
Fixpoint readFrames_fuel (n : nat) (r : Reader) : list gostring * io_error :=
  match n with
  | O => ([], ErrIO [])
  | S n' =>
      match readFrame r with
      | (inr e, _) => ([], e)
      | (inl p, r') => let '(ps, e) := readFrames_fuel n' r' in (p :: ps, e)
      end
  end.
Definition readFrames (r : Reader) : list gostring * io_error :=
  readFrames_fuel (S (length (rd_bytes r))) r.

(** ** Messages *)

Definition TypeAuth := bs "auth".
Definition TypeOpen := bs "open".
Definition TypeSocket := bs "socket".
Definition TypeBind := bs "bind".
Definition TypeListen := bs "listen".
Definition TypeSend := bs "send".
Definition TypeRecv := bs "recv".
Definition TypeAccept := bs "accept".
Definition TypeStatus := bs "status".
Definition TypeClose := bs "close".
Definition FamilyAX25 := bs "ax25".
Definition ModeStream := bs "stream".
Definition FlagPassive : Z := 0.
Definition FlagActive : Z := 128.

Record Message := mkMessage {
  Type_ : gostring; ID : option Z; Seqno : option Z;
  ErrCode : option Z; ErrText_ : gostring;
  Handle : option Z; Child : option Z;
  Pfam : gostring; Mode : gostring; Port : option gostring;
  Local : gostring; Remote : gostring;
  Flags : option Z; Data : option gostring;
  User_ : gostring; Pass : gostring }.

Definition msg (typ : gostring) : Message :=
  mkMessage typ None None None [] None None [] [] None [] [] None None [] [].
Definition with_ID (id : Z) (m : Message) : Message :=
  mkMessage (Type_ m) (Some id) (Seqno m) (ErrCode m) (ErrText_ m) (Handle m) (Child m)
    (Pfam m) (Mode m) (Port m) (Local m) (Remote m) (Flags m) (Data m) (User_ m) (Pass m).

(** [Err], [statusFlags], [derefHandle], [deref] and [PortValue.string]: what an
    absent field stands for. *)
Definition Err (m : Message) : Z := default 0 (ErrCode m).
Definition statusFlags (m : Message) : Z := default 0 (Flags m).
Definition derefHandle (p : option Z) : Z := default 0 p.
Definition deref (p : option gostring) : gostring := default [] p.

Definition port (s : gostring) : option gostring := if decide (s = []) then None else Some s.

Definition EncodeData (b : gostring) : gostring := string_of_runes (bz <$> b).
Definition DecodeData (s : gostring) : gostring := zb <$> runes s.

(** ** Error codes *)

Definition ErrOk : Z := 0.
Definition ErrInvalidHandle : Z := 3.
Definition ErrInvalidLocalAddress : Z := 6.
Definition ErrDuplicateSocket : Z := 9.

Definition errText (code : Z) : option gostring :=
  match code with
  | 0 => Some (bs "Ok")
  | 1 => Some (bs "Unspecified")
  | 2 => Some (bs "Bad or missing type")
  | 3 => Some (bs "Invalid handle")
  | 4 => Some (bs "No memory")
  | 5 => Some (bs "Bad or missing mode")
  | 6 => Some (bs "Invalid local address")
  | 7 => Some (bs "Invalid remote address")
  | 8 => Some (bs "Bad or missing family")
  | 9 => Some (bs "Duplicate socket")
  | 10 => Some (bs "No such port")
  | 11 => Some (bs "Invalid protocol")
  | 12 => Some (bs "Bad parameter")
  | 13 => Some (bs "No buffers")
  | 14 => Some (bs "Unauthorised")
  | 15 => Some (bs "No Route")
  | 16 => Some (bs "Operation not supported")
  | 17 => Some (bs "Not connected")
  | _ => None
  end.
Definition ErrText (code : Z) : gostring :=
  match errText code with Some t => t | None => bs "Unknown (" ++ itoa code ++ bs ")" end.

Record ServerError := mkServerError { se_Code : Z; se_Text : gostring }.
Definition Error (e : ServerError) : gostring :=
  let t := if decide (se_Text e = []) then ErrText (se_Code e) else se_Text e in
  bs "rhp: errCode " ++ itoa (se_Code e) ++ bs " (" ++ t ++ bs ")".

Definition IsCallsignInUse (code : Z) : bool :=
  (code =? ErrDuplicateSocket) || (code =? ErrInvalidLocalAddress).

(** ** Lemmas *)

Lemma get16_put16 n rest : 0 ≤ n ≤ MaxPayloadLength → get16 (put16 n ++ rest) = n.
Proof.
  unfold MaxPayloadLength. intros H. cbn. rewrite !bz_zb.
  rewrite (Z.mod_small (n / 256)) by (split; [apply Z.div_pos|apply Z.div_lt_upper_bound]; lia).
  rewrite Z.mul_comm. symmetry. apply Z.div_mod. lia.
Qed.

Lemma ReadFull_ok a b e :
  ReadFull (length a) (mkReader (a ++ b) e) = (inl a, mkReader b e).
Proof.
  unfold ReadFull. cbn [rd_bytes rd_err]. rewrite take_app_length, drop_app_length.
  by rewrite decide_True.
Qed.

Lemma ReadFull_short n s e :
  (length s < n)%nat →
  ReadFull n (mkReader s e)
  = (inr (match e with EOF => if decide (s = []) then EOF else ErrUnexpectedEOF | _ => e end),
     mkReader [] e).
Proof.
  intros H. unfold ReadFull. cbn [rd_bytes rd_err].
  rewrite take_ge, drop_ge, decide_False by lia. by destruct e.
Qed.

(** The length prefix of a payload that fits. *)
Definition framed (p : gostring) : gostring := put16 (Z.of_nat (length p)) ++ p.
Definition fits (p : gostring) : Prop := Z.of_nat (length p) ≤ MaxPayloadLength.

Lemma writeFrame_fits p : fits p → writeFrame p = inl (framed p).
Proof. intros H. unfold writeFrame. by rewrite (proj2 (Z.ltb_ge _ _) H). Qed.

Lemma readFrame_framed p rest e :
  fits p → readFrame (mkReader (framed p ++ rest) e) = (inl p, mkReader rest e).
Proof.
  intros H. unfold readFrame, framed. rewrite <- app_assoc.
  change 2%nat with (length (put16 (Z.of_nat (length p)))).
  rewrite ReadFull_ok.
  assert (get16 (put16 (Z.of_nat (length p))) = Z.of_nat (length p)) as ->.
  { rewrite <- (app_nil_r (put16 _)). apply get16_put16. unfold fits in H. lia. }
  by rewrite Nat2Z.id, ReadFull_ok.
Qed.

Lemma readFrames_framed ps : ∀ n tail e,
  Forall fits ps → (length ps < n)%nat →
  readFrames_fuel n (mkReader (concat (framed <$> ps) ++ tail) e)
  = (let '(qs, e') := readFrames_fuel (n - length ps) (mkReader tail e) in (ps ++ qs, e')).
Proof.
  induction ps as [|p ps IH]; intros n tail e Hp Hn.
  - rewrite Nat.sub_0_r. cbn. by destruct (readFrames_fuel n (mkReader tail e)).
  - destruct n as [|n]; [cbn in Hn; lia|]. apply Forall_cons in Hp as [Hp Hps].
    rewrite fmap_cons. cbn [concat readFrames_fuel]. rewrite <- app_assoc.
    rewrite readFrame_framed by done. rewrite IH by (cbn in Hn; done || lia).
    cbn [length Nat.sub]. by destruct (readFrames_fuel (n - length ps) (mkReader tail e)).
Qed.

(** A proper prefix of a frame. *)
Lemma readFrame_cut p q rest :
  fits p → framed p = q ++ rest → rest ≠ [] →
  (readFrame (mkReader q EOF)).1 = inr (if decide (q = []) then EOF else ErrUnexpectedEOF).
Proof.
  intros H E Hr. destruct q as [|a [|b q]]; [done|done|].
  unfold framed, put16 in E. injection E as Ea Eb Ep.
  unfold readFrame. cbn [app]. change (a :: b :: q) with ([a; b] ++ q).
  change 2%nat with (length [a; b]). rewrite ReadFull_ok.
  assert (get16 [a; b] = Z.of_nat (length p)) as ->.
  { subst a b. rewrite <- (app_nil_r [_; _]). apply get16_put16. unfold fits in H. lia. }
  rewrite Nat2Z.id, ReadFull_short.
  - cbn. by destruct (decide (q = [])).
  - rewrite Ep, length_app. destruct rest; [done|]. cbn. lia.
Qed.

(** ** The main theorems *)

(** Framing round trips.  A payload is refused exactly when it is longer than
    65535 bytes; the frames of any payloads, written one after the other, are read
    back as these payloads and nothing else, however many there are; then the read
    loop ends with a clean [EOF] when the stream stops at a frame boundary, with
    [ErrUnexpectedEOF] when it stops anywhere inside a further frame, and with the
    connection's own error when that is what ends it. *)
Theorem framing_roundtrip ps :
  (∀ p, writeFrame p = inr TooLong ↔ 65535 < Z.of_nat (length p))
  ∧ ∀ frames, mapM (λ p, match writeFrame p with inl f => Some f | inr _ => None end) ps
              = Some frames →
    readFrames (mkReader (concat frames) EOF) = (ps, EOF)
    ∧ (∀ text, readFrames (mkReader (concat frames) (ErrIO text)) = (ps, ErrIO text))
    ∧ (∀ p cut rest, writeFrame p = inl (cut ++ rest) → cut ≠ [] → rest ≠ [] →
         readFrames (mkReader (concat frames ++ cut) EOF) = (ps, ErrUnexpectedEOF)).
Proof.
  split.
  { intros p. unfold writeFrame, MaxPayloadLength.
    destruct (Z.ltb_spec 65535 (Z.of_nat (length p))); split; try done; lia. }
  assert (∀ p f, writeFrame p = inl f → fits p ∧ f = framed p) as Hw.
  { intros p f. unfold writeFrame. destruct (Z.ltb_spec MaxPayloadLength (Z.of_nat (length p)));
      [done|]. by intros [= <-]. }
  intros frames H.
  assert (Forall fits ps ∧ frames = framed <$> ps) as [Hf ->].
  { apply mapM_Some in H. induction H as [|p f ps' fs Hp _ [IH1 IH2]]; [done|].
    destruct (writeFrame p) as [f'|] eqn:E; [|done]. injection Hp as ->.
    destruct (Hw _ _ E) as [Hp ->]. split; [by constructor|]. by rewrite fmap_cons, <- IH2. }
  assert (length ps ≤ length (concat (framed <$> ps)))%nat as Hlen.
  { clear. induction ps as [|p ps IH]; [done|]. rewrite fmap_cons. cbn. rewrite length_app. lia. }
  assert (∀ tail e, readFrames (mkReader (concat (framed <$> ps) ++ tail) e)
    = (let '(qs, e') := readFrames_fuel (S (length (concat (framed <$> ps)) - length ps + length tail))
          (mkReader tail e) in (ps ++ qs, e'))) as Hr.
  { intros tail e. unfold readFrames. cbn [rd_bytes]. rewrite length_app.
    rewrite readFrames_framed; [|done|lia].
    by replace (S (length (concat (framed <$> ps)) + length tail) - length ps)%nat
      with (S (length (concat (framed <$> ps)) - length ps + length tail)) by lia. }
  split_and!.
  - rewrite <- (app_nil_r (concat _)), Hr. cbn [readFrames_fuel].
    replace (readFrame (mkReader [] EOF)) with (@inr gostring _ EOF, mkReader [] EOF) by done.
    by rewrite app_nil_r.
  - intros text. rewrite <- (app_nil_r (concat _)), Hr. cbn [readFrames_fuel].
    replace (readFrame (mkReader [] (ErrIO text)))
      with (@inr gostring _ (ErrIO text), mkReader [] (ErrIO text)) by done.
    by rewrite app_nil_r.
  - intros p cut rest [Hp E]%Hw Hc Hrest. rewrite Hr. cbn [readFrames_fuel].
    pose proof (readFrame_cut p cut rest Hp (eq_sym E) Hrest) as Hcut.
    rewrite decide_False in Hcut by done.
    destruct (readFrame (mkReader cut EOF)) as [[q|e'] r']; [done|].
    cbn in Hcut. injection Hcut as ->. by rewrite app_nil_r.
Qed.

Lemma framing_roundtrip_witness :
  readFrames (mkReader (framed (bs "{}") ++ framed [] ++ [zb 0]) EOF)
  = ([bs "{}"; []], ErrUnexpectedEOF).
Proof.
  destruct (framing_roundtrip [bs "{}"; []]) as [_ H].
  destruct (H [framed (bs "{}"); framed []]) as (_ & _ & Hc); [reflexivity|].
  apply (Hc [] [zb 0] [zb 0]); [reflexivity|discriminate|discriminate].
Defined.

(** The data field is transparent: any bytes survive the trip through the Latin-1
    string that JSON carries, whatever their values; the string is valid text (one
    character up to U+00FF per byte), so no JSON encoder replaces any of it. *)
Theorem data_roundtrip b :
  DecodeData (EncodeData b) = b
  ∧ runes (EncodeData b) = bz <$> b
  ∧ Forall (λ r, 0 ≤ r ≤ 255) (runes (EncodeData b))
  ∧ string_of_runes (runes (EncodeData b)) = EncodeData b.
Proof.
  assert (runes (EncodeData b) = bz <$> b) as E.
  { apply runes_string_of_runes, Forall_fmap, Forall_forall. intros c _.
    cbn. apply valid_rune_spec. pose proof (bz_range c). lia. }
  split_and!.
  - unfold DecodeData. rewrite E, <- list_fmap_compose.
    rewrite <- (list_fmap_id b) at 2. apply list_fmap_ext. intros i c _. apply zb_bz.
  - done.
  - rewrite E. apply Forall_fmap, Forall_forall. intros c _. cbn. pose proof (bz_range c). lia.
  - by rewrite E.
Qed.

End RhpWire.
