(* ===== verification/RhpJson.v ===== *)
(** * The messages of the host protocol as JSON ([internal/rhp/message.go])

    The text of a [Message] by its struct tags, with [PortValue]'s own marshalling,
    and the frames that carry it: [writeMessage], and the read loop up to dispatch. *)
From S2P Require Import Prelude Unicode GoStrings JsonText JsonFacts Rhp.
From stdpp Require Import options.
Local Open Scope Z_scope.
Import RhpWire.

Module Codec.

(** ** [PortValue] *)

Definition PortValue_UnmarshalJSON (b : gostring) : option gostring :=
  match b with
  | c :: _ =>
      if bz c =? 34 then match parse b with Some (JString _ s) => Some s | _ => None end
      else Some b
  | [] => Some b
  end.
Definition PortValue_MarshalJSON (p : gostring) : gostring := quote true p.

(** ** Writing a message *)

(** The [omitempty] fields: absent when the pointer is nil or the string empty. *)
Definition int_member (key : gostring) (v : option Z) : list (gostring * gostring) :=
  match v with Some z => [(key, itoa z)] | None => [] end.
Definition string_member (key s : gostring) : list (gostring * gostring) :=
  if decide (s = []) then [] else [(key, quote true s)].
Definition pointer_member (key : gostring) (v : option gostring) : list (gostring * gostring) :=
  match v with Some s => [(key, quote true s)] | None => [] end.
Definition port_member (key : gostring) (v : option gostring) : list (gostring * gostring) :=
  match v with Some p => [(key, PortValue_MarshalJSON p)] | None => [] end.

Definition Marshal (m : Message) : gostring :=
  json_object true
    ([(bs "type", quote true (Type_ m))]
     ++ int_member (bs "id") (ID m)
     ++ int_member (bs "seqno") (Seqno m)
     ++ int_member (bs "errCode") (ErrCode m)
     ++ string_member (bs "errText") (ErrText_ m)
     ++ int_member (bs "handle") (Handle m)
     ++ int_member (bs "child") (Child m)
     ++ string_member (bs "pfam") (Pfam m)
     ++ string_member (bs "mode") (Mode m)
     ++ port_member (bs "port") (Port m)
     ++ string_member (bs "local") (Local m)
     ++ string_member (bs "remote") (Remote m)
     ++ int_member (bs "flags") (Flags m)
     ++ pointer_member (bs "data") (Data m)
     ++ string_member (bs "user") (User_ m)
     ++ string_member (bs "pass") (Pass m)).

(** ** Reading a message *)

#[export] Instance message_eq_dec : EqDecision Message.
Proof. solve_decision. Defined.

Inductive kind := KString | KInt | KPointer | KPort.

Definition fields : list (gostring * kind) :=
  [(bs "type", KString); (bs "id", KInt); (bs "seqno", KInt); (bs "errCode", KInt);
   (bs "errText", KString); (bs "handle", KInt); (bs "child", KInt); (bs "pfam", KString);
   (bs "mode", KString); (bs "port", KPort); (bs "local", KString); (bs "remote", KString);
   (bs "flags", KInt); (bs "data", KPointer); (bs "user", KString); (bs "pass", KString)].

(** The field a key names: by its exact name, else whatever its case. *)
Definition field_of (key : gostring) : option (gostring * kind) :=
  match List.find (λ f : gostring * kind, bool_decide (f.1 = key)) fields with
  | Some f => Some f
  | None => List.find (λ f : gostring * kind, EqualFold f.1 key) fields
  end.

(** Whether a value fits a field of this kind; [null] fits every one. *)
Definition fits_kind (k : kind) (v : json) : bool :=
  match k, v with
  | _, JNull => true
  | (KString | KPointer), JString _ _ => true
  | KInt, JNumber lit => match Atoi lit with Some _ => true | None => false end
  | KPort, _ => match PortValue_UnmarshalJSON (raw v) with Some _ => true | None => false end
  | _, _ => false
  end.

(** The values of a field, in the order of the text. *)
Definition assigned (name : gostring) (kvs : list (gostring * json)) : list json :=
  omap (λ kv : gostring * json,
    match field_of kv.1 with
    | Some f => if decide (f.1 = name) then Some kv.2 else None
    | None => None
    end) kvs.

(** What a field holds after them: a later value replaces an earlier one, and [null]
    clears a pointer but leaves a string as it is. *)
Definition get_string (l : list json) : gostring :=
  foldl (λ s v, match v with JString _ s' => s' | _ => s end) [] l.
Definition get_int (l : list json) : option Z :=
  foldl (λ o v, match v with JNumber lit => Atoi lit | _ => None end) None l.
Definition get_pointer (l : list json) : option gostring :=
  foldl (λ o v, match v with JString _ s => Some s | _ => None end) None l.
Definition get_port (l : list json) : option gostring :=
  foldl (λ o v, match v with JNull => None | _ => PortValue_UnmarshalJSON (raw v) end) None l.

(** [json.Unmarshal] into a [Message]; [None] is its error. *)
Definition build (kvs : list (gostring * json)) : option Message :=
  if forallb (λ kv : gostring * json,
       match field_of kv.1 with Some f => fits_kind f.2 kv.2 | None => true end) kvs
  then
    let str name := get_string (assigned name kvs) in
    let int name := get_int (assigned name kvs) in
    Some (mkMessage (str (bs "type")) (int (bs "id")) (int (bs "seqno")) (int (bs "errCode"))
      (str (bs "errText")) (int (bs "handle")) (int (bs "child")) (str (bs "pfam"))
      (str (bs "mode")) (get_port (assigned (bs "port") kvs)) (str (bs "local"))
      (str (bs "remote")) (int (bs "flags")) (get_pointer (assigned (bs "data") kvs))
      (str (bs "user")) (str (bs "pass")))
  else None.

Definition Unmarshal (payload : gostring) : option Message :=
  match parse payload with
  | Some JNull => Some (msg [])
  | Some (JObject _ kvs) => build kvs
  | _ => None
  end.

(** ** Messages in frames ([client.go]) *)

Definition writeMessage (m : Message) : gostring + write_error := writeFrame (Marshal m).

(** How the read loop ends: by the reader's error ([None] for a clean end), or by a
    frame that holds no message. *)
Inductive loop_end := LoopRead (err : option io_error) | LoopDecode (payload : gostring).

(** The messages the read loop dispatches before it ends.  Every frame takes two bytes
    or more, so the bytes to come are fuel enough. *)
Fixpoint readLoop_fuel (n : nat) (r : Reader) : list Message * loop_end :=
  match n with
  | O => ([], LoopRead None)
  | S n' =>
      match readFrame r with
      | (inr EOF, _) => ([], LoopRead None)
      | (inr e, _) => ([], LoopRead (Some e))
      | (inl payload, r') =>
          match Unmarshal payload with
          | None => ([], LoopDecode payload)
          | Some m => let '(ms, e) := readLoop_fuel n' r' in (m :: ms, e)
          end
      end
  end.
Definition readLoop (r : Reader) : list Message * loop_end :=
  readLoop_fuel (S (length (rd_bytes r))) r.

(** XRouter's spellings: capitals in the keys, a port as a number. *)
Definition dq (s : gostring) : gostring := ReplaceByte (zb 39) (zb 34) s.
Example xrouter_reply :
  Unmarshal (dq (bs "{'type':'openReply','ID':7,'ErrCode':0,'ERRTEXT':'Ok','port':1,'extra':[{}]}"))
  = Some (mkMessage (bs "openReply") (Some 7) None (Some 0) (bs "Ok") None None [] []
            (Some (bs "1")) [] [] None None [] []).
Proof. by vm_compute. Qed.
Example number_for_text : Unmarshal (dq (bs "{'type':5}")) = None.
Proof. by vm_compute. Qed.

(** ** A written message is read back *)

(** The values each field is written with. *)
Definition string_vals (s : gostring) : list json :=
  if decide (s = []) then [] else [JString (quote true s) (repair s)].
Definition pointer_vals (o : option gostring) : list json :=
  match o with Some s => [JString (quote true s) (repair s)] | None => [] end.
Definition int_vals (o : option Z) : list json :=
  match o with Some z => [JNumber (itoa z)] | None => [] end.

Definition pieces (m : Message) : list (gostring * list json) :=
  [(bs "type", [JString (quote true (Type_ m)) (repair (Type_ m))]);
   (bs "id", int_vals (ID m)); (bs "seqno", int_vals (Seqno m));
   (bs "errCode", int_vals (ErrCode m)); (bs "errText", string_vals (ErrText_ m));
   (bs "handle", int_vals (Handle m)); (bs "child", int_vals (Child m));
   (bs "pfam", string_vals (Pfam m)); (bs "mode", string_vals (Mode m));
   (bs "port", pointer_vals (Port m)); (bs "local", string_vals (Local m));
   (bs "remote", string_vals (Remote m)); (bs "flags", int_vals (Flags m));
   (bs "data", pointer_vals (Data m)); (bs "user", string_vals (User_ m));
   (bs "pass", string_vals (Pass m))].

Lemma Marshal_pieces m :
  Marshal m = json_object true (text_member <$> flatten (pieces m)).
Proof.
  unfold Marshal. f_equal. unfold flatten, pieces.
  rewrite !fmap_cons. cbn [concat fst snd fmap list_fmap]. rewrite !fmap_app.
  assert (∀ k o, int_member k o = text_member <$> ((λ v, (k, v)) <$> int_vals o)) as Hi
    by (by intros k [?|]).
  assert (∀ k s, string_member k s = text_member <$> ((λ v, (k, v)) <$> string_vals s)) as Hs
    by (intros k s; unfold string_member, string_vals; by destruct (decide (s = []))).
  assert (∀ k o, pointer_member k o = text_member <$> ((λ v, (k, v)) <$> pointer_vals o)) as Hp
    by (by intros k [?|]).
  assert (∀ k o, port_member k o = text_member <$> ((λ v, (k, v)) <$> pointer_vals o)) as Ho
    by (by intros k [?|]).
  rewrite !Hi, !Hs, ?Hp, ?Ho. cbn [fmap list_fmap]. by rewrite app_nil_r.
Qed.

Lemma assigned_app name a b : assigned name (a ++ b) = assigned name a ++ assigned name b.
Proof. apply omap_app. Qed.

Lemma assigned_one name key k l :
  field_of key = Some (key, k) →
  assigned name ((λ v, (key, v)) <$> l) = if bool_decide (key = name) then l else [].
Proof.
  intros Hf. induction l as [|v l IH]; [by case_bool_decide|]. rewrite fmap_cons.
  change ((key, v) :: ((λ v, (key, v)) <$> l)) with ([(key, v)] ++ ((λ v, (key, v)) <$> l)).
  rewrite assigned_app, IH. unfold assigned. cbn [omap list_omap fst snd]. rewrite Hf. cbn [fst].
  case_bool_decide as E; [by rewrite decide_True|by rewrite decide_False].
Qed.

Lemma assigned_flatten name ps :
  NoDup ps.*1 → Forall (λ p : gostring * list json, ∃ k, field_of p.1 = Some (p.1, k)) ps →
  assigned name (flatten ps) = assoc name ps.
Proof.
  induction ps as [|[key l] ps IH]; intros Hd Hf; [done|]. apply NoDup_cons in Hd as [Hk Hd].
  apply Forall_cons in Hf as [[k Hf] Hfs]. cbn [fst] in *. unfold flatten in *.
  rewrite fmap_cons. cbn [concat fst snd assoc].
  rewrite assigned_app, IH, (assigned_one name key k) by done.
  case_bool_decide as E; [|done]. subst.
  by rewrite assoc_none, app_nil_r.
Qed.

(** Field by field. *)
Lemma pieces_known m :
  NoDup (pieces m).*1
  ∧ Forall (λ p : gostring * list json, ∃ k, field_of p.1 = Some (p.1, k)) (pieces m).
Proof.
  assert ((pieces m).*1 = fields.*1) as E by done. split.
  - rewrite E. apply (bool_decide_unpack (NoDup fields.*1)). by vm_compute.
  - apply (Forall_fmap fst (λ n, ∃ k, field_of n = Some (n, k))). rewrite E.
    repeat constructor; eexists; by vm_compute.
Qed.

Definition ints_ok (m : Message) : Prop :=
  Forall (λ o : option Z, from_option in_int64 True o)
    [ID m; Seqno m; ErrCode m; Handle m; Child m; Flags m].

Definition repaired (m : Message) : Message :=
  mkMessage (repair (Type_ m)) (ID m) (Seqno m) (ErrCode m) (repair (ErrText_ m))
    (Handle m) (Child m) (repair (Pfam m)) (repair (Mode m)) (repair <$> Port m)
    (repair (Local m)) (repair (Remote m)) (Flags m) (repair <$> Data m)
    (repair (User_ m)) (repair (Pass m)).

Lemma get_string_vals s : get_string (string_vals s) = repair s.
Proof. unfold string_vals. by destruct (decide (s = [])) as [->|]. Qed.
Lemma get_pointer_vals o : get_pointer (pointer_vals o) = repair <$> o.
Proof. by destruct o. Qed.
Lemma get_int_vals o : from_option in_int64 True o → get_int (int_vals o) = o.
Proof. destruct o as [z|]; [|done]. intros H. cbn. by apply Atoi_itoa. Qed.

Lemma UnmarshalJSON_quote s : PortValue_UnmarshalJSON (quote true s) = Some (repair s).
Proof.
  unfold PortValue_UnmarshalJSON. rewrite (parse_reads 0 _ _ (reads_quote true s)) by done.
  unfold quote. cbn [app]. by rewrite bz_zb_small by lia.
Qed.
Lemma get_port_vals o : get_port (pointer_vals o) = repair <$> o.
Proof. destruct o; [|done]. cbn [pointer_vals get_port foldl raw]. apply UnmarshalJSON_quote. Qed.

Lemma fits_values k l :
  Forall (λ v, fits_kind k v = true) l →
  ∀ key, field_of key = Some (key, k) →
  forallb (λ kv : gostring * json,
    match field_of kv.1 with Some f => fits_kind f.2 kv.2 | None => true end)
    ((λ v, (key, v)) <$> l) = true.
Proof.
  intros Hl key Hk. apply forallb_forall. intros [? v] Hin. apply list_elem_of_In in Hin.
  apply list_elem_of_fmap in Hin as (w & [= -> ->] & Hw). cbn [fst snd]. rewrite Hk.
  rewrite Forall_forall in Hl. by apply Hl.
Qed.

Lemma fits_string_vals s : Forall (λ v, fits_kind KString v = true) (string_vals s).
Proof. unfold string_vals. destruct (decide (s = [])); by repeat constructor. Qed.
Lemma fits_pointer_vals o : Forall (λ v, fits_kind KPointer v = true) (pointer_vals o).
Proof. destruct o; by repeat constructor. Qed.
Lemma fits_port_vals o : Forall (λ v, fits_kind KPort v = true) (pointer_vals o).
Proof.
  destruct o; repeat constructor. cbn [fits_kind raw]. by rewrite UnmarshalJSON_quote.
Qed.
Lemma fits_int_vals o : from_option in_int64 True o → Forall (λ v, fits_kind KInt v = true) (int_vals o).
Proof.
  destruct o; [|by constructor]. intros H. repeat constructor. cbn [fits_kind].
  by rewrite Atoi_itoa.
Qed.
#[local] Hint Resolve fits_string_vals fits_pointer_vals fits_port_vals fits_int_vals : core.

Lemma build_pieces m : ints_ok m → build (flatten (pieces m)) = Some (repaired m).
Proof.
  unfold ints_ok. rewrite !Forall_cons. intros (H1 & H2 & H3 & H4 & H5 & H6 & _).
  unfold build. destruct (pieces_known m) as [Hd Hf].
  assert (forallb (λ kv : gostring * json,
    match field_of kv.1 with Some f => fits_kind f.2 kv.2 | None => true end)
    (flatten (pieces m)) = true) as ->.
  { unfold flatten, pieces. rewrite !fmap_cons. cbn [concat fst snd fmap list_fmap].
    rewrite !forallb_app, !andb_true_iff.
    split_and!; try (eapply fits_values; [|by vm_compute]; by auto).
    all: reflexivity. }
  rewrite !(assigned_flatten _ (pieces m)) by done. f_equal. unfold repaired.
  f_equal; first [reflexivity|exact (get_string_vals _)|exact (get_port_vals _)
                 |exact (get_pointer_vals _)|by apply (get_int_vals _)].
Qed.

Lemma pieces_read m :
  ints_ok m → Forall (λ p : gostring * list json, Forall (raw_reads 0) p.2) (pieces m).
Proof.
  unfold ints_ok. rewrite !Forall_cons. intros (H1 & H2 & H3 & H4 & H5 & H6 & _).
  assert (∀ s, Forall (raw_reads 0) (string_vals s)) as Hs.
  { intros s. unfold string_vals. destruct (decide (s = [])); repeat constructor.
    all: apply reads_quote. }
  assert (∀ o, Forall (raw_reads 0) (pointer_vals o)) as Hp.
  { intros [s|]; repeat constructor; apply reads_quote. }
  assert (∀ o, from_option in_int64 True o → Forall (raw_reads 0) (int_vals o)) as Hi.
  { intros [z|]; [|by constructor]. intros H. apply Forall_cons. split; [by apply reads_int|done]. }
  unfold pieces. apply Forall_cons; split; [apply Forall_cons; split; [apply reads_quote|done]|].
  repeat (apply Forall_cons; split; [by cbn [snd]; auto|]). by constructor.
Qed.

Lemma Unmarshal_Marshal m : ints_ok m → Unmarshal (Marshal m) = Some (repaired m).
Proof.
  intros H. unfold Unmarshal. rewrite Marshal_pieces.
  rewrite (parse_reads 1 _ _ (reads_flatten true 0 (pieces m) ltac:(lia) ltac:(by vm_compute) (pieces_read m H)))
    by done.
  by apply build_pieces.
Qed.

(** The texts of a message. *)
Definition texts (m : Message) : list gostring :=
  [Type_ m; ErrText_ m; Pfam m; Mode m; Local m; Remote m; User_ m; Pass m]
  ++ option_list (Port m) ++ option_list (Data m).

Lemma repaired_utf8 m : Forall utf8 (texts m) → repaired m = m.
Proof.
  unfold texts. rewrite !Forall_app, !Forall_cons. 
  intros ((H1 & H2 & H3 & H4 & H5 & H6 & H7 & H8 & _) & Hp & Hd).
  unfold repaired, repair. destruct m as [? ? ? ? ? ? ? ? ? p ? ? ? d ? ?].
  cbn [Type_ ErrText_ Pfam Mode Port Local Remote Data User_ Pass] in *.
  unfold utf8 in H1, H2, H3, H4, H5, H6, H7, H8. rewrite H1, H2, H3, H4, H5, H6, H7, H8.
  assert (∀ o, Forall utf8 (option_list o) → (λ s, string_of_runes (runes s)) <$> o = o) as Ho.
  { intros [s|]; [|done]. intros [Hs _]%Forall_cons. unfold utf8 in Hs. cbn. by rewrite Hs. }
  by rewrite (Ho p Hp), (Ho d Hd).
Qed.

Lemma repair_EncodeData b : repair (EncodeData b) = EncodeData b.
Proof. apply data_roundtrip. Qed.

(** *** The read loop on written frames *)

Lemma readLoop_step n p rest e :
  fits p →
  readLoop_fuel (S n) (mkReader (framed p ++ rest) e)
  = match Unmarshal p with
    | None => ([], LoopDecode p)
    | Some m => let '(ms, e') := readLoop_fuel n (mkReader rest e) in (m :: ms, e')
    end.
Proof. intros H. cbn [readLoop_fuel]. by rewrite readFrame_framed. Qed.

Definition written (m : Message) : Prop := ints_ok m ∧ fits (Marshal m).

Lemma readLoop_written ms : ∀ n tail e,
  Forall written ms → (length ms < n)%nat →
  readLoop_fuel n (mkReader (concat (framed ∘ Marshal <$> ms) ++ tail) e)
  = (let '(ms', e') := readLoop_fuel (n - length ms) (mkReader tail e) in
     ((repaired <$> ms) ++ ms', e')).
Proof.
  induction ms as [|m ms IH]; intros n tail e Hw Hn.
  - rewrite Nat.sub_0_r. cbn [fmap list_fmap concat app].
    by destruct (readLoop_fuel n (mkReader tail e)).
  - destruct n as [|n]; [cbn in Hn; lia|]. apply Forall_cons in Hw as [[Hi Hf] Hms].
    rewrite fmap_cons. cbn [concat]. rewrite <- app_assoc.
    change ((framed ∘ Marshal) m) with (framed (Marshal m)).
    rewrite readLoop_step, Unmarshal_Marshal, IH by (cbn in Hn; done || lia).
    cbn [length Nat.sub]. by destruct (readLoop_fuel (n - length ms) (mkReader tail e)).
Qed.

Lemma frames_length (l : list gostring) : (length l ≤ length (concat (framed <$> l)))%nat.
Proof. induction l as [|p l IH]; [done|]. rewrite fmap_cons. cbn. rewrite length_app. lia. Qed.

Lemma readLoop_all ms tail e : Forall written ms → ∃ n,
  (length tail < n)%nat
  ∧ readLoop (mkReader (concat (framed ∘ Marshal <$> ms) ++ tail) e)
    = (let '(ms', e') := readLoop_fuel n (mkReader tail e) in ((repaired <$> ms) ++ ms', e')).
Proof.
  intros H. unfold readLoop. cbn [rd_bytes]. rewrite readLoop_written; [eexists; split; [|done]|done|].
  all: rewrite length_app; pose proof (frames_length (Marshal <$> ms)) as Hl;
    rewrite length_fmap, <- list_fmap_compose in Hl; lia.
Qed.

Lemma writeMessage_inl m f : writeMessage m = inl f → fits (Marshal m) ∧ f = framed (Marshal m).
Proof.
  unfold writeMessage, writeFrame.
  destruct (Z.ltb_spec MaxPayloadLength (Z.of_nat (length (Marshal m)))); [done|].
  intros [= <-]. done.
Qed.

(** *** How long a message is *)

Lemma quote_ascii_length c : bz c < 128 → (length (quote_ascii true c) ≤ 6)%nat.
Proof. intros Hc. destruct c; try (exfalso; revert Hc; done); cbn; lia. Qed.

Lemma quote_data_length b : (length (quote true (EncodeData b)) ≤ 6 * length b + 2)%nat.
Proof.
  unfold quote. rewrite !length_app. cbn [length].
  assert (length (concat (quote_seg true <$> segs (EncodeData b))) ≤ 6 * length b)%nat; [|lia].
  unfold EncodeData. rewrite segs_string_of_runes.
  2: { apply Forall_fmap, Forall_forall. intros c _. apply valid_rune_spec. pose proof (bz_range c). cbn. lia. }
  induction b as [|c b IH]; [done|]. rewrite !fmap_cons. cbn [concat]. rewrite length_app.
  assert (length (quote_seg true (bz c, encode_rune (bz c))) ≤ 6)%nat; [|cbn [length]; lia].
  pose proof (bz_range c). unfold quote_seg. cbn [fst snd].
  destruct (Z.ltb_spec (bz c) 128).
  { apply quote_ascii_length. rewrite zb_bz. done. }
  unfold RuneError. rewrite !(proj2 (Z.eqb_neq _ _)) by lia. cbn [andb orb].
  unfold encode_rune. rewrite (proj2 (valid_rune_spec _)) by lia.
  rewrite (proj2 (Z.ltb_ge _ _)) by lia. rewrite (proj2 (Z.ltb_lt _ _)) by lia. cbn. lia.
Qed.

Lemma digits_fuel_length n z acc : (length (digits_fuel n z acc) ≤ n + length acc)%nat.
Proof.
  revert z acc. induction n as [|n IH]; intros z acc; [done|]. cbn [digits_fuel].
  case_match; [cbn; lia|]. etrans; [apply IH|]. cbn. lia.
Qed.
Lemma itoa_length z : (length (itoa z) ≤ 21)%nat.
Proof.
  unfold itoa. pose proof (digits_fuel_length 20 z []). pose proof (digits_fuel_length 20 (- z) []).
  case_match; cbn [app length bs] in *; lia.
Qed.

(** The request of [Client.Send]. *)
Definition send_request (id h : Z) (data : gostring) : Message :=
  mkMessage TypeSend (Some id) None None [] (Some h) None [] [] None [] [] None
    (Some (EncodeData data)) [] [].

Lemma send_length id h data :
  (length (Marshal (send_request id h data)) ≤ 6 * length data + 90)%nat.
Proof.
  unfold Marshal, json_object.
  pose proof (itoa_length id). pose proof (itoa_length h). pose proof (quote_data_length data).
  cbn [Type_ ID Seqno ErrCode ErrText_ Handle Child Pfam Mode Port Local Remote Flags Data User_
       Pass send_request int_member pointer_member port_member app].
  change (string_member _ []) with ([] : list (gostring * gostring)). cbn [app fmap list_fmap Join fst snd].
  rewrite !length_app.
  change (length (quote true (bs "type"))) with 6%nat. change (length (quote true TypeSend)) with 6%nat.
  change (length (quote true (bs "id"))) with 4%nat. change (length (quote true (bs "handle"))) with 8%nat.
  change (length (quote true (bs "data"))) with 6%nat. cbn [length bs]. lia.
Qed.

Lemma send_request_utf8 id h data : Forall utf8 (texts (send_request id h data)).
Proof.
  unfold texts. cbn [Type_ ErrText_ Pfam Mode Port Local Remote Data User_ Pass send_request option_list app].
  do 8 (apply Forall_cons; split; [by vm_compute|]).
  apply Forall_cons; split; [apply data_roundtrip|constructor].
Qed.

(** C14. The messages of the host protocol cross the wire.  A message, put into JSON and
    into a frame, is refused exactly when its text exceeds 65535 bytes.  Any messages
    written one after the other are dispatched by the other end's read loop as these
    messages, one for one and in order, each of their fields unchanged (a text that is
    not UTF-8 is repaired, every other one is kept); then the loop ends without an error
    when the stream stops between frames, with [ErrUnexpectedEOF] when it stops inside
    one, with the connection's own error when that is what ends it, and with a decoding
    error at the first frame that holds no message, whatever follows it.  A request that
    carries up to ten thousand bytes of user data always fits, and the data arrives
    byte for byte. *)
Theorem messages_cross_wire (ms : list Message) (frames : list gostring) :
  Forall ints_ok ms →
  mapM (λ m, match writeMessage m with inl f => Some f | inr _ => None end) ms = Some frames →
  readLoop (mkReader (concat frames) EOF) = (repaired <$> ms, LoopRead None)
  ∧ (∀ text, readLoop (mkReader (concat frames) (ErrIO text))
             = (repaired <$> ms, LoopRead (Some (ErrIO text))))
  ∧ (∀ m cut rest, writeMessage m = inl (cut ++ rest) → cut ≠ [] → rest ≠ [] →
       readLoop (mkReader (concat frames ++ cut) EOF)
       = (repaired <$> ms, LoopRead (Some ErrUnexpectedEOF)))
  ∧ (∀ p rest e, fits p → Unmarshal p = None →
       readLoop (mkReader (concat frames ++ framed p ++ rest) e) = (repaired <$> ms, LoopDecode p))
  ∧ (∀ m, writeMessage m = inr TooLong ↔ 65535 < Z.of_nat (length (Marshal m)))
  ∧ (∀ m, Forall utf8 (texts m) → repaired m = m)
  ∧ (∀ id h data, Z.of_nat (length data) ≤ 10000 →
       writeMessage (send_request id h data) ≠ inr TooLong
       ∧ repaired (send_request id h data) = send_request id h data
       ∧ DecodeData (deref (Data (send_request id h data))) = data).
Proof.
  intros Hi Hm.
  assert (Forall written ms ∧ frames = framed ∘ Marshal <$> ms) as [Hw ->].
  { apply mapM_Some in Hm. induction Hm as [|m f ms' fs H _ IH]; [done|].
    apply Forall_cons in Hi as [Hi Hi']. destruct (IH Hi') as [H1 H2].
    destruct (writeMessage m) as [f'|] eqn:E; [|done]. injection H as ->.
    destruct (writeMessage_inl m f E) as [Hf ->]. split; [by constructor|].
    by rewrite fmap_cons, <- H2. }
  assert (∀ e, ∃ n, readLoop (mkReader (concat (framed ∘ Marshal <$> ms)) e)
    = (let '(ms', e') := readLoop_fuel (S n) (mkReader [] e) in ((repaired <$> ms) ++ ms', e')))
    as Hend.
  { intros e. destruct (readLoop_all ms [] e Hw) as (n & Hn & E). rewrite app_nil_r in E.
    destruct n as [|n]; [cbn in Hn; lia|]. by exists n. }
  split_and!.
  - destruct (Hend EOF) as [n ->].
    change (readLoop_fuel (S n) (mkReader [] EOF)) with (@nil Message, LoopRead None).
    cbv iota beta. by rewrite app_nil_r.
  - intros text. destruct (Hend (ErrIO text)) as [n ->].
    change (readLoop_fuel (S n) (mkReader [] (ErrIO text)))
      with (@nil Message, LoopRead (Some (ErrIO text))).
    cbv iota beta. by rewrite app_nil_r.
  - intros m cut rest [Hf E]%writeMessage_inl Hc Hr.
    destruct (readLoop_all ms cut EOF Hw) as (n & Hn & ->). destruct n as [|n]; [lia|].
    cbn [readLoop_fuel]. pose proof (readFrame_cut (Marshal m) cut rest Hf (eq_sym E) Hr) as Hcut.
    rewrite decide_False in Hcut by done.
    destruct (readFrame (mkReader cut EOF)) as [[q|e'] r']; [done|]. cbn in Hcut.
    injection Hcut as ->. cbv iota beta. by rewrite app_nil_r.
  - intros p rest e Hf Hp. destruct (readLoop_all ms (framed p ++ rest) e Hw) as (n & Hn & ->).
    destruct n as [|n]; [cbn in Hn; lia|]. rewrite readLoop_step, Hp by done. cbv iota beta. by rewrite app_nil_r.
  - intros m. unfold writeMessage, writeFrame, MaxPayloadLength.
    destruct (Z.ltb_spec 65535 (Z.of_nat (length (Marshal m)))); split; try done; lia.
  - apply repaired_utf8.
  - intros id h data Hl. split_and!.
    + unfold writeMessage, writeFrame, MaxPayloadLength.
      pose proof (send_length id h data). by rewrite (proj2 (Z.ltb_ge _ _)) by lia.
    + apply repaired_utf8, send_request_utf8.
    + apply data_roundtrip.
Qed.

Definition sample_request : Message := send_request 7 2 (bs "hello").

Lemma messages_cross_wire_witness :
  readLoop (mkReader (concat [framed (Marshal sample_request)] ++ framed (bs "{") ++ [zb 0]) EOF)
  = (repaired <$> [sample_request], LoopDecode (bs "{"))
  ∧ bool_decide (repaired <$> [sample_request] = [sample_request]) = true.
Proof.
  destruct (messages_cross_wire [sample_request] [framed (Marshal sample_request)])
    as (_ & _ & _ & H & _).
  - repeat constructor; cbn; unfold in_int64; lia.
  - vm_compute. reflexivity.
  - assert (fits (bs "{")) as Hf by done.
    assert (Unmarshal (bs "{") = None) as Hp by (vm_compute; reflexivity).
    split; [exact (H (bs "{") [zb 0] EOF Hf Hp)|vm_compute; reflexivity].
Defined.

End Codec.
