(* ===== verification/RhpClient.v ===== *)
(** * The host-protocol client ([internal/rhp/client.go])

    Many goroutines call [roundTrip] while one read loop dispatches the frames that
    arrive.  Each call owns a reply channel of capacity one, registered under the
    request id; the client is the shared table, the calls by id, the channels, and
    what has gone in and out.  The methods are functions on it; the interleavings of
    the calls, the read loop and [Close] are its step relation.  The frames are
    messages: the JSON in between is the standard library's. *)
From S2P Require Import Prelude Unicode GoStrings Rhp.
From stdpp Require Import options.
Import RhpWire.
Open Scope Z_scope.

Module Client.

(** ** Calls *)

Inductive call_error :=
| ErrClosed                    (* rhp: client is closed *)
| ErrWrite                     (* the frame could not be written *)
| ErrContext                   (* ctx.Err() *)
| ErrLost                      (* rhp: connection lost while awaiting reply *)
| ErrServer (e : ServerError).
#[export] Instance ServerError_eq_dec : EqDecision ServerError.
Proof. solve_decision. Defined.
#[export] Instance call_error_eq_dec : EqDecision call_error.
Proof. solve_decision. Defined.

(** What [roundTrip] returns; an error reply comes with its message. *)
Definition outcome : Type := option Message * option call_error.

(** A reply channel: [make(chan *Message, 1)]. *)
Record Chan := mkChan { ch_val : option Message; ch_shut : bool }.

Inductive phase :=
| Writing (req : Message)      (* registered, the frame not yet written *)
| Awaiting                     (* in the select *)
| Finished (o : outcome).

(** A push, as the [Handler] method it calls. *)
Inductive push :=
| OnAccept (listener child : Z) (remote local port : gostring)
| OnRecv (handle : Z) (data : gostring)
| OnStatus (handle flags : Z)
| OnClose (handle : Z).

Record Client := mkClient {
  c_nextID : Z;
  c_pending : gset Z;
  c_closed : bool;
  c_done : bool;
  c_err : option io_error;
  c_chans : gmap Z Chan;
  c_calls : gmap Z phase;
  c_sent : list Message;         (* frames written, oldest first *)
  c_read : list Message;         (* frames read, oldest first *)
  c_pushes : list push;          (* handler calls, oldest first *)
  c_stuck : bool }.              (* the read loop blocked, or panicked, on a channel *)

(** [Connect] *)
Definition Connect : Client := mkClient 0 ∅ false false None ∅ ∅ [] [] [] false.

Definition upd_pending g (c : Client) : Client :=
  mkClient (c_nextID c) (g (c_pending c)) (c_closed c) (c_done c) (c_err c) (c_chans c)
    (c_calls c) (c_sent c) (c_read c) (c_pushes c) (c_stuck c).
Definition upd_chans g (c : Client) : Client :=
  mkClient (c_nextID c) (c_pending c) (c_closed c) (c_done c) (c_err c) (g (c_chans c))
    (c_calls c) (c_sent c) (c_read c) (c_pushes c) (c_stuck c).
Definition upd_calls g (c : Client) : Client :=
  mkClient (c_nextID c) (c_pending c) (c_closed c) (c_done c) (c_err c) (c_chans c)
    (g (c_calls c)) (c_sent c) (c_read c) (c_pushes c) (c_stuck c).
Definition upd_sent g (c : Client) : Client :=
  mkClient (c_nextID c) (c_pending c) (c_closed c) (c_done c) (c_err c) (c_chans c)
    (c_calls c) (g (c_sent c)) (c_read c) (c_pushes c) (c_stuck c).
Definition upd_read g (c : Client) : Client :=
  mkClient (c_nextID c) (c_pending c) (c_closed c) (c_done c) (c_err c) (c_chans c)
    (c_calls c) (c_sent c) (g (c_read c)) (c_pushes c) (c_stuck c).
Definition upd_pushes g (c : Client) : Client :=
  mkClient (c_nextID c) (c_pending c) (c_closed c) (c_done c) (c_err c) (c_chans c)
    (c_calls c) (c_sent c) (c_read c) (g (c_pushes c)) (c_stuck c).
Definition set_stuck (c : Client) : Client :=
  mkClient (c_nextID c) (c_pending c) (c_closed c) (c_done c) (c_err c) (c_chans c)
    (c_calls c) (c_sent c) (c_read c) (c_pushes c) true.
Definition set_closed (c : Client) : Client :=
  mkClient (c_nextID c) (c_pending c) true (c_done c) (c_err c) (c_chans c)
    (c_calls c) (c_sent c) (c_read c) (c_pushes c) (c_stuck c).

(** ** Channels *)

(** [ch <- msg; close(ch)]: stuck when the channel is full, shut or missing. *)
Definition chan_reply (id : Z) (m : Message) (c : Client) : Client :=
  match c_chans c !! id with
  | Some (mkChan None false) => upd_chans <[id := mkChan (Some m) true]> c
  | _ => set_stuck c
  end.

(** [close(ch)] *)
Definition chan_close (id : Z) (c : Client) : Client :=
  match c_chans c !! id with
  | Some (mkChan v false) => upd_chans <[id := mkChan v true]> c
  | _ => set_stuck c
  end.

(** ** The read loop *)

(** The handler call of a message without an id. *)
Definition push_of (m : Message) : option push :=
  if decide (Type_ m = TypeAccept) then
    Some (OnAccept (derefHandle (Handle m)) (derefHandle (Child m)) (Remote m) (Local m)
            (deref (Port m)))
  else if decide (Type_ m = TypeRecv) then
    Some (OnRecv (derefHandle (Handle m)) (DecodeData (deref (Data m))))
  else if decide (Type_ m = TypeStatus) then
    Some (OnStatus (derefHandle (Handle m)) (statusFlags m))
  else if decide (Type_ m = TypeClose) then Some (OnClose (derefHandle (Handle m)))
  else None.

Definition dispatch (m : Message) (c : Client) : Client :=
  match ID m with
  | Some id =>
      if decide (id ∈ c_pending c) then chan_reply id m (upd_pending (.∖ {[id]}) c) else c
  | None =>
      match push_of m with
      | Some p => upd_pushes (λ l, l ++ [p]) c
      | None => c
      end
  end.

(** One frame of [readLoop]. *)
Definition read_frame (m : Message) (c : Client) : Client :=
  dispatch m (upd_read (λ l, l ++ [m]) c).

(** The deferred clean-up of [readLoop], for the error that ended it ([EOF] counts as
    none). *)
Definition read_end (e : io_error) (c : Client) : Client :=
  let pending := c_pending c in
  let c1 := mkClient (c_nextID c) ∅ true (c_done c)
              (if decide (e = EOF) then None else Some e) (c_chans c)
              (c_calls c) (c_sent c) (c_read c) (c_pushes c) (c_stuck c) in
  let c2 := foldr chan_close c1 (elements pending) in
  mkClient (c_nextID c2) (c_pending c2) (c_closed c2) true (c_err c2) (c_chans c2)
    (c_calls c2) (c_sent c2) (c_read c2) (c_pushes c2) (c_stuck c2).

(** ** [roundTrip] *)

(** Registering a call; [None] when the client is closed. *)
Definition register (req : Message) (c : Client) : option (Z * Client) :=
  if c_closed c then None
  else
    let id := c_nextID c + 1 in
    Some (id, mkClient id ({[id]} ∪ c_pending c) (c_closed c) (c_done c) (c_err c)
                (<[id := mkChan None false]> (c_chans c))
                (<[id := Writing (with_ID id req)]> (c_calls c))
                (c_sent c) (c_read c) (c_pushes c) (c_stuck c)).

(** [delete(c.pending, id)] and the return with an error *)
Definition abandon (id : Z) (e : call_error) (c : Client) : Client :=
  upd_calls <[id := Finished (None, Some e)]> (upd_pending (.∖ {[id]}) c).

Definition finish (reply : Message) : outcome :=
  if Err reply =? ErrOk then (Some reply, None)
  else (Some reply, Some (ErrServer (mkServerError (Err reply) (ErrText_ reply)))).

(** The receive of the select, when it does not block. *)
Definition receive (id : Z) (c : Client) : option outcome :=
  match c_chans c !! id with
  | Some (mkChan (Some m) _) => Some (finish m)
  | Some (mkChan None true) => Some (None, Some ErrLost)
  | _ => None
  end.

(** ** Requests *)

Definition Authenticate (user pass : gostring) : Message :=
  mkMessage TypeAuth None None None [] None None [] [] None [] [] None None user pass.
Definition Socket : Message :=
  mkMessage TypeSocket None None None [] None None FamilyAX25 ModeStream None [] [] None None [] [].
Definition Bind (handle : Z) (local p : gostring) : Message :=
  mkMessage TypeBind None None None [] (Some handle) None [] [] (port p) local [] None None [] [].
Definition Listen (handle : Z) : Message :=
  mkMessage TypeListen None None None [] (Some handle) None [] [] None [] [] (Some FlagPassive)
    None [] [].
Definition Open (local remote p : gostring) : Message :=
  mkMessage TypeOpen None None None [] None None FamilyAX25 ModeStream (port p) local remote
    (Some FlagActive) None [] [].
Definition Send (handle : Z) (data : gostring) : Message :=
  mkMessage TypeSend None None None [] (Some handle) None [] [] None [] [] None
    (Some (EncodeData data)) [] [].
Definition CloseHandle (handle : Z) : Message :=
  mkMessage TypeClose None None None [] (Some handle) None [] [] None [] [] None None [] [].

(** What [Socket] and [Open] make of the outcome. *)
Definition handle_result (o : outcome) : Z + call_error :=
  match o with
  | (_, Some e) => inr e
  | (Some m, None) => inl (derefHandle (Handle m))
  | (None, None) => inr ErrLost
  end.

(** What [CloseHandle] makes of it: a handle that is already gone is no error. *)
Definition close_result (o : outcome) : option call_error :=
  match o.2 with
  | Some (ErrServer e) => if se_Code e =? ErrInvalidHandle then None else o.2
  | e => e
  end.

(** ** Steps *)

Inductive client_step : Client → Client → Prop :=
(** A goroutine enters [roundTrip] ... *)
| step_register c req id c' : register req c = Some (id, c') → client_step c c'
(** ... writes its frame, or fails to ... *)
| step_written c id req :
    c_calls c !! id = Some (Writing req) →
    client_step c (upd_calls <[id := Awaiting]> (upd_sent (λ l, l ++ [req]) c))
| step_write_failed c id req :
    c_calls c !! id = Some (Writing req) → client_step c (abandon id ErrWrite c)
(** ... and takes one of the two cases of the select. *)
| step_cancelled c id :
    c_calls c !! id = Some Awaiting → client_step c (abandon id ErrContext c)
| step_received c id o :
    c_calls c !! id = Some Awaiting → receive id c = Some o →
    client_step c (upd_calls <[id := Finished o]> c)
(** The read loop handles a frame, or ends. *)
| step_read c m : c_done c = false → client_step c (read_frame m c)
| step_read_end c e : c_done c = false → client_step c (read_end e c)
(** [Close], from anywhere; the read loop ends later. *)
| step_close c : client_step c (set_closed c).

Definition reachable (c : Client) : Prop := rtc client_step Connect c.

End Client.
