(* ===== verification/RhpClientProps.v ===== *)
(** * What the host-protocol client guarantees

    Every call is answered by its own reply or by an error, none hangs once the link
    is lost, the read loop never blocks on a caller, and pushes reach the handler in
    the order they arrived. *)
From S2P Require Import Prelude Unicode GoStrings Rhp RhpClient.
From stdpp Require Import options.
Import RhpWire Client.
Open Scope Z_scope.

(** A channel that has been resolved: by the reply to its call, or by the end of the
    read loop. *)
Definition resolved (c : Client) (id : Z) : Prop :=
  ∃ v, c_chans c !! id = Some (mkChan v true)
  ∧ match v with Some m => ID m = Some id ∧ m ∈ c_read c | None => c_closed c = true end.

Definition call_ok (c : Client) (id : Z) (p : phase) : Prop :=
  match p with
  | Writing req => ID req = Some id ∧ (id ∈ c_pending c ∨ resolved c id)
  | Awaiting => id ∈ c_pending c ∨ resolved c id
  | Finished (Some m, e) => ID m = Some id ∧ m ∈ c_read c ∧ (Some m, e) = finish m
  | Finished (None, e) => is_Some e
  end.

Definition sent_ok (c : Client) : Prop :=
  NoDup (ID <$> c_sent c)
  ∧ ∀ m, m ∈ c_sent c → ∃ id p, ID m = Some id ∧ c_calls c !! id = Some p
      ∧ ∀ req, p ≠ Writing req.

Record inv (c : Client) : Prop := {
  inv_stuck : c_stuck c = false;
  inv_done : c_done c = true → c_closed c = true ∧ c_pending c = ∅;
  inv_pending id : id ∈ c_pending c → c_chans c !! id = Some (mkChan None false);
  inv_fresh id : is_Some (c_calls c !! id) ∨ is_Some (c_chans c !! id) → id ≤ c_nextID c;
  inv_calls id p : c_calls c !! id = Some p → call_ok c id p;
  inv_pushes : c_pushes c
    = omap push_of (List.filter (λ m, bool_decide (ID m = None)) (c_read c));
  inv_sent : sent_ok c }.

Lemma inv_Connect : inv Connect.
Proof. split; try done; [intros id [[? H]|[? H]]; done|split; [apply NoDup_nil_2|set_solver]]. Qed.

(** The state of a call only depends on the table, the channels and the frames read. *)
Lemma call_ok_mono c c' id p :
  (id ∈ c_pending c → id ∈ c_pending c' ∨ resolved c' id) →
  (resolved c id → resolved c' id) → c_read c ⊆ c_read c' →
  call_ok c id p → call_ok c' id p.
Proof.
  intros H1 H2 H3. destruct p as [req| |[[m|] e]]; cbn.
  - intros [? [?|?]]; auto.
  - intros [?|?]; auto.
  - intros (? & ? & ?). split_and!; auto.
  - done.
Qed.

Lemma resolved_same c c' id :
  c_chans c' !! id = c_chans c !! id → c_read c ⊆ c_read c' →
  (c_closed c = true → c_closed c' = true) → resolved c id → resolved c' id.
Proof.
  intros Hc Hr Hd (v & Hv & H). exists v. rewrite Hc. split; [done|].
  destruct v; [destruct H; auto|auto].
Qed.

(** A step of one caller that changes its own phase and may leave the table. *)
Lemma inv_phase c id p p' (gone : bool) :
  inv c → c_calls c !! id = Some p → call_ok c id p' →
  (∀ req, p' ≠ Writing req) → (gone = true → p' ≠ Awaiting) →
  inv (upd_calls <[id := p']> (if gone then upd_pending (.∖ {[id]}) c else c)).
Proof.
  intros Hi Hp Hok Hnw Hg.
  assert (∀ i q, c_calls c !! i = Some q → i ≠ id ∨ gone = false → call_ok c i q →
    call_ok (upd_calls <[id := p']> (if gone then upd_pending (.∖ {[id]}) c else c)) i q) as Hmono.
  { intros i q Hq Hne. apply call_ok_mono; [|by apply resolved_same; destruct gone|by destruct gone].
    intros Hin. left. destruct gone; [|done]. cbn. destruct Hne; [set_solver|done]. }
  split.
  - destruct gone; apply Hi.
  - intros Hd. assert (c_done c = true) as Hd' by (by destruct gone).
    destruct (inv_done c Hi Hd') as [H1 H2]. split; destruct gone; cbn; try done. set_solver.
  - intros i Hin. assert (i ∈ c_pending c) as Hin' by (destruct gone; cbn in Hin; set_solver).
    destruct gone; apply (inv_pending c Hi i Hin').
  - intros i H. assert (is_Some (c_calls c !! i) ∨ is_Some (c_chans c !! i)) as H'.
    { destruct H as [H|H]; [|right; by destruct gone].
      cbn in H. destruct (decide (i = id)) as [->|Hne]; [left; eauto|].
      rewrite lookup_insert_ne in H by done. left. by destruct gone. }
    destruct gone; apply (inv_fresh c Hi i H').
  - intros i q Hq. cbn in Hq. destruct (decide (i = id)) as [->|Hne].
    + rewrite lookup_insert_eq in Hq. injection Hq as <-.
      destruct gone; [|by apply (call_ok_mono c); [auto|by apply resolved_same|done|]].
      destruct p' as [req| |[[m|] e]]; [by destruct (Hnw req)|by destruct Hg|exact Hok|exact Hok].
    + rewrite lookup_insert_ne in Hq by done.
      assert (c_calls c !! i = Some q) as Hq' by (by destruct gone).
      apply Hmono; [done|by left|]. by apply (inv_calls c Hi).
  - destruct gone; apply Hi.
  - destruct (inv_sent c Hi) as [Hn Hs]. split; [by destruct gone|].
    intros m Hm. destruct (Hs m) as (i & q & Hm' & Hq & Hnq); [by destruct gone|].
    destruct (decide (i = id)) as [->|Hne].
    + exists id, p'. cbn. by rewrite lookup_insert_eq.
    + exists i, q. cbn. rewrite lookup_insert_ne by done. split_and!; try done. by destruct gone.
Qed.

Lemma inv_register c req id c' : inv c → register req c = Some (id, c') → inv c'.
Proof.
  intros Hi. unfold register. destruct (c_closed c) eqn:Ec; [done|]. intros [= <- <-].
  set (id := c_nextID c + 1).
  assert (c_done c = false) as Hd.
  { destruct (c_done c) eqn:E; [|done]. destruct (inv_done c Hi E). congruence. }
  assert (c_calls c !! id = None) as Hnc.
  { apply eq_None_not_Some. intros H. specialize (inv_fresh c Hi id (or_introl H)). lia. }
  split; cbn.
  - apply Hi.
  - congruence.
  - intros i [->%elem_of_singleton|Hin]%elem_of_union; [by rewrite lookup_insert_eq|].
    pose proof (inv_pending c Hi i Hin) as Hp.
    rewrite lookup_insert_ne; [done|]. intros <-.
    specialize (inv_fresh c Hi id (or_intror (mk_is_Some _ _ Hp))). lia.
  - intros i [H|H]; (destruct (decide (i = id)) as [->|Hne]; [lia|]);
      rewrite lookup_insert_ne in H by done;
      [specialize (inv_fresh c Hi i (or_introl H))|specialize (inv_fresh c Hi i (or_intror H))]; lia.
  - intros i p. destruct (decide (i = id)) as [->|Hne].
    + rewrite lookup_insert_eq. intros [= <-]. cbn. split; [done|]. left. set_solver.
    + rewrite lookup_insert_ne by done. intros Hp.
      eapply (call_ok_mono c); [|eapply resolved_same| |by apply (inv_calls c Hi)]; cbn; try done.
      * intros Hin. left. set_solver.
      * by rewrite lookup_insert_ne.
      * congruence.
  - apply Hi.
  - destruct (inv_sent c Hi) as [Hn Hs]. split; [done|]. cbn. intros m Hm.
    destruct (Hs m Hm) as (i & q & H1 & H2 & H3). exists i, q.
    rewrite lookup_insert_ne; [done|]. intros <-. fold id in Hnc. congruence.
Qed.

Lemma inv_written c id req :
  inv c → c_calls c !! id = Some (Writing req) →
  inv (upd_calls <[id := Awaiting]> (upd_sent (λ l, l ++ [req]) c)).
Proof.
  intros Hi Hp. destruct (inv_calls c Hi id _ Hp) as [Hid Hok].
  pose proof (inv_phase c id (Writing req) Awaiting false Hi Hp Hok ltac:(done) ltac:(done)) as Hi'.
  destruct (inv_sent c Hi) as [Hn Hs]. split; try apply Hi'.
  destruct (inv_sent _ Hi') as [_ Hs']. cbn in Hs'. split; cbn.
  - rewrite fmap_app. apply NoDup_app. split_and!; [done| |apply NoDup_singleton].
    intros o Ho Hin. apply list_elem_of_singleton in Hin as ->.
    apply list_elem_of_fmap in Ho as (m & Hm & Hin). destruct (Hs m Hin) as (i & q & H1 & H2 & H3).
    assert (i = id) as -> by congruence. rewrite Hp in H2. injection H2 as <-. by destruct (H3 req).
  - intros m [Hm|Hm%list_elem_of_singleton]%elem_of_app; [by apply Hs'|].
    subst m. exists id, Awaiting. by rewrite lookup_insert_eq.
Qed.

(** A frame that only adds to what has been read. *)
Lemma inv_read m c :
  inv c → ID m ≠ None → inv (upd_read (λ l, l ++ [m]) c).
Proof.
  intros Hi Hm. split; try apply Hi.
  - intros i p Hp. apply (call_ok_mono c); [by left| | |by apply (inv_calls c Hi)].
    + apply resolved_same; [done|set_solver|done].
    + cbn. set_solver.
  - cbn. rewrite List.filter_app. cbn. rewrite bool_decide_eq_false_2 by done.
    rewrite app_nil_r. apply Hi.
Qed.

Lemma inv_reply m id c :
  inv c → m ∈ c_read c → ID m = Some id → id ∈ c_pending c →
  inv (chan_reply id m (upd_pending (.∖ {[id]}) c)).
Proof.
  intros Hi Hm Hid Hin. unfold chan_reply. cbn [c_chans upd_pending].
  rewrite (inv_pending c Hi id Hin). split; cbn.
  - apply Hi.
  - intros Hd. destruct (inv_done c Hi Hd) as [H1 H2]. split; [done|]. set_solver.
  - intros i Hi'. rewrite lookup_insert_ne by set_solver. apply (inv_pending c Hi). set_solver.
  - intros i [H|H]; [by apply (inv_fresh c Hi); left|].
    destruct (decide (i = id)) as [->|Hne].
    + apply (inv_fresh c Hi). right. rewrite (inv_pending c Hi id Hin). eauto.
    + rewrite lookup_insert_ne in H by done. apply (inv_fresh c Hi). by right.
  - intros i p Hp. apply (call_ok_mono c); [| |done|by apply (inv_calls c Hi)].
    + intros Hi'. destruct (decide (i = id)) as [->|Hne].
      * right. exists (Some m). cbn. by rewrite lookup_insert_eq.
      * left. cbn. set_solver.
    + intros (v & Hv & H). destruct (decide (i = id)) as [->|Hne].
      * rewrite (inv_pending c Hi id Hin) in Hv. congruence.
      * exists v. cbn. by rewrite lookup_insert_ne.
  - apply Hi.
  - apply Hi.
Qed.

Lemma inv_read_frame m c : inv c → inv (read_frame m c).
Proof.
  intros Hi. unfold read_frame, dispatch. destruct (ID m) as [id|] eqn:Hid.
  - pose proof (inv_read m c Hi ltac:(congruence)) as Hi'. cbn [c_pending upd_read].
    case_decide as Hin; [|done]. apply inv_reply; [done| |done|done]. cbn. set_solver.
  - assert (∀ pu, push_of m = pu →
      inv (upd_pushes (λ l, l ++ option_list pu) (upd_read (λ l, l ++ [m]) c))) as H.
    { intros pu Hpu. split; try apply Hi.
      - intros i p Hp. apply (call_ok_mono c); [by left| | |by apply (inv_calls c Hi)].
        + apply resolved_same; [done|set_solver|done].
        + cbn. set_solver.
      - cbn. rewrite List.filter_app. cbn. rewrite bool_decide_eq_true_2 by done.
        rewrite omap_app. cbn. rewrite Hpu. rewrite (inv_pushes c Hi). by destruct pu. }
    destruct (push_of m) as [pu|] eqn:Hpu; specialize (H _ eq_refl); [done|].
    cbn [option_list] in H. unfold upd_pushes in H. rewrite app_nil_r in H. exact H.
Qed.

Lemma close_all l : ∀ c,
  NoDup l → (∀ i, i ∈ l → c_chans c !! i = Some (mkChan None false)) →
  let c' := foldr chan_close c l in
  c' = upd_chans (λ _, c_chans c') c
  ∧ ∀ i, c_chans c' !! i = if decide (i ∈ l) then Some (mkChan None true) else c_chans c !! i.
Proof.
  induction l as [|a l IH]; intros c Hn Hl; [by destruct c|].
  apply NoDup_cons in Hn as [Ha Hn].
  destruct (IH c Hn) as [E1 E2]; [intros; apply Hl; set_solver|]. cbn zeta in *. cbn [foldr].
  set (c1 := foldr chan_close c l) in *.
  assert (chan_close a c1 = upd_chans <[a := mkChan None true]> c1) as ->.
  { unfold chan_close. rewrite E2, decide_False by done. by rewrite Hl by set_solver. }
  split; [rewrite E1 at 1; by destruct c|]. intros i. cbn.
  destruct (decide (i = a)) as [->|Hne].
  - by rewrite lookup_insert_eq, decide_True by set_solver.
  - rewrite lookup_insert_ne, E2 by done. by destruct (decide (i ∈ l)), (decide (i ∈ a :: l)); set_solver.
Qed.

Lemma inv_read_end e c : inv c → inv (read_end e c).
Proof.
  intros Hi. unfold read_end. cbn zeta.
  match goal with |- context [foldr chan_close ?c1 ?l] =>
    destruct (close_all l c1) as [E1 E2];
      [apply NoDup_elements|intros i Hin; by apply (inv_pending c Hi), elem_of_elements|];
    set (c2 := foldr chan_close c1 l) in * end.
  cbn in E2. rewrite E1. cbn. split; cbn.
  - apply Hi.
  - done.
  - set_solver.
  - intros i [H|H]; [by apply (inv_fresh c Hi); left|]. rewrite E2 in H. case_decide as Hin.
    + apply elem_of_elements in Hin. apply (inv_fresh c Hi). right.
      rewrite (inv_pending c Hi i Hin). eauto.
    + apply (inv_fresh c Hi). by right.
  - intros i p Hp. apply (call_ok_mono c); [| |done|by apply (inv_calls c Hi)].
    + intros Hin. right. exists None. cbn. rewrite E2, decide_True by (by apply elem_of_elements). done.
    + intros (v & Hv & H). exists v. cbn. rewrite E2, decide_False; [by destruct v|].
      intros Hin%elem_of_elements. rewrite (inv_pending c Hi i Hin) in Hv. congruence.
  - apply Hi.
  - apply Hi.
Qed.

Lemma receive_ok c id o :
  inv c → c_calls c !! id = Some Awaiting → receive id c = Some o → call_ok c id (Finished o).
Proof.
  intros Hi Hp Hr. unfold receive in Hr. destruct (inv_calls c Hi id _ Hp) as [Hin|(v & Hv & H)].
  - by rewrite (inv_pending c Hi id Hin) in Hr.
  - rewrite Hv in Hr. destruct v as [m|]; injection Hr as <-; [|by eexists].
    destruct H as [H1 H2].
    assert (finish m = (Some m, (finish m).2)) as E by (unfold finish; by destruct (Err m =? ErrOk)).
    rewrite E. by split_and!.
Qed.

Lemma inv_step c c' : inv c → client_step c c' → inv c'.
Proof.
  intros Hi Hs. revert Hi.
  destruct Hs as [c0 req id c1 H|c0 id req H|c0 id req H|c0 id H|c0 id o H Hr|c0 m H|c0 e H|c0];
    intros Hi.
  - by eapply inv_register.
  - by apply inv_written.
  - apply (inv_phase c0 id (Writing req) _ true); try done. by eexists.
  - apply (inv_phase c0 id Awaiting _ true); try done. by eexists.
  - apply (inv_phase c0 id Awaiting _ false); try done. by apply receive_ok.
  - by apply inv_read_frame.
  - by apply inv_read_end.
  - split; try apply Hi; cbn.
    + intros Hd. split; [done|]. by apply (inv_done c0 Hi).
    + intros i p Hp. apply (call_ok_mono c0); [by left|by apply resolved_same|done|].
      by apply (inv_calls c0 Hi).
Qed.

Lemma reachable_inv c : reachable c → inv c.
Proof.
  unfold reachable. intros H. pose proof inv_Connect as Hi. revert Hi.
  induction H; eauto using inv_step.
Qed.

(** ** The main theorems *)

(** C35. Calls and replies.  In every interleaving of callers, read loop and [Close]:
    the ids on the requests written are pairwise different; a call that has returned a
    message got a frame that was read, carrying the id of its own request, and reports
    an error exactly when that frame holds a non-zero error code; a call that returned
    no message reports an error; and once the read loop is gone every call still in
    the select has an answer waiting for it, so none hangs, while new calls are
    refused. *)
Theorem calls_answered c :
  reachable c →
  NoDup (ID <$> c_sent c)
  ∧ (∀ id m e, c_calls c !! id = Some (Finished (Some m, e)) →
       ID m = Some id ∧ m ∈ c_read c
       ∧ e = (if Err m =? ErrOk then None
              else Some (ErrServer (mkServerError (Err m) (ErrText_ m)))))
  ∧ (∀ id e, c_calls c !! id = Some (Finished (None, e)) → e ≠ None)
  ∧ (c_done c = true → (∀ req, register req c = None)
     ∧ ∀ id, c_calls c !! id = Some Awaiting →
         ∃ o, receive id c = Some o ∧ client_step c (upd_calls <[id := Finished o]> c)).
Proof.
  intros Hi%reachable_inv. split_and!.
  - apply (inv_sent c Hi).
  - intros id m e H. destruct (inv_calls c Hi id _ H) as (H1 & H2 & H3). split_and!; [done|done|].
    unfold finish in H3. by destruct (Err m =? ErrOk); injection H3.
  - intros id e H. destruct (inv_calls c Hi id _ H) as [e' ->]. done.
  - intros Hd. destruct (inv_done c Hi Hd) as [Hc Hp]. split.
    + intros req. unfold register. by rewrite Hc.
    + intros id Ha. assert (∃ o, receive id c = Some o) as [o Ho].
      { destruct (inv_calls c Hi id _ Ha) as [Hin|(v & Hv & _)]; [set_solver|].
        unfold receive. rewrite Hv. destruct v; eauto. }
      exists o. split; [done|]. by apply step_received.
Qed.

(** A run: [Socket] is answered, a push arrives, a [Listen] is cut off by the end of
    the stream. *)
Definition sample_reply : Message :=
  mkMessage (bs "socketReply") (Some 1) None (Some 0) [] (Some 7) None [] [] None [] [] None None [] [].
Definition sample_push : Message :=
  mkMessage TypeRecv None (Some 4) None [] (Some 7) None [] [] None [] [] None (Some (bs "hi")) [] [].
Definition registered (req : Message) (c : Client) : Client :=
  match register req c with Some (_, c') => c' | None => c end.
Definition sample_s1 : Client := registered Socket Connect.
Definition sample_s2 : Client :=
  upd_calls <[1 := Awaiting]> (upd_sent (λ l, l ++ [with_ID 1 Socket]) sample_s1).
Definition sample_s3 : Client := read_frame sample_reply sample_s2.
Definition sample_s4 : Client := upd_calls <[1 := Finished (finish sample_reply)]> sample_s3.
Definition sample_s5 : Client := registered (Listen 7) sample_s4.
Definition sample_s6 : Client :=
  upd_calls <[2 := Awaiting]> (upd_sent (λ l, l ++ [with_ID 2 (Listen 7)]) sample_s5).
Definition sample_s7 : Client := read_frame sample_push sample_s6.
Definition sample_run : Client := read_end EOF sample_s7.

Lemma registered_step req id c : fst <$> register req c = Some id → client_step c (registered req c).
Proof.
  unfold registered. intros H. destruct (register req c) as [[i c']|] eqn:E; [|done].
  by eapply step_register.
Qed.

Lemma sample_run_reachable : reachable sample_run.
Proof.
  apply (rtc_r _ sample_s7); [|apply step_read_end; vm_compute; reflexivity].
  apply (rtc_r _ sample_s6); [|apply step_read; vm_compute; reflexivity].
  apply (rtc_r _ sample_s5); [|apply step_written; vm_compute; reflexivity].
  apply (rtc_r _ sample_s4); [|apply (registered_step _ 2); vm_compute; reflexivity].
  apply (rtc_r _ sample_s3); [|apply step_received; vm_compute; reflexivity].
  apply (rtc_r _ sample_s2); [|apply step_read; vm_compute; reflexivity].
  apply (rtc_r _ sample_s1); [|apply step_written; vm_compute; reflexivity].
  apply rtc_once, (registered_step _ 1). vm_compute. reflexivity.
Qed.

Lemma calls_answered_witness :
  reachable sample_run ∧ c_calls sample_run !! 2 = Some Awaiting
  ∧ (∃ o, receive 2 sample_run = Some o) ∧ register Socket sample_run = None.
Proof.
  pose proof sample_run_reachable as Hr. split; [exact Hr|].
  assert (c_calls sample_run !! 2 = Some Awaiting) as Ha by (vm_compute; reflexivity).
  split; [exact Ha|].
  destruct (calls_answered sample_run Hr) as (_ & _ & _ & H).
  assert (c_done sample_run = true) as Hd by (vm_compute; reflexivity).
  destruct (H Hd) as [H1 H2]. split; [|apply H1].
  destruct (H2 2 Ha) as (o & Ho & _). by exists o.
Defined.

(** The read loop.  It never blocks on a reply channel and never closes or sends on
    a closed one, whatever the callers do; and the handler is called for exactly the
    pushes read (frames without an id of a known push type), in order, with the data
    bytes decoded. *)
Theorem read_loop_runs c :
  reachable c →
  c_stuck c = false
  ∧ c_pushes c = omap push_of (List.filter (λ m, bool_decide (ID m = None)) (c_read c)).
Proof. intros Hi%reachable_inv. split; apply Hi. Qed.

Lemma read_loop_witness :
  reachable sample_run ∧ c_stuck sample_run = false ∧ c_pushes sample_run = [OnRecv 7 (bs "hi")].
Proof.
  pose proof sample_run_reachable as Hr. destruct (read_loop_runs sample_run Hr) as [H1 H2].
  split; [exact Hr|]. split; [exact H1|]. rewrite H2. vm_compute. reflexivity.
Defined.
