(* ===== verification/Config.v ===== *)
(** * The runtime configuration ([internal/config/config.go])

    The environment is a finite map; everything [Load] reads from it, with each parse
    error as a value.  The connect scripts it produces are those of [PeerLink.v], the
    callsign sets those of [PeerAllow.v]. *)
From S2P Require Import Prelude Unicode GoStrings ChatModel ChatSeen ChatStore ChatHub.
From S2P Require Import PeerProto PeerAllow PeerRouter PeerLink.
From stdpp Require Import options.
Open Scope Z_scope.

Module Conf.

Definition DefaultSSID : Z := 4.
Definition DefaultWebPort : Z := 18093.
Definition DefaultRHPHost : gostring := bs "127.0.0.1".
Definition DefaultRHPPort : Z := 9000.
Definition DefaultState : gostring := bs "/var/lib/packetnet/apps/bpqchat".

Record RFPeer := mkRFPeer {
  rf_PeerCall : gostring; rf_OpenTo : gostring; rf_OpenPort : gostring;
  rf_Script : list ScriptStep }.
Record Peer := mkPeer { p_Call : gostring; p_Addr : gostring }.

Record Config := mkConfig {
  AppCallsign : gostring; NodeCallsign : gostring; SSID : Z;
  RHPHost : gostring; RHPPort : Z; RHPUser : gostring; RHPPass : gostring;
  StateDir : gostring; WebPort : Z;
  Peers : list Peer; RFPeers : list RFPeer;
  PeerListen : gostring; PeerAllow : list gostring }.

Inductive config_error :=
| ErrNoCallsign
| ErrSSID (v : gostring)
| ErrPeerEntry (entry : gostring)        (* CALLSIGN@host:port, rf:... or via:... *)
| ErrRFEntry (entry : gostring)
| ErrViaCall (entry : gostring)
| ErrViaOpen (entry : gostring)
| ErrViaStep (entry : gostring)
| ErrViaForm (entry : gostring)
| ErrAllowEntry (entry : gostring).

(** ** Callsign sets *)

Definition canon (s : gostring) : gostring := ToUpper (TrimSpace s).

(** The [add] closure of [EffectiveAllow] and [DialedPeerCallsigns], over a list. *)
Fixpoint dedup (l : list gostring) (out : list gostring) : list gostring :=
  match l with
  | [] => out
  | s :: l' =>
      let cs := canon s in
      if decide (cs = []) then dedup l' out
      else if decide (cs ∈ out) then dedup l' out
      else dedup l' (out ++ [cs])
  end.

Definition EffectiveAllow (c : Config) : list gostring :=
  dedup (PeerAllow c ++ (p_Call <$> Peers c) ++ (rf_PeerCall <$> RFPeers c)) [].
Definition DialedPeerCallsigns (c : Config) : list gostring :=
  dedup ((p_Call <$> Peers c) ++ (rf_PeerCall <$> RFPeers c)) [].

(** ** The callsign on air *)

Definition ChatCallsign (c : Config) : gostring :=
  if SSID c <=? 0 then NodeCallsign c else NodeCallsign c ++ bs "-" ++ itoa (SSID c).
Definition BoundCallsign (c : Config) : gostring :=
  if decide (AppCallsign c ≠ []) then AppCallsign c else ChatCallsign c.
Definition NodeOwnsCallsign (c : Config) : bool := bool_decide (AppCallsign c ≠ []).

Definition baseCall (callsign : gostring) : gostring :=
  match IndexByte callsign (zb 45) with Some i => take i callsign | None => callsign end.

(** ** The allow-list entries *)

(** The runes a callsign base may have. *)
Definition base_rune (r : rune) : bool :=
  ((65 <=? r) && (r <=? 90)) || ((48 <=? r) && (r <=? 57)).

Definition isValidCallsign (cs : gostring) : bool :=
  let '(base, ssid, hasSSID) := Cut cs (zb 45) in
  if decide (base = []) then false
  else if negb (forallb base_rune (runes base)) then false
  else if hasSSID : bool then
    match Atoi ssid with
    | Some n => negb ((n <? 0) || (15 <? n))
    | None => false
    end
  else true.

(** [r == ',' || r == ' ' || r == '\t' || r == '\n'] *)
Definition entry_sep (r : rune) : bool := (r =? 44) || (r =? 32) || (r =? 9) || (r =? 10).

Fixpoint parseAllow_loop (entries : list gostring) (out : list gostring)
    : list gostring + config_error :=
  match entries with
  | [] => inl out
  | entry :: entries' =>
      let cs := canon entry in
      if decide (cs = []) then parseAllow_loop entries' out
      else if isValidCallsign cs then parseAllow_loop entries' (out ++ [cs])
      else inr (ErrAllowEntry entry)
  end.

Definition parseAllow (s0 : gostring) : list gostring + config_error :=
  let s := TrimSpace s0 in
  if decide (s = []) then inl [] else parseAllow_loop (FieldsFunc entry_sep s) [].

(** ** The outbound peers *)

(** The loop of [parseVia] over the steps. *)
Fixpoint via_steps (fields : list gostring) : list ScriptStep :=
  match fields with
  | [] => []
  | f :: fields' =>
      if decide (f = []) then via_steps fields'
      else
        let '(exp, snd, ok) := Cut f (zb 61) in
        (if ok : bool then mkScriptStep (TrimSpace exp) (TrimSpace snd)
         else mkScriptStep [] (TrimSpace f)) :: via_steps fields'
  end.

Definition parseVia (spec entry : gostring) : RFPeer + config_error :=
  let fields := TrimSpace <$> Split spec (zb 124) in
  let peerCall := ToUpper (default [] (head fields)) in
  if decide (peerCall = []) then inr (ErrViaCall entry)
  else match fields with
  | [_] =>
      let base := baseCall peerCall in
      inl (mkRFPeer peerCall base []
             [mkScriptStep (base ++ bs ">") (bs "C " ++ peerCall)])
  | _ :: open :: ((_ :: _) as rest) =>
      let openTo := ToUpper open in
      if decide (openTo = []) then inr (ErrViaOpen entry)
      else match via_steps rest with
           | [] => inr (ErrViaStep entry)
           | script => inl (mkRFPeer peerCall openTo [] script)
           end
  | _ => inr (ErrViaForm entry)
  end.

(** One entry: nothing, an IP peer or an RF peer. *)
Inductive parsed := Blank | IPPeer (p : Peer) | RFEntry (p : RFPeer).

Definition parse_entry (entry0 : gostring) : parsed + config_error :=
  let entry := TrimSpace entry0 in
  if decide (entry = []) then inl Blank
  else
    let '(rf, is_rf) := CutPrefix entry (bs "rf:") in
    if is_rf : bool then
      let call := ToUpper (TrimSpace rf) in
      if decide (call = []) then inr (ErrRFEntry entry)
      else inl (RFEntry (mkRFPeer call call [] []))
    else
      let '(spec, is_via) := CutPrefix entry (bs "via:") in
      if is_via : bool then
        match parseVia spec entry with inl p => inl (RFEntry p) | inr e => inr e end
      else
        let '(call, addr, ok) := Cut entry (zb 64) in
        let call := TrimSpace call in
        let addr := TrimSpace addr in
        if negb ok || bool_decide (call = []) || bool_decide (addr = [])
        then inr (ErrPeerEntry entry)
        else inl (IPPeer (mkPeer (ToUpper call) addr)).

Fixpoint parsePeers_loop (entries : list gostring) (peers : list Peer) (rfPeers : list RFPeer)
    : (list Peer * list RFPeer) + config_error :=
  match entries with
  | [] => inl (peers, rfPeers)
  | entry :: entries' =>
      match parse_entry entry with
      | inr e => inr e
      | inl Blank => parsePeers_loop entries' peers rfPeers
      | inl (IPPeer p) => parsePeers_loop entries' (peers ++ [p]) rfPeers
      | inl (RFEntry p) => parsePeers_loop entries' peers (rfPeers ++ [p])
      end
  end.

Definition parsePeers (s0 : gostring) : (list Peer * list RFPeer) + config_error :=
  let s := TrimSpace s0 in
  if decide (s = []) then inl ([], []) else parsePeers_loop (Split s (zb 44)) [] [].

(** ** Load *)

Abbreviation Env := (gmap gostring gostring).
Definition Getenv (env : Env) (key : gostring) : gostring := default [] (env !! key).

Definition envOr (env : Env) (key def : gostring) : gostring :=
  let v := TrimSpace (Getenv env key) in if decide (v ≠ []) then v else def.
Definition envIntOr (env : Env) (key : gostring) (def : Z) : Z :=
  let v := TrimSpace (Getenv env key) in
  if decide (v ≠ []) then default def (Atoi v) else def.

(** [PDN_BPQCHAT_SSID] *)
Definition load_ssid (env : Env) : Z + config_error :=
  let v := Getenv env (bs "PDN_BPQCHAT_SSID") in
  if decide (v = []) then inl DefaultSSID
  else match Atoi v with
       | Some n => if (n <? 0) || (15 <? n) then inr (ErrSSID v) else inl n
       | None => inr (ErrSSID v)
       end.

Definition Load (env : Env) : Config + config_error :=
  let app := ToUpper (TrimSpace (Getenv env (bs "PDN_APP_CALLSIGN"))) in
  let node := TrimSpace (Getenv env (bs "PDN_NODE_CALLSIGN")) in
  if decide (app = [] ∧ node = []) then inr ErrNoCallsign
  else match load_ssid env with
  | inr e => inr e
  | inl ssid =>
      match parsePeers (Getenv env (bs "PDN_BPQCHAT_PEERS")) with
      | inr e => inr e
      | inl (peers, rfPeers) =>
          match parseAllow (Getenv env (bs "PDN_BPQCHAT_PEER_ALLOW")) with
          | inr e => inr e
          | inl allow =>
              inl (mkConfig app node ssid
                     (envOr env (bs "PDN_RHP_HOST") DefaultRHPHost)
                     (envIntOr env (bs "PDN_RHP_PORT") DefaultRHPPort)
                     (Getenv env (bs "PDN_RHP_USER")) (Getenv env (bs "PDN_RHP_PASS"))
                     (envOr env (bs "PDN_APP_STATE") DefaultState)
                     (envIntOr env (bs "PDN_WEB_PORT") DefaultWebPort)
                     peers rfPeers
                     (TrimSpace (Getenv env (bs "PDN_BPQCHAT_PEER_LISTEN"))) allow)
          end
      end
  end.

End Conf.
