(* ===== verification/ConfigProps.v ===== *)
(** * What the configuration guarantees

    The callsign sets the daemon is started with, the limits a loaded configuration
    respects, and the round trip of the peer list. *)
From S2P Require Import Prelude Unicode GoStrings ChatModel ChatSeen ChatStore ChatHub.
From S2P Require Import PeerProto PeerAllow PeerRouter PeerLink Config.
From stdpp Require Import options.
Import Conf.
Open Scope Z_scope.

(** ** Callsign sets *)

Lemma dedup_spec l : ∀ out,
  NoDup out → NoDup (dedup l out)
  ∧ ∀ c, c ∈ dedup l out ↔ c ∈ out ∨ (c ≠ [] ∧ c ∈ canon <$> l).
Proof.
  induction l as [|s l IH]; intros out Hn; cbn [dedup]; [split; [done|set_solver]|].
  rewrite fmap_cons. case_decide as E; [|case_decide as Ei].
  - destruct (IH out Hn) as [H1 H2]. split; [done|]. intros c. rewrite H2. set_solver.
  - destruct (IH out Hn) as [H1 H2]. split; [done|]. intros c. rewrite H2. set_solver.
  - destruct (IH (out ++ [canon s])) as [H1 H2].
    { apply NoDup_app. split_and!; [done|set_solver|apply NoDup_singleton]. }
    split; [done|]. intros c. rewrite H2. set_solver.
Qed.

(** The gate the daemon starts with.  The allow-list [main] builds on a first run,
    seeded with the configured entries and with the dialled peers pinned, admits
    exactly the callsigns of [EffectiveAllow], which lists each of them once in
    canonical form; in particular with nothing configured it admits nobody, and every
    peer we dial is admitted. *)
Theorem configured_gate c x :
  let gate := Pin (DialedPeerCallsigns c) (Some (NewAllowList (PeerAllow c))) in
  Allowed gate x = bool_decide (canon x ∈ EffectiveAllow c)
  ∧ NoDup (EffectiveAllow c)
  ∧ (∀ e, e ∈ EffectiveAllow c → e ≠ [] ∧ canon e = e)
  ∧ (x ∈ p_Call <$> Peers c → canon x ≠ [] → Allowed gate x = true)
  ∧ (x ∈ rf_PeerCall <$> RFPeers c → canon x ≠ [] → Allowed gate x = true).
Proof.
  intros gate.
  destruct (dedup_spec (PeerAllow c ++ (p_Call <$> Peers c) ++ (rf_PeerCall <$> RFPeers c)) [])
    as [Hn He]; [apply NoDup_nil_2|].
  destruct (dedup_spec ((p_Call <$> Peers c) ++ (rf_PeerCall <$> RFPeers c)) [])
    as [_ Hd]; [apply NoDup_nil_2|].
  assert (∀ e, e ∈ DialedPeerCallsigns c → canon e = e) as Hcan.
  { intros e [|[_ (s & -> & _)%list_elem_of_fmap]]%Hd; [set_solver|]. apply normCallsign_idemp. }
  assert (normCallsign <$> DialedPeerCallsigns c = DialedPeerCallsigns c) as Hfix.
  { clear -Hcan. induction (DialedPeerCallsigns c) as [|a l IH]; [done|].
    rewrite fmap_cons, IH by set_solver. f_equal. apply Hcan. set_solver. }
  assert (Allowed gate x = true ↔ canon x ∈ EffectiveAllow c) as Hiff.
  { unfold gate, Allowed, Pin, NewAllowList. cbn [al_allowed al_pinned].
    change (normCallsign x) with (canon x). rewrite He.
    case_decide as E0; [split; [done|set_solver]|].
    assert (canon x ∈ canon_into (DialedPeerCallsigns c) ∅
            ↔ canon x ∈ DialedPeerCallsigns c) as Hp.
    { rewrite canon_into_elem, Hfix. set_solver. }
    pose proof (canon_into_elem (PeerAllow c) ∅ (canon x)) as Ha.
    rewrite !fmap_app in *. case_decide as Ea.
    - split; [|done]. intros _. set_solver.
    - rewrite bool_decide_eq_true, Hp, Hd. set_solver. }
  split_and!.
  - apply eq_true_iff_eq. by rewrite Hiff, bool_decide_eq_true.
  - done.
  - intros e [|[Hne (s & -> & _)%list_elem_of_fmap]]%He; [set_solver|].
    split; [done|]. apply normCallsign_idemp.
  - intros Hx Hc. apply Hiff, He. right. split; [done|]. set_solver.
  - intros Hx Hc. apply Hiff, He. right. split; [done|]. set_solver.
Qed.

(** ** ASCII text *)

(** The bytes a configured callsign can have. *)
Definition call_byte (b : byte) : Prop :=
  base_rune (bz b) = true ∨ bz b = 45 ∨ bz b = 43.
Abbreviation call_text := (Forall call_byte).

Lemma base_rune_range r : base_rune r = true → 48 ≤ r ≤ 90.
Proof. unfold base_rune. rewrite orb_true_iff, !andb_true_iff, !Z.leb_le. lia. Qed.

Lemma call_byte_range b : call_byte b → 43 ≤ bz b ≤ 90 ∧ bz b ≠ 44.
Proof. unfold call_byte. intros [H%base_rune_range|[H|H]]; lia. Qed.

Lemma call_ascii s : call_text s → ascii s.
Proof. intros H. refine (Forall_impl _ _ _ H _). intros b Hb%call_byte_range. lia. Qed.

Lemma call_p_word (p : rune → bool) s :
  (∀ r, 43 ≤ r ≤ 90 → r ≠ 44 → p r = false) → s ≠ [] → call_text s → p_word p s.
Proof.
  intros Hp Hs Hc. split; [done|]. rewrite (runes_ascii s) by (by apply call_ascii).
  apply Forall_fmap. refine (Forall_impl _ _ _ Hc _). intros b Hb%call_byte_range.
  apply Hp; lia.
Qed.

Lemma call_word s : s ≠ [] → call_text s → is_word s.
Proof.
  apply call_p_word. intros r Hr _. rewrite is_space_ascii by lia.
  apply orb_false_iff. rewrite andb_false_iff, !Z.leb_gt, Z.eqb_neq. lia.
Qed.

Lemma call_storable s : s ≠ [] → call_text s → p_word allow_sep s.
Proof.
  apply call_p_word. intros r Hr Hn. unfold allow_sep.
  repeat (apply orb_false_iff; split); apply Z.eqb_neq; lia.
Qed.

Lemma atoi_digits_text s : ∀ acc v, atoi_digits acc s = Some v → Forall (λ b, 48 ≤ bz b ≤ 57) s.
Proof.
  induction s as [|b s IH]; intros acc v H; [done|]. cbn in H.
  destruct (in_range 48 57 b) eqn:E; [|done]. apply in_range_true in E.
  constructor; [done|]. by eapply IH.
Qed.

Lemma Atoi_text s v : Atoi s = Some v → call_text s.
Proof.
  assert (∀ t, Forall (λ b, 48 ≤ bz b ≤ 57) t → call_text t) as Hd.
  { intros t Ht. refine (Forall_impl _ _ _ Ht _). intros b Hb. left. unfold base_rune.
    apply orb_true_iff. right. rewrite andb_true_iff, !Z.leb_le. lia. }
  unfold Atoi. destruct s as [|b s]; [done|].
  destruct (Z.eqb_spec (bz b) 45); [|destruct (Z.eqb_spec (bz b) 43)].
  - destruct s as [|c s]; [done|]. destruct (atoi_digits 0 (c :: s)) eqn:E; [|done]. intros _.
    constructor; [by right; left|]. by eapply Hd, atoi_digits_text.
  - destruct s as [|c s]; [done|]. destruct (atoi_digits 0 (c :: s)) eqn:E; [|done]. intros _.
    constructor; [by right; right|]. by eapply Hd, atoi_digits_text.
  - destruct (atoi_digits 0 (b :: s)) eqn:E; [|done]. intros _. by eapply Hd, atoi_digits_text.
Qed.

Lemma Cut_inv s c a b ok : Cut s c = (a, b, ok) → s = if ok : bool then a ++ c :: b else a.
Proof.
  destruct (decide (c ∈ s)) as [Hin|Hin].
  - apply list_elem_of_split_l in Hin as (x & y & -> & Hx). rewrite Cut_app by done.
    by intros [= <- <- <-].
  - rewrite Cut_none by done. by intros [= <- <- <-].
Qed.

Lemma valid_call_text cs : isValidCallsign cs = true → cs ≠ [] ∧ call_text cs.
Proof.
  unfold isValidCallsign. destruct (Cut cs (zb 45)) as [[base ssid] ok] eqn:E.
  apply Cut_inv in E. case_decide as Hb; [done|].
  destruct (forallb base_rune (runes base)) eqn:Hr; [|done]. cbn [negb].
  rewrite forallb_forall in Hr.
  assert (ascii base) as Ha.
  { apply ascii_of_runes, Forall_forall. intros r Hin. apply list_elem_of_In, Hr in Hin.
    apply base_rune_range in Hin. lia. }
  assert (call_text base) as Hbase.
  { apply Forall_forall. intros b Hin. left. apply Hr, list_elem_of_In.
    rewrite runes_ascii by done. by apply list_elem_of_fmap_2. }
  destruct ok.
  - destruct (Atoi ssid) as [n|] eqn:En; [|done]. intros _. subst cs.
    split; [by destruct base|]. apply Forall_app. split; [done|]. constructor; [by right; left|].
    by eapply Atoi_text.
  - intros _. by subst cs.
Qed.

Lemma parseAllow_loop_ok entries : ∀ out l,
  parseAllow_loop entries out = inl l →
  Forall (λ c, isValidCallsign c = true ∧ canon c = c) out →
  Forall (λ c, isValidCallsign c = true ∧ canon c = c) l.
Proof.
  induction entries as [|e entries IH]; intros out l; cbn; [by intros [= <-]|].
  case_decide; [apply IH|]. destruct (isValidCallsign (canon e)) eqn:Ev; [|done].
  intros Hl Ho. apply (IH _ _ Hl), Forall_app. split; [done|]. constructor; [|done].
  split; [done|]. apply normCallsign_idemp.
Qed.

Lemma parseAllow_ok s l :
  parseAllow s = inl l → Forall (λ c, isValidCallsign c = true ∧ canon c = c) l.
Proof.
  unfold parseAllow. case_decide; [by intros [= <-]|].
  intros Hl. by apply (parseAllow_loop_ok _ _ _ Hl).
Qed.

(** ** Loading *)

Lemma ToUpper_nonempty s : s ≠ [] → ToUpper s ≠ [].
Proof. intros H E. by apply H, (str_map_empty_iff rune_upper). Qed.

Definition rf_ok (p : RFPeer) : Prop :=
  rf_PeerCall p ≠ [] ∧ (rf_OpenTo p = rf_PeerCall p ∧ rf_Script p = [] ∨ rf_Script p ≠ []).
Definition ip_ok (p : Conf.Peer) : Prop := p_Call p ≠ [] ∧ p_Addr p ≠ [].

Lemma parseVia_ok spec entry p : parseVia spec entry = inl p → rf_ok p.
Proof.
  unfold parseVia. case_decide as Hc; [done|].
  destruct (TrimSpace <$> Split spec (zb 124)) as [|a [|b [|d rest]]]; try done.
  - intros [= <-]. split; [done|]. by right.
  - case_decide; [done|]. destruct (via_steps (d :: rest)) eqn:E; [done|]. intros [= <-].
    split; [done|]. by right.
Qed.

Lemma parse_entry_ok e x :
  parse_entry e = inl x →
  match x with Blank => True | IPPeer p => ip_ok p | RFEntry p => rf_ok p end.
Proof.
  unfold parse_entry. case_decide; [by intros [= <-]|].
  destruct (CutPrefix (TrimSpace e) (bs "rf:")) as [rf [|]].
  { case_decide; [done|]. intros [= <-]. split; [done|]. by left. }
  destruct (CutPrefix (TrimSpace e) (bs "via:")) as [spec [|]].
  { destruct (parseVia spec (TrimSpace e)) as [p|] eqn:E; [|done]. intros [= <-].
    by eapply parseVia_ok. }
  destruct (Cut (TrimSpace e) (zb 64)) as [[call addr] ok].
  destruct (negb ok || _ || _) eqn:Eb; [done|]. intros [= <-]. bools.
  split; [by apply ToUpper_nonempty|done].
Qed.

(** The loop succeeds exactly when every entry parses, and collects them in order. *)
Definition entry_ip (x : parsed) : option Conf.Peer := match x with IPPeer p => Some p | _ => None end.
Definition entry_rf (x : parsed) : option RFPeer := match x with RFEntry p => Some p | _ => None end.

Lemma parsePeers_loop_spec entries : ∀ ps rs,
  match mapM (λ e, match parse_entry e with inl x => Some x | inr _ => None end) entries with
  | Some xs => parsePeers_loop entries ps rs = inl (ps ++ omap entry_ip xs, rs ++ omap entry_rf xs)
      ∧ Forall (λ x, match x with Blank => True | IPPeer p => ip_ok p | RFEntry p => rf_ok p end) xs
  | None => ∃ e, parsePeers_loop entries ps rs = inr e
  end.
Proof.
  induction entries as [|e entries IH]; intros ps rs; cbn [mapM parsePeers_loop].
  - cbn. by rewrite !app_nil_r.
  - pose proof (parse_entry_ok e) as Hok.
    destruct (parse_entry e) as [x|err] eqn:E; [|by exists err]. specialize (Hok x eq_refl).
    cbn [mbind option_bind].
    destruct x as [|p|p];
      [specialize (IH ps rs)|specialize (IH (ps ++ [p]) rs)|specialize (IH ps (rs ++ [p]))];
      destruct (mapM _ entries) as [xs|]; cbn; try done; destruct IH as [-> Hxs];
      (split; [|by constructor]); by rewrite <- ?app_assoc.
Qed.

Lemma parseAllow_loop_total entries : ∀ out,
  (∃ e, parseAllow_loop entries out = inr e)
  ↔ ∃ x, x ∈ entries ∧ canon x ≠ [] ∧ isValidCallsign (canon x) = false.
Proof.
  induction entries as [|e entries IH]; intros out; cbn.
  - split; [by intros [? ?]|by intros (x & H & _); apply not_elem_of_nil in H].
  - case_decide as E.
    + rewrite IH. split; intros (x & H & ?); exists x; set_solver.
    + destruct (isValidCallsign (canon e)) eqn:Ev.
      * rewrite IH. split; intros (x & H & H1 & H2); exists x.
        -- split_and!; [by right|done|done].
        -- apply elem_of_cons in H as [->|H]; [congruence|]. by split_and!.
      * split; [|eauto]. intros _. exists e. split_and!; [set_solver|done|done].
Qed.

(** What makes a configuration refused. *)
Definition bad_ssid (env : Env) : Prop :=
  let v := Getenv env (bs "PDN_BPQCHAT_SSID") in
  v ≠ [] ∧ ∀ n, Atoi v = Some n → ¬ 0 ≤ n ≤ 15.
Definition bad_peers (env : Env) : Prop :=
  let s := TrimSpace (Getenv env (bs "PDN_BPQCHAT_PEERS")) in
  s ≠ [] ∧ ∃ entry e, entry ∈ Split s (zb 44) ∧ parse_entry entry = inr e.
Definition bad_allow (env : Env) : Prop :=
  let s := TrimSpace (Getenv env (bs "PDN_BPQCHAT_PEER_ALLOW")) in
  s ≠ [] ∧ ∃ entry, entry ∈ FieldsFunc entry_sep s ∧ canon entry ≠ []
    ∧ isValidCallsign (canon entry) = false.

Lemma load_ssid_spec env :
  match load_ssid env with
  | inl n => 0 ≤ n ≤ 15 ∧ ¬ bad_ssid env
  | inr _ => bad_ssid env
  end.
Proof.
  unfold load_ssid, bad_ssid, DefaultSSID. case_decide as E.
  - split; [lia|]. by intros [? _].
  - destruct (Atoi _) as [n|] eqn:En; [|by split].
    destruct ((n <? 0) || (15 <? n)) eqn:Eb.
    + split; [done|]. intros m [= <-]. apply orb_true_iff in Eb. rewrite !Z.ltb_lt in Eb. lia.
    + bools. split; [lia|]. intros [_ Hb]. apply (Hb n); [done|lia].
Qed.

Lemma parsePeers_spec env :
  match parsePeers (Getenv env (bs "PDN_BPQCHAT_PEERS")) with
  | inl (ps, rs) => Forall ip_ok ps ∧ Forall rf_ok rs ∧ ¬ bad_peers env
  | inr _ => bad_peers env
  end.
Proof.
  unfold parsePeers, bad_peers. set (s := TrimSpace (Getenv env (bs "PDN_BPQCHAT_PEERS"))).
  case_decide as E; [split_and!; [done|done|by intros [? _]]|].
  pose proof (parsePeers_loop_spec (Split s (zb 44)) [] []) as H.
  destruct (mapM _ _) as [xs|] eqn:Em.
  - destruct H as [-> Hok]. split_and!.
    + apply Forall_forall. intros p (x & Hx & Hp)%list_elem_of_omap.
      rewrite Forall_forall in Hok. specialize (Hok x Hx). destruct x; simplify_eq/=. done.
    + apply Forall_forall. intros p (x & Hx & Hp)%list_elem_of_omap.
      rewrite Forall_forall in Hok. specialize (Hok x Hx). destruct x; simplify_eq/=. done.
    + intros [_ (entry & e & Hin & He)]. apply mapM_Some_1 in Em.
      apply (Forall2_Forall_l _ (λ e, ∃ x, parse_entry e = inl x)) in Em.
      * rewrite Forall_forall in Em. destruct (Em entry Hin). congruence.
      * apply Forall_forall. intros x _ y Hy. destruct (parse_entry y) as [z|]; [by exists z|done].
  - destruct H as [e ->]. split; [done|]. apply mapM_None_1, Exists_exists in Em as (x & Hin & Hx).
    destruct (parse_entry x) as [|e'] eqn:Ex; [done|]. eauto.
Qed.

Lemma parseAllow_spec env :
  match parseAllow (Getenv env (bs "PDN_BPQCHAT_PEER_ALLOW")) with
  | inl l => Forall (λ c, isValidCallsign c = true ∧ canon c = c) l ∧ ¬ bad_allow env
  | inr _ => bad_allow env
  end.
Proof.
  pose proof (parseAllow_ok (Getenv env (bs "PDN_BPQCHAT_PEER_ALLOW"))) as Hok. revert Hok.
  unfold parseAllow, bad_allow. set (s := TrimSpace _). case_decide as E; intros Hok.
  - split; [by apply Hok|]. by intros [? _].
  - pose proof (parseAllow_loop_total (FieldsFunc entry_sep s) []) as [H1 H2].
    destruct (parseAllow_loop _ []) as [l|e]; [|split; [done|apply H1; eauto]].
    split; [by apply Hok|]. intros [_ H]. destruct (H2 H). done.
Qed.

(** C36. Loading a configuration.  It is refused exactly when both callsigns are blank,
    the SSID is set to something but an integer from 0 to 15, some comma-separated peer
    entry does not parse, or some allow-list entry is not a callsign.  A configuration
    that is loaded has a non-empty callsign to bind, an SSID in range, non-empty host
    and state directory, IP peers with a callsign and an address, RF peers as [rf_ok]
    has them, and an allow-list whose entries are canonical callsigns, single words that
    survive being stored and that a decoded record can carry.  The rest is taken as it
    is: the two ports are the integers set, in no range, or the defaults when what is set
    is no integer; the credentials are kept to the byte and the listening address is
    trimmed. *)
Theorem Load_outcome env :
  let app := ToUpper (TrimSpace (Getenv env (bs "PDN_APP_CALLSIGN"))) in
  let node := TrimSpace (Getenv env (bs "PDN_NODE_CALLSIGN")) in
  ((∃ e, Load env = inr e) ↔ (app = [] ∧ node = []) ∨ bad_ssid env ∨ bad_peers env ∨ bad_allow env)
  ∧ ∀ c, Load env = inl c →
    0 ≤ SSID c ≤ 15
    ∧ (BoundCallsign c = app ∧ app ≠ [] ∨ app = [] ∧ node ≠ []
       ∧ BoundCallsign c = if SSID c =? 0 then node else node ++ bs "-" ++ itoa (SSID c))
    ∧ BoundCallsign c ≠ [] ∧ RHPHost c ≠ [] ∧ StateDir c ≠ []
    ∧ Forall ip_ok (Peers c) ∧ Forall rf_ok (RFPeers c)
    ∧ Forall (λ a, isValidCallsign a = true ∧ canon a = a ∧ is_word a ∧ p_word allow_sep a)
        (PeerAllow c)
    ∧ (∀ n, Atoi (TrimSpace (Getenv env (bs "PDN_RHP_PORT"))) = Some n → RHPPort c = n)
    ∧ (Atoi (TrimSpace (Getenv env (bs "PDN_RHP_PORT"))) = None → RHPPort c = DefaultRHPPort)
    ∧ (∀ n, Atoi (TrimSpace (Getenv env (bs "PDN_WEB_PORT"))) = Some n → WebPort c = n)
    ∧ (Atoi (TrimSpace (Getenv env (bs "PDN_WEB_PORT"))) = None → WebPort c = DefaultWebPort)
    ∧ RHPUser c = Getenv env (bs "PDN_RHP_USER") ∧ RHPPass c = Getenv env (bs "PDN_RHP_PASS")
    ∧ PeerListen c = TrimSpace (Getenv env (bs "PDN_BPQCHAT_PEER_LISTEN")).
Proof.
  intros app node. unfold Load. fold app node.
  pose proof (load_ssid_spec env) as Hs. pose proof (parsePeers_spec env) as Hp.
  pose proof (parseAllow_spec env) as Ha.
  destruct (decide (app = [] ∧ node = [])) as [Hc|Hc].
  { split; [|done]. split; [by left|by eexists]. }
  destruct (load_ssid env) as [ssid|e1]; [|split; [split; [by right; left|by eexists]|done]].
  destruct (parsePeers _) as [[ps rs]|e2]; [|split; [split; [by right; right; left|by eexists]|done]].
  destruct (parseAllow _) as [al|e3]; [|split; [split; [by right; right; right|by eexists]|done]].
  destruct Hs as [Hs1 Hs2], Hp as (Hp1 & Hp2 & Hp3), Ha as [Ha1 Ha2]. split.
  { split; [by intros [? ?]|]. intros [?|[?|[?|?]]]; done. }
  assert (∀ k d, d ≠ [] → envOr env k d ≠ []) as Henv.
  { intros k d Hd. unfold envOr. by case_decide. }
  assert (∀ k d n, Atoi (TrimSpace (Getenv env k)) = Some n → envIntOr env k d = n) as Hint.
  { intros k d n Hn. unfold envIntOr. rewrite Hn. case_decide as Hv; [done|].
    destruct (TrimSpace (Getenv env k)) eqn:Et; [vm_compute in Hn; discriminate Hn|discriminate Hv]. }
  assert (∀ k d, Atoi (TrimSpace (Getenv env k)) = None → envIntOr env k d = d) as Hdef.
  { intros k d Hn. unfold envIntOr. rewrite Hn. by case_decide. }
  intros c Ec.
  assert ((∀ n, Atoi (TrimSpace (Getenv env (bs "PDN_RHP_PORT"))) = Some n → RHPPort c = n)
    ∧ (Atoi (TrimSpace (Getenv env (bs "PDN_RHP_PORT"))) = None → RHPPort c = DefaultRHPPort)
    ∧ (∀ n, Atoi (TrimSpace (Getenv env (bs "PDN_WEB_PORT"))) = Some n → WebPort c = n)
    ∧ (Atoi (TrimSpace (Getenv env (bs "PDN_WEB_PORT"))) = None → WebPort c = DefaultWebPort)
    ∧ RHPUser c = Getenv env (bs "PDN_RHP_USER") ∧ RHPPass c = Getenv env (bs "PDN_RHP_PASS")
    ∧ PeerListen c = TrimSpace (Getenv env (bs "PDN_BPQCHAT_PEER_LISTEN"))) as Hrest.
  { injection Ec as <-. split_and!; try done; cbn; intros; first [by apply Hint|by apply Hdef]. }
  destruct Hrest as (R1 & R2 & R3 & R4 & R5 & R6 & R7).
  assert (AppCallsign c = app ∧ NodeCallsign c = node ∧ SSID c = ssid ∧ Peers c = ps
    ∧ RFPeers c = rs ∧ PeerAllow c = al ∧ RHPHost c ≠ [] ∧ StateDir c ≠ [])
    as (E1 & E2 & E3 & E4 & E5 & E6 & E7 & E8).
  { injection Ec as <-. split_and!; try done; by apply Henv. }
  clear Ec. rewrite E3, E4, E5, E6.
  assert (BoundCallsign c = app ∧ app ≠ [] ∨ app = [] ∧ node ≠ []
       ∧ BoundCallsign c = if ssid =? 0 then node else node ++ bs "-" ++ itoa ssid) as Hb.
  { unfold BoundCallsign, ChatCallsign. rewrite E1, E2, E3.
    destruct (decide (app ≠ [])) as [Hn|Hn]; [by left|right].
    assert (app = []) as Ea by (by destruct (decide (app = []))). split; [done|].
    split; [by intros En; apply Hc|].
    destruct (Z.eqb_spec ssid 0) as [->|Hne]; [done|].
    by rewrite (proj2 (Z.leb_gt ssid 0)) by lia. }
  assert (BoundCallsign c ≠ []) as Hne.
  { destruct Hb as [[-> ?]|(_ & Hn & ->)]; [done|].
    destruct (ssid =? 0); [done|]. by destruct node. }
  split_and!; try done; try lia.
  - refine (Forall_impl _ _ _ Ha1 _). intros a [H1 H2].
    destruct (valid_call_text a H1). split_and!; [done|done|by apply call_word|by apply call_storable].
Qed.

Definition sample_env : Env :=
  <[bs "PDN_NODE_CALLSIGN" := bs " GB7AAA "]> (<[bs "PDN_BPQCHAT_SSID" := bs "9"]>
  (<[bs "PDN_BPQCHAT_PEERS" := bs "rf:gb7rdg-1, M0XYZ@10.0.0.1:3600,via:G0BBB-4"]>
  (<[bs "PDN_BPQCHAT_PEER_ALLOW" := bs "m0abc-1 GB7STH"]> ∅))).

Lemma Load_outcome_witness :
  ∃ c, Load sample_env = inl c ∧ 0 ≤ SSID c ≤ 15 ∧ BoundCallsign c = bs "GB7AAA-9"
    ∧ length (PeerAllow c) = 2%nat ∧ Forall ip_ok (Peers c).
Proof.
  destruct (Load sample_env) as [c|e] eqn:E; [|vm_compute in E; discriminate E].
  exists c. destruct (Load_outcome sample_env) as [_ H].
  destruct (H c E) as (H1 & _ & _ & _ & _ & H2 & _).
  split; [reflexivity|]. split; [exact H1|].
  assert (Load sample_env = inl c) as E' by exact E. vm_compute in E'. injection E' as <-.
  split; [vm_compute; reflexivity|]. split; [vm_compute; reflexivity|exact H2].
Defined.

(** ** Printing the peer list *)

Definition print_step (st : ScriptStep) : gostring := ss_Expect st ++ zb 61 :: ss_Send st.
Definition print_ip (p : Conf.Peer) : gostring := p_Call p ++ zb 64 :: p_Addr p.
Definition print_rf (p : RFPeer) : gostring :=
  match rf_Script p with
  | [] => bs "rf:" ++ rf_PeerCall p
  | _ => bs "via:" ++ GoStrings.Join (rf_PeerCall p :: rf_OpenTo p :: (print_step <$> rf_Script p)) [zb 124]
  end.
Definition print_peers (ps : list Conf.Peer) (rs : list RFPeer) : gostring :=
  GoStrings.Join ((print_ip <$> ps) ++ (print_rf <$> rs)) [zb 44].

(** Printable ASCII text without space at either end and without the given bytes. *)
Definition plain_byte (no : list Z) (b : byte) : Prop := 32 ≤ bz b < 127 ∧ bz b ∉ no.
Definition plain_text (no : list Z) (s : gostring) : Prop :=
  Forall (plain_byte no) s ∧ TrimSpace s = s.

(** A callsign proper: no sign characters but the hyphen. *)
Definition callsign (s : gostring) : Prop :=
  s ≠ [] ∧ Forall (λ b, base_rune (bz b) = true ∨ bz b = 45) s.

Definition ip_printable (p : Conf.Peer) : Prop :=
  callsign (p_Call p) ∧ p_Addr p ≠ [] ∧ plain_text [44] (p_Addr p).
Definition rf_printable (p : RFPeer) : Prop :=
  callsign (rf_PeerCall p) ∧ rf_OpenPort p = []
  ∧ match rf_Script p with
    | [] => rf_OpenTo p = rf_PeerCall p
    | script => callsign (rf_OpenTo p)
        ∧ Forall (λ st, plain_text [44; 124; 61] (ss_Expect st) ∧ plain_text [44; 124] (ss_Send st)) script
    end.

#[export] Instance rf_printable_dec p : Decision (rf_printable p).
Proof. unfold rf_printable, callsign. destruct (rf_Script p); apply _. Defined.

(** Trimming text that begins and ends with no space. *)
Lemma trim_solid a b m :
  ascii (a :: m ++ [b]) → is_space (bz a) = false → is_space (bz b) = false →
  TrimSpace (a :: m ++ [b]) = a :: m ++ [b].
Proof.
  intros Ha Hsa Hsb. apply TrimSpace_id. rewrite runes_ascii by done.
  rewrite fmap_cons, fmap_app. cbn [drop_while fmap list_fmap]. rewrite Hsa.
  generalize (bz <$> m) as l. intros l.
  assert (∀ l, trim_end is_space (l ++ [bz b]) = l ++ [bz b]) as H.
  { clear -Hsb. induction l as [|x l IH]; cbn; [by rewrite Hsb|]. rewrite IH. by destruct l. }
  apply (H (bz a :: l)).
Qed.

Lemma trim_ends s :
  ascii s → (∀ a, head s = Some a → is_space (bz a) = false) →
  (∀ b, last s = Some b → is_space (bz b) = false) → TrimSpace s = s.
Proof.
  intros Ha Hh Hl. destruct s as [|a s]; [done|].
  destruct (decide (s = [])) as [->|Hne].
  - specialize (Hh a eq_refl). apply TrimSpace_word. split; [done|].
    rewrite runes_ascii by done. by constructor.
  - destruct (exists_last Hne) as (m & b & ->). apply trim_solid; [done|by apply Hh|].
    apply Hl. by rewrite app_comm_cons, last_snoc.
Qed.

(** Conversely, trimmed text has no space at its ends. *)
Lemma trimmed_ends s :
  ascii s → TrimSpace s = s →
  (∀ a, head s = Some a → is_space (bz a) = false)
  ∧ (∀ b, last s = Some b → is_space (bz b) = false).
Proof.
  intros Ha Ht. apply (f_equal runes) in Ht. rewrite runes_TrimSpace, runes_ascii in Ht by done.
  split.
  - intros a Hh. destruct s as [|a' s]; [done|]. injection Hh as ->. rewrite fmap_cons in Ht.
    cbn [drop_while] in Ht. destruct (is_space (bz a)) eqn:E; [|done]. exfalso.
    destruct (drop_while_suffix is_space (bz <$> s)) as (k & Ek & _).
    destruct (trim_end_split is_space (drop_while is_space (bz <$> s))) as (k' & Ek' & _).
    apply (f_equal length) in Ht, Ek, Ek'. rewrite length_app in Ek, Ek'. cbn in Ht. lia.
  - intros b Hl. destruct (is_space (bz b)) eqn:E; [|done]. exfalso.
    apply last_Some in Hl as [m ->]. rewrite fmap_app in Ht.
    change (bz <$> [b]) with [bz b] in Ht.
    assert (∀ l, length (trim_end is_space (l ++ [bz b])) ≤ length l)%nat as H.
    { clear -E. induction l as [|x l IH]; cbn; [by rewrite E|].
      destruct (trim_end is_space (l ++ [bz b])) as [|y t]; [by case_match; cbn; lia|].
      cbn in *. lia. }
    destruct (drop_while_suffix is_space ((bz <$> m) ++ [bz b])) as (k & Ek & _).
    destruct (decide (drop_while is_space ((bz <$> m) ++ [bz b]) = [])) as [Ed|Ed].
    { rewrite Ed in Ht. cbn in Ht. by destruct (bz <$> m). }
    destruct (exists_last Ed) as (m' & b' & Em). rewrite Em in Ek, Ht.
    rewrite app_assoc in Ek. apply app_inj_tail in Ek as [Em' <-].
    specialize (H m'). apply (f_equal length) in Ht, Em'. rewrite !length_app in *.
    cbn in *. lia.
Qed.

(** Trimmed ASCII text. *)
Definition trimmed (s : gostring) : Prop := ascii s ∧ TrimSpace s = s.

Lemma trimmed_sep x c y :
  trimmed x → trimmed y → bz c < 128 → is_space (bz c) = false → trimmed (x ++ c :: y).
Proof.
  intros [Ax Tx] [Ay Ty] Hc Hs. destruct (trimmed_ends x Ax Tx) as [Hx _].
  destruct (trimmed_ends y Ay Ty) as [_ Hy].
  assert (ascii (x ++ c :: y)) as Ha by (apply Forall_app; split; [done|by constructor]).
  split; [done|]. apply trim_ends; [done| |].
  - intros a. destruct x as [|a' x]; [by intros [= <-]|by intros [= <-]; apply Hx].
  - intros b. destruct (decide (y = [])) as [->|Hne].
    + rewrite last_snoc. by intros [= <-].
    + destruct (exists_last Hne) as (m & b' & ->).
      replace (x ++ c :: m ++ [b']) with ((x ++ c :: m) ++ [b']) by (by rewrite <- app_assoc).
      rewrite last_snoc. intros [= <-]. apply Hy. by rewrite last_snoc.
Qed.

Lemma trimmed_join ws c :
  Forall trimmed ws → bz c < 128 → is_space (bz c) = false → trimmed (GoStrings.Join ws [c]).
Proof.
  intros Hw Hc Hs. induction Hw as [|w ws Hw Hws IH]; [by split|].
  destruct ws as [|w' ws]; [done|]. by apply (trimmed_sep w c).
Qed.

Lemma plain_trimmed no s : plain_text no s → trimmed s.
Proof.
  intros [Hp Ht]. split; [|done]. refine (Forall_impl _ _ _ Hp _). intros b [? _]. lia.
Qed.

Lemma plain_without no s c : plain_text no s → bz c ∈ no → c ∉ s.
Proof. intros [Hp _] Hc Hin. rewrite Forall_forall in Hp. by destruct (Hp c Hin). Qed.

Lemma Split_Join ws c :
  ws ≠ [] → Forall (λ w, c ∉ w) ws → Split (GoStrings.Join ws [c]) c = ws.
Proof.
  assert (∀ w, c ∉ w → Split w c = [w]) as H1.
  { induction w as [|b w IH]; [done|]. intros Hn. cbn.
    destruct (Z.eqb_spec (bz b) (bz c)) as [E|_]; [apply bz_inj in E; set_solver|].
    by rewrite IH by set_solver. }
  assert (∀ w t, c ∉ w → Split (w ++ c :: t) c = w :: Split t c) as H2.
  { induction w as [|b w IH]; intros t Hn; cbn; [by rewrite Z.eqb_refl|].
    destruct (Z.eqb_spec (bz b) (bz c)) as [E|_]; [apply bz_inj in E; set_solver|].
    by rewrite IH by set_solver. }
  induction ws as [|w [|w' ws] IH]; [done| |]; intros _ [Hw Hws]%Forall_cons; [by apply H1|].
  change (GoStrings.Join (w :: w' :: ws) [c]) with (w ++ c :: GoStrings.Join (w' :: ws) [c]).
  rewrite H2 by done. f_equal. by apply IH.
Qed.

Lemma callsign_text s : callsign s → call_text s.
Proof. intros [_ H]. refine (Forall_impl _ _ _ H _). intros b [?|?]; [by left|by right; left]. Qed.

Lemma callsign_trimmed s : callsign s → trimmed s.
Proof.
  intros H. pose proof (callsign_text s H) as Ht. split; [by apply call_ascii|].
  apply TrimSpace_word, call_word; [apply H|done].
Qed.

Lemma callsign_upper s : callsign s → ToUpper s = s.
Proof.
  intros H. rewrite ToUpper_ascii by (by apply call_ascii, callsign_text). destruct H as [_ H].
  induction H as [|b s Hb _ IH]; [done|]. rewrite fmap_cons, IH. f_equal.
  unfold ascii_upper. rewrite <- (zb_bz b) at 2. f_equal.
  assert (forallb (λ n, let r := Z.of_nat n in negb (base_rune r || (r =? 45)) || (rune_upper r =? r))
    (seq 0 128) = true) as Hall by (vm_compute; reflexivity).
  rewrite forallb_forall in Hall. specialize (Hall (Z.to_nat (bz b))).
  assert (0 ≤ bz b < 128).
  { pose proof (bz_range b). destruct Hb as [Hb%base_rune_range|Hb]; lia. }
  rewrite in_seq, Z2Nat.id in Hall by lia. specialize (Hall ltac:(lia)). cbv zeta in Hall.
  apply orb_true_iff in Hall as [Hall|Hall]; [|by apply Z.eqb_eq].
  apply negb_true_iff, orb_false_iff in Hall as [H1 H2].
  destruct Hb as [Hb|Hb]; [congruence|]. rewrite Hb in H2. done.
Qed.

Lemma callsign_without s c : callsign s → 58 ≤ bz c ∨ bz c = 44 ∨ bz c = 32 → ¬ 65 ≤ bz c ≤ 90 → c ∉ s.
Proof.
  intros [_ H] Hc Hc' Hin. rewrite Forall_forall in H. destruct (H c Hin) as [Hb|Hb]; [|lia].
  unfold base_rune in Hb. rewrite orb_true_iff, !andb_true_iff, !Z.leb_le in Hb. lia.
Qed.

Ltac byte_lia := rewrite !bz_zb_small by lia; lia.

(** A callsign is no keyword. *)
Lemma callsign_prefix s t c pre :
  callsign s → 97 ≤ bz c → HasPrefix (s ++ t) (c :: pre) = false.
Proof.
  intros [Hn H] Hc. destruct s as [|b s]; [done|]. apply Forall_cons in H as [Hb _].
  cbn. replace (bz c =? bz b) with false; [done|]. symmetry. apply Z.eqb_neq.
  destruct Hb as [Hb%base_rune_range|Hb]; lia.
Qed.

Lemma CutPrefix_app pre s : CutPrefix (pre ++ s) pre = (s, true).
Proof.
  unfold CutPrefix. rewrite (proj2 (HasPrefix_spec _ _)) by eauto. by rewrite drop_app_length.
Qed.

Lemma parse_print_ip p : ip_printable p → parse_entry (print_ip p) = inl (IPPeer p) ∧ trimmed (print_ip p).
Proof.
  intros (Hc & Hn & Ha). pose proof (callsign_trimmed _ Hc) as Tc.
  pose proof (plain_trimmed _ _ Ha) as Ta.
  assert (trimmed (print_ip p)) as Tp by (by apply trimmed_sep).
  split; [|done]. unfold parse_entry. rewrite (proj2 Tp).
  rewrite decide_False by (unfold print_ip; by destruct (p_Call p)).
  unfold CutPrefix, print_ip. unfold bs. rewrite !callsign_prefix by done.
  rewrite Cut_app by (apply callsign_without; [done|byte_lia..]).
  rewrite (proj2 Tc), (proj2 Ta).
  rewrite !bool_decide_eq_false_2 by (done || apply Hc). cbn [negb orb].
  rewrite callsign_upper by done. by destruct p.
Qed.

Lemma via_steps_print script :
  Forall (λ st, plain_text [44; 124; 61] (ss_Expect st) ∧ plain_text [44; 124] (ss_Send st)) script →
  via_steps (print_step <$> script) = script
  ∧ Forall trimmed (print_step <$> script)
  ∧ Forall (λ f, (zb 124 ∉ f) ∧ (zb 44 ∉ f)) (print_step <$> script).
Proof.
  induction 1 as [|st script [He Hs] _ (IH1 & IH2 & IH3)]; [done|]. rewrite fmap_cons.
  pose proof (plain_trimmed _ _ He) as Te. pose proof (plain_trimmed _ _ Hs) as Ts.
  split_and!.
  - cbn [via_steps]. rewrite decide_False by (unfold print_step; by destruct (ss_Expect st)).
    unfold print_step at 1. rewrite Cut_app by (apply (plain_without _ _ _ He); vm_compute; set_solver).
    rewrite (proj2 Te), (proj2 Ts), IH1. by destruct st.
  - constructor; [by apply trimmed_sep|done].
  - constructor; [|done]. unfold print_step.
    split; apply not_elem_of_app; (split; [apply (plain_without _ _ _ He); vm_compute; set_solver|]);
      apply not_elem_of_cons; (split; [done|]); apply (plain_without _ _ _ Hs); vm_compute; set_solver.
Qed.

Lemma parse_print_rf p :
  rf_printable p → parse_entry (print_rf p) = inl (RFEntry p) ∧ trimmed (print_rf p) ∧ zb 44 ∉ print_rf p.
Proof.
  intros (Hc & Hp & Hs). pose proof (callsign_trimmed _ Hc) as Tc. unfold print_rf.
  destruct (rf_Script p) as [|st script] eqn:Es.
  - assert (trimmed (bs "rf:" ++ rf_PeerCall p)) as Tp.
    { apply (trimmed_sep (bs "rf") (zb 58)); try done. split; [by repeat constructor|by vm_compute]. }
    split_and!; [|done|].
    + unfold parse_entry. rewrite (proj2 Tp), decide_False by done.
      rewrite CutPrefix_app.
      rewrite (proj2 Tc), callsign_upper by done. rewrite decide_False by apply Hc.
      destruct p. cbn in *. by subst.
    + apply not_elem_of_app. split; [vm_compute; set_solver|].
      apply callsign_without; [done|byte_lia..].
  - destruct Hs as [Ho Hst]. pose proof (callsign_trimmed _ Ho) as To.
    destruct (via_steps_print _ Hst) as (V1 & V2 & V3).
    set (fields := rf_PeerCall p :: rf_OpenTo p :: (print_step <$> (st :: script))) in *.
    assert (Forall trimmed fields) as Tf by (constructor; [done|]; by constructor).
    assert (∀ s, callsign s → (zb 124 ∉ s) ∧ (zb 44 ∉ s)) as Hno.
    { intros s H. split; (apply callsign_without; [done|byte_lia..]). }
    assert (Forall (λ f, (zb 124 ∉ f) ∧ (zb 44 ∉ f)) fields) as Nf.
    { constructor; [by apply Hno|]. constructor; [by apply Hno|done]. }
    assert (trimmed (GoStrings.Join fields [zb 124])) as Tj by (by apply trimmed_join).
    assert (trimmed (bs "via:" ++ GoStrings.Join fields [zb 124])) as Tp.
    { apply (trimmed_sep (bs "via") (zb 58)); try done. split; [by repeat constructor|by vm_compute]. }
    split_and!; [|done|].
    + unfold parse_entry. rewrite (proj2 Tp), decide_False by done.
      replace (CutPrefix (bs "via:" ++ GoStrings.Join fields [zb 124]) (bs "rf:"))
        with (bs "via:" ++ GoStrings.Join fields [zb 124], false) by done.
      rewrite CutPrefix_app.
      unfold parseVia. rewrite Split_Join;
        [|done|refine (Forall_impl _ _ _ Nf _); by intros f []].
      assert (TrimSpace <$> fields = fields) as ->.
      { clear -Tf. induction Tf as [|f l [_ Hf] _ IH]; [done|]. by rewrite fmap_cons, Hf, IH. }
      cbn [head default fields]. rewrite callsign_upper, decide_False by (done || apply Hc).
      unfold fields. rewrite fmap_cons. rewrite callsign_upper, decide_False by (done || apply Ho).
      rewrite fmap_cons in V1. rewrite V1. destruct p. cbn in *. by subst.
    + apply not_elem_of_app. split; [vm_compute; set_solver|].
      clear -Nf. induction Nf as [|f l [_ Hf] _ IH]; [apply not_elem_of_nil|].
      destruct l as [|f' l]; [done|].
      change (GoStrings.Join (f :: f' :: l) [zb 124]) with (f ++ zb 124 :: GoStrings.Join (f' :: l) [zb 124]).
      apply not_elem_of_app. split; [done|]. apply not_elem_of_cons. by split.
Qed.

(** The peer list round trips.  Every list of IP peers and RF peers, directly
    opened or with a connect script, whose callsigns are letters, digits and hyphens and
    whose addresses and script texts are trimmed printable ASCII without the separators,
    can be written in the syntax of [PDN_BPQCHAT_PEERS], and parsing that text gives
    exactly those peers back, in order. *)
Theorem peers_roundtrip ps rs :
  Forall ip_printable ps → Forall rf_printable rs →
  parsePeers (print_peers ps rs) = inl (ps, rs).
Proof.
  intros Hps Hrs. unfold print_peers. set (ws := (print_ip <$> ps) ++ (print_rf <$> rs)).
  assert (Forall (λ w, trimmed w ∧ (zb 44 ∉ w) ∧ w ≠ []) ws) as Hw.
  { apply Forall_app. split; apply Forall_fmap.
    - refine (Forall_impl _ _ _ Hps _). intros p Hp. cbn. destruct (parse_print_ip p Hp) as [_ Ht].
      destruct Hp as (Hc & _ & Ha). split_and!; [done| |unfold print_ip; by destruct (p_Call p)].
      unfold print_ip. apply not_elem_of_app. split; [apply callsign_without; [done|byte_lia..]|].
      apply not_elem_of_cons. split; [done|]. apply (plain_without _ _ _ Ha); vm_compute; set_solver.
    - refine (Forall_impl _ _ _ Hrs _). intros p Hp. cbn. destruct (parse_print_rf p Hp) as (_ & Ht & Hn).
      split_and!; [done|done|]. unfold print_rf. by destruct (rf_Script p). }
  assert (trimmed (GoStrings.Join ws [zb 44])) as [_ Ht].
  { apply trimmed_join; [|done|done]. refine (Forall_impl _ _ _ Hw _). by intros w []. }
  unfold parsePeers. rewrite Ht. case_decide as E.
  - destruct ws as [|w [|w' ws']] eqn:Ew.
    + unfold ws in Ew. apply app_eq_nil in Ew as [E1 E2].
      apply fmap_nil_inv in E1, E2. by subst.
    + apply Forall_cons in Hw as [(_ & _ & Hw) _]. by destruct Hw.
    + cbn in E. by destruct w.
  - rewrite Split_Join; [| |refine (Forall_impl _ _ _ Hw _); by intros w (_ & ? & _)].
    2:{ intros ->. by apply E. }
    pose proof (parsePeers_loop_spec ws [] []) as Hl.
    assert (mapM (λ e, match parse_entry e with inl x => Some x | inr _ => None end) ws
      = Some ((IPPeer <$> ps) ++ (RFEntry <$> rs))) as Em.
    { apply mapM_Some. unfold ws. apply Forall2_app; apply Forall2_fmap, Forall_Forall2_diag.
      - refine (Forall_impl _ _ _ Hps _). intros p Hp. cbn. by rewrite (proj1 (parse_print_ip p Hp)).
      - refine (Forall_impl _ _ _ Hrs _). intros p Hp. cbn. by rewrite (proj1 (parse_print_rf p Hp)). }
    rewrite Em in Hl. destruct Hl as [-> _]. cbn [app]. f_equal. rewrite !omap_app.
    assert (∀ l : list Conf.Peer, omap entry_ip (IPPeer <$> l) = l ∧ omap entry_rf (IPPeer <$> l) = []) as HI.
    { induction l as [|x l [IH1 IH2]]; [done|]. rewrite fmap_cons. cbn. by rewrite IH1, IH2. }
    assert (∀ l, omap entry_rf (RFEntry <$> l) = l ∧ omap entry_ip (RFEntry <$> l) = []) as HR.
    { induction l as [|x l [IH1 IH2]]; [done|]. rewrite fmap_cons. cbn. by rewrite IH1, IH2. }
    destruct (HI ps) as [-> ->], (HR rs) as [-> ->]. by rewrite app_nil_r.
Qed.

Lemma peers_roundtrip_witness :
  parsePeers (bs "M0XYZ@10.0.0.1:3600,rf:GB7RDG-1,via:GB7RDG-1|GB7STH|GB7STH>=C GB7RDG-1")
  = inl ([mkPeer (bs "M0XYZ") (bs "10.0.0.1:3600")],
         [mkRFPeer (bs "GB7RDG-1") (bs "GB7RDG-1") [] [];
          mkRFPeer (bs "GB7RDG-1") (bs "GB7STH") []
            [mkScriptStep (bs "GB7STH>") (bs "C GB7RDG-1")]]).
Proof.
  refine (peers_roundtrip [mkPeer (bs "M0XYZ") (bs "10.0.0.1:3600")]
         [mkRFPeer (bs "GB7RDG-1") (bs "GB7RDG-1") [] [];
          mkRFPeer (bs "GB7RDG-1") (bs "GB7STH") []
            [mkScriptStep (bs "GB7STH>") (bs "C GB7RDG-1")]] _ _);
    apply (bool_decide_unpack _); vm_compute; exact I.
Defined.
