(* ===== verification/Node.v ===== *)
(** * The RHP attachment ([internal/node/node.go], [stream.go])

    The pushes of the RHP client are turned into byte streams, one per connected
    handle; a push can arrive before its stream is registered and is then kept aside.
    Registering is not atomic: the table entry is made and the kept pushes are taken
    under the lock, and handed to the stream one by one outside it.  An inbound
    connection becomes a peer link or a user session by its first line; the callsign
    is bound, walking SSIDs when the node did not reserve one. *)
From S2P Require Import Prelude Unicode GoStrings ChatModel ChatSeen ChatStore ChatHub.
From S2P Require Import PeerProto PeerAllow PeerRouter PeerLink SessionInput Session Rhp.
From stdpp Require Import options.
Open Scope Z_scope.

Module Streams.

(** ** One stream *)

(** [n_fed] and [n_got] record what was ever buffered and what was ever read. *)
Record rhpStream := mkStream {
  n_handle : Z; n_buf : gostring; n_closed : bool; n_deadline : option Time;
  n_fed : list gostring; n_got : gostring }.

Definition newRhpStream (handle : Z) : rhpStream := mkStream handle [] false None [] [].

Definition feed (data : gostring) (s : rhpStream) : rhpStream :=
  if n_closed s then s
  else mkStream (n_handle s) (n_buf s ++ data) false (n_deadline s) (n_fed s ++ [data]) (n_got s).

Definition markClosed (s : rhpStream) : rhpStream :=
  mkStream (n_handle s) (n_buf s) true (n_deadline s) (n_fed s) (n_got s).

Definition SetReadDeadline (t : option Time) (s : rhpStream) : rhpStream :=
  mkStream (n_handle s) (n_buf s) (n_closed s) t (n_fed s) (n_got s).

Inductive read_result := ReadData (p : gostring) | ReadEOF | ReadDeadline | ReadBlocks.

(** [Read] into a buffer of [n] bytes, at time [now]. *)
Definition Read (n : nat) (now : Time) (s : rhpStream) : read_result * rhpStream :=
  match n_buf s, n_closed s with
  | [], true => (ReadEOF, s)
  | [], false =>
      match n_deadline s with
      | Some d => (if now <? d then ReadBlocks else ReadDeadline, s)
      | None => (ReadBlocks, s)
      end
  | buf, _ =>
      (ReadData (take n buf),
       mkStream (n_handle s) (drop n buf) (n_closed s) (n_deadline s) (n_fed s)
         (n_got s ++ take n buf))
  end.

(** ** The handle table *)

Record Link := mkLink {
  l_streams : gmap Z nat;
  l_heap : gmap nat rhpStream;
  l_pendingRecv : gmap Z (list gostring);
  l_pendingClosed : gset Z;
  (** Registrations between their lock and the end of their feeding: what is left to
      feed, and whether the stream is to be closed at the end. *)
  l_draining : gmap nat (list gostring * bool) }.

Definition New : Link := mkLink ∅ ∅ ∅ ∅ ∅.

Definition upd_stream (ref : nat) (f : rhpStream → rhpStream) (l : Link) : Link :=
  mkLink (l_streams l) (alter f ref (l_heap l)) (l_pendingRecv l) (l_pendingClosed l)
    (l_draining l).
Definition set_draining (g : gmap nat (list gostring * bool) → gmap nat (list gostring * bool))
    (l : Link) : Link :=
  mkLink (l_streams l) (l_heap l) (l_pendingRecv l) (l_pendingClosed l) (g (l_draining l)).

Definition OnRecv (handle : Z) (data : gostring) (l : Link) : Link :=
  match l_streams l !! handle with
  | Some ref => upd_stream ref (feed data) l
  | None =>
      mkLink (l_streams l) (l_heap l)
        (<[handle := default [] (l_pendingRecv l !! handle) ++ [data]]> (l_pendingRecv l))
        (l_pendingClosed l) (l_draining l)
  end.

Definition OnClose (handle : Z) (l : Link) : Link :=
  match l_streams l !! handle with
  | Some ref =>
      upd_stream ref markClosed
        (mkLink (delete handle (l_streams l)) (l_heap l) (l_pendingRecv l) (l_pendingClosed l)
           (l_draining l))
  | None =>
      mkLink (l_streams l) (l_heap l) (l_pendingRecv l) ({[handle]} ∪ l_pendingClosed l)
        (l_draining l)
  end.

(** [registerStream] of a new stream object, up to the unlock ... *)
Definition register_lock (handle : Z) (ref : nat) (l : Link) : Link :=
  mkLink (<[handle := ref]> (l_streams l)) (<[ref := newRhpStream handle]> (l_heap l))
    (delete handle (l_pendingRecv l)) (l_pendingClosed l ∖ {[handle]})
    (<[ref := (default [] (l_pendingRecv l !! handle), bool_decide (handle ∈ l_pendingClosed l))]>
       (l_draining l)).

(** ... and one step of what follows it. *)
Definition register_step (ref : nat) (l : Link) : Link :=
  match l_draining l !! ref with
  | Some (d :: ds, c) => set_draining <[ref := (ds, c)]> (upd_stream ref (feed d) l)
  | Some ([], true) => set_draining (delete ref) (upd_stream ref markClosed l)
  | Some ([], false) => set_draining (delete ref) l
  | None => l
  end.

Fixpoint register_steps (n : nat) (ref : nat) (l : Link) : Link :=
  match n with O => l | S n' => register_steps n' ref (register_step ref l) end.

(** [registerStream] without interruption, as in [OnAccept], which runs on the read
    loop itself. *)
Definition registerStream (handle : Z) (ref : nat) (l : Link) : Link :=
  let pending := default [] (l_pendingRecv l !! handle) in
  register_steps (S (length pending)) ref (register_lock handle ref l).

(** The clean-up of [dialRFPeerOnce]: the handle leaves the table, the stream is closed
    (what [Close] sends over RHP is in [StreamPipe.v]). *)
Definition forget (handle : Z) (l : Link) : Link :=
  mkLink (delete handle (l_streams l)) (l_heap l) (l_pendingRecv l) (l_pendingClosed l)
    (l_draining l).
Definition drop_stream (handle : Z) (ref : nat) (l : Link) : Link :=
  upd_stream ref markClosed (forget handle l).

(** [attachOnce] starts a new attachment with an empty table. *)
Definition attach (l : Link) : Link :=
  mkLink ∅ (l_heap l) (l_pendingRecv l) (l_pendingClosed l) (l_draining l).

(** What can happen to the table. *)
Inductive ev :=
| EvRecv (handle : Z) (data : gostring)
| EvClose (handle : Z)
| EvAccept (handle : Z) (ref : nat)        (* [OnAccept] *)
| EvLock (handle : Z) (ref : nat)          (* a dial: the registration begins ... *)
| EvStep (ref : nat)                       (* ... and goes on *)
| EvRead (ref : nat) (n : nat) (now : Time)
| EvDeadline (ref : nat) (t : option Time)
| EvForget (handle : Z)                    (* [drop_stream], its two halves; the second is *)
| EvShut (ref : nat).                      (* every [Close] of a stream *)

Definition exec (e : ev) (l : Link) : Link :=
  match e with
  | EvRecv h d => OnRecv h d l
  | EvClose h => OnClose h l
  | EvAccept h ref => registerStream h ref l
  | EvLock h ref => register_lock h ref l
  | EvStep ref => register_step ref l
  | EvRead ref n now => upd_stream ref (λ s, (Read n now s).2) l
  | EvDeadline ref t => upd_stream ref (SetReadDeadline t) l
  | EvForget h => forget h l
  | EvShut ref => upd_stream ref markClosed l
  end.
Definition execs (evs : list ev) (l : Link) : Link := foldl (λ l e, exec e l) l evs.

End Streams.

(** ** Binding the callsign *)

Module Binding.

Definition baseOf (configured : gostring) : gostring :=
  match IndexByte configured (zb 45) with Some i => take i configured | None => configured end.

(** The callsign of SSID [n]. *)
Definition with_ssid (base : gostring) (n : nat) : gostring :=
  if (0 <? n)%nat then base ++ bs "-" ++ itoa (Z.of_nat n) else base.

Definition probeCandidates (configured : gostring) : list gostring :=
  configured
  :: List.filter (λ cs, negb (bool_decide (cs = configured)))
       (with_ssid (baseOf configured) <$> seq 0 16).

(** What a [Bind] request can come back with. *)
Inductive bind_error := BindServer (code : Z) (text : gostring) | BindOther.
Inductive bound := Bound (cs : gostring) | BindFailed (e : bind_error) | NoFreeSSID.

(** The loop of [bindCallsign]; [bind] is the answer to a request, and the callsigns
    tried are returned. *)
Fixpoint bind_loop (bind : gostring → option bind_error) (candidates : list gostring)
    : bound * list gostring :=
  match candidates with
  | [] => (NoFreeSSID, [])
  | cs :: candidates' =>
      match bind cs with
      | None => (Bound cs, [cs])
      | Some (BindServer code text) =>
          if RhpWire.IsCallsignInUse code then
            let '(r, tried) := bind_loop bind candidates' in (r, cs :: tried)
          else (BindFailed (BindServer code text), [cs])
      | Some BindOther => (BindFailed BindOther, [cs])
      end
  end.

Definition bindCallsign (nodeOwns : bool) (chat : gostring)
    (bind : gostring → option bind_error) : bound * list gostring :=
  if nodeOwns then
    match bind chat with None => (Bound chat, [chat]) | Some e => (BindFailed e, [chat]) end
  else bind_loop bind (probeCandidates chat).

(** [boundCallsign] *)
Definition boundCallsign (bound chat : gostring) : gostring :=
  if decide (bound ≠ []) then bound else chat.

End Binding.

(** ** Reconnecting *)

Module Backoff.
(** One round of the loops of [Run], [dialRFPeer] and [DialAndServe]:
    [if backoff *= 2; backoff > max { backoff = max }]. *)
Definition next (max backoff : Duration) : Duration :=
  let b := backoff * 2 in if max <? b then max else b.
Fixpoint after (n : nat) (initial max : Duration) : Duration :=
  match n with O => initial | S n' => next max (after n' initial max) end.

Definition run_initial : Duration := 1000000000.
Definition run_max : Duration := 60 * 1000000000.
Definition rf_initial : Duration := 5 * 1000000000.
Definition rf_max : Duration := 120 * 1000000000.
End Backoff.

(** ** Inbound connections *)

Module Inbound.
Section inbound.
Context {St : Type} `{!Store St}.

(** [readChildLine] reads like [peer]'s [readLine]. *)
Definition childMaxLine : nat := 4096.
Fixpoint readChildLine_loop (acc : gostring) (br : gostring) : option (gostring * gostring) :=
  match br with
  | [] => None
  | c :: br' =>
      if (bz c =? 13) || (bz c =? 10) then Some (acc, br')
      else readChildLine_loop (if (length acc <? childMaxLine)%nat then acc ++ [c] else acc) br'
  end.
Definition readChildLine (br : gostring) : option (gostring * gostring) := readChildLine_loop [] br.

(** The pump of a user's session: every line read until the stream ends, each
    delivered with a CR.  A line takes at least one byte. *)
Fixpoint pump_fuel (n : nat) (br : gostring) : list gostring :=
  match n with
  | O => []
  | S n' =>
      match readChildLine br with
      | None => []
      | Some (line, br') => (line ++ [CR]) :: pump_fuel n' br'
      end
  end.
Definition pump (br : gostring) : list gostring := pump_fuel (length br) br.

(** How an inbound connection was served: a user gets a session and the chunks
    delivered to it, after which it is closed. *)
Inductive inbound :=
| InLost                                   (* the connection failed first *)
| InRefused
| InPeer (linked : bool)                   (* whether the handshake succeeded *)
| InUser (s : Sess.Session St) (chunks : list gostring)
| InNoSession (e : error).

(** [up]: the greeting could be written; [sends]: the writes of a session. *)
Definition serveInbound (now : Time) (ref : nat) (up : bool) (sends : nat → bool)
    (bound : gostring) (allow : option AllowList) (remote br : gostring)
    : ST (Router.World St) (inbound * option AllowList) :=
  if negb up then mret (InLost, allow) else
  match readChildLine br with
  | None => mret (InLost, allow)
  | Some (first, br1) =>
      if IsRTL first then
        if negb (Allowed allow remote) then mret (InRefused, (Reject allow).2)
        else
          let l := NewLink (mkConfig remote bound [] false true 0 0) in
          st_mod (Router.upd_heap <[ref := link_sent (λ _, [banner]) l]>);;
          ok ← RunWithReader now ref l br1;
          mret (InPeer ok, allow)
      else
        r ← (λ w, let '(r, hub) := Sess.New (Router.w_hub w) sends remote in
                  (r, Router.upd_hub (λ _, hub) w));
        match r with
        | inr e => mret (InNoSession e, allow)
        | inl s => mret (InUser s ((first ++ [CR]) :: pump br1), allow)
        end
  end.

End inbound.
End Inbound.
