(* ===== verification/NodeProps.v ===== *)
(** * What the attachment guarantees

    Streams deliver what arrived, in order, before and after registration; the
    callsign walk; the reconnection schedule; the inbound demultiplexing. *)
From S2P Require Import Prelude Unicode GoStrings ChatModel ChatSeen ChatStore ChatHub.
From S2P Require Import HubProps PeerProto PeerAllow PeerRouter PeerLink LinkProps.
From S2P Require Import SessionInput Session Rhp Node.
From stdpp Require Import options.
Open Scope Z_scope.

(** ** Streams *)

Section streams.
Import Streams.
Implicit Types l : Link.

(** What a reader has got and can still get is what was fed. *)
Definition stream_wf (s : rhpStream) : Prop := n_got s ++ n_buf s = concat (n_fed s).

Lemma feed_wf d s : stream_wf s → stream_wf (feed d s).
Proof.
  unfold stream_wf, feed. intros H. destruct (n_closed s); [done|]. cbn.
  rewrite concat_app, <- H. cbn. by rewrite app_nil_r, app_assoc.
Qed.

Lemma Read_fields n now s :
  let s' := (Read n now s).2 in
  n_fed s' = n_fed s ∧ n_closed s' = n_closed s ∧ (stream_wf s → stream_wf s').
Proof.
  unfold Read, stream_wf. destruct (n_buf s) as [|b buf] eqn:Eb.
  - destruct (n_closed s) eqn:Ec; [|destruct (n_deadline s)]; cbn; split_and!; try done;
      by rewrite Eb.
  - cbn. split_and!; [done|done|]. intros <-. rewrite <- app_assoc. by rewrite take_drop.
Qed.

(** The registration of [ref], from its lock to its end. *)
Lemma register_steps_done ref ds : ∀ c l s,
  l_draining l !! ref = Some (ds, c) → l_heap l !! ref = Some s → n_closed s = false →
  stream_wf s →
  ∃ s', let l' := register_steps (S (length ds)) ref l in
    l_heap l' = <[ref := s']> (l_heap l) ∧ l_draining l' = delete ref (l_draining l)
    ∧ l_streams l' = l_streams l ∧ l_pendingRecv l' = l_pendingRecv l
    ∧ l_pendingClosed l' = l_pendingClosed l
    ∧ n_fed s' = n_fed s ++ ds ∧ n_closed s' = c ∧ stream_wf s'.
Proof.
  induction ds as [|d ds IH]; intros c l s Hd Hs Hc Hwf.
  - cbn [length register_steps]. unfold register_step. rewrite Hd. destruct c.
    + exists (markClosed s). cbn. split_and!; try done; [|by rewrite app_nil_r].
      apply map_eq. intros i. destruct (decide (i = ref)) as [->|Hne].
      * by rewrite lookup_alter, Hs, lookup_insert_eq, decide_True.
      * by rewrite lookup_alter_ne, lookup_insert_ne.
    + exists s. cbn. split_and!; try done; [by rewrite insert_id|by rewrite app_nil_r].
  - set (l1 := register_step ref l).
    assert (l1 = set_draining <[ref := (ds, c)]> (upd_stream ref (feed d) l)) as E1.
    { unfold l1, register_step. by rewrite Hd. }
    assert (l_heap l1 !! ref = Some (feed d s)) as Hs1.
    { rewrite E1. cbn. by rewrite lookup_alter, Hs, decide_True. }
    assert (n_closed (feed d s) = false ∧ n_fed (feed d s) = n_fed s ++ [d]) as [Hc1 Hf1].
    { unfold feed. by rewrite Hc. }
    destruct (IH c l1 (feed d s)) as (s' & H1 & H2 & H3 & H4 & H5 & H6 & H7 & H8).
    { rewrite E1. cbn. by rewrite lookup_insert_eq. }
    { done. } { done. } { by apply feed_wf. }
    exists s'. change (register_steps (S (length (d :: ds))) ref l)
      with (register_steps (S (length ds)) ref l1). cbv zeta in *. rewrite H1, H2, H3, H4, H5. split_and!; try (by rewrite E1); try done.
    + rewrite E1. cbn. apply map_eq. intros i. destruct (decide (i = ref)) as [->|Hne].
      * by rewrite !lookup_insert_eq.
      * by rewrite !lookup_insert_ne, lookup_alter_ne.
    + rewrite E1. cbn. by rewrite delete_insert_eq.
    + by rewrite H6, Hf1, <- app_assoc.
Qed.

(** ** One handle over a run *)

(** The run respects handle [h], whose stream object is [ref]: [h] is registered at
    most once and always as [ref], its pushes stop at its close, none of them
    arrives while its registration is under way, and the node does not close the stream
    itself. *)
Fixpoint orderly (h : Z) (ref : nat) (cl : bool) (evs : list ev) (l : Link) : Prop :=
  match evs with
  | [] => True
  | e :: evs' =>
      (match e with
       | EvRecv h' _ | EvClose h' => h' = h → cl = false ∧ l_draining l !! ref = None
       | EvAccept h' r | EvLock h' r => (h' = h ↔ r = ref) ∧ (h' = h → l_heap l !! ref = None)
       | EvForget h' => h' ≠ h
       | EvShut r => r ≠ ref
       | _ => True
       end)
      ∧ orderly h ref (cl || match e with EvClose h' => bool_decide (h' = h) | _ => false end)
          evs' (exec e l)
  end.

(** The data that arrived for [h], and whether its close did. *)
Definition chunk (h : Z) (e : ev) : list gostring :=
  match e with EvRecv h' d => if decide (h' = h) then [d] else [] | _ => [] end.
Definition chunks (h : Z) (evs : list ev) : list gostring := concat (chunk h <$> evs).
Definition closes (h : Z) (e : ev) : bool :=
  match e with EvClose h' => bool_decide (h' = h) | _ => false end.
Definition closed_in (h : Z) (evs : list ev) : bool := existsb (closes h) evs.

Inductive phase (h : Z) (ref : nat) (hist : list gostring) (cl : bool) l : Prop :=
| ph_idle :
    l_heap l !! ref = None → l_draining l !! ref = None → l_streams l !! h = None →
    default [] (l_pendingRecv l !! h) = hist → bool_decide (h ∈ l_pendingClosed l) = cl →
    phase h ref hist cl l
| ph_draining s ds :
    l_heap l !! ref = Some s → l_draining l !! ref = Some (ds, cl) →
    l_streams l !! h = Some ref → n_fed s ++ ds = hist → n_closed s = false → stream_wf s →
    phase h ref hist cl l
| ph_ready s :
    l_heap l !! ref = Some s → l_draining l !! ref = None →
    (cl = false → l_streams l !! h = Some ref) → n_fed s = hist → n_closed s = cl →
    stream_wf s → phase h ref hist cl l.

Definition inv (h : Z) (ref : nat) (hist : list gostring) (cl : bool) l : Prop :=
  (∀ h', l_streams l !! h' = Some ref → h' = h) ∧ phase h ref hist cl l.

(** A change elsewhere in the table. *)
Lemma inv_frame h ref hist cl l l' :
  l_heap l' !! ref = l_heap l !! ref → l_draining l' !! ref = l_draining l !! ref →
  l_streams l' !! h = l_streams l !! h → l_pendingRecv l' !! h = l_pendingRecv l !! h →
  (h ∈ l_pendingClosed l' ↔ h ∈ l_pendingClosed l) →
  (∀ h', l_streams l' !! h' = Some ref → h' = h) →
  inv h ref hist cl l → inv h ref hist cl l'.
Proof.
  intros E1 E2 E3 E4 E5 E6 [_ Hp]. split; [done|].
  destruct Hp as [?????|s ds ??????|s ??????].
  - apply ph_idle; try congruence. by rewrite (bool_decide_ext _ _ E5).
  - apply (ph_draining h ref hist cl l' s ds); congruence.
  - apply (ph_ready h ref hist cl l' s); try congruence. intros. rewrite E3. auto.
Qed.

(** A change of the stream object that keeps what was fed. *)
Lemma inv_stream h ref hist cl l f :
  (∀ s, n_fed (f s) = n_fed s ∧ n_closed (f s) = n_closed s ∧ (stream_wf s → stream_wf (f s))) →
  inv h ref hist cl l → inv h ref hist cl (upd_stream ref f l).
Proof.
  intros Hf [Hi Hp]. split; [done|]. destruct Hp as [?????|s ds ??????|s ??????].
  - apply ph_idle; try done. cbn. rewrite lookup_alter, decide_True by done. by rewrite H.
  - destruct (Hf s) as (F1 & F2 & F3). apply (ph_draining _ _ _ _ _ (f s) ds); cbn; try done.
    + by rewrite lookup_alter, decide_True, H.
    + by rewrite F1.
    + by rewrite F2.
    + by apply F3.
  - destruct (Hf s) as (F1 & F2 & F3). apply (ph_ready _ _ _ _ _ (f s)); cbn; try done.
    + by rewrite lookup_alter, decide_True, H.
    + by rewrite F1.
    + by rewrite F2.
    + by apply F3.
Qed.

Lemma upd_other ref r f l : r ≠ ref → l_heap (upd_stream r f l) !! ref = l_heap l !! ref.
Proof. intros Hne. cbn. by rewrite lookup_alter_ne. Qed.

Lemma register_step_other ref r l :
  r ≠ ref →
  l_heap (register_step r l) !! ref = l_heap l !! ref
  ∧ l_draining (register_step r l) !! ref = l_draining l !! ref
  ∧ l_streams (register_step r l) = l_streams l
  ∧ l_pendingRecv (register_step r l) = l_pendingRecv l
  ∧ l_pendingClosed (register_step r l) = l_pendingClosed l.
Proof.
  intros Hne. unfold register_step. destruct (l_draining l !! r) as [[[|d ds] c]|]; [destruct c|..];
    cbn; split_and!; try done; by rewrite ?lookup_alter_ne, ?lookup_insert_ne, ?lookup_delete_ne.
Qed.

Lemma register_steps_other ref r n : ∀ l,
  r ≠ ref → let l' := register_steps n r l in
  l_heap l' !! ref = l_heap l !! ref ∧ l_draining l' !! ref = l_draining l !! ref
  ∧ l_streams l' = l_streams l ∧ l_pendingRecv l' = l_pendingRecv l
  ∧ l_pendingClosed l' = l_pendingClosed l.
Proof.
  induction n as [|n IH]; intros l Hne; [done|]. cbn [register_steps].
  destruct (IH (register_step r l) Hne) as (H1 & H2 & H3 & H4 & H5). cbv zeta in *.
  destruct (register_step_other ref r l Hne) as (G1 & G2 & G3 & G4 & G5).
  by rewrite H1, H2, H3, H4, H5.
Qed.

Lemma register_lock_other h ref h' r l :
  r ≠ ref → h' ≠ h →
  l_heap (register_lock h' r l) !! ref = l_heap l !! ref
  ∧ l_draining (register_lock h' r l) !! ref = l_draining l !! ref
  ∧ l_streams (register_lock h' r l) !! h = l_streams l !! h
  ∧ l_pendingRecv (register_lock h' r l) !! h = l_pendingRecv l !! h
  ∧ (h ∈ l_pendingClosed (register_lock h' r l) ↔ h ∈ l_pendingClosed l).
Proof.
  intros Hr Hh. cbn. rewrite !lookup_insert_ne, lookup_delete_ne by done.
  split_and!; try done. set_solver.
Qed.

(** Registering [h] itself, up to the unlock. *)
Lemma inv_lock h ref hist cl l :
  inv h ref hist cl l → l_heap l !! ref = None → inv h ref hist cl (register_lock h ref l).
Proof.
  intros [Hi Hp] Hn. destruct Hp as [H1 H2 H3 H4 H5|s ds ??????|s ??????]; [|congruence..]. split.
  - intros h' H. cbn in H. destruct (decide (h' = h)) as [->|Hne]; [done|].
    rewrite lookup_insert_ne in H by done. by apply Hi.
  - apply (ph_draining _ _ _ _ _ (newRhpStream h) hist); cbn.
    + by rewrite lookup_insert_eq.
    + rewrite lookup_insert_eq. by rewrite H4, H5.
    + by rewrite lookup_insert_eq.
    + done.
    + done.
    + done.
Qed.

(** A push for [h], when it is not being registered and has not been closed. *)
Lemma inv_recv h ref hist d l :
  inv h ref hist false l → l_draining l !! ref = None →
  inv h ref (hist ++ [d]) false (OnRecv h d l).
Proof.
  intros [Hi Hp] Hd. unfold OnRecv. destruct Hp as [H1 H2 H3 H4 H5|s ds ??????|s H1 _ H3 H4 H5 H6];
    [|congruence|].
  - rewrite H3. split; [done|]. apply ph_idle; cbn; try done. by rewrite lookup_insert_eq, H4.
  - rewrite H3 by done. split; [done|]. apply (ph_ready _ _ _ _ _ (feed d s)); cbn; try done.
    + by rewrite lookup_alter, decide_True, H1.
    + unfold feed. rewrite H5. cbn. by rewrite H4.
    + unfold feed. by rewrite H5.
    + by apply feed_wf.
Qed.

Lemma inv_close h ref hist l :
  inv h ref hist false l → l_draining l !! ref = None → inv h ref hist true (OnClose h l).
Proof.
  intros [Hi Hp] Hd. unfold OnClose. destruct Hp as [H1 H2 H3 H4 H5|s ds ??????|s H1 _ H3 H4 H5 H6];
    [|congruence|].
  - rewrite H3. split; [done|]. apply ph_idle; cbn; try done. apply bool_decide_eq_true. set_solver.
  - rewrite H3 by done. split.
    + intros h'. cbn. intros [_ H]%lookup_delete_Some. by apply Hi.
    + apply (ph_ready _ _ _ _ _ (markClosed s)); cbn; try done. by rewrite lookup_alter, decide_True, H1.
Qed.

Lemma inv_register_step h ref hist cl l :
  inv h ref hist cl l → inv h ref hist cl (register_step ref l).
Proof.
  intros [Hi Hp]. unfold register_step. destruct Hp as [? H ???|s ds H1 H2 H3 H4 H5 H6|s ? H ????].
  - rewrite H. split; [done|]. by apply ph_idle.
  - rewrite H2. destruct ds as [|d ds].
    + rewrite app_nil_r in H4. destruct cl; (split; [done|]).
      * apply (ph_ready _ _ _ _ _ (markClosed s)); cbn; try done;
          [by rewrite lookup_alter, decide_True, H1|by rewrite lookup_delete_eq].
      * apply (ph_ready _ _ _ _ _ s); cbn; try done. by rewrite lookup_delete_eq.
    + split; [done|]. apply (ph_draining _ _ _ _ _ (feed d s) ds); cbn; try done.
      * by rewrite lookup_alter, decide_True, H1.
      * by rewrite lookup_insert_eq.
      * unfold feed. rewrite H5. cbn. by rewrite <- app_assoc.
      * unfold feed. by rewrite H5.
      * by apply feed_wf.
  - rewrite H. split; [done|]. by apply (ph_ready _ _ _ _ _ s).
Qed.

Lemma inv_register_steps h ref hist cl n : ∀ l,
  inv h ref hist cl l → inv h ref hist cl (register_steps n ref l).
Proof. induction n as [|n IH]; intros l H; [done|]. cbn. by apply IH, inv_register_step. Qed.

Lemma inv_other_recv h ref hist cl h' d l :
  h' ≠ h → inv h ref hist cl l → inv h ref hist cl (OnRecv h' d l).
Proof.
  intros Hne Hinv. pose proof Hinv as [Hi _]. unfold OnRecv.
  destruct (l_streams l !! h') as [r|] eqn:E.
  - assert (r ≠ ref) by (intros ->; by apply Hne, Hi). apply (inv_frame _ _ _ _ l); try done.
    by apply upd_other.
  - apply (inv_frame _ _ _ _ l); try done. cbn. by rewrite lookup_insert_ne.
Qed.

Lemma inv_other_close h ref hist cl h' l :
  h' ≠ h → inv h ref hist cl l → inv h ref hist cl (OnClose h' l).
Proof.
  intros Hne Hinv. pose proof Hinv as [Hi _]. unfold OnClose.
  destruct (l_streams l !! h') as [r|] eqn:E.
  - assert (r ≠ ref) by (intros ->; by apply Hne, Hi). apply (inv_frame _ _ _ _ l); try done; cbn.
    + by rewrite lookup_alter_ne.
    + by rewrite lookup_delete_ne.
    + intros i [_ Ei]%lookup_delete_Some. by apply Hi.
  - apply (inv_frame _ _ _ _ l); try done. cbn. set_solver.
Qed.

Lemma inv_other_lock h ref hist cl h' r l :
  h' ≠ h → r ≠ ref → inv h ref hist cl l → inv h ref hist cl (register_lock h' r l).
Proof.
  intros Hh Hr Hinv. pose proof Hinv as [Hi _].
  destruct (register_lock_other h ref h' r l Hr Hh) as (H1 & H2 & H3 & H4 & H5).
  apply (inv_frame _ _ _ _ l); try done. intros i Ei. cbn in Ei.
  destruct (decide (i = h')) as [->|Hne].
  - rewrite lookup_insert_eq in Ei. congruence.
  - rewrite lookup_insert_ne in Ei by done. by apply Hi.
Qed.

Lemma inv_other_steps h ref hist cl n r l :
  r ≠ ref → inv h ref hist cl l → inv h ref hist cl (register_steps n r l).
Proof.
  intros Hr Hinv. pose proof Hinv as [Hi _].
  destruct (register_steps_other ref r n l Hr) as (H1 & H2 & H3 & H4 & H5).
  apply (inv_frame _ _ _ _ l); try done; by rewrite ?H3, ?H4, ?H5.
Qed.

Lemma inv_exec h ref hist cl e l :
  (match e with
   | EvRecv h' _ | EvClose h' => h' = h → cl = false ∧ l_draining l !! ref = None
   | EvAccept h' r | EvLock h' r => (h' = h ↔ r = ref) ∧ (h' = h → l_heap l !! ref = None)
   | EvForget h' => h' ≠ h
   | EvShut r => r ≠ ref
   | _ => True
   end) →
  inv h ref hist cl l → inv h ref (hist ++ chunk h e) (cl || closes h e) (exec e l).
Proof.
  intros He Hinv.
  destruct e as [h' d|h'|h' r|h' r|r|r n now|r t|h'|r]; cbn [exec chunk closes];
    rewrite ?orb_false_r, ?app_nil_r.
  - case_decide as Hh; [subst h'|rewrite app_nil_r; by apply inv_other_recv].
    destruct (He eq_refl) as [-> Hd]. by apply inv_recv.
  - case_bool_decide as Hh; [subst h'|rewrite orb_false_r; by apply inv_other_close].
    destruct (He eq_refl) as [-> Hd]. by apply inv_close.
  - destruct He as [Hiff Hn]. unfold registerStream. destruct (decide (h' = h)) as [->|Hne].
    + rewrite (proj1 Hiff eq_refl). apply inv_register_steps, inv_lock; auto.
    + assert (r ≠ ref) by naive_solver. by apply inv_other_steps, inv_other_lock.
  - destruct He as [Hiff Hn]. destruct (decide (h' = h)) as [->|Hne].
    + rewrite (proj1 Hiff eq_refl). apply inv_lock; auto.
    + assert (r ≠ ref) by naive_solver. by apply inv_other_lock.
  - destruct (decide (r = ref)) as [->|Hne]; [by apply inv_register_step|].
    by apply (inv_other_steps h ref hist cl 1 r l).
  - destruct (decide (r = ref)) as [->|Hne].
    + apply inv_stream; [|done]. intros s. apply Read_fields.
    + apply (inv_frame _ _ _ _ l); try done; [by apply upd_other|apply Hinv].
  - destruct (decide (r = ref)) as [->|Hne].
    + apply inv_stream; [|done]. by intros s.
    + apply (inv_frame _ _ _ _ l); try done; [by apply upd_other|apply Hinv].
  - pose proof Hinv as [Hi _]. apply (inv_frame _ _ _ _ l); try done; cbn.
    + by rewrite lookup_delete_ne.
    + intros i [_ Ei]%lookup_delete_Some. by apply Hi.
  - apply (inv_frame _ _ _ _ l); try done; [by apply upd_other|apply Hinv].
Qed.

Lemma inv_execs h ref evs : ∀ hist cl l,
  orderly h ref cl evs l → inv h ref hist cl l →
  inv h ref (hist ++ chunks h evs) (cl || closed_in h evs) (execs evs l).
Proof.
  induction evs as [|e evs IH]; intros hist cl l Ho Hinv.
  - cbn. by rewrite app_nil_r, orb_false_r.
  - destruct Ho as [He Ho].
    unfold chunks. rewrite fmap_cons. cbn [concat]. rewrite app_assoc.
    change (closed_in h (e :: evs)) with (closes h e || closed_in h evs).
    rewrite orb_assoc. apply (IH _ _ (exec e l)); [exact Ho|]. by apply inv_exec.
Qed.

(** Reading on until the buffer is empty. *)
Lemma read_all n now m : ∀ s,
  (0 < n)%nat → (length (n_buf s) ≤ m)%nat →
  let s' := Nat.iter m (λ s, (Read n now s).2) s in
  n_buf s' = [] ∧ n_got s' = n_got s ++ n_buf s ∧ n_closed s' = n_closed s.
Proof.
  induction m as [|m IH]; intros s Hn Hm.
  - destruct (n_buf s) eqn:Eb; [|cbn in Hm; lia]. cbn. by rewrite app_nil_r.
  - rewrite Nat.iter_succ_r. set (s1 := (Read n now s).2).
    assert (n_buf s1 = drop n (n_buf s) ∧ n_got s1 = n_got s ++ take n (n_buf s)
            ∧ n_closed s1 = n_closed s) as (E1 & E2 & E3).
    { unfold s1, Read. destruct (n_buf s) as [|b buf] eqn:Eb; [|done].
      rewrite drop_nil, take_nil, app_nil_r.
      destruct (n_closed s) eqn:Ec; [|destruct (n_deadline s)]; cbn; by rewrite ?Eb, ?Ec. }
    destruct (IH s1 Hn) as (H1 & H2 & H3).
    { rewrite E1, length_drop. lia. }
    cbv zeta in *. rewrite H1, H2, H3, E1, E2, E3, <- app_assoc, take_drop. done.
Qed.

Lemma execs_app a b l : execs (a ++ b) l = execs b (execs a l).
Proof. apply foldl_app. Qed.

Lemma execs_reads ref n now k : ∀ l s,
  l_heap l !! ref = Some s →
  let l' := execs (replicate k (EvRead ref n now)) l in
  l_heap l' !! ref = Some (Nat.iter k (λ s, (Read n now s).2) s).
Proof.
  induction k as [|k IH]; intros l s Hs; [done|].
  rewrite Nat.iter_succ_r. apply (IH (exec (EvRead ref n now) l)).
  cbn. by rewrite lookup_alter, decide_True, Hs.
Qed.

Lemma execs_steps ref k : ∀ l, execs (replicate k (EvStep ref)) l = register_steps k ref l.
Proof. induction k as [|k IH]; intros l; [done|]. apply IH. Qed.

Lemma register_steps_ready ref k : ∀ l, l_draining l !! ref = None → register_steps k ref l = l.
Proof.
  induction k as [|k IH]; intros l H; [done|]. cbn. unfold register_step at 1. rewrite H. by apply IH.
Qed.

Lemma inv_New h ref : inv h ref [] false New.
Proof. split; [done|]. by apply ph_idle. Qed.
End streams.

(** C37. Streams deliver.  Take any run of the attachment in which a handle's pushes
    end at its close, none of them interrupts its own registration and the node does not
    close the stream itself, while other handles do as they like.  Whatever arrived for the handle, before or after its
    stream was registered, is what its reader has got, can get from the buffer, or is
    still waiting to be fed, in order and without loss or repetition (or, unregistered,
    is all kept); the stream is closed only after the push that closes it; and it is
    live: once the registration goes on, finitely many reads of any size give the
    reader everything, and then exactly a closed stream reports the end. *)
Theorem stream_delivers h ref evs :
  orderly h ref false evs Streams.New →
  let l := Streams.execs evs Streams.New in
  match Streams.l_heap l !! ref with
  | None => default [] (Streams.l_pendingRecv l !! h) = chunks h evs
  | Some s =>
      let left := default [] (fst <$> Streams.l_draining l !! ref) in
      Streams.n_got s ++ Streams.n_buf s ++ concat left = concat (chunks h evs)
      ∧ (Streams.n_closed s = true → closed_in h evs = true ∧ left = [])
      ∧ ∀ n now, (0 < n)%nat → ∃ k s',
          let more := replicate (S (length left)) (Streams.EvStep ref)
                      ++ replicate k (Streams.EvRead ref n now) in
          Streams.l_heap (Streams.execs more l) !! ref = Some s'
          ∧ Streams.n_got s' = concat (chunks h evs)
          ∧ ((Streams.Read n now s').1 = Streams.ReadEOF ↔ closed_in h evs = true)
  end.
Proof.
  intros Ho l. destruct (inv_execs h ref evs [] false Streams.New Ho (inv_New h ref)) as [_ Hp].
  fold l in Hp. cbn [app orb] in Hp.
  assert (∀ s1 l1 n now, Streams.l_heap l1 !! ref = Some s1 → stream_wf s1 →
    Streams.n_fed s1 = chunks h evs → Streams.n_closed s1 = closed_in h evs → (0 < n)%nat →
    ∃ k s', Streams.l_heap (Streams.execs (replicate k (Streams.EvRead ref n now)) l1) !! ref = Some s'
    ∧ Streams.n_got s' = concat (chunks h evs)
    ∧ ((Streams.Read n now s').1 = Streams.ReadEOF ↔ closed_in h evs = true)) as Hread.
  { intros s1 l1 n now Hs Hwf Hf Hc Hn.
    destruct (read_all n now (length (Streams.n_buf s1)) s1 Hn (le_n _)) as (R1 & R2 & R3).
    eexists (length (Streams.n_buf s1)), _. split; [by apply execs_reads|]. cbv zeta in *.
    set (s' := Nat.iter _ _ s1) in *. clearbody s'.
    rewrite R2, Hwf, Hf. split; [done|]. unfold Streams.Read. rewrite R1, R3, Hc.
    destruct (closed_in h evs); [done|].
    destruct (Streams.n_deadline _); cbn; [by destruct (now <? _)|done]. }
  destruct Hp as [H1 H2 H3 H4 H5|s ds H1 H2 H3 H4 H5 H6|s H1 H2 H3 H4 H5 H6]; rewrite H1; [done|..];
    rewrite H2; cbn [fst fmap option_fmap option_map default].
  - split_and!; [|congruence|].
    + rewrite <- H4, concat_app, <- H6. by rewrite app_assoc.
    + intros n now Hn.
      destruct (register_steps_done ref ds _ l s H2 H1 H5 H6) as (s1 & G1 & _ & _ & _ & _ & G6 & G7 & G8).
      destruct (Hread s1 (Streams.register_steps (S (length ds)) ref l) n now) as (k & s' & Hk).
      { rewrite G1. by rewrite lookup_insert_eq. } { done. } { by rewrite G6. } { done. } { done. }
      exists k, s'. cbv zeta. by rewrite execs_app, execs_steps.
  - split_and!.
    + rewrite app_nil_r, H6. by rewrite H4.
    + intros Hc. split; [congruence|done].
    + intros n now Hn. destruct (Hread s l n now) as (k & s' & Hk); try done.
      exists k, s'. cbv zeta. by rewrite execs_app, execs_steps, register_steps_ready.
Qed.

Lemma stream_delivers_witness :
  let evs := [Streams.EvRecv 7 (bs "GB7"); Streams.EvRecv 9 (bs "zz"); Streams.EvLock 7 0;
              Streams.EvStep 0; Streams.EvStep 0; Streams.EvRecv 7 (bs "AAA>"); Streams.EvClose 7] in
  ∃ s, Streams.l_heap (Streams.execs evs Streams.New) !! 0%nat = Some s
    ∧ Streams.n_got s ++ Streams.n_buf s ++ [] = bs "GB7AAA>".
Proof.
  intros evs. assert (orderly 7 0 false evs Streams.New) as Ho.
  { cbn [orderly evs]. split_and!; try exact I; try (intros; split; reflexivity);
      try discriminate; intros; reflexivity. }
  pose proof (stream_delivers 7 0 evs Ho) as H. cbv zeta in H.
  destruct (Streams.l_heap (Streams.execs evs Streams.New) !! 0%nat) as [s|] eqn:E.
  - exists s. split; [reflexivity|]. destruct H as (H & _ & _).
    replace (Streams.l_draining (Streams.execs evs Streams.New) !! 0%nat)
      with (@None (list gostring * bool)) in H by (vm_compute; reflexivity).
    exact H.
  - exfalso. vm_compute in E. discriminate E.
Defined.

(** The registration of a dialled handle runs beside the read loop: a push that arrives
    between its unlock and its feeding overtakes the pushes that were kept. *)
Example dial_race_reorders :
  let evs := [Streams.EvRecv 7 (bs "A"); Streams.EvLock 7 0; Streams.EvRecv 7 (bs "B");
              Streams.EvStep 0; Streams.EvStep 0] in
  Streams.n_buf <$> (Streams.l_heap (Streams.execs evs Streams.New) !! 0%nat) = Some (bs "BA").
Proof. vm_compute. reflexivity. Qed.

(** A close kept for a handle that was never registered outlives the attachment: the
    next attachment's stream of the same handle is born closed. *)
Example stale_close_kills_stream :
  let l := Streams.exec (Streams.EvAccept 7 0)
             (Streams.attach (Streams.execs [Streams.EvClose 7] Streams.New)) in
  Streams.n_closed <$> (Streams.l_heap l !! 0%nat) = Some true.
Proof. vm_compute. reflexivity. Qed.

(** ** Binding *)

Section binding.
Import Binding.

Lemma itoa_small_inj n m : (n < 16)%nat → (m < 16)%nat → itoa (Z.of_nat n) = itoa (Z.of_nat m) → n = m.
Proof.
  intros Hn Hm. assert (forallb (λ p : nat * nat, negb (bool_decide (itoa (Z.of_nat p.1) = itoa (Z.of_nat p.2)))
    || (p.1 =? p.2)%nat) (list_prod (seq 0 16) (seq 0 16)) = true) as H by (vm_compute; reflexivity).
  rewrite forallb_forall in H. specialize (H (n, m)). rewrite in_prod_iff, !in_seq in H.
  specialize (H ltac:(lia)). cbn in H. intros E.
  rewrite bool_decide_eq_true_2 in H by done. by apply Nat.eqb_eq in H.
Qed.

Lemma with_ssid_inj base n m : (n < 16)%nat → (m < 16)%nat → with_ssid base n = with_ssid base m → n = m.
Proof.
  unfold with_ssid. intros Hn Hm. destruct (Nat.ltb_spec 0 n), (Nat.ltb_spec 0 m); intros E.
  - apply app_inv_head in E. cbn in E. injection E as E. by apply itoa_small_inj.
  - exfalso. apply (f_equal length) in E. rewrite length_app in E. cbn in E. lia.
  - exfalso. apply (f_equal length) in E. rewrite length_app in E. cbn in E. lia.
  - lia.
Qed.

Lemma probe_NoDup configured : NoDup (probeCandidates configured).
Proof.
  unfold probeCandidates. apply NoDup_cons. split.
  - rewrite list_elem_of_In, filter_In. intros [_ H]. bools. done.
  - apply NoDup_ListNoDup, List.NoDup_filter, NoDup_ListNoDup.
    apply NoDup_fmap_2_strong; [|apply NoDup_seq].
    intros n m Hn Hm. rewrite !elem_of_seq in *. apply with_ssid_inj; lia.
Qed.

Lemma bind_loop_head bind cs cands : head (bind_loop bind (cs :: cands)).2 = Some cs.
Proof.
  cbn. destruct (bind cs) as [[code text|]|]; [|done|done].
  destruct (RhpWire.IsCallsignInUse code); [|done]. by destruct (bind_loop bind cands).
Qed.

(** What the walk tries: the candidates up to the first that is not in use. *)
Lemma bind_loop_spec bind cands :
  let '(r, tried) := bind_loop bind cands in
  (∃ rest, cands = tried ++ rest ∧ (r = NoFreeSSID → rest = []))
  ∧ match r with
    | Bound cs => last tried = Some cs ∧ bind cs = None
    | BindFailed e => ∃ cs, last tried = Some cs ∧ bind cs = Some e
        ∧ (∀ code text, e = BindServer code text → RhpWire.IsCallsignInUse code = false)
    | NoFreeSSID => True
    end
  ∧ ∀ i cs, tried !! i = Some cs → (S i < length tried)%nat ∨ r = NoFreeSSID →
      ∃ code text, bind cs = Some (BindServer code text) ∧ RhpWire.IsCallsignInUse code = true.
Proof.
  induction cands as [|cs cands IH]; cbn; [split_and!; [by exists []|done|done]|].
  destruct (bind cs) as [[code text|]|] eqn:Eb.
  - destruct (RhpWire.IsCallsignInUse code) eqn:Eu.
    + destruct (bind_loop bind cands) as [r tried]. destruct IH as ((rest & -> & Hr) & H1 & H2).
      split_and!.
      * by exists rest.
      * destruct r as [c|e|]; [|destruct H1 as (c & H1 & ?)|done]; destruct tried; try done; try (by destruct H1).
        exists c. done.
      * intros [|i] c; cbn; [intros [= <-] _; eauto|]. intros Hi [Hl|Hl]; apply (H2 i c Hi); [left; lia|by right].
    + split_and!; [by exists cands|exists cs; split_and!; try done; by intros ?? [= -> ->]|].
      intros [|i] c; cbn; [|done]. intros _ [?|?]; [lia|done].
  - split_and!; [by exists cands|by exists cs|].
    intros [|i] c; cbn; [|done]. intros _ [?|?]; [lia|done].
  - split_and!; [by exists cands|done|done|].
    intros [|i] c; cbn; [|done]. intros _ [?|?]; [lia|done].
Qed.
End binding.

(** Binding the callsign.  A callsign the node reserved is the only one tried.
    Otherwise the walk tries the configured callsign first and then SSIDs 0 to 15 of
    its base, each callsign at most once; it moves on exactly after refusals that mean
    the callsign is in use, returns the first callsign the node accepts, stops at any
    other refusal, and gives up only when every one of the candidates is in use.
    Nothing is requested after the answer. *)
Theorem bind_walk nodeOwns chat bind :
  let '(r, tried) := Binding.bindCallsign nodeOwns chat bind in
  let inUse cs := ∃ code text, bind cs = Some (Binding.BindServer code text)
                    ∧ RhpWire.IsCallsignInUse code = true in
  NoDup tried ∧ head tried = Some chat
  ∧ (nodeOwns = true → tried = [chat])
  ∧ (∀ cs, cs ∈ tried → cs = chat ∨ ∃ n, (n ≤ 15)%nat ∧ cs = Binding.with_ssid (Binding.baseOf chat) n)
  ∧ (∀ i cs, tried !! i = Some cs → (S i < length tried)%nat → inUse cs)
  ∧ match r with
    | Binding.Bound cs => last tried = Some cs ∧ bind cs = None
    | Binding.BindFailed e => ∃ cs, last tried = Some cs ∧ bind cs = Some e
    | Binding.NoFreeSSID => nodeOwns = false ∧ Forall inUse tried
        ∧ ∀ n, (n ≤ 15)%nat → Binding.with_ssid (Binding.baseOf chat) n ∈ tried
    end.
Proof.
  unfold Binding.bindCallsign. destruct nodeOwns.
  - assert (∀ cs, cs ∈ [chat] → cs = chat ∨ ∃ n, (n ≤ 15)%nat
      ∧ cs = Binding.with_ssid (Binding.baseOf chat) n) as H1.
    { intros cs ->%list_elem_of_singleton. by left. }
    assert (∀ i cs, [chat] !! i = Some cs → (S i < 1)%nat → ∃ code text,
      bind cs = Some (Binding.BindServer code text) ∧ RhpWire.IsCallsignInUse code = true) as H2.
    { lia. }
    destruct (bind chat) as [e|] eqn:Eb; split_and!; try done; try apply NoDup_singleton.
    by exists chat.
  - pose proof (bind_loop_spec bind (Binding.probeCandidates chat)) as H.
    pose proof (probe_NoDup chat) as Hn.
    assert (∀ cs, cs ∈ Binding.probeCandidates chat → cs = chat
      ∨ ∃ n, (n ≤ 15)%nat ∧ cs = Binding.with_ssid (Binding.baseOf chat) n) as Hc.
    { unfold Binding.probeCandidates. intros cs [->|Hin]%elem_of_cons; [by left|right].
      apply list_elem_of_In, filter_In in Hin as [Hin _].
      apply list_elem_of_In, list_elem_of_fmap in Hin as (n & -> & Hin%elem_of_seq).
      exists n. split; [lia|done]. }
    destruct (Binding.bind_loop bind (Binding.probeCandidates chat)) as [r tried] eqn:El.
    destruct H as ((rest & Er & Hrest) & H1 & H2). rewrite Er in Hn, Hc.
    split_and!; try done.
    + by apply NoDup_app in Hn as [? _].
    + replace tried with (Binding.bind_loop bind (Binding.probeCandidates chat)).2 by (by rewrite El).
      apply bind_loop_head.
    + intros cs Hin. apply Hc, elem_of_app. left. exact Hin.
    + intros i cs Hi Hl. apply (H2 i cs Hi). left; exact Hl.
    + destruct r as [cs|e|]; [exact H1|destruct H1 as (cs & Ha & Hb & _); exists cs; exact (conj Ha Hb)|].
      split; [reflexivity|]. split.
      * apply Forall_lookup. intros i cs Hi. apply (H2 i cs Hi). by right.
      * intros n Hle. rewrite (Hrest eq_refl), app_nil_r in Er. rewrite <- Er.
        unfold Binding.probeCandidates.
        destruct (decide (Binding.with_ssid (Binding.baseOf chat) n = chat)) as [E|Hne];
          [rewrite E; left|].
        right. apply list_elem_of_In, filter_In. split; [|rewrite bool_decide_eq_false_2 by exact Hne; reflexivity].
        apply list_elem_of_In, list_elem_of_fmap_2, elem_of_seq. lia.
Qed.

Example bind_walk_example :
  let bind cs := if bool_decide (cs = bs "M0ABC-4") then Some (Binding.BindServer 9 []) else None in
  Binding.bindCallsign false (bs "M0ABC-4") bind = (Binding.Bound (bs "M0ABC"), [bs "M0ABC-4"; bs "M0ABC"]).
Proof. vm_compute. reflexivity. Qed.

(** ** The reconnection schedule *)

Lemma after_spec n initial max :
  0 < initial ≤ max → Backoff.after n initial max = Z.min max (initial * 2 ^ Z.of_nat n).
Proof.
  intros H. induction n as [|n IH]; cbn [Backoff.after]; [lia|].
  rewrite IH, Nat2Z.inj_succ, Z.pow_succ_r by lia. unfold Backoff.next.
  pose proof (Z.pow_pos_nonneg 2 (Z.of_nat n) ltac:(lia) ltac:(lia)).
  destruct (Z.ltb_spec max (Z.min max (initial * 2 ^ Z.of_nat n) * 2)); nia.
Qed.

(** Reconnection backs off within bounds.  After [n] failures the attachment waits
    1 s, an RF peer's dialler 5 s and an IP peer's 2 s, doubled [n] times and capped at
    60 s, 120 s and 60 s; the wait is never below its start or above its cap, and the
    doubling never overflows a 64-bit duration. *)
Theorem backoff_schedule n :
  let s := 1000000000 in
  Backoff.after n Backoff.run_initial Backoff.run_max = Z.min (60 * s) (s * 2 ^ Z.of_nat n)
  ∧ Backoff.after n Backoff.rf_initial Backoff.rf_max = Z.min (120 * s) (5 * s * 2 ^ Z.of_nat n)
  ∧ Nat.iter n backoff_next dial_initial = Z.min (60 * s) (2 * s * 2 ^ Z.of_nat n)
  ∧ (∀ i m, (i, m) ∈ [(Backoff.run_initial, Backoff.run_max); (Backoff.rf_initial, Backoff.rf_max);
       (dial_initial, dial_max)] →
     i ≤ Backoff.after n i m ≤ m ∧ Backoff.after n i m * 2 < 2 ^ 63).
Proof.
  intros s. assert (0 < 2 ^ Z.of_nat n) as Hp by (apply Z.pow_pos_nonneg; lia).
  assert (Nat.iter n backoff_next dial_initial = Backoff.after n dial_initial dial_max) as ->.
  { clear. induction n as [|n IH]; [done|]. cbn [Backoff.after]. by rewrite <- IH. }
  split_and!; [by rewrite after_spec|by rewrite after_spec|by rewrite after_spec|].
  intros i m H. assert (0 < i ≤ m ∧ m * 2 < 2 ^ 63) as [Him Hm].
  { apply list_elem_of_In in H. cbn in H. destruct H as [[= <- <-]|[[= <- <-]|[[= <- <-]|[]]]]; by vm_compute. }
  rewrite after_spec by done. nia.
Qed.

(** ** Inbound connections *)

(** The lines of a stream, as [readChildLine] finds them one after the other. *)
Fixpoint child_lines_fuel (n : nat) (br : gostring) : list gostring :=
  match n with
  | O => []
  | S n' => match Inbound.readChildLine br with
            | None => []
            | Some (line, br') => line :: child_lines_fuel n' br'
            end
  end.
Definition child_lines (br : gostring) : list gostring := child_lines_fuel (length br) br.

Definition no_eol (s : gostring) : Prop := Forall (λ c, is_eol c = false) s.

Lemma readChildLine_loop_spec br : ∀ acc line rest,
  Inbound.readChildLine_loop acc br = Some (line, rest) → no_eol acc →
  no_eol line ∧ (length rest < length br)%nat.
Proof.
  induction br as [|c br IH]; intros acc line rest; cbn; [done|].
  destruct ((bz c =? 13) || (bz c =? 10)) eqn:E; [intros [= <- <-] H; split; [done|lia]|].
  intros H Ha. destruct (IH _ _ _ H) as [H1 H2]; [|split; [done|lia]].
  case_match; [|done]. apply Forall_app. split; [done|by constructor].
Qed.

(** One chunk of the pump is one line of the session. *)
Lemma feed_line max l : ∀ buf ov,
  no_eol l → Z.of_nat (length buf) ≤ max → (ov = true → Z.of_nat (length buf) = max) →
  feed_loop false (mkLineAssembler max buf ov) (l ++ [CR])
  = ([take (Z.to_nat max) (buf ++ l)], mkLineAssembler max [] false).
Proof.
  induction l as [|c l IH]; intros buf ov Hl Hb Ho.
  - cbn. by rewrite app_nil_r, take_ge by lia.
  - apply Forall_cons in Hl as [Hc Hl]. cbn [app feed_loop]. rewrite Hc.
    unfold feed_byte. cbn [a_overflow a_max a_buf]. destruct ov.
    + rewrite IH by done. specialize (Ho eq_refl). rewrite !take_app_le by lia. done.
    + destruct (Z.leb_spec max (Z.of_nat (length buf))).
      * rewrite IH by (done || lia). rewrite !take_app_le by lia. done.
      * rewrite IH; [by rewrite <- app_assoc|done|rewrite length_app; cbn; lia|done].
Qed.

Lemma pump_feed lines :
  Forall no_eol lines →
  feed_all ((λ l, l ++ [CR]) <$> lines) (NewLineAssembler MaxLine)
  = (take 512 <$> lines, NewLineAssembler MaxLine).
Proof.
  induction 1 as [|l lines Hl _ IH]; [done|]. rewrite !fmap_cons. cbn [feed_all].
  pose proof (feed_line 512 l [] false Hl ltac:(done) ltac:(done)) as Hf.
  change (feed_loop false _ (l ++ [CR])) with (Feed (l ++ [CR]) (NewLineAssembler MaxLine)) in Hf.
  rewrite Hf. change (mkLineAssembler 512 [] false) with (NewLineAssembler MaxLine). by rewrite IH.
Qed.

Lemma pump_lines n : ∀ br,
  Inbound.pump_fuel n br = (λ l, l ++ [CR]) <$> child_lines_fuel n br
  ∧ Forall no_eol (child_lines_fuel n br).
Proof.
  induction n as [|n IH]; intros br; [done|]. cbn.
  destruct (Inbound.readChildLine br) as [[line br']|] eqn:E; [|done].
  destruct (readChildLine_loop_spec _ _ _ _ E) as [H _]; [constructor|].
  destruct (IH br') as [-> H2]. split; [done|by constructor].
Qed.

(** C38. Inbound radio connections.  The first line decides: one that is not the peer
    login starts a user session under the caller's callsign, whatever the allow-list
    says, without touching the links or the list, and the session then sees exactly the
    lines of the stream, first line included, each cut at 512 bytes; the peer login
    becomes a link only if the caller is on the list, and otherwise the connection
    leaves the hub, the links and every link object as they were and is counted once; so a nil
    list admits no peer.  A connection that fails before its first line changes
    nothing. *)
Theorem inbound_demux {St : Type} `{!Store St} now ref up sends bound allow remote br (w : Router.World St) :
  let '(res, allow') := (Inbound.serveInbound now ref up sends bound allow remote br w).1 in
  let w' := (Inbound.serveInbound now ref up sends bound allow remote br w).2 in
  match res with
  | Inbound.InLost => w' = w ∧ allow' = allow ∧ (up = false ∨ Inbound.readChildLine br = None)
  | Inbound.InRefused =>
      w' = w ∧ Allowed allow remote = false
      ∧ Rejected allow' = (if decide (is_Some allow) then wrap64 (Rejected allow + 1) else 0)
      ∧ ∃ first rest, Inbound.readChildLine br = Some (first, rest) ∧ IsRTL first = true
  | Inbound.InPeer _ =>
      allow' = allow ∧ Allowed allow remote = true
      ∧ ∃ first rest, Inbound.readChildLine br = Some (first, rest) ∧ IsRTL first = true
  | Inbound.InUser s data =>
      allow' = allow ∧ Sess.New (Router.w_hub w) sends remote = (inl s, Router.w_hub w')
      ∧ Router.w_links w' = Router.w_links w ∧ Router.w_heap w' = Router.w_heap w
      ∧ ∃ first rest, Inbound.readChildLine br = Some (first, rest) ∧ IsRTL first = false
      ∧ feed_all data (NewLineAssembler MaxLine)
        = (take 512 <$> (first :: child_lines rest), NewLineAssembler MaxLine)
  | Inbound.InNoSession e =>
      allow' = allow ∧ Sess.New (Router.w_hub w) sends remote = (inr e, Router.w_hub w')
      ∧ Router.w_links w' = Router.w_links w ∧ Router.w_heap w' = Router.w_heap w
  end.
Proof.
  unfold Inbound.serveInbound. destruct up; cbn [negb]; [|by split_and!; [..|left]].
  destruct (Inbound.readChildLine br) as [[first rest]|] eqn:E1; [|by split_and!; [..|right]].
  destruct (IsRTL first) eqn:Er.
  - destruct (Allowed allow remote) eqn:Ea; cbn [negb].
    + st_simpl. split_and!; try done. by exists first, rest.
    + st_simpl. split_and!; try done; [by destruct allow|by exists first, rest].
  - st_simpl. destruct (Sess.New (Router.w_hub w) sends remote) as [[s|e] h] eqn:En; cbn [fst snd];
      st_simpl; [|by split_and!].
    split_and!; try done. exists first, rest. split_and!; [done|done|].
    unfold Inbound.pump, child_lines. destruct (pump_lines (length rest) rest) as [-> H].
    change ((first ++ [CR]) :: ((λ l, l ++ [CR]) <$> child_lines_fuel (length rest) rest))
      with ((λ l, l ++ [CR]) <$> (first :: child_lines_fuel (length rest) rest)).
    apply pump_feed. constructor; [|done].
    destruct (readChildLine_loop_spec _ _ _ _ E1) as [Hne _]; [constructor|done].
Qed.
