(* ===== verification/StreamPipe.v ===== *)
(** * Streams over the host protocol ([internal/node/stream.go], [internal/rhp/client.go])

    The two ends of an attachment put together: the client, whose read loop calls the
    [Handler] methods of [node.go], and the streams, whose [Write] and [Close] are requests
    of that client.  An event is one step of one goroutine: the read loop, a caller of
    [roundTrip], the owner of a stream. *)
From S2P Require Import Prelude Unicode GoStrings ChatModel ChatSeen Rhp RhpClient Node.
From stdpp Require Import options.
Import RhpWire Client.
Local Open Scope Z_scope.

Module Pipe.

(** The requests of [attachOnce] and of a dial. *)
Inductive request :=
| ReqAuth (user pass : gostring)
| ReqSocket
| ReqBind (handle : Z) (local p : gostring)
| ReqListen (handle : Z)
| ReqOpen (local remote p : gostring).
Definition message_of (r : request) : Message :=
  match r with
  | ReqAuth user pass => Authenticate user pass
  | ReqSocket => Socket
  | ReqBind handle local p => Bind handle local p
  | ReqListen handle => Listen handle
  | ReqOpen local remote p => Open local remote p
  end.

(** A [Write] that has returned: on which stream, what, under which request id (none if
    the client was closed), and with which error. *)
Record entry := mkEntry {
  e_ref : nat; e_data : gostring; e_id : option Z; e_err : option call_error }.

(** What [Write] returns. *)
Definition write_result (e : entry) : Z + call_error :=
  match e_err e with Some err => inr err | None => inl (Z.of_nat (length (e_data e))) end.

Record Pipe := mkPipe {
  p_client : Client;
  p_table : Streams.Link;
  p_owner : gmap Z nat;                     (* whose [Write] a request is *)
  p_writes : gmap nat (gostring * Z);       (* the [Write]s under way *)
  p_log : list entry }.

(** A new attachment: a new client and an empty table. *)
Definition start : Pipe := mkPipe Connect Streams.New ∅ ∅ [].

Definition set_client c (y : Pipe) : Pipe := mkPipe c (p_table y) (p_owner y) (p_writes y) (p_log y).
Definition on_table (es : list Streams.ev) (y : Pipe) : Pipe :=
  mkPipe (p_client y) (Streams.execs es (p_table y)) (p_owner y) (p_writes y) (p_log y).

(** ** The stream's methods *)

(** [Write], up to the request; one goroutine at a time writes to a stream. *)
Definition Write (ref : nat) (data : gostring) (y : Pipe) : option Pipe :=
  s ← Streams.l_heap (p_table y) !! ref;
  match p_writes y !! ref with
  | Some _ => None
  | None =>
      Some (match register (Send (Streams.n_handle s) data) (p_client y) with
            | None =>
                mkPipe (p_client y) (p_table y) (p_owner y) (p_writes y)
                  (p_log y ++ [mkEntry ref data None (Some ErrClosed)])
            | Some (id, c) =>
                mkPipe c (p_table y) (<[id := ref]> (p_owner y)) (<[ref := (data, id)]> (p_writes y))
                  (p_log y)
            end)
  end.

(** ... and from the end of [roundTrip]. *)
Definition Write_return (ref : nat) (y : Pipe) : option Pipe :=
  w ← p_writes y !! ref;
  let '(data, id) := w in
  match c_calls (p_client y) !! id with
  | Some (Finished o) =>
      Some (mkPipe (p_client y) (p_table y) (p_owner y) (delete ref (p_writes y))
              (p_log y ++ [mkEntry ref data (Some id) o.2]))
  | _ => None
  end.

(** [Close], up to its request. *)
Definition Close (ref : nat) (y : Pipe) : option Pipe :=
  s ← Streams.l_heap (p_table y) !! ref;
  let y1 := on_table [Streams.EvShut ref] y in
  Some (match register (CloseHandle (Streams.n_handle s)) (p_client y1) with
        | None => y1
        | Some (_, c) => set_client c y1
        end).

(** ** The handler *)

(** The [Handler] method of a push; [ref] is the stream object an accepted connection
    gets. *)
Definition handler_evs (p : push) (ref : nat) : list Streams.ev :=
  match p with
  | OnAccept _ child _ _ _ => [Streams.EvAccept child ref]
  | OnRecv handle data => [Streams.EvRecv handle data]
  | OnStatus _ _ => []
  | OnClose handle => [Streams.EvClose handle]
  end.
Definition frame_evs (m : Message) (ref : nat) : list Streams.ev :=
  match ID m, push_of m with
  | None, Some p => handler_evs p ref
  | _, _ => []
  end.

(** ** Steps *)

Inductive ev :=
(** Any goroutine's call of [roundTrip], and how it goes on. *)
| Call (r : request)
| Written (id : Z)
| WriteFailed (id : Z)
| Cancelled (id : Z)
| Received (id : Z)
(** The read loop, and [Client.Close]. *)
| Frame (m : Message) (ref : nat)
| Lost (e : io_error)
| Shut
(** A dial registers the handle it has opened, and gives it up again. *)
| Register (handle : Z) (ref : nat)
| Drain (ref : nat)
| Forget (handle : Z)
(** The owner of a stream. *)
| Read (ref : nat) (n : nat) (now : Time)
| SetReadDeadline (ref : nat) (t : option Time)
| BeginWrite (ref : nat) (data : gostring)
| EndWrite (ref : nat)
| BeginClose (ref : nat).

(** What an event does to the handle table. *)
Definition table_evs (e : ev) : list Streams.ev :=
  match e with
  | Frame m ref => frame_evs m ref
  | Register handle ref => [Streams.EvLock handle ref]
  | Drain ref => [Streams.EvStep ref]
  | Forget handle => [Streams.EvForget handle]
  | Read ref n now => [Streams.EvRead ref n now]
  | SetReadDeadline ref t => [Streams.EvDeadline ref t]
  | BeginClose ref => [Streams.EvShut ref]
  | _ => []
  end.

Definition unused (ref : nat) (y : Pipe) : bool :=
  bool_decide (Streams.l_heap (p_table y) !! ref = None).
Definition when (b : bool) (y : Pipe) : option Pipe := if b then Some y else None.
Definition calling (id : Z) (y : Pipe) : option phase := c_calls (p_client y) !! id.

Definition exec (e : ev) (y : Pipe) : option Pipe :=
  let c := p_client y in
  match e with
  | Call r =>
      match register (message_of r) c with
      | Some (_, c') => Some (set_client c' y)
      | None => Some y
      end
  | Written id =>
      match calling id y with
      | Some (Writing req) =>
          Some (set_client (upd_calls <[id := Awaiting]> (upd_sent (λ l, l ++ [req]) c)) y)
      | _ => None
      end
  | WriteFailed id =>
      match calling id y with
      | Some (Writing _) => Some (set_client (abandon id ErrWrite c) y)
      | _ => None
      end
  | Cancelled id =>
      match calling id y with
      | Some Awaiting => Some (set_client (abandon id ErrContext c) y)
      | _ => None
      end
  | Received id =>
      match calling id y, receive id c with
      | Some Awaiting, Some o => Some (set_client (upd_calls <[id := Finished o]> c) y)
      | _, _ => None
      end
  | Frame m ref =>
      when (negb (c_done c) && unused ref y) (on_table (frame_evs m ref) (set_client (read_frame m c) y))
  | Lost err => when (negb (c_done c)) (set_client (read_end err c) y)
  | Shut => Some (set_client (set_closed c) y)
  | Register handle ref => when (unused ref y) (on_table [Streams.EvLock handle ref] y)
  | BeginWrite ref data => Write ref data y
  | EndWrite ref => Write_return ref y
  | BeginClose ref => Close ref y
  | Drain _ | Forget _ | Read _ _ _ | SetReadDeadline _ _ => Some (on_table (table_evs e) y)
  end.

Fixpoint execs (es : list ev) (y : Pipe) : option Pipe :=
  match es with
  | [] => Some y
  | e :: es' => y1 ← exec e y; execs es' y1
  end.

(** ** What goes through *)

(** The requests of a stream's [Write]s among the frames written. *)
Definition sends (ref : nat) (y : Pipe) : list Message :=
  List.filter (λ m, bool_decide ((ID m ≫= λ id, p_owner y !! id) = Some ref)) (c_sent (p_client y)).
Definition sent_data (ref : nat) (y : Pipe) : list gostring :=
  (λ m, DecodeData (deref (Data m))) <$> sends ref y.

(** A write that failed before its frame was out. *)
Definition unsent (err : option call_error) : bool :=
  bool_decide (err = Some ErrClosed) || bool_decide (err = Some ErrWrite).
(** The data of the writes that have returned and were sent, and of one under way that is
    out already. *)
Definition gone_out (ref : nat) (e : entry) : list gostring :=
  if bool_decide (e_ref e = ref) && negb (unsent (e_err e)) then [e_data e] else [].
Definition returned (ref : nat) (y : Pipe) : list gostring := concat (gone_out ref <$> p_log y).
Definition out (p : option phase) : bool :=
  match p with
  | Some Awaiting => true
  | Some (Finished o) => negb (bool_decide (o.2 = Some ErrWrite))
  | _ => false
  end.
Definition in_flight (ref : nat) (y : Pipe) : list gostring :=
  match p_writes y !! ref with
  | Some (data, id) => if out (calling id y) then [data] else []
  | None => []
  end.

(** The data of the pushes for a handle. *)
Definition received (h : Z) (p : push) : list gostring :=
  match p with OnRecv h' d => if decide (h' = h) then [d] else [] | _ => [] end.

End Pipe.
