(* ===== verification/PipeProps.v ===== *)
(** * A stream is a pipe

    What goes into the one end of a stream comes out of the other, over the client, its
    table of calls and its read loop, whatever the other goroutines of the attachment do. *)
From S2P Require Import Prelude Unicode GoStrings ChatModel ChatSeen Rhp RhpClient RhpClientProps.
From S2P Require Import Node NodeProps StreamPipe.
From stdpp Require Import options.
Import RhpWire Client Pipe.
Local Open Scope Z_scope.

(** ** Every event is a step of the client *)

Lemma exec_reaches e y y' : exec e y = Some y' → rtc client_step (p_client y) (p_client y').
Proof.
  intros H. destruct e; cbn [exec] in H.
  - destruct (register _ _) as [[id c]|] eqn:E; injection H as <-; [|done].
    eapply rtc_once, step_register, E.
  - destruct (calling id y) as [[req| |o]|] eqn:E; try discriminate. injection H as <-.
    by apply rtc_once, step_written.
  - destruct (calling id y) as [[req| |o]|] eqn:E; try discriminate. injection H as <-.
    by eapply rtc_once, step_write_failed.
  - destruct (calling id y) as [[req| |o]|] eqn:E; try discriminate. injection H as <-.
    by apply rtc_once, step_cancelled.
  - destruct (calling id y) as [[req| |o]|] eqn:E; try discriminate.
    destruct (receive id _) as [o|] eqn:Er; [|discriminate]. injection H as <-.
    by apply rtc_once, step_received.
  - unfold when in H. destruct (c_done (p_client y)) eqn:E; [discriminate|].
    destruct (unused ref y); [|discriminate]. injection H as <-. by apply rtc_once, step_read.
  - unfold when in H. destruct (c_done (p_client y)) eqn:E; [discriminate|].
    injection H as <-. by apply rtc_once, step_read_end.
  - injection H as <-. apply rtc_once, step_close.
  - unfold when in H. destruct (unused ref y); [|discriminate]. by injection H as <-.
  - by injection H as <-.
  - by injection H as <-.
  - by injection H as <-.
  - by injection H as <-.
  - unfold Write in H. destruct (Streams.l_heap _ !! _) as [s|]; [|discriminate]. cbn in H.
    destruct (p_writes y !! ref); [discriminate|].
    destruct (register _ _) as [[id c]|] eqn:E; injection H as <-; [|done].
    eapply rtc_once, step_register, E.
  - unfold Write_return in H. destruct (p_writes y !! ref) as [[data id]|]; [|discriminate]. cbn in H.
    destruct (c_calls _ !! id) as [[?| |o]|]; try discriminate. by injection H as <-.
  - unfold Close in H. destruct (Streams.l_heap _ !! _) as [s|]; [|discriminate]. cbn in H.
    destruct (register _ _) as [[id c]|] eqn:E; injection H as <-; [|done].
    eapply rtc_once, step_register, E.
Qed.

(** ** The objects of the table keep their handles *)

Definition keeps (l l' : Streams.Link) : Prop :=
  ∀ ref s, Streams.l_heap l !! ref = Some s →
    ∃ s', Streams.l_heap l' !! ref = Some s' ∧ Streams.n_handle s' = Streams.n_handle s.

#[local] Instance keeps_preorder : PreOrder keeps.
Proof.
  split; [intros l ref s H; by exists s|]. intros l1 l2 l3 H1 H2 ref s H.
  destruct (H1 ref s H) as (s1 & E1 & F1). destruct (H2 ref s1 E1) as (s2 & E2 & F2).
  exists s2. by rewrite E2, F2.
Qed.

Lemma keeps_heap l l' : Streams.l_heap l' = Streams.l_heap l → keeps l l'.
Proof. intros E ref s H. exists s. by rewrite E. Qed.
Lemma keeps_upd r f l : (∀ s, Streams.n_handle (f s) = Streams.n_handle s) → keeps l (Streams.upd_stream r f l).
Proof.
  intros Hf ref s H. cbn. destruct (decide (ref = r)) as [->|Hne].
  - exists (f s). by rewrite lookup_alter, decide_True, H.
  - exists s. by rewrite lookup_alter_ne.
Qed.
Lemma feed_handle d s : Streams.n_handle (Streams.feed d s) = Streams.n_handle s.
Proof. unfold Streams.feed. by destruct (Streams.n_closed s). Qed.
Lemma Read_handle n now s : Streams.n_handle (Streams.Read n now s).2 = Streams.n_handle s.
Proof.
  unfold Streams.Read. destruct (Streams.n_buf s), (Streams.n_closed s); try done.
  by destruct (Streams.n_deadline s).
Qed.

Lemma keeps_step r l : keeps l (Streams.register_step r l).
Proof.
  unfold Streams.register_step. destruct (Streams.l_draining l !! r) as [[[|d ds] []]|]; try done.
  - by etrans; [|apply keeps_heap]; [by apply (keeps_upd r Streams.markClosed)|].
  - by apply keeps_heap.
  - by etrans; [|apply keeps_heap]; [by apply (keeps_upd r (Streams.feed d)), feed_handle|].
  - by etrans; [|apply keeps_heap]; [by apply (keeps_upd r (Streams.feed d)), feed_handle|].
Qed.
Lemma keeps_steps r n : ∀ l, keeps l (Streams.register_steps n r l).
Proof. induction n as [|n IH]; intros l; [done|]. cbn. etrans; [apply (keeps_step r)|apply IH]. Qed.
Lemma keeps_lock h r l : Streams.l_heap l !! r = None → keeps l (Streams.register_lock h r l).
Proof.
  intros Hn ref s H. exists s. cbn. rewrite lookup_insert_ne; [done|]. intros ->. congruence.
Qed.

(** A table event makes only new objects. *)
Definition new_refs (l : Streams.Link) (e : Streams.ev) : Prop :=
  match e with
  | Streams.EvAccept _ r | Streams.EvLock _ r => Streams.l_heap l !! r = None
  | _ => True
  end.
Lemma keeps_exec e l : new_refs l e → keeps l (Streams.exec e l).
Proof.
  intros Hn. destruct e as [h d|h|h r|h r|r|r n now|r t|h|r]; cbn [Streams.exec].
  - unfold Streams.OnRecv. destruct (Streams.l_streams l !! h); [by apply keeps_upd, feed_handle|].
    by apply keeps_heap.
  - unfold Streams.OnClose. destruct (Streams.l_streams l !! h) as [r|]; [|by apply keeps_heap].
    etrans; [|by apply keeps_upd]. by apply keeps_heap.
  - unfold Streams.registerStream. etrans; [by apply keeps_lock|apply keeps_steps].
  - by apply keeps_lock.
  - apply keeps_step.
  - apply keeps_upd, Read_handle.
  - by apply keeps_upd.
  - by apply keeps_heap.
  - by apply keeps_upd.
Qed.

(** ** What every run of the pipe keeps *)

Abbreviation owner_of m y := (ID m ≫= λ id, p_owner y !! id).

Record pipe_inv (y : Pipe) : Prop := {
  pi_client : reachable (p_client y);
  pi_owned id ref : p_owner y !! id = Some ref → is_Some (calling id y);
  pi_under_way ref data id : p_writes y !! ref = Some (data, id) → p_owner y !! id = Some ref;
  pi_writing id req : calling id y = Some (Writing req) →
    match p_owner y !! id with
    | Some ref => ∃ s data, Streams.l_heap (p_table y) !! ref = Some s
        ∧ req = with_ID id (Send (Streams.n_handle s) data) ∧ p_writes y !! ref = Some (data, id)
    | None => Type_ req ≠ TypeSend
    end;
  pi_open id o : calling id y = Some (Finished o) → o.2 ≠ Some ErrClosed;
  pi_out id : out (calling id y) = true → ∃ m, m ∈ c_sent (p_client y) ∧ ID m = Some id;
  pi_sent m : m ∈ c_sent (p_client y) →
    match owner_of m y with
    | Some ref => ∃ s, Streams.l_heap (p_table y) !! ref = Some s
        ∧ Type_ m = TypeSend ∧ Handle m = Some (Streams.n_handle s)
    | None => Type_ m ≠ TypeSend
    end;
  pi_through ref : sent_data ref y = returned ref y ++ in_flight ref y;
  pi_answered e : e ∈ p_log y → e_err e = None → ∃ id m reply,
    e_id e = Some id ∧ p_owner y !! id = Some (e_ref e)
    ∧ m ∈ c_sent (p_client y) ∧ ID m = Some id
    ∧ reply ∈ c_read (p_client y) ∧ ID reply = Some id ∧ Err reply = ErrOk }.

Lemma pipe_inv_start : pipe_inv start.
Proof. split; try done; [apply rtc_refl|..]; by intros ? ?%elem_of_nil. Qed.

(** Steps that leave the calls and the frames written as they are. *)
Lemma pipe_quiet y c l :
  pipe_inv y → reachable c → c_calls c = c_calls (p_client y) → c_sent c = c_sent (p_client y) →
  c_read (p_client y) ⊆ c_read c → keeps (p_table y) l →
  pipe_inv (mkPipe c l (p_owner y) (p_writes y) (p_log y)).
Proof.
  intros Hi Hr Hc Hs Hd Hk. destruct Hi as [I1 I2 I3 I4 I5 I6 I7 I8 I9].
  assert (∀ id, calling id (mkPipe c l (p_owner y) (p_writes y) (p_log y)) = calling id y) as Ec
    by (intros id; unfold calling; cbn; by rewrite Hc).
  split; cbn [p_client p_table p_owner p_writes p_log]; try done.
  - intros id ref H. rewrite Ec. by eapply I2.
  - intros id req H. rewrite Ec in H. specialize (I4 id req H).
    destruct (p_owner y !! id) as [ref|]; [|done]. destruct I4 as (s & data & H1 & -> & H3).
    destruct (Hk ref s H1) as (s' & H4 & <-). by exists s', data.
  - intros id o H. rewrite Ec in H. by eapply I5.
  - intros id H. rewrite Ec in H. rewrite Hs. by apply I6.
  - intros m H. rewrite Hs in H. specialize (I7 m H).
    destruct (owner_of m y) as [ref|]; [|done]. destruct I7 as (s & H1 & H2 & H3).
    destruct (Hk ref s H1) as (s' & H4 & E). exists s'. split_and!; congruence.
  - intros ref. specialize (I8 ref). unfold sent_data, sends, returned, in_flight in I8 |- *.
    cbn [set_client p_client p_owner p_writes p_log]. rewrite Hs, I8.
    destruct (p_writes y !! ref) as [[data i]|]; [by rewrite Ec|done].
  - intros e He Hn. destruct (I9 e He Hn) as (id & m & reply & H1 & H2 & H3 & H4 & H5 & H6).
    exists id, m, reply. rewrite Hs. split_and!; try done; try apply H6. by apply Hd.
Qed.

(** A call goes on without writing its frame. *)
Lemma pipe_goes_on y c id p p' :
  pipe_inv y → reachable c → calling id y = Some p → c_calls c = <[id := p']> (c_calls (p_client y)) →
  c_sent c = c_sent (p_client y) → c_read c = c_read (p_client y) →
  (∀ req, p' ≠ Writing req) → out (Some p') = out (Some p) →
  (∀ o, p' = Finished o → o.2 ≠ Some ErrClosed) → pipe_inv (set_client c y).
Proof.
  intros Hi Hr Hp Hc Hs Hd Hw Ho Hf. destruct Hi as [I1 I2 I3 I4 I5 I6 I7 I8 I9].
  assert (∀ i, calling i (set_client c y) = if decide (i = id) then Some p' else calling i y) as Ec.
  { intros i. unfold calling. cbn. rewrite Hc. case_decide as E; [subst i; by rewrite lookup_insert_eq|].
    by rewrite lookup_insert_ne. }
  assert (∀ i, out (calling i (set_client c y)) = out (calling i y)) as Eo.
  { intros i. rewrite Ec. case_decide as E; [subst i; by rewrite Hp|done]. }
  split; cbn [set_client p_client p_table p_owner p_writes p_log]; try done.
  - intros i ref H. rewrite Ec. case_decide; [by eexists|by eapply I2].
  - intros i req H. rewrite Ec in H. case_decide; [injection H as ->; by destruct (Hw req)|by apply I4].
  - intros i o H. rewrite Ec in H. case_decide; [injection H as ->; by apply Hf|by eapply I5].
  - intros i H. rewrite Eo in H. rewrite Hs. by apply I6.
  - intros m H. rewrite Hs in H. by apply (I7 m).
  - intros ref. specialize (I8 ref). unfold sent_data, sends, returned, in_flight in I8 |- *.
    cbn [set_client p_client p_owner p_writes p_log]. rewrite Hs, I8.
    destruct (p_writes y !! ref) as [[data i]|]; [by rewrite Eo|done].
  - rewrite Hs, Hd. apply I9.
Qed.

(** A call is registered that is not a [Send]. *)
Lemma register_some req c id c' :
  register req c = Some (id, c') → ∃ ch,
    c_calls c' = <[id := Writing (with_ID id req)]> (c_calls c) ∧ c_sent c' = c_sent c
    ∧ c_read c' = c_read c ∧ id = c_nextID c + 1 ∧ c_chans c' = ch.
Proof. unfold register. destruct (c_closed c); [done|]. intros [= <- <-]. by eexists. Qed.

Lemma register_fresh req c id c' :
  reachable c → register req c = Some (id, c') → c_calls c !! id = None.
Proof.
  intros Hr (ch & _ & _ & _ & -> & _)%register_some. apply eq_None_not_Some. intros H.
  pose proof (RhpClientProps.inv_fresh c (reachable_inv c Hr) _ (or_introl H)). lia.
Qed.

Lemma pipe_call req y id c :
  pipe_inv y → register req (p_client y) = Some (id, c) → Type_ req ≠ TypeSend →
  pipe_inv (set_client c y).
Proof.
  intros Hi Hg Ht. assert (Hr : reachable c).
  { eapply rtc_r; [apply (pi_client y Hi)|by eapply step_register]. }
  pose proof (register_fresh _ _ _ _ (pi_client y Hi) Hg) as Hn.
  destruct (register_some _ _ _ _ Hg) as (_ & Hc & Hs & Hd & _ & _).
  destruct Hi as [I1 I2 I3 I4 I5 I6 I7 I8 I9].
  assert (∀ i, calling i (set_client c y)
               = if decide (i = id) then Some (Writing (with_ID id req)) else calling i y) as Ec.
  { intros i. unfold calling. cbn. rewrite Hc. case_decide as E; [subst i; by rewrite lookup_insert_eq|].
    by rewrite lookup_insert_ne. }
  assert (∀ i, out (calling i (set_client c y)) = out (calling i y)) as Eo.
  { intros i. rewrite Ec. case_decide as E; [subst i; unfold calling; by rewrite Hn|done]. }
  assert (p_owner y !! id = None) as Hw.
  { apply eq_None_not_Some. intros [ref H]. destruct (I2 id ref H) as [p Hp]. unfold calling in Hp. congruence. }
  split; cbn [set_client p_client p_table p_owner p_writes p_log]; try done.
  - intros i ref H. rewrite Ec. case_decide; [by eexists|by eapply I2].
  - intros i q H. rewrite Ec in H. case_decide; [|by apply I4]. injection H as <-. subst i. by rewrite Hw.
  - intros i o H. rewrite Ec in H. case_decide; [done|by eapply I5].
  - intros i H. rewrite Eo in H. rewrite Hs. by apply I6.
  - intros m H. rewrite Hs in H. by apply (I7 m).
  - intros ref. specialize (I8 ref). unfold sent_data, sends, returned, in_flight in I8 |- *.
    cbn [set_client p_client p_owner p_writes p_log]. rewrite Hs, I8.
    destruct (p_writes y !! ref) as [[data i]|]; [by rewrite Eo|done].
  - rewrite Hs, Hd. apply I9.
Qed.

(** A frame is written. *)
Lemma sends_snoc ref y c req :
  c_sent c = c_sent (p_client y) ++ [req] →
  sends ref (set_client c y)
  = sends ref y ++ (if bool_decide (owner_of req y = Some ref) then [req] else []).
Proof. intros E. unfold sends. cbn [set_client p_client p_owner]. rewrite E, List.filter_app. cbn.
  by destruct (bool_decide _). Qed.

Lemma through_written y c id req :
  pipe_inv y → calling id y = Some (Writing req) → ID req = Some id →
  c_sent c = c_sent (p_client y) ++ [req] → c_calls c = <[id := Awaiting]> (c_calls (p_client y)) →
  ∀ ref, sent_data ref (set_client c y) = returned ref (set_client c y) ++ in_flight ref (set_client c y).
Proof.
  intros Hi Hp Hid Hs Hc ref. unfold sent_data. rewrite (sends_snoc ref y c req Hs), fmap_app.
  fold (sent_data ref y). rewrite (pi_through y Hi ref), Hid. cbn [mbind option_bind].
  change (returned ref (set_client c y)) with (returned ref y). rewrite <- app_assoc. f_equal.
  assert (∀ i, i ≠ id → calling i (set_client c y) = calling i y) as Hne.
  { intros i Hni. unfold calling. cbn. by rewrite Hc, lookup_insert_ne. }
  assert (calling id (set_client c y) = Some Awaiting) as Heq.
  { unfold calling. cbn. by rewrite Hc, lookup_insert_eq. }
  unfold in_flight. cbn [set_client p_writes]. pose proof (pi_writing y Hi id req Hp) as Hw.
  case_bool_decide as Ho.
  - rewrite Ho in Hw. destruct Hw as (s & data & _ & -> & Hw). rewrite Hw, Hp, Heq.
    exact (f_equal (λ d, [d]) (proj1 (data_roundtrip data))).
  - rewrite app_nil_r. destruct (p_writes y !! ref) as [[data i]|] eqn:Ew; [|done].
    rewrite Hne; [done|]. intros ->. by rewrite (pi_under_way y Hi ref data id Ew) in Ho.
Qed.

Lemma pipe_written y id req :
  pipe_inv y → calling id y = Some (Writing req) →
  pipe_inv (set_client (upd_calls <[id := Awaiting]> (upd_sent (λ l, l ++ [req]) (p_client y))) y).
Proof.
  intros Hi Hp. set (c := upd_calls _ _).
  assert (Hr : reachable c).
  { eapply rtc_r; [apply (pi_client y Hi)|by apply step_written]. }
  destruct (RhpClientProps.inv_calls _ (reachable_inv _ (pi_client y Hi)) id _ Hp) as [Hid _].
  pose proof (through_written y c id req Hi Hp Hid eq_refl eq_refl) as Ht.
  pose proof (pi_writing y Hi id req Hp) as Hw.
  assert (∀ i, calling i (set_client c y) = if decide (i = id) then Some Awaiting else calling i y) as Ec.
  { intros i. unfold calling. cbn. case_decide as E; [subst i; by rewrite lookup_insert_eq|].
    by rewrite lookup_insert_ne. }
  destruct Hi as [I1 I2 I3 I4 I5 I6 I7 I8 I9].
  split; cbn [set_client p_table p_owner p_writes p_log]; try done.
  - intros i ref H. rewrite Ec. case_decide; [by eexists|by eapply I2].
  - intros i q H. rewrite Ec in H. case_decide; [done|by apply I4].
  - intros i o H. rewrite Ec in H. case_decide; [done|by eapply I5].
  - intros i H. rewrite Ec in H. cbn. case_decide as E.
    + subst i. exists req. split; [set_solver|done].
    + destruct (I6 i H) as (m & Hm & Em). exists m. split; [set_solver|done].
  - intros m Hm. cbn in Hm. apply elem_of_app in Hm as [Hm|Hm%list_elem_of_singleton]; [by apply (I7 m)|].
    subst m. rewrite Hid. cbn [mbind option_bind]. destruct (p_owner y !! id) as [ref|]; [|done].
    destruct Hw as (s & data & Hs & -> & _). by exists s.
  - intros e He Hn. destruct (I9 e He Hn) as (i & m & reply & H1 & H2 & H3 & H4). exists i, m, reply.
    cbn. split_and!; try done; try apply H4. set_solver.
Qed.

(** A [Write] begins. *)
Lemma pipe_begin_write ref data y y' : pipe_inv y → Write ref data y = Some y' → pipe_inv y'.
Proof.
  intros Hi H. unfold Write in H. destruct (Streams.l_heap _ !! _) as [s|] eqn:Es; [|discriminate]. cbn in H.
  destruct (p_writes y !! ref) eqn:Ew; [discriminate|]. injection H as <-.
  destruct (register _ _) as [[id c]|] eqn:Eg.
  - assert (Hr : reachable c).
    { eapply rtc_r; [apply (pi_client y Hi)|by eapply step_register]. }
    pose proof (register_fresh _ _ _ _ (pi_client y Hi) Eg) as Hn.
    destruct (register_some _ _ _ _ Eg) as (_ & Hc & Hs & Hd & _ & _).
    set (y' := mkPipe _ _ _ _ _).
    assert (∀ i, calling i y' = if decide (i = id)
              then Some (Writing (with_ID id (Send (Streams.n_handle s) data))) else calling i y) as Ec.
    { intros i. unfold calling. cbn. rewrite Hc. case_decide as E; [subst i; by rewrite lookup_insert_eq|].
      by rewrite lookup_insert_ne. }
    assert (∀ i, out (calling i y') = out (calling i y)) as Eo.
    { intros i. rewrite Ec. case_decide as E; [subst i; unfold calling; by rewrite Hn|done]. }
    destruct Hi as [I1 I2 I3 I4 I5 I6 I7 I8 I9].
    assert (∀ i r, p_owner y !! i = Some r → i ≠ id) as Hne.
    { intros i r H ->. destruct (I2 id r H) as [p Hp]. unfold calling in Hp. congruence. }
    assert (∀ m, m ∈ c_sent (p_client y) → owner_of m y' = owner_of m y) as Em.
    { intros m Hm. destruct (RhpClientProps.inv_sent _ (reachable_inv _ I1)) as [_ Hsent].
      destruct (Hsent m Hm) as (i & p & Ei & Hp & _). rewrite Ei. cbn. rewrite lookup_insert_ne; [done|].
      intros <-. congruence. }
    split; try done.
    + intros i r H. rewrite Ec. case_decide; [by eexists|]. cbn in H. rewrite lookup_insert_ne in H by done.
      by eapply I2.
    + intros r d i H. cbn in H |- *. destruct (decide (r = ref)) as [->|Hr'].
      * rewrite lookup_insert_eq in H. injection H as _ <-. by rewrite lookup_insert_eq.
      * rewrite lookup_insert_ne in H by done. pose proof (I3 r d i H) as Ho.
        rewrite lookup_insert_ne; [done|]. apply not_eq_sym. by eapply Hne.
    + intros i q H. rewrite Ec in H. cbn [p_owner p_table p_writes y']. case_decide as E.
      * injection H as <-. subst i. rewrite lookup_insert_eq. exists s, data. by rewrite lookup_insert_eq.
      * rewrite lookup_insert_ne by done. specialize (I4 i q H). destruct (p_owner y !! i) as [r|]; [|done].
        destruct I4 as (s1 & d1 & H1 & H2 & H3). exists s1, d1. rewrite lookup_insert_ne; [done|]. intros <-. congruence.
    + intros i o H. rewrite Ec in H. case_decide; [done|by eapply I5].
    + intros i H. rewrite Eo in H. cbn. rewrite Hs. by apply I6.
    + intros m Hm. change (p_client y') with c in Hm. rewrite Hs in Hm. rewrite Em by done. by apply I7.
    + intros r. specialize (I8 r). unfold sent_data in I8 |- *.
      assert (sends r y' = sends r y) as ->.
      { unfold sends. change (c_sent (p_client y')) with (c_sent c). rewrite Hs.
        apply List.filter_ext_in. intros m Hm%list_elem_of_In. by rewrite Em. }
      rewrite I8. change (returned r y') with (returned r y). f_equal. unfold in_flight. cbn [p_writes y'].
      destruct (decide (r = ref)) as [->|Hr'].
      * rewrite lookup_insert_eq, Ew, Ec, decide_True by done. done.
      * rewrite lookup_insert_ne by done. destruct (p_writes y !! r) as [[d i]|]; [by rewrite Eo|done].
    + intros e He Hn'. destruct (I9 e He Hn') as (i & m & reply & H1 & H2 & H3 & H4 & H5).
      exists i, m, reply. change (p_client y') with c. rewrite Hs, Hd. split_and!; try done; try apply H5.
      cbn. rewrite lookup_insert_ne; [done|]. apply not_eq_sym. by eapply Hne.
  - destruct Hi as [I1 I2 I3 I4 I5 I6 I7 I8 I9]. split; try done.
    + intros r. specialize (I8 r). unfold sent_data, sends, returned, in_flight in I8 |- *.
      cbn [p_client p_owner p_writes p_log]. rewrite I8, fmap_app, concat_app. f_equal.
      cbn. unfold gone_out, unsent. cbn [e_err]. rewrite andb_false_r. by rewrite !app_nil_r.
    + intros e He Hn. cbn in He. apply elem_of_app in He as [He|He%list_elem_of_singleton]; [by apply I9|].
      by subst e.
Qed.

(** A [Write] returns. *)
Lemma pipe_end_write ref y y' : pipe_inv y → Write_return ref y = Some y' → pipe_inv y'.
Proof.
  intros Hi H. unfold Write_return in H. destruct (p_writes y !! ref) as [[data id]|] eqn:Ew; [|discriminate].
  cbn in H. destruct (c_calls _ !! id) as [[?| |o]|] eqn:Ep; try discriminate. injection H as <-.
  set (y' := mkPipe _ _ _ _ _). destruct Hi as [I1 I2 I3 I4 I5 I6 I7 I8 I9].
  assert (o.2 ≠ Some ErrClosed) as Ho by (by apply (I5 id)).
  split; try done.
  - intros r d i H. cbn in H. apply lookup_delete_Some in H as [_ H]. by eapply I3.
  - intros i q H. specialize (I4 i q H). cbn [p_owner p_table p_writes y'].
    destruct (p_owner y !! i) as [r|]; [|done]. destruct I4 as (s1 & d1 & H1 & H2 & H3). exists s1, d1.
    rewrite lookup_delete_ne; [done|]. intros <-. assert (i = id) as -> by congruence.
    unfold calling in H. cbn in H. congruence.
  - intros r. specialize (I8 r). unfold sent_data, sends, returned, in_flight in I8 |- *.
    cbn [p_client p_owner p_writes p_log y']. rewrite I8, fmap_app, concat_app, <- app_assoc. f_equal.
    cbn. rewrite app_nil_r. unfold gone_out. cbn [e_ref e_data e_err].
    destruct (decide (r = ref)) as [->|Hr].
    + rewrite Ew, lookup_delete_eq, app_nil_r. unfold calling. rewrite Ep, bool_decide_eq_true_2 by done. cbn.
      unfold unsent. by rewrite (bool_decide_eq_false_2 (o.2 = Some ErrClosed)).
    + by rewrite lookup_delete_ne, bool_decide_eq_false_2.
  - intros e He Hn. cbn in He. apply elem_of_app in He as [He|He%list_elem_of_singleton]; [by apply I9|].
    subst e. cbn in Hn. pose proof (RhpClientProps.inv_calls _ (reachable_inv _ I1) id _ Ep) as Hc.
    destruct o as [[m|] e]; cbn in Hc, Hn; [|subst e; by destruct Hc]. destruct Hc as (Hm & Hr & Hf). subst e.
    destruct (I6 id) as (q & Hq & Eq); [unfold calling; by rewrite Ep|].
    exists id, q, m. cbn. split_and!; try done; [by eapply I3|]. unfold finish in Hf.
    destruct (Err m =? ErrOk) eqn:Ee; [by apply Z.eqb_eq|discriminate].
Qed.

(** What a step of the read loop leaves alone. *)
Lemma chan_close_calls l : ∀ c, c_calls (foldr chan_close c l) = c_calls c
  ∧ c_sent (foldr chan_close c l) = c_sent c ∧ c_read (foldr chan_close c l) = c_read c
  ∧ c_pushes (foldr chan_close c l) = c_pushes c.
Proof.
  induction l as [|i l IH]; intros c; [done|]. cbn [foldr]. specialize (IH c).
  set (c1 := foldr chan_close c l) in *. clearbody c1. unfold chan_close at 1 2 3 4.
  destruct (c_chans c1 !! i) as [[v b]|]; [destruct b|]; exact IH.
Qed.
Lemma read_end_calls e c : c_calls (read_end e c) = c_calls c ∧ c_sent (read_end e c) = c_sent c
  ∧ c_read (read_end e c) = c_read c ∧ c_pushes (read_end e c) = c_pushes c.
Proof.
  unfold read_end. cbv zeta. match goal with |- context [foldr chan_close ?c1 ?l] =>
    exact (chan_close_calls l c1) end.
Qed.
Lemma read_frame_calls m c : c_calls (read_frame m c) = c_calls c ∧ c_sent (read_frame m c) = c_sent c
  ∧ c_read (read_frame m c) = c_read c ++ [m]
  ∧ c_pushes (read_frame m c)
    = c_pushes c ++ match ID m, push_of m with None, Some p => [p] | _, _ => [] end.
Proof.
  unfold read_frame, dispatch. destruct (ID m) as [id|].
  - case_decide; [|by rewrite app_nil_r]. unfold chan_reply.
    cbn [c_chans upd_pending upd_read]. destruct (c_chans c !! id) as [[v b]|]; [destruct v, b|];
      by split_and!; rewrite ?app_nil_r.
  - destruct (push_of m); [done|by rewrite app_nil_r].
Qed.
Lemma register_pushes req c id c' : register req c = Some (id, c') → c_pushes c' = c_pushes c.
Proof. unfold register. destruct (c_closed c); [done|]. by intros [= <- <-]. Qed.

Lemma request_no_send r : Type_ (message_of r) ≠ TypeSend.
Proof. by destruct r. Qed.
Lemma receive_not p c id : receive id c = Some p → out (Some (Finished p)) = true ∧ p.2 ≠ Some ErrClosed.
Proof.
  unfold receive. destruct (c_chans c !! id) as [[[m|] b]|]; [| |done].
  - intros [= <-]. unfold finish. by destruct (Err m =? ErrOk).
  - destruct b; [|done]. by intros [= <-].
Qed.

(** Only the table moves, or the client with its calls and frames as they were. *)
Lemma keeps_evs es : ∀ l, (∀ e, e ∈ es → new_refs l e) → (length es ≤ 1)%nat → keeps l (Streams.execs es l).
Proof.
  intros l H Hl. destruct es as [|e [|]]; cbn in *; [done| |lia]. apply keeps_exec, H. set_solver.
Qed.
Lemma pipe_table es y :
  pipe_inv y → (∀ e, e ∈ es → new_refs (p_table y) e) → (length es ≤ 1)%nat → pipe_inv (on_table es y).
Proof.
  intros Hi Hn Hl. apply (pipe_quiet y (p_client y)); try done; [apply (pi_client y Hi)|by apply keeps_evs].
Qed.

Lemma pipe_exec e y y' : pipe_inv y → exec e y = Some y' → pipe_inv y'.
Proof.
  intros Hi H. assert (reachable (p_client y')) as Hr.
  { unfold reachable. etrans; [apply (pi_client y Hi)|by eapply exec_reaches]. }
  destruct e; cbn [exec] in H.
  - destruct (register _ _) as [[id c]|] eqn:E; injection H as <-; [|done].
    eapply pipe_call; [done|exact E|apply request_no_send].
  - destruct (calling id y) as [[req| |o]|] eqn:E; try discriminate. injection H as <-. by apply pipe_written.
  - destruct (calling id y) as [[req| |o]|] eqn:E; try discriminate. injection H as <-.
    by apply (pipe_goes_on y _ id (Writing req) (Finished (None, Some ErrWrite))); try done; intros o [= <-].
  - destruct (calling id y) as [[req| |o]|] eqn:E; try discriminate. injection H as <-.
    by apply (pipe_goes_on y _ id Awaiting (Finished (None, Some ErrContext))); try done; intros o [= <-].
  - destruct (calling id y) as [[req| |o]|] eqn:E; try discriminate.
    destruct (receive id _) as [o|] eqn:Er; [|discriminate]. injection H as <-.
    destruct (receive_not o _ _ Er) as [Ho Hc].
    by apply (pipe_goes_on y _ id Awaiting (Finished o)); try done; intros o' [= <-].
  - unfold when in H. destruct (negb _ && unused ref y) eqn:Eu; [|discriminate]. injection H as <-.
    apply andb_true_iff in Eu as [_ Hu%bool_decide_eq_true].
    destruct (read_frame_calls m (p_client y)) as (H1 & H2 & H3 & _).
    apply (pipe_quiet y (read_frame m (p_client y))); try done; [rewrite H3; set_solver|].
    unfold frame_evs. destruct (ID m), (push_of m) as [p|]; try done.
    apply keeps_evs; [|destruct p; cbn; lia]. intros e He.
    destruct p; cbn in He; [by apply list_elem_of_singleton in He as ->..|by apply elem_of_nil in He|].
    by apply list_elem_of_singleton in He as ->.
  - unfold when in H. destruct (negb _); [|discriminate]. injection H as <-.
    destruct (read_end_calls e (p_client y)) as (H1 & H2 & H3 & _).
    apply (pipe_quiet y (read_end e (p_client y))); try done. by rewrite H3.
  - injection H as <-. by apply pipe_quiet.
  - unfold when in H. destruct (unused ref y) eqn:Eu; [|discriminate]. injection H as <-.
    apply bool_decide_eq_true in Eu. apply pipe_table; [done| |done].
    by intros e ->%list_elem_of_singleton.
  - injection H as <-. apply pipe_table; [done| |done]. by intros e ->%list_elem_of_singleton.
  - injection H as <-. apply pipe_table; [done| |done]. by intros e ->%list_elem_of_singleton.
  - injection H as <-. apply pipe_table; [done| |done]. by intros e ->%list_elem_of_singleton.
  - injection H as <-. apply pipe_table; [done| |done]. by intros e ->%list_elem_of_singleton.
  - by eapply pipe_begin_write.
  - by eapply pipe_end_write.
  - unfold Close in H. destruct (Streams.l_heap _ !! _) as [s|]; [|discriminate]. cbn in H.
    assert (pipe_inv (on_table [Streams.EvShut ref] y)) as Hi1.
    { apply pipe_table; [done| |done]. by intros e ->%list_elem_of_singleton. }
    destruct (register _ _) as [[id c]|] eqn:E; injection H as <-; [|done].
    eapply pipe_call; [done|exact E|done].
Qed.

(** ** What comes in *)

Lemma exec_table h e y y' :
  exec e y = Some y' →
  p_table y' = Streams.execs (table_evs e) (p_table y)
  ∧ concat (received h <$> c_pushes (p_client y'))
    = concat (received h <$> c_pushes (p_client y)) ++ chunks h (table_evs e).
Proof.
  intros H. destruct e; cbn [exec table_evs] in H |- *; change (chunks h []) with (@nil gostring);
    rewrite ?app_nil_r.
  - destruct (register _ _) as [[id c]|] eqn:E; injection H as <-; [|done].
    cbn. by rewrite (register_pushes _ _ _ _ E).
  - by destruct (calling id y) as [[req| |o]|]; try discriminate; injection H as <-.
  - by destruct (calling id y) as [[req| |o]|]; try discriminate; injection H as <-.
  - by destruct (calling id y) as [[req| |o]|]; try discriminate; injection H as <-.
  - destruct (calling id y) as [[req| |o]|]; try discriminate.
    by destruct (receive id _) as [o|]; [|discriminate]; injection H as <-.
  - unfold when in H. destruct (negb _ && _); [|discriminate]. injection H as <-. split; [done|].
    cbn [on_table set_client p_client]. destruct (read_frame_calls m (p_client y)) as (_ & _ & _ & ->).
    rewrite fmap_app, concat_app. f_equal. unfold frame_evs.
    destruct (ID m), (push_of m) as [p|]; try done. by destruct p.
  - unfold when in H. destruct (negb _); [|discriminate]. injection H as <-. split; [done|].
    cbn [set_client p_client]. by destruct (read_end_calls e (p_client y)) as (_ & _ & _ & ->).
  - by injection H as <-.
  - unfold when in H. destruct (unused ref y); [|discriminate]. injection H as <-.
    split; [done|]. done.
  - injection H as <-. split; [done|]. done.
  - injection H as <-. split; [done|]. done.
  - injection H as <-. split; [done|]. done.
  - injection H as <-. split; [done|]. done.
  - unfold Write in H. destruct (Streams.l_heap _ !! _) as [s|]; [|discriminate]. cbn in H.
    destruct (p_writes y !! ref); [discriminate|].
    destruct (register _ _) as [[id c]|] eqn:E; injection H as <-; [|done].
    cbn. by rewrite (register_pushes _ _ _ _ E).
  - unfold Write_return in H. destruct (p_writes y !! ref) as [[d id]|]; [|discriminate]. cbn in H.
    by destruct (c_calls _ !! id) as [[?| |o]|]; try discriminate; injection H as <-.
  - unfold Close in H. destruct (Streams.l_heap _ !! _) as [s|]; [|discriminate]. cbn in H.
    destruct (register _ _) as [[id c]|] eqn:E; injection H as <-; (split; [done|]).
    + cbn [set_client p_client]. rewrite (register_pushes _ _ _ _ E). done.
    + done.
Qed.

Lemma chunks_app h es1 es2 : chunks h (es1 ++ es2) = chunks h es1 ++ chunks h es2.
Proof. unfold chunks. by rewrite fmap_app, concat_app. Qed.

Lemma execs_run h es : ∀ y0 y,
  execs es y0 = Some y → pipe_inv y0 →
  pipe_inv y ∧ p_table y = Streams.execs (concat (table_evs <$> es)) (p_table y0)
  ∧ concat (received h <$> c_pushes (p_client y))
    = concat (received h <$> c_pushes (p_client y0)) ++ chunks h (concat (table_evs <$> es)).
Proof.
  induction es as [|e es IH]; intros y0 y H Hi.
  - injection H as <-. split_and!; [done|done|]. cbn. by rewrite app_nil_r.
  - cbn in H. destruct (exec e y0) as [y1|] eqn:E; [|discriminate]. cbn in H.
    destruct (exec_table h e y0 y1 E) as [Ht Hp].
    destruct (IH y1 y H (pipe_exec e y0 y1 Hi E)) as (H1 & H2 & H3). split; [done|].
    rewrite fmap_cons. cbn [concat]. rewrite execs_app, chunks_app, <- Ht, H3, Hp. by rewrite app_assoc.
Qed.

(** What a stream has in it is what arrived for it. *)
Lemma delivered h ref hist cl l s :
  NodeProps.inv h ref hist cl l → Streams.l_heap l !! ref = Some s →
  Streams.n_got s ++ Streams.n_buf s ++ concat (default [] (fst <$> Streams.l_draining l !! ref)) = concat hist.
Proof.
  intros [_ Hp] Hs. destruct Hp as [H1 H2 H3 H4 H5|s1 ds H1 H2 H3 H4 H5 H6|s1 H1 H2 H3 H4 H5 H6]; [congruence|..];
    rewrite H1 in Hs; injection Hs as <-; rewrite H2; cbn [fst fmap option_fmap option_map default];
    rewrite <- H4, ?concat_app, app_assoc, H6; [done|by rewrite app_nil_r].
Qed.

(** ** The theorem *)

(** C15. A stream is a pipe.  In every interleaving of an attachment's goroutines (calls of
    the client and their ends, frames and the end of the connection, registrations,
    reads, writes and closes of any streams): the requests the node is sent for a stream
    carry, decoded and in order, exactly the data of that stream's [Write]s, without
    those that failed before their frame was out, each once; no other [Send] is ever
    written, and each bears the handle of its stream; a [Write] that returns its length
    was sent and was acknowledged by the node's own reply to it.  In the other direction,
    what a stream's reader has got, can get, or will be fed is exactly the data of the
    pushes for its handle that the client's read loop has dispatched, in order, as long
    as they are orderly and the node has not closed the stream itself. *)
Theorem stream_is_a_pipe es y :
  execs es start = Some y →
  (∀ ref, sent_data ref y = returned ref y ++ in_flight ref y)
  ∧ (∀ m, m ∈ c_sent (p_client y) → Type_ m = TypeSend →
       ∃ ref s, Streams.l_heap (p_table y) !! ref = Some s ∧ m ∈ sends ref y
         ∧ Handle m = Some (Streams.n_handle s))
  ∧ (∀ e n, e ∈ p_log y → write_result e = inl n →
       n = Z.of_nat (length (e_data e))
       ∧ ∃ id m reply, e_id e = Some id ∧ m ∈ sends (e_ref e) y ∧ ID m = Some id
         ∧ reply ∈ c_read (p_client y) ∧ ID reply = Some id ∧ Err reply = ErrOk)
  ∧ (∀ h ref s, orderly h ref false (concat (table_evs <$> es)) Streams.New →
       Streams.l_heap (p_table y) !! ref = Some s →
       Streams.n_got s ++ Streams.n_buf s
         ++ concat (default [] (fst <$> Streams.l_draining (p_table y) !! ref))
       = concat (concat (received h <$> c_pushes (p_client y)))).
Proof.
  intros H. destruct (execs_run 0 es start y H pipe_inv_start) as [Hi _].
  assert (∀ m ref, m ∈ c_sent (p_client y) → owner_of m y = Some ref → m ∈ sends ref y) as Hin.
  { intros m ref Hm Ho. apply list_elem_of_In, List.filter_In. split; [by apply list_elem_of_In|].
    by apply bool_decide_eq_true. }
  split_and!.
  - apply (pi_through y Hi).
  - intros m Hm Ht. pose proof (pi_sent y Hi m Hm) as Hs. destruct (owner_of m y) as [ref|] eqn:Eo; [|done].
    destruct Hs as (s & Hs & _ & Hh). exists ref, s. split_and!; try done. by apply Hin.
  - intros e n He Hw. unfold write_result in Hw. destruct (e_err e) eqn:Ee; [done|]. injection Hw as <-.
    split; [done|]. destruct (pi_answered y Hi e He Ee) as (id & m & reply & H1 & H2 & H3 & H4 & H5).
    exists id, m, reply. split_and!; try done; try apply H5. apply Hin; [done|]. by rewrite H4.
  - intros h ref s Ho Hs. destruct (execs_run h es start y H pipe_inv_start) as (_ & Ht & Hp).
    rewrite Hp, Ht in *. cbn [start p_client Connect c_pushes fmap list_fmap concat app].
    eapply delivered; [|exact Hs]. apply (inv_execs h ref _ [] false Streams.New Ho (NodeProps.inv_New h ref)).
Qed.

(** A caller is accepted, says something while the answer to an earlier write is out, and
    is answered twice. *)
Definition sample_frame (typ : gostring) (id : option Z) (child : option Z) (data : option gostring) : Message :=
  mkMessage typ id None (Some 0) [] (Some 7) child [] [] None [] (bs "M0ABC") None data [] [].
Definition sample_evs : list ev :=
  [Frame (sample_frame TypeAccept None (Some 7) None) 0; BeginWrite 0 (bs "hi" ++ [zb 200]); Written 1;
   Frame (sample_frame TypeRecv None None (Some (EncodeData (bs "yes" ++ [zb 201])))) 1;
   Read 0 2 0; Frame (sample_frame (bs "sendReply") (Some 1) None None) 1; Received 1; EndWrite 0;
   Call ReqSocket; BeginWrite 0 (bs "bye"); Written 3].

Lemma stream_is_a_pipe_witness :
  ∃ y, execs sample_evs start = Some y
    ∧ sent_data 0 y = [bs "hi" ++ [zb 200]; bs "bye"]
    ∧ ∃ s, Streams.l_heap (p_table y) !! 0%nat = Some s
        ∧ Streams.n_got s ++ Streams.n_buf s ++ [] = bs "yes" ++ [zb 201].
Proof.
  pose proof (stream_is_a_pipe sample_evs) as H.
  assert (match execs sample_evs start with
          | Some y => bool_decide (returned 0 y ++ in_flight 0 y = [bs "hi" ++ [zb 200]; bs "bye"])
              && bool_decide (concat (concat (received 7 <$> c_pushes (p_client y))) = bs "yes" ++ [zb 201])
              && bool_decide (is_Some (Streams.l_heap (p_table y) !! 0%nat))
              && bool_decide (Streams.l_draining (p_table y) !! 0%nat = None)
          | None => false end = true) as Hv by (vm_compute; reflexivity).
  assert (orderly 7 0 false (concat (table_evs <$> sample_evs)) Streams.New) as Ho.
  { assert (concat (table_evs <$> sample_evs)
      = [Streams.EvAccept 7 0; Streams.EvRecv 7 (bs "yes" ++ [zb 201]); Streams.EvRead 0 2 0]) as ->
      by (vm_compute; reflexivity).
    cbn [orderly]. split_and!; try exact I; [split; reflexivity|reflexivity|].
    intros _. split; vm_compute; reflexivity. }
  destruct (execs sample_evs start) as [y|]; [|discriminate Hv].
  destruct (H y eq_refl) as (H1 & _ & _ & H4). clear H.
  apply andb_true_iff in Hv as [Hv V4]. apply andb_true_iff in Hv as [Hv V3].
  apply andb_true_iff in Hv as [V1 V2]. apply bool_decide_eq_true in V1, V2, V3, V4.
  exists y. split; [reflexivity|]. split; [rewrite H1; exact V1|]. destruct V3 as [s Hs].
  exists s. split; [exact Hs|]. specialize (H4 7 0%nat s Ho Hs). rewrite V2, V4 in H4. exact H4.
Defined.
