(* ===== verification/Sqlite.v ===== *)
(** * The durable store ([internal/store/sqlite/sqlite.go])

    The SQLite engine is not part of the repository.  [Engine] has one operation per
    statement the store executes, over an arbitrary database state, and
    [EngineLaws] states what SQLite documents of those statements: what rows they
    read and write, the primary keys and the unique index, the NOCASE collation, and
    that a statement that fails changes nothing.  It leaves open when a statement
    fails and how rows of equal time are ordered.  The store's methods are the code
    around the statements.  The [context] argument, [Open] and [Close] are not
    modelled. *)
From S2P Require Import Prelude Unicode GoStrings ChatModel ChatStore.
From stdpp Require Import options.
Local Open Scope Z_scope.

Module Durable.

(** ** The engine *)

(** A row of the table [messages], in the order of its columns. *)
Record Row := mkRow {
  r_id : gostring; r_origin_node : gostring; r_from_call : gostring; r_kind : Z;
  r_topic : gostring; r_to_call : gostring; r_ts_unix_ns : Z; r_text : gostring }.
#[export] Instance Row_eq_dec : EqDecision Row.
Proof. solve_decision. Defined.

(** [COLLATE NOCASE] folds the 26 ASCII capitals and nothing else. *)
Definition fold_byte (b : byte) : byte :=
  if (65 <=? bz b) && (bz b <=? 90) then zb (bz b + 32) else b.
Definition nocase (s : gostring) : gostring := fold_byte <$> s.

(** The WHERE clauses of the two history queries. *)
Definition where_topic (kind : Z) (topic : gostring) (since : Z) (r : Row) : bool :=
  (r_kind r =? kind) && bool_decide (nocase (r_topic r) = nocase topic)
  && (since <=? r_ts_unix_ns r).
Definition where_private (kind : Z) (since : Z) (to_call from_call : gostring) (r : Row) : bool :=
  (r_kind r =? kind) && (since <=? r_ts_unix_ns r)
  && (bool_decide (nocase (r_to_call r) = nocase to_call)
      || bool_decide (nocase (r_from_call r) = nocase from_call)).

(** The result of a statement that can fail with the driver's text. *)
Abbreviation res A := (A + gostring)%type.

(** Where a query of many rows can fail. *)
Inductive rows_error :=
| QueryFailed (e : gostring)
| ScanFailed (e : gostring)
| RowsFailed (e : gostring).

Class Engine (D : Type) := {
  (** [INSERT INTO messages ... ON CONFLICT(id) DO NOTHING] *)
  insert_message : D → Row → D * option gostring;
  (** [SELECT ... WHERE kind = ? AND topic = ? COLLATE NOCASE AND ts_unix_ns >= ?
      ORDER BY ts_unix_ns DESC LIMIT ?] *)
  select_topic : D → Z → gostring → Z → Z → list Row + rows_error;
  (** [... WHERE kind = ? AND ts_unix_ns >= ? AND (to_call = ? COLLATE NOCASE OR
      from_call = ? COLLATE NOCASE) ORDER BY ts_unix_ns DESC LIMIT ?] *)
  select_private : D → Z → Z → gostring → gostring → Z → list Row + rows_error;
  (** [SELECT value FROM config WHERE key = ?] *)
  select_config : D → gostring → res (option gostring);
  (** [INSERT INTO config ... ON CONFLICT(key) DO UPDATE SET value = excluded.value] *)
  upsert_config : D → gostring → gostring → D * option gostring;
  (** [SELECT callsign FROM claims WHERE pdn_user = ?] *)
  select_claim : D → gostring → res (option gostring);
  (** [SELECT pdn_user FROM claims WHERE callsign = ? COLLATE NOCASE] *)
  select_holder : D → gostring → res (option gostring);
  (** [INSERT INTO claims ... ON CONFLICT(pdn_user) DO UPDATE SET callsign =
      excluded.callsign, claimed_at = excluded.claimed_at] *)
  upsert_claim : D → gostring → gostring → Z → D * option gostring }.

(** What [ORDER BY ts_unix_ns DESC LIMIT limit] may return of the rows [all]: the
    newest [limit] of them, newest first. *)
Definition newest (limit : Z) (all out : list Row) : Prop :=
  Z.of_nat (length out) = Z.min limit (Z.of_nat (length all))
  ∧ StronglySorted (λ r r', r_ts_unix_ns r' ≤ r_ts_unix_ns r) out
  ∧ ∃ rest, all ≡ₚ out ++ rest
      ∧ ∀ r r', r ∈ out → r' ∈ rest → r_ts_unix_ns r' ≤ r_ts_unix_ns r.

Abbreviation claims_of := (gmap gostring (gostring * Z)).

(** Another user holds the callsign, whatever its case. *)
Definition held (claims : claims_of) (user callsign : gostring) : Prop :=
  ∃ user' cs at', user' ≠ user ∧ claims !! user' = Some (cs, at')
  ∧ nocase cs = nocase callsign.

Class EngineLaws (D : Type) `{!Engine D} := {
  (** The tables: messages in insertion order, configuration and claims by key. *)
  tbl_messages : D → list Row;
  tbl_config : D → gmap gostring gostring;
  tbl_claims : D → claims_of;

  insert_message_ok d r :
    (insert_message d r).2 = None →
    tbl_messages (insert_message d r).1
      = (if decide (r_id r ∈ r_id <$> tbl_messages d) then tbl_messages d
         else tbl_messages d ++ [r])
    ∧ tbl_config (insert_message d r).1 = tbl_config d
    ∧ tbl_claims (insert_message d r).1 = tbl_claims d;
  insert_message_err d r e :
    (insert_message d r).2 = Some e →
    tbl_messages (insert_message d r).1 = tbl_messages d
    ∧ tbl_config (insert_message d r).1 = tbl_config d
    ∧ tbl_claims (insert_message d r).1 = tbl_claims d;

  select_topic_ok d kind topic since limit out :
    0 < limit → select_topic d kind topic since limit = inl out →
    newest limit (List.filter (where_topic kind topic since) (tbl_messages d)) out;
  select_private_ok d kind since to_call from_call limit out :
    0 < limit → select_private d kind since to_call from_call limit = inl out →
    newest limit (List.filter (where_private kind since to_call from_call) (tbl_messages d)) out;

  select_config_ok d k v : select_config d k = inl v → v = tbl_config d !! k;
  upsert_config_ok d k v :
    (upsert_config d k v).2 = None →
    tbl_config (upsert_config d k v).1 = <[k := v]> (tbl_config d)
    ∧ tbl_messages (upsert_config d k v).1 = tbl_messages d
    ∧ tbl_claims (upsert_config d k v).1 = tbl_claims d;
  upsert_config_err d k v e :
    (upsert_config d k v).2 = Some e →
    tbl_config (upsert_config d k v).1 = tbl_config d
    ∧ tbl_messages (upsert_config d k v).1 = tbl_messages d
    ∧ tbl_claims (upsert_config d k v).1 = tbl_claims d;

  select_claim_ok d user v : select_claim d user = inl v → v = fst <$> tbl_claims d !! user;
  select_holder_none d cs :
    select_holder d cs = inl None →
    ∀ user cs' at', tbl_claims d !! user = Some (cs', at') → nocase cs' ≠ nocase cs;
  select_holder_some d cs user :
    select_holder d cs = inl (Some user) →
    ∃ cs' at', tbl_claims d !! user = Some (cs', at') ∧ nocase cs' = nocase cs;
  upsert_claim_ok d user cs at' :
    (upsert_claim d user cs at').2 = None →
    ¬ held (tbl_claims d) user cs
    ∧ tbl_claims (upsert_claim d user cs at').1 = <[user := (cs, at')]> (tbl_claims d)
    ∧ tbl_messages (upsert_claim d user cs at').1 = tbl_messages d
    ∧ tbl_config (upsert_claim d user cs at').1 = tbl_config d;
  upsert_claim_err d user cs at' e :
    (upsert_claim d user cs at').2 = Some e →
    (Contains e (bs "UNIQUE") = true → held (tbl_claims d) user cs)
    ∧ tbl_claims (upsert_claim d user cs at').1 = tbl_claims d
    ∧ tbl_messages (upsert_claim d user cs at').1 = tbl_messages d
    ∧ tbl_config (upsert_claim d user cs at').1 = tbl_config d }.

(** ** The store *)

Section store.
Context {D : Type} `{!Engine D}.

Definition kind_int (k : MessageKind) : Z := match k with KindTopic => 0 | KindPrivate => 1 end.
Definition kind_of_int (z : Z) : MessageKind := if z =? 0 then KindTopic else KindPrivate.

Definition to_row (m : Message) : Row :=
  mkRow (m_ID m) (m_OriginNode m) (m_FromCall m) (kind_int (m_Kind m)) (m_Topic m)
    (m_ToCall m) (UnixNano (m_Time m)) (m_Text m).
Definition of_row (r : Row) : Message :=
  mkMessage (r_id r) (r_origin_node r) (r_from_call r) (kind_of_int (r_kind r)) (r_topic r)
    (r_to_call r) (Unix0 (r_ts_unix_ns r)) (r_text r).

(** [fmt.Errorf("...: %w", err)] *)
Definition wrapped (what : gostring) (err : option gostring) : option error :=
  (λ e, ErrStore (what ++ e)) <$> err.

Definition SaveMessage (d : D) (m : Message) : D * option error :=
  if decide (m_ID m = []) then (d, Some (ErrStore (bs "sqlite: message has no id")))
  else
    let '(d', err) := insert_message d (to_row m) in
    (d', wrapped (bs "sqlite: save message: ") err).

(** The loop that puts the rows oldest first, in place. *)
Fixpoint reverse_loop {A} (fuel i j : nat) (out : list A) : list A :=
  match fuel with
  | O => out
  | S fuel' =>
      if (i <? j)%nat then
        match out !! i, out !! j with
        | Some x, Some y => reverse_loop fuel' (S i) (j - 1) (<[i := y]> (<[j := x]> out))
        | _, _ => out
        end
      else out
  end.
Definition oldest_first {A} (out : list A) : list A :=
  reverse_loop (length out) 0 (length out - 1) out.

Definition since_ns (since : Time) : Z := if since =? 0 then 0 else UnixNano since.
Definition limit_or_default (limit : Z) : Z := if limit <=? 0 then 1000 else limit.

Definition rows_result (what : gostring) (q : list Row + rows_error) : list Message + error :=
  match q with
  | inl rows => inl (oldest_first (of_row <$> rows))
  | inr (QueryFailed e) => inr (ErrStore (what ++ e))
  | inr (ScanFailed e) => inr (ErrStore (bs "sqlite: scan: " ++ e))
  | inr (RowsFailed e) => inr (ErrStore e)
  end.

Definition History (d : D) (topic : gostring) (since : Time) (limit : Z)
    : list Message + error :=
  rows_result (bs "sqlite: history: ")
    (select_topic d (kind_int KindTopic) topic (since_ns since) (limit_or_default limit)).

Definition PrivateHistory (d : D) (call : gostring) (since : Time) (limit : Z)
    : list Message + error :=
  rows_result (bs "sqlite: private history: ")
    (select_private d (kind_int KindPrivate) (since_ns since) call call (limit_or_default limit)).

Definition GetConfig (d : D) (key : gostring) : option gostring + error :=
  match select_config d key with
  | inl v => inl v
  | inr e => inr (ErrStore (bs "sqlite: get config: " ++ e))
  end.

Definition SetConfig (d : D) (key value : gostring) : D * option error :=
  let '(d', err) := upsert_config d key value in
  (d', wrapped (bs "sqlite: set config: ") err).

(** ** Callsign claims *)

Definition ClaimedCall (d : D) (pdnUser : gostring) : option gostring + error :=
  match select_claim d pdnUser with
  | inl v => inl v
  | inr e => inr (ErrStore (bs "sqlite: claimed call: " ++ e))
  end.

(** The errors of [Claim]: the collision sentinel, or the store's. *)
Inductive claim_error := ErrCallsignClaimed | ClaimFailed (e : error).

(** [t.Unix()] *)
Definition Unix (t : Time) : Z := (t - unix_epoch) / 1000000000.

(** [Claim] executes three statements and other calls can run between them.  Each part
    of it either returns ([Some] an error or nil) or goes on. *)
Inductive claim_next := Returns (r : option claim_error) | GoesOn.

Definition claim_own (d : D) (pdnUser callsign : gostring) : claim_next :=
  match ClaimedCall d pdnUser with
  | inr e => Returns (Some (ClaimFailed e))
  | inl (Some cur) => if decide (cur = callsign) then Returns None else GoesOn
  | inl None => GoesOn
  end.

Definition claim_check (d : D) (pdnUser callsign : gostring) : claim_next :=
  match select_holder d callsign with
  | inl (Some holder) =>
      if decide (holder ≠ pdnUser) then Returns (Some ErrCallsignClaimed) else GoesOn
  | inl None => GoesOn
  | inr e => Returns (Some (ClaimFailed (ErrStore (bs "sqlite: claim lookup: " ++ e))))
  end.

Definition claim_write (d : D) (pdnUser callsign : gostring) (claimedAt : Time)
    : D * option claim_error :=
  let '(d', err) := upsert_claim d pdnUser callsign (Unix claimedAt) in
  (d', match err with
       | None => None
       | Some e =>
           if Contains e (bs "UNIQUE") then Some ErrCallsignClaimed
           else Some (ClaimFailed (ErrStore (bs "sqlite: claim: " ++ e)))
       end).

Definition Claim (d : D) (pdnUser callsign : gostring) (claimedAt : Time)
    : D * option claim_error :=
  match claim_own d pdnUser callsign with
  | Returns r => (d, r)
  | GoesOn =>
      match claim_check d pdnUser callsign with
      | Returns r => (d, r)
      | GoesOn => claim_write d pdnUser callsign claimedAt
      end
  end.

(** The calls of [Claim] in progress, and what they and the other users of the
    database do. *)
Inductive phase := POwn | PCheck | PWrite | PDone (r : option claim_error).
Record call := mkCall { c_user : gostring; c_callsign : gostring; c_at : Time; c_phase : phase }.
Definition at_phase (p : phase) (c : call) : call := mkCall (c_user c) (c_callsign c) (c_at c) p.

Definition after_part (p : phase) (n : claim_next) : phase :=
  match n with Returns r => PDone r | GoesOn => p end.

Inductive claim_step : D * gmap nat call → D * gmap nat call → Prop :=
| step_call d cs i user callsign at' :
    cs !! i = None →
    claim_step (d, cs) (d, <[i := mkCall user callsign at' POwn]> cs)
| step_own d cs i c :
    cs !! i = Some c → c_phase c = POwn →
    claim_step (d, cs)
      (d, <[i := at_phase (after_part PCheck (claim_own d (c_user c) (c_callsign c))) c]> cs)
| step_check d cs i c :
    cs !! i = Some c → c_phase c = PCheck →
    claim_step (d, cs)
      (d, <[i := at_phase (after_part PWrite (claim_check d (c_user c) (c_callsign c))) c]> cs)
| step_write d cs i c d' r :
    cs !! i = Some c → c_phase c = PWrite →
    claim_write d (c_user c) (c_callsign c) (c_at c) = (d', r) →
    claim_step (d, cs) (d', <[i := at_phase (PDone r) c]> cs)
| step_save d cs m : claim_step (d, cs) ((SaveMessage d m).1, cs)
| step_config d cs k v : claim_step (d, cs) ((SetConfig d k v).1, cs).

End store.

(** ** A concrete engine *)

(** The tables themselves, with statements that fail only on the unique index. *)
Record Tables := mkTables {
  t_messages : list Row; t_config : gmap gostring gostring; t_claims : claims_of }.

Definition empty_tables : Tables := mkTables [] ∅ ∅.

Definition newer_first (r r' : Row) : Prop := r_ts_unix_ns r' ≤ r_ts_unix_ns r.
#[export] Instance newer_first_dec : RelDecision newer_first.
Proof. intros r r'. unfold newer_first. apply _. Defined.

Definition query (limit : Z) (rows : list Row) : list Row :=
  take (Z.to_nat limit) (merge_sort newer_first rows).

Definition holders (cs : gostring) (claims : claims_of) : list gostring :=
  fst <$> List.filter (λ e : gostring * (gostring * Z), bool_decide (nocase e.2.1 = nocase cs))
            (map_to_list claims).

#[export] Instance tables_engine : Engine Tables := {|
  insert_message d r :=
    (if decide (r_id r ∈ r_id <$> t_messages d) then d
     else mkTables (t_messages d ++ [r]) (t_config d) (t_claims d), None);
  select_topic d kind topic since limit :=
    inl (query limit (List.filter (where_topic kind topic since) (t_messages d)));
  select_private d kind since to_call from_call limit :=
    inl (query limit (List.filter (where_private kind since to_call from_call) (t_messages d)));
  select_config d k := inl (t_config d !! k);
  upsert_config d k v := (mkTables (t_messages d) (<[k := v]> (t_config d)) (t_claims d), None);
  select_claim d user := inl (fst <$> t_claims d !! user);
  select_holder d cs := inl (head (holders cs (t_claims d)));
  upsert_claim d user cs at' :=
    if existsb (λ u, negb (bool_decide (u = user))) (holders cs (t_claims d))
    then (d, Some (bs "UNIQUE constraint failed: claims.callsign"))
    else (mkTables (t_messages d) (t_config d) (<[user := (cs, at')]> (t_claims d)), None) |}.

End Durable.
