(* ===== verification/SqliteProps.v ===== *)
(** * The durable store keeps the contract

    [EngineLaws] hold of the concrete tables; over any engine the store's methods
    satisfy [StoreLaws], so every theorem of the hub and of the allow-list holds of
    the daemon's store; history queries agree with the in-memory store; and claims
    are exclusive in every interleaving. *)
From S2P Require Import Prelude Unicode GoStrings ChatModel ChatStore Sqlite.
From stdpp Require Import options.
Local Open Scope Z_scope.
Import Durable.

(** ** Reversing in place *)

Section reversing.
Context {A : Type}.

Lemma reverse_loop_spec fuel : ∀ (pre mid post : list A),
  (length mid ≤ fuel)%nat →
  reverse_loop fuel (length pre) (length pre + length mid - 1) (pre ++ mid ++ post)
  = pre ++ reverse mid ++ post.
Proof.
  induction fuel as [|fuel IH]; intros pre mid post Hf.
  { destruct mid; [done|]. cbn in Hf. lia. }
  cbn [reverse_loop]. case_match eqn:E; apply Nat.ltb_lt in E || apply Nat.ltb_ge in E.
  2:{ destruct mid as [|x [|y mid]]; [done|done|]. cbn in E. lia. }
  destruct mid as [|x mid]; [cbn in E; lia|].
  destruct mid as [|y mid _] using rev_ind; [cbn in E; lia|].
  rewrite length_cons, length_app in E, Hf |- *. cbn [length] in *.
  replace (pre ++ (x :: mid ++ [y]) ++ post) with (pre ++ x :: mid ++ y :: post)
    by (cbn; by rewrite <- !app_assoc).
  rewrite list_lookup_middle by done.
  replace (pre ++ x :: mid ++ y :: post) with ((pre ++ x :: mid) ++ y :: post)
    by (by rewrite <- !app_assoc).
  replace (length pre + S (length mid + 1) - 1)%nat with (length (pre ++ x :: mid) + 0)%nat
    by (rewrite length_app; cbn; lia).
  rewrite lookup_app_r, insert_app_r by lia.
  replace (length (pre ++ x :: mid) + 0 - length (pre ++ x :: mid))%nat with 0%nat by lia.
  cbn [insert list_insert lookup list_lookup]. rewrite <- app_assoc.
  cbn [app]. replace (<[length pre:=y]> (pre ++ x :: mid ++ x :: post)) with (pre ++ y :: mid ++ x :: post)
    by (symmetry; rewrite insert_app_r_alt by lia; by rewrite Nat.sub_diag).
  specialize (IH (pre ++ [y]) mid (x :: post) ltac:(lia)).
  rewrite length_app in IH |- *. cbn [length] in *.
  replace (S (length pre)) with (length pre + 1)%nat by lia.
  replace (length pre + S (length mid) + 0 - 1)%nat with (length pre + 1 + length mid - 1)%nat by lia.
  rewrite <- app_assoc in IH. cbn [app] in IH. rewrite IH.
  rewrite reverse_cons, reverse_app. cbn. by rewrite <- !app_assoc.
Qed.

Lemma oldest_first_reverse (l : list A) : oldest_first l = reverse l.
Proof.
  unfold oldest_first. pose proof (reverse_loop_spec (length l) [] l [] ltac:(lia)) as H.
  cbn in H. by rewrite !app_nil_r in H.
Qed.
End reversing.

(** ** Times *)

Lemma wrap64_id z : - 2 ^ 63 ≤ z < 2 ^ 63 → wrap64 z = z.
Proof. intros H. unfold wrap64. rewrite Z.mod_small by lia. lia. Qed.

(** The time a row gives back. *)
Definition row_time (t : Time) : Time := Unix0 (UnixNano t).

Lemma row_time_exact t : representable t → row_time t = t.
Proof.
  unfold representable, row_time, UnixNano, Unix0. intros H. rewrite wrap64_id by lia. lia.
Qed.

Lemma of_to_row m : of_row (to_row m) = message_at row_time m.
Proof. by destruct m as [? ? ? [] ? ? ? ?]. Qed.

(** ** The laws over any engine *)

Section laws.
Context {D : Type} `{!Engine D, !EngineLaws D}.
Implicit Types d : D.

#[export] Instance durable_store : Store D := {|
  ChatStore.SaveMessage := SaveMessage;
  ChatStore.History := History;
  ChatStore.PrivateHistory := PrivateHistory;
  ChatStore.GetConfig := GetConfig;
  ChatStore.SetConfig := SetConfig |}.

Definition log d : list Message := of_row <$> tbl_messages d.

Lemma log_ids d : m_ID <$> log d = r_id <$> tbl_messages d.
Proof. unfold log. rewrite <- list_fmap_compose. by apply list_fmap_ext. Qed.

Lemma save_message_ok d m :
  m_ID m ≠ [] → (SaveMessage d m).2 = None →
  log (SaveMessage d m).1
    = (if decide (m_ID m ∈ m_ID <$> log d) then log d else log d ++ [message_at row_time m])
  ∧ tbl_config (SaveMessage d m).1 = tbl_config d
  ∧ tbl_claims (SaveMessage d m).1 = tbl_claims d.
Proof.
  intros Hid. unfold SaveMessage. rewrite decide_False by done.
  destruct (insert_message d (to_row m)) as [d' [e|]] eqn:E; [done|intros _]; cbn [fst].
  destruct (insert_message_ok d (to_row m)) as (H & Hc & Hl); [by rewrite E|].
  rewrite E in H, Hc, Hl. cbn [fst] in *. split; [|done]. rewrite log_ids. unfold log.
  rewrite H. case_decide as Hd; (case_decide as Hd'; [|try done]); try done.
  by rewrite fmap_app, <- of_to_row.
Qed.

Lemma save_message_err d m e :
  (SaveMessage d m).2 = Some e →
  log (SaveMessage d m).1 = log d ∧ tbl_config (SaveMessage d m).1 = tbl_config d
  ∧ tbl_claims (SaveMessage d m).1 = tbl_claims d.
Proof.
  unfold SaveMessage. case_decide; [done|].
  destruct (insert_message d (to_row m)) as [d' [e'|]] eqn:E; [intros _|done]; cbn [fst].
  destruct (insert_message_err d (to_row m) e') as (H1 & H2); [by rewrite E|].
  rewrite E in H1, H2. cbn [fst] in H1, H2. unfold log. by rewrite H1.
Qed.

Lemma save_frame d m :
  tbl_config (SaveMessage d m).1 = tbl_config d ∧ tbl_claims (SaveMessage d m).1 = tbl_claims d.
Proof.
  destruct (decide (m_ID m = [])) as [E|E].
  { unfold SaveMessage. by rewrite decide_True. }
  destruct (SaveMessage d m).2 as [e|] eqn:H; [by apply (save_message_err _ _ e)|].
  by apply save_message_ok.
Qed.

Lemma set_config_frame d k v :
  log (SetConfig d k v).1 = log d ∧ tbl_claims (SetConfig d k v).1 = tbl_claims d
  ∧ ((SetConfig d k v).2 = None → tbl_config (SetConfig d k v).1 = <[k := v]> (tbl_config d)).
Proof.
  unfold SetConfig, log. destruct (upsert_config d k v) as [d' [e|]] eqn:E; cbn [fst snd].
  - destruct (upsert_config_err d k v e) as (H1 & H2 & H3); [by rewrite E|].
    rewrite E in H2, H3. cbn [fst] in *. by rewrite H2.
  - destruct (upsert_config_ok d k v) as (H1 & H2 & H3); [by rewrite E|].
    rewrite E in H1, H2, H3. cbn [fst] in *. by rewrite H2.
Qed.

Lemma set_config_err d k v e :
  (SetConfig d k v).2 = Some e → tbl_config (SetConfig d k v).1 = tbl_config d.
Proof.
  unfold SetConfig. destruct (upsert_config d k v) as [d' [e'|]] eqn:E; cbn [fst snd]; [intros _|done].
  destruct (upsert_config_err d k v e') as (H & _); [by rewrite E|]. by rewrite E in H.
Qed.

Lemma get_config_spec d k v : GetConfig d k = inl v → v = tbl_config d !! k.
Proof.
  unfold GetConfig. destruct (select_config d k) eqn:E; [|done]. intros [= <-].
  by apply select_config_ok.
Qed.

(** What a history answers when it answers: the newest rows, oldest first. *)
Lemma rows_result_ok what q out :
  rows_result what q = inl out → ∃ rows, q = inl rows ∧ out = reverse (of_row <$> rows).
Proof.
  destruct q as [rows|[]]; cbn; [|done|done|done]. intros [= <-].
  exists rows. by rewrite oldest_first_reverse.
Qed.

Lemma limit_pos limit : 0 < limit_or_default limit.
Proof. unfold limit_or_default. case_match; lia. Qed.

Lemma limit_id limit : 0 < limit → limit_or_default limit = limit.
Proof. unfold limit_or_default. case_match; lia. Qed.

Lemma newest_sub limit all out r : newest limit all out → r ∈ out → r ∈ all.
Proof. intros (_ & _ & rest & -> & _) H. set_solver. Qed.

Lemma engine_query_sound (keep : Row → bool) limit0 all rows :
  newest (limit_or_default limit0) (List.filter keep all) rows →
  (0 < limit0 → Z.of_nat (length (reverse (of_row <$> rows))) ≤ limit0)
  ∧ ∀ m, m ∈ reverse (of_row <$> rows) → ∃ r, m = of_row r ∧ r ∈ all ∧ keep r = true.
Proof.
  intros H. split.
  - intros Hl. destruct H as [H _]. rewrite limit_id in H by done.
    rewrite length_reverse, length_fmap. lia.
  - intros m. rewrite elem_of_reverse, list_elem_of_fmap. intros (r & -> & Hr).
    eapply newest_sub in Hr; [|done]. rewrite list_elem_of_In, filter_In in Hr.
    exists r. rewrite list_elem_of_In. by destruct Hr.
Qed.

Lemma since_ns_spec since r :
  since_ns since ≤ r_ts_unix_ns r → since = 0 ∨ row_time since ≤ m_Time (of_row r).
Proof.
  unfold since_ns, row_time, Unix0. destruct (Z.eqb_spec since 0); [by left|].
  intros H. right. cbn. unfold Unix0. lia.
Qed.

#[export] Program Instance durable_laws : StoreLaws D := {|
  store_log := log; store_ok := λ _, True; store_time := row_time;
  store_config := tbl_config |}.
Next Obligation. apply row_time_exact. Qed.
Next Obligation. done. Qed.
Next Obligation. intros d m _ Hid H. by apply save_message_ok. Qed.
Next Obligation. intros d m e _ H. by apply (save_message_err d m e). Qed.
Next Obligation.
  intros d topic since limit out _ (rows & H & ->)%rows_result_ok.
  apply select_topic_ok, engine_query_sound in H as [H1 H2]; [|apply limit_pos].
  split; [done|]. intros m (r & -> & Hr & Hk)%H2. unfold where_topic in Hk.
  rewrite !andb_true_iff, Z.eqb_eq, Z.leb_le in Hk. destruct Hk as [[Hk1 _] Hk2].
  split_and!; [by apply list_elem_of_fmap_2| |by apply since_ns_spec].
  cbn. by rewrite Hk1.
Qed.
Next Obligation.
  intros d call since limit out _ (rows & H & ->)%rows_result_ok.
  apply select_private_ok, engine_query_sound in H as [H1 H2]; [|apply limit_pos].
  split; [done|]. intros m (r & -> & Hr & Hk)%H2. unfold where_private in Hk.
  rewrite !andb_true_iff, Z.eqb_eq, Z.leb_le in Hk. destruct Hk as [[Hk1 Hk2] _].
  split_and!; [by apply list_elem_of_fmap_2| |by apply since_ns_spec].
  cbn. by rewrite Hk1.
Qed.
Next Obligation. intros d k v _. apply get_config_spec. Qed.
Next Obligation. intros d k v _ H. by apply set_config_frame. Qed.
Next Obligation. intros d k v e _ H. by apply (set_config_err _ _ _ e). Qed.
Next Obligation. intros d m _. apply save_frame. Qed.
Next Obligation. done. Qed.
Next Obligation. intros d k v. apply set_config_frame. Qed.
End laws.

(** ** Claims *)

(** No two users hold one callsign. *)
Definition exclusive (claims : claims_of) : Prop :=
  ∀ u u' cs cs' a a', claims !! u = Some (cs, a) → claims !! u' = Some (cs', a') →
    nocase cs = nocase cs' → u = u'.

Lemma exclusive_insert claims user cs a :
  exclusive claims → ¬ held claims user cs → exclusive (<[user := (cs, a)]> claims).
Proof.
  intros He Hn u u' cs1 cs2 a1 a2.
  intros [[<- [= <- <-]]|[Hu H1]]%lookup_insert_Some [[<- [= <- <-]]|[Hu' H2]]%lookup_insert_Some Hc.
  - done.
  - destruct Hn. by exists u', cs2, a2.
  - destruct Hn. by exists u, cs1, a1.
  - by eapply He.
Qed.

Lemma exclusive_not_held claims user cs a :
  exclusive claims → claims !! user = Some (cs, a) → ¬ held claims user cs.
Proof. intros He Hu (u' & cs' & a' & Hne & H & Hc). destruct Hne. by eapply He. Qed.

Section claims.
Context {D : Type} `{!Engine D, !EngineLaws D}.
Implicit Types d : D.

(** The rows of the messages and the configuration are not touched. *)
Definition same_rows d d' : Prop :=
  tbl_messages d' = tbl_messages d ∧ tbl_config d' = tbl_config d.

Lemma claimed_call_spec d user v :
  ClaimedCall d user = inl v → v = fst <$> tbl_claims d !! user.
Proof.
  unfold ClaimedCall. destruct (select_claim d user) eqn:E; [|done]. intros [= <-].
  by apply select_claim_ok.
Qed.

Lemma claim_own_spec d user cs r :
  claim_own d user cs = Returns r →
  match r with
  | None => ∃ a, tbl_claims d !! user = Some (cs, a)
  | Some ErrCallsignClaimed => False
  | Some (ClaimFailed _) => True
  end.
Proof.
  unfold claim_own. destruct (ClaimedCall d user) as [[cur|]|e] eqn:E; [|done|by intros [= <-]].
  apply claimed_call_spec in E. case_decide as Ec; [|done]. intros [= <-]. subst cur.
  destruct (tbl_claims d !! user) as [[cs' a]|]; cbn in E; [|done].
  injection E as ->. by exists a.
Qed.

Lemma claim_check_spec d user cs r :
  claim_check d user cs = Returns r →
  match r with
  | None => False
  | Some ErrCallsignClaimed => held (tbl_claims d) user cs
  | Some (ClaimFailed _) => True
  end.
Proof.
  unfold claim_check. destruct (select_holder d cs) as [[h|]|e] eqn:E; [|done|by intros [= <-]].
  apply select_holder_some in E as (cs' & a & Hl & Hc). case_decide; [|done].
  intros [= <-]. by exists h, cs', a.
Qed.

Lemma claim_write_spec d user cs at' d' r :
  claim_write d user cs at' = (d', r) →
  same_rows d d' ∧
  match r with
  | None => ¬ held (tbl_claims d) user cs
      ∧ tbl_claims d' = <[user := (cs, Unix at')]> (tbl_claims d)
  | Some ErrCallsignClaimed => held (tbl_claims d) user cs ∧ tbl_claims d' = tbl_claims d
  | Some (ClaimFailed _) => tbl_claims d' = tbl_claims d
  end.
Proof.
  unfold claim_write. destruct (upsert_claim d user cs (Unix at')) as [d1 [e|]] eqn:E.
  - destruct (upsert_claim_err d user cs (Unix at') e) as (H1 & H2 & H3); [by rewrite E|].
    rewrite E in H2, H3. cbn [fst] in H2, H3.
    destruct (Contains e (bs "UNIQUE")); intros [= <- <-]; (split; [done|]); auto.
  - destruct (upsert_claim_ok d user cs (Unix at')) as (H1 & H2 & H3); [by rewrite E|].
    rewrite E in H2, H3. cbn [fst] in *. by intros [= <- <-].
Qed.

(** [Claim] running alone. *)
Lemma Claim_spec d user cs at' d' r :
  exclusive (tbl_claims d) → Claim d user cs at' = (d', r) →
  same_rows d d' ∧
  match r with
  | None => ¬ held (tbl_claims d) user cs
      ∧ ∃ a, tbl_claims d' = <[user := (cs, a)]> (tbl_claims d)
  | Some ErrCallsignClaimed => held (tbl_claims d) user cs ∧ tbl_claims d' = tbl_claims d
  | Some (ClaimFailed _) => tbl_claims d' = tbl_claims d
  end.
Proof.
  intros He. unfold Claim. destruct (claim_own d user cs) as [r1|] eqn:E1.
  { intros [= <- <-]. apply claim_own_spec in E1. split; [done|].
    destruct r1 as [[]|]; [done|done|]. destruct E1 as [a Ha].
    split; [by eapply exclusive_not_held|]. exists a. symmetry. by apply insert_id. }
  destruct (claim_check d user cs) as [r2|] eqn:E2.
  { intros [= <- <-]. apply claim_check_spec in E2. split; [done|].
    by destruct r2 as [[]|]. }
  intros [H1 H2]%claim_write_spec. split; [done|]. destruct r as [[]|]; [done|done|].
  destruct H2. eauto.
Qed.

(** A step that finishes call [i] answers the truth of that moment, and a step changes
    the claim of no user who is not calling. *)
Definition step_truthful (s s' : D * gmap nat call) : Prop :=
  (∀ i c c' r, s.2 !! i = Some c → (∀ q, c_phase c ≠ PDone q) →
     s'.2 !! i = Some c' → c_phase c' = PDone r →
     match r with
     | None => ∃ a, tbl_claims s'.1 !! c_user c = Some (c_callsign c, a)
     | Some ErrCallsignClaimed =>
         held (tbl_claims s.1) (c_user c) (c_callsign c) ∧ tbl_claims s'.1 = tbl_claims s.1
     | Some (ClaimFailed _) => tbl_claims s'.1 = tbl_claims s.1
     end)
  ∧ ∀ u, (∀ i c, s.2 !! i = Some c → c_user c ≠ u) →
      tbl_claims s'.1 !! u = tbl_claims s.1 !! u.

Lemma claim_step_spec s s' :
  claim_step s s' → exclusive (tbl_claims s.1) →
  exclusive (tbl_claims s'.1) ∧ step_truthful s s'.
Proof.
  assert (∀ (cs : gmap nat call) i j c c' r (x : call), cs !! j = Some c →
    (∀ q, c_phase c ≠ PDone q) → <[i := x]> cs !! j = Some c' → c_phase c' = PDone r →
    i = j ∧ c' = x) as Hwho.
  { intros cs i j c c' r x Hj Hq. rewrite lookup_insert_Some.
    intros [[-> ->]|[_ Hj']] Hr; [done|]. rewrite Hj in Hj'. injection Hj' as <-.
    by destruct (Hq r). }
  intros Hs He. destruct Hs as [d cs i user callsign at' Hi|d cs i c Hi Hp|d cs i c Hi Hp
    |d cs i c d' r Hi Hp Hw|d cs m|d cs k v]; cbn [fst snd] in *.
  - split; [done|]. split; [|done]. cbn [fst snd]. intros j c c' r Hj Hq Hj' Hr.
    destruct (Hwho _ _ _ _ _ _ _ Hj Hq Hj' Hr) as [-> _]. congruence.
  - split; [done|]. split; [|done]. cbn [fst snd]. intros j c1 c' r Hj Hq Hj' Hr.
    destruct (Hwho _ _ _ _ _ _ _ Hj Hq Hj' Hr) as [-> ->]. rewrite Hi in Hj.
    injection Hj as <-. cbn in Hr.
    destruct (claim_own d (c_user c) (c_callsign c)) as [r1|] eqn:E; [|done].
    injection Hr as ->. apply claim_own_spec in E. by destruct r as [[]|].
  - split; [done|]. split; [|done]. cbn [fst snd]. intros j c1 c' r Hj Hq Hj' Hr.
    destruct (Hwho _ _ _ _ _ _ _ Hj Hq Hj' Hr) as [-> ->]. rewrite Hi in Hj.
    injection Hj as <-. cbn in Hr.
    destruct (claim_check d (c_user c) (c_callsign c)) as [r1|] eqn:E; [|done].
    injection Hr as ->. apply claim_check_spec in E. by destruct r as [[]|].
  - apply claim_write_spec in Hw as [_ Hw]. split.
    { destruct r as [[]|]; [by destruct Hw as [_ ->]|by rewrite Hw|].
      destruct Hw as [Hn ->]. by apply exclusive_insert. }
    split; cbn [fst snd].
    + intros j c1 c' r' Hj Hq Hj' Hr.
      destruct (Hwho _ _ _ _ _ _ _ Hj Hq Hj' Hr) as [-> ->]. rewrite Hi in Hj.
      injection Hj as <-. cbn in Hr. injection Hr as <-. destruct r as [[]|]; [done|done|].
      destruct Hw as [_ ->]. rewrite lookup_insert_eq. eauto.
    + intros u Hu. destruct r as [[]|]; [by destruct Hw as [_ ->]|by rewrite Hw|].
      destruct Hw as [_ ->]. rewrite lookup_insert_ne; [done|]. by apply (Hu i).
  - unfold step_truthful. cbn [fst snd]. rewrite (proj2 (save_frame d m)). split; [done|].
    split; [|done]. intros j c c' r Hj Hq Hj' Hr. rewrite Hj in Hj'. injection Hj' as <-.
    by destruct (Hq r).
  - unfold step_truthful. cbn [fst snd].
    rewrite (proj1 (proj2 (set_config_frame d k v))). split; [done|].
    split; [|done]. intros j c c' r Hj Hq Hj' Hr. rewrite Hj in Hj'. injection Hj' as <-.
    by destruct (Hq r).
Qed.
End claims.

(** C29. Callsign claims are exclusive under concurrency.  However the statements of any
    number of concurrent [Claim] calls interleave with one another and with the other
    writes of the store, two web users never hold one callsign (whatever its case); and
    whenever a call returns, what it says is true at that moment: success means the
    caller holds the callsign, the collision error means another user does, and an
    error changes no claim.  A user's claim changes only through a call of their own. *)
Theorem claims_exclusive {D : Type} `{!Engine D, !EngineLaws D} (d : D) s s' :
  exclusive (tbl_claims d) → rtc claim_step (d, ∅) s →
  exclusive (tbl_claims s.1) ∧ (claim_step s s' → step_truthful s s').
Proof.
  intros He Hr. assert (exclusive (tbl_claims s.1)) as Hs.
  { change (exclusive (tbl_claims (d, ∅ : gmap nat call).1)) in He. revert He.
    induction Hr as [|s1 s2 s3 H _ IH]; [done|]. intros He. by apply IH, (claim_step_spec s1 s2). }
  split; [done|]. intros H. by apply claim_step_spec.
Qed.

(** ** The newest rows of a time-ordered table *)

Definition older (r r' : Row) : Prop := r_ts_unix_ns r < r_ts_unix_ns r'.

#[export] Instance newer_first_trans : Transitive newer_first.
Proof. intros r1 r2 r3. unfold newer_first. lia. Qed.
#[export] Instance newer_first_total : Total newer_first.
Proof. intros r1 r2. unfold newer_first. lia. Qed.

Lemma query_newest limit rows : 0 ≤ limit → newest limit rows (query limit rows).
Proof.
  intros Hl. unfold query, newest.
  pose proof (StronglySorted_merge_sort newer_first rows) as Hs.
  pose proof (merge_sort_Permutation newer_first rows) as Hp.
  rewrite <- (take_drop (Z.to_nat limit)) in Hs. apply StronglySorted_app in Hs as (Hx & Hs & _).
  split_and!; [|done|].
  - rewrite length_take, (Permutation_length Hp). lia.
  - exists (drop (Z.to_nat limit) (merge_sort newer_first rows)).
    split; [by rewrite take_drop|]. intros r r' H1 H2. by apply Hx.
Qed.

Lemma sorted_reverse rows :
  StronglySorted older rows → StronglySorted newer_first (reverse rows).
Proof.
  induction 1 as [|r rows _ IH Hr]; [constructor|]. rewrite reverse_cons.
  apply StronglySorted_app_2; [|done|by repeat constructor].
  intros r1 r2 H1 H2. rewrite elem_of_reverse in H1. apply list_elem_of_singleton in H2 as ->.
  rewrite Forall_forall in Hr. specialize (Hr r1 H1). unfold older, newer_first in *. lia.
Qed.

Lemma older_inj rows r r' :
  StronglySorted older rows → r ∈ rows → r' ∈ rows → r_ts_unix_ns r = r_ts_unix_ns r' → r = r'.
Proof.
  induction 1 as [|x rows _ IH Hx]; [by intros ?%not_elem_of_nil|].
  rewrite Forall_forall in Hx. unfold older in Hx.
  intros [->|H1]%elem_of_cons [->|H2]%elem_of_cons Ht; [done| | |by apply IH].
  - specialize (Hx r' H2). lia.
  - specialize (Hx r H1). lia.
Qed.

(** Of rows in time order without ties, the newest [limit] are determined. *)
Lemma newest_last_n limit rows out :
  0 < limit → StronglySorted older rows → newest limit rows out →
  reverse out = last_n limit rows.
Proof.
  intros Hl Hs (Hn & Ho & rest & Hp & Hr).
  assert (out ++ merge_sort newer_first rest = reverse rows) as E.
  { apply (StronglySorted_unique_strong newer_first).
    - intros r r' H1 H2 ? ?. apply (older_inj rows); [done| | |unfold newer_first in *; lia].
      + rewrite Hp. by rewrite (merge_sort_Permutation newer_first rest) in H1.
      + by rewrite elem_of_reverse in H2.
    - apply StronglySorted_app_2; [|done|apply StronglySorted_merge_sort; apply _].
      intros r r' H1 H2. rewrite (merge_sort_Permutation newer_first rest) in H2. by apply Hr.
    - by apply sorted_reverse.
    - by rewrite (merge_sort_Permutation newer_first rest), <- Hp, reverse_Permutation. }
  apply (f_equal reverse) in E. rewrite reverse_app, reverse_involutive in E.
  set (tl := reverse (merge_sort newer_first rest)) in E. rewrite <- E in *.
  rewrite length_app, length_reverse in Hn. unfold last_n.
  rewrite length_app, length_reverse.
  case_match eqn:Ec.
  - rewrite andb_true_iff, !Z.ltb_lt in Ec.
    replace (length tl + length out - Z.to_nat limit)%nat with (length tl) by lia.
    by rewrite drop_app_length.
  - rewrite andb_false_iff, !Z.ltb_ge in Ec. destruct tl; [done|]. cbn [length] in *. lia.
Qed.

(** ** Collations *)

Section folding.
Context (f : byte → byte).
Hypothesis Hf : ∀ a b, bz a < 128 → bz b < 128 → f a = f b ↔ fold_byte a = fold_byte b.

Lemma fold_agrees s : ∀ t, ascii s → ascii t → f <$> s = f <$> t ↔ nocase s = nocase t.
Proof using Hf.
  unfold nocase.
  induction s as [|a s IH]; intros [|b t] Hs Ht; [done|done|done|].
  inversion_clear Hs; inversion_clear Ht. rewrite !fmap_cons.
  specialize (IH t). specialize (Hf a b). split; intros [= E1 E2]; f_equal; tauto.
Qed.
End folding.

Definition byte_pairs : list (byte * byte) :=
  n ← seq 0 128; m ← seq 0 128; mret (zb (Z.of_nat n), zb (Z.of_nat m)).

Lemma byte_pairs_all a b : bz a < 128 → bz b < 128 → In (a, b) byte_pairs.
Proof.
  intros Ha Hb. pose proof (bz_range a). pose proof (bz_range b).
  apply list_elem_of_In. unfold byte_pairs. apply list_elem_of_bind.
  exists (Z.to_nat (bz a)). split; [|apply elem_of_seq; lia]. apply list_elem_of_bind.
  exists (Z.to_nat (bz b)). split; [|apply elem_of_seq; lia]. apply list_elem_of_singleton.
  by rewrite !Z2Nat.id, !zb_bz by lia.
Qed.

Lemma fold_table (f : byte → byte) :
  forallb (λ p : byte * byte, eqb (bool_decide (f p.1 = f p.2))
             (bool_decide (fold_byte p.1 = fold_byte p.2))) byte_pairs = true →
  ∀ a b, bz a < 128 → bz b < 128 → f a = f b ↔ fold_byte a = fold_byte b.
Proof.
  rewrite forallb_forall. intros H a b Ha Hb.
  specialize (H _ (byte_pairs_all a b Ha Hb)). cbn [fst snd] in H.
  apply eqb_prop in H. split; intros E.
  - apply (bool_decide_eq_true_1 _). rewrite <- H. by apply bool_decide_eq_true_2.
  - apply (bool_decide_eq_true_1 _). rewrite H. by apply bool_decide_eq_true_2.
Qed.

Definition plain (s : gostring) : Prop := ascii s ∧ TrimSpace s = s.

Lemma topic_key_nocase s t :
  plain s → plain t → normTopicKey s = normTopicKey t ↔ nocase s = nocase t.
Proof.
  intros [H1 H2] [H3 H4]. unfold normTopicKey. rewrite H2, H4, !ToLower_ascii by done.
  apply fold_agrees; [|done|done]. apply fold_table. by vm_compute.
Qed.

Lemma call_nocase s t : plain s → plain t → normCall s = normCall t ↔ nocase s = nocase t.
Proof.
  intros [H1 H2] [H3 H4]. unfold normCall. rewrite H2, H4, !ToUpper_ascii by done.
  apply fold_agrees; [|done|done]. apply fold_table. by vm_compute.
Qed.

(** ** The two stores agree *)

(** Save a list of messages; [true] when every save succeeded. *)
Fixpoint save_all {St} `{!Store St} (s : St) (ms : list Message) : St * bool :=
  match ms with
  | [] => (s, true)
  | m :: ms' =>
      let r := ChatStore.SaveMessage s m in
      let r' := save_all r.1 ms' in
      (r'.1, match r.2 with None => r'.2 | Some _ => false end)
  end.

(** The log that results: the first message of each id. *)
Definition keep (log : list Message) (m : Message) : list Message :=
  if decide (m_ID m ∈ m_ID <$> log) then log else log ++ [m].

Lemma keep_sublist ms : ∀ l, ∃ k, foldl keep l ms = l ++ k ∧ k `sublist_of` ms.
Proof.
  induction ms as [|m ms IH]; intros l; cbn; [exists []; by rewrite app_nil_r|].
  destruct (IH (keep l m)) as (k & -> & Hk). unfold keep. case_decide.
  - exists k. split; [done|by constructor].
  - exists (m :: k). split; [by rewrite <- app_assoc|by constructor].
Qed.

Lemma memory_saved ms : ∀ s, MemStore.mem_ok s → Forall (λ m, m_ID m ≠ []) ms →
  MemStore.ms_msgs (save_all s ms).1 = foldl keep (MemStore.ms_msgs s) ms.
Proof.
  induction ms as [|m ms IH]; intros s Hok Hid; [done|]. inversion_clear Hid as [|?? Hm Hms].
  cbn [save_all fst foldl].
  etrans; [exact (IH _ (MemStore.SaveMessage_ok s m Hok) Hms)|]. f_equal.
  pose proof (save_done s m Hok Hm) as H. cbn in H.
  replace (message_at id m) with m in H by (by destruct m). apply H.
  cbn. unfold MemStore.SaveMessage. by destruct (_ && _).
Qed.

Section durable.
Context {D : Type} `{!Engine D, !EngineLaws D}.

Lemma durable_saved ms : ∀ (d : D) l, tbl_messages d = to_row <$> l →
  Forall (λ m, m_ID m ≠ []) ms → (save_all d ms).2 = true →
  tbl_messages (save_all d ms).1 = to_row <$> foldl keep l ms.
Proof.
  induction ms as [|m ms IH]; intros d l Hl Hid; [done|]. inversion_clear Hid as [|?? Hm Hms].
  cbn [save_all fst snd foldl ChatStore.SaveMessage durable_store]. unfold SaveMessage.
  rewrite decide_False by done.
  destruct (insert_message d (to_row m)) as [d' [e|]] eqn:E; [done|]. cbn [fst snd wrapped fmap
    option_fmap option_map]. intros H. apply IH; [|done|exact H].
  destruct (insert_message_ok d (to_row m)) as [H1 _]; [by rewrite E|].
  rewrite E in H1. cbn [fst] in H1. rewrite H1, Hl. unfold keep.
  rewrite <- list_fmap_compose. change (r_id ∘ to_row) with m_ID. cbn [r_id to_row].
  clear H1. case_decide; [done|]. by rewrite fmap_app.
Qed.
End durable.

Lemma last_n_fmap {A B} (f : A → B) n l : last_n n (f <$> l) = f <$> last_n n l.
Proof. unfold last_n. rewrite length_fmap. case_match; [|done]. by rewrite fmap_drop. Qed.

Lemma filter_fmap_ext {A B} (f : A → B) (p : B → bool) (q : A → bool) l :
  (∀ x, x ∈ l → p (f x) = q x) → List.filter p (f <$> l) = f <$> List.filter q l.
Proof.
  induction l as [|x l IH]; intros H; [done|]. rewrite fmap_cons. cbn [List.filter].
  rewrite (H x) by set_solver. rewrite IH by (intros; apply H; set_solver).
  by case_match.
Qed.

Lemma StronglySorted_sublist {A} (R : A → A → Prop) k l :
  k `sublist_of` l → StronglySorted R l → StronglySorted R k.
Proof.
  induction 1 as [|x k l Hk IH|x k l Hk IH]; intros H; [done| |].
  - apply StronglySorted_cons in H as [Hx H]. constructor; [by apply IH|].
    rewrite Forall_forall in *. intros y Hy. apply Hx. by eapply elem_of_sublist.
  - apply StronglySorted_cons in H as [_ H]. by apply IH.
Qed.

(** What the comparison asks of the messages: ids, times an int64 of nanoseconds holds
    and that increase, and plain topics and callsigns. *)
Record comparable (since : Time) (ms : list Message) : Prop := {
  cmp_ids : Forall (λ m, m_ID m ≠ []) ms;
  cmp_times : Forall (λ m, representable (m_Time m)) ms;
  cmp_order : StronglySorted (λ m m', m_Time m < m_Time m') ms;
  cmp_plain : Forall (λ m, plain (m_Topic m) ∧ plain (m_FromCall m) ∧ plain (m_ToCall m)) ms;
  cmp_since : if decide (since = 0) then Forall (λ m, unix_epoch ≤ m_Time m) ms
              else representable since }.

Lemma since_agrees since ms m :
  comparable since ms → m ∈ ms →
  (since_ns since <=? UnixNano (m_Time m)) = since_ok since m.
Proof.
  intros [_ Ht _ _ Hs] Hm. rewrite Forall_forall in Ht. specialize (Ht m Hm).
  unfold since_ns, since_ok, UnixNano, representable in *. rewrite (wrap64_id (m_Time m - _)) by lia.
  case_decide as E.
  - rewrite Forall_forall in Hs. specialize (Hs m Hm). cbn in Hs. subst since. cbn. lia.
  - destruct (Z.eqb_spec since 0); [done|]. rewrite wrap64_id by lia. cbn [orb]. lia.
Qed.

(** One query: both stores pick, by conditions that agree on the log, the last [limit]
    of the messages. *)
Lemma query_agrees (p : Message → bool) (q : Row → bool) limit rows ms :
  (∀ m, m ∈ ms → q (to_row m) = p m) →
  Forall (λ m, representable (m_Time m)) ms →
  StronglySorted (λ m m', m_Time m < m_Time m') ms →
  0 < limit → newest limit (List.filter q (to_row <$> ms)) rows →
  reverse (of_row <$> rows) = last_n limit (List.filter p ms).
Proof.
  intros Hq Ht Ho Hl Hn. rewrite <- fmap_reverse.
  rewrite (newest_last_n limit (List.filter q (to_row <$> ms)) rows Hl); [|clear Hn|done].
  - rewrite <- last_n_fmap, (filter_fmap_ext to_row q p) by done.
    rewrite <- list_fmap_compose. f_equal. rewrite <- (list_fmap_id (List.filter p ms)) at 2.
    apply list_fmap_ext. intros i m Hi. cbn [compose]. unfold compose. rewrite of_to_row.
    assert (m ∈ ms) as Hm.
    { apply list_elem_of_lookup_2, list_elem_of_In, filter_In in Hi as [Hi _].
      by apply list_elem_of_In. }
    rewrite Forall_forall in Ht. unfold message_at. rewrite row_time_exact by auto. by destruct m.
  - rewrite (filter_fmap_ext to_row q p) by done.
    apply (StronglySorted_sublist _ _ (to_row <$> ms)).
    { apply fmap_sublist. clear. induction ms as [|m ms IH]; [done|]. cbn. by case_match; constructor. }
    clear Hq Hl. induction Ho as [|m ms Ho IH Hm]; [constructor|]. inversion_clear Ht as [|?? Hr Hrs].
    rewrite fmap_cons. constructor; [by apply IH|]. rewrite Forall_fmap.
    rewrite Forall_forall in *. intros m' Hm'. specialize (Hm m' Hm'). specialize (Hrs m' Hm').
    unfold compose, older. cbn [to_row r_ts_unix_ns]. unfold representable, UnixNano in *.
    rewrite !wrap64_id by done. lia.
Qed.

Lemma keep_comparable since ms :
  comparable since ms → comparable since (foldl keep [] ms).
Proof.
  destruct (keep_sublist ms []) as (k & -> & Hk). cbn. intros [H1 H2 H3 H4 H5].
  assert (∀ P : Message → Prop, Forall P ms → Forall P k) as HF.
  { intros P. rewrite !Forall_forall. intros H m Hm. apply H. by eapply elem_of_sublist. }
  constructor; [by apply HF|by apply HF| |by apply HF|].
  - by eapply StronglySorted_sublist.
  - case_decide; [by apply HF|done].
Qed.

(** C39. The durable store is the in-memory store made persistent.  Save any messages into
    an empty database, all successfully, and the same messages into a [MemStore]; when
    each has an id, no two carry the same nanosecond and they arrive in time order, all
    within the range of int64 nanoseconds (after 1970 for a query that gives no time),
    with topics and
    callsigns in trimmed ASCII (where the engine's NOCASE and Go's case mappings
    agree), every history query and every private history query with a positive limit
    that the database answers gets the answer of the in-memory store: the same
    messages, whole, in the same order, duplicates of an id kept out of both. *)
Theorem durable_like_memory {D : Type} `{!Engine D, !EngineLaws D} (d : D) ms since limit out :
  tbl_messages d = [] → comparable since ms → 0 < limit →
  (save_all d ms).2 = true →
  let d' := (save_all d ms).1 in
  let s' := (save_all MemStore.NewMemStore ms).1 in
  (∀ topic, plain topic → ChatStore.History d' topic since limit = inl out →
     ChatStore.History s' topic since limit = inl out)
  ∧ (∀ call, plain call → ChatStore.PrivateHistory d' call since limit = inl out →
     ChatStore.PrivateHistory s' call since limit = inl out).
Proof.
  intros Hd Hc Hl Hs d' s'.
  assert (tbl_messages d' = to_row <$> foldl keep [] ms) as Ed
    by (apply durable_saved; [done|apply Hc|done]).
  assert (MemStore.ms_msgs s' = foldl keep [] ms) as Es
    by (apply memory_saved; [apply MemStore.NewMemStore_ok|apply Hc]).
  apply keep_comparable in Hc. set (log := foldl keep [] ms) in *.
  pose proof Hc as [_ Ht Ho Hp _]. rewrite Forall_forall in Hp.
  split; intros x Hx (rows & Hr & ->)%rows_result_ok; cbn [ChatStore.History
    ChatStore.PrivateHistory mem_store]; unfold MemStore.History, MemStore.PrivateHistory;
    f_equal; rewrite Es; symmetry.
  - apply select_topic_ok in Hr; [|apply limit_pos]. rewrite limit_id, Ed in Hr by done.
    eapply query_agrees; [|done|done|done|exact Hr]. intros m Hm.
    unfold where_topic, MemStore.history_keep. cbn [r_kind r_topic r_ts_unix_ns to_row].
    rewrite (since_agrees since log m Hc Hm). destruct (Hp m Hm) as [Hm1 _]. f_equal. f_equal.
    + by destruct (m_Kind m).
    + apply bool_decide_ext. symmetry. by apply topic_key_nocase.
  - apply select_private_ok in Hr; [|apply limit_pos]. rewrite limit_id, Ed in Hr by done.
    eapply query_agrees; [|done|done|done|exact Hr]. intros m Hm.
    unfold where_private, MemStore.private_keep.
    cbn [r_kind r_to_call r_from_call r_ts_unix_ns to_row].
    rewrite (since_agrees since log m Hc Hm). destruct (Hp m Hm) as (_ & Hm1 & Hm2).
    rewrite <- andb_assoc, (andb_comm (since_ok since m)), andb_assoc. f_equal. f_equal.
    + by destruct (m_Kind m).
    + f_equal; apply bool_decide_ext; symmetry; by apply call_nocase.
Qed.

(** ** The concrete engine keeps the laws *)

Lemma holders_spec cs claims u :
  u ∈ holders cs claims ↔ ∃ cs' a, claims !! u = Some (cs', a) ∧ nocase cs' = nocase cs.
Proof.
  unfold holders. rewrite list_elem_of_fmap. split.
  - intros ([u' [cs' a]] & -> & H). rewrite list_elem_of_In, filter_In, <- list_elem_of_In in H.
    destruct H as [H1 H2]. apply elem_of_map_to_list in H1. bools. by exists cs', a.
  - intros (cs' & a & H1 & H2). exists (u, (cs', a)). split; [done|].
    rewrite list_elem_of_In, filter_In, <- list_elem_of_In, elem_of_map_to_list.
    split; [done|]. by apply bool_decide_eq_true_2.
Qed.

Lemma other_holder user cs claims :
  existsb (λ u, negb (bool_decide (u = user))) (holders cs claims) = true ↔ held claims user cs.
Proof.
  rewrite existsb_exists. unfold held. split.
  - intros (u & Hu & Hn). rewrite <- list_elem_of_In, holders_spec in Hu.
    destruct Hu as (cs' & a & ? & ?). bools. by exists u, cs', a.
  - intros (u & cs' & a & Hn & H1 & H2). exists u.
    rewrite <- list_elem_of_In, holders_spec. split; [by exists cs', a|].
    by rewrite bool_decide_eq_false_2.
Qed.

#[export] Program Instance tables_laws : EngineLaws Tables := {|
  tbl_messages := t_messages; tbl_config := t_config; tbl_claims := t_claims |}.
Next Obligation. intros d r _. cbn. by case_decide. Qed.
Next Obligation. done. Qed.
Next Obligation. intros d kind topic since limit out Hl [= <-]. apply query_newest. lia. Qed.
Next Obligation. intros d kind since to from limit out Hl [= <-]. apply query_newest. lia. Qed.
Next Obligation. intros d k v. cbn. by intros [= <-]. Qed.
Next Obligation. done. Qed.
Next Obligation. done. Qed.
Next Obligation. intros d u v. cbn. by intros [= <-]. Qed.
Next Obligation.
  intros d cs. cbn. intros [= H] user cs' a H1 H2.
  assert (user ∈ holders cs (t_claims d)) as Hin by (apply holders_spec; eauto).
  destruct (holders cs (t_claims d)); [by apply not_elem_of_nil in Hin|done].
Qed.
Next Obligation.
  intros d cs user. cbn. intros [= H]. apply holders_spec.
  destruct (holders cs (t_claims d)); [done|]. injection H as ->. by left.
Qed.
Next Obligation.
  intros d user cs a. cbn. pose proof (other_holder user cs (t_claims d)) as H.
  case_match; [done|intros _]. cbn. split_and!; [|done|done|done]. rewrite <- H. done.
Qed.
Next Obligation.
  intros d user cs a e. cbn. pose proof (other_holder user cs (t_claims d)) as H.
  case_match; [intros _|done]. cbn. split_and!; [|done|done|done]. intros _. by apply H.
Qed.

(** ** Witnesses *)

Definition year2024 (s : Z) : Time := unix_epoch + (1704067200 + s) * 1000000000.

Definition sample_messages : list Message :=
  let msg id from kind topic to t :=
    mkMessage id (bs "GB7AAA-4") from kind topic to (year2024 t) (bs "hello") in
  [msg (bs "1") (bs "M0ABC") KindTopic (bs "General") [] 0;
   msg (bs "2") (bs "G4XYZ") KindTopic (bs "DX") [] 1;
   msg (bs "3") (bs "m0abc") KindPrivate [] (bs "G4XYZ") 2;
   msg (bs "1") (bs "M0ABC") KindTopic (bs "General") [] 3;
   msg (bs "4") (bs "M0ABC") KindTopic (bs "GENERAL") [] 4;
   msg (bs "5") (bs "M0ABC") KindTopic (bs "general") [] 5].

Lemma sample_comparable : comparable 0 sample_messages.
Proof.
  constructor.
  - by repeat constructor.
  - unfold sample_messages, representable, year2024. repeat constructor; cbn [m_Time]; lia.
  - apply (bool_decide_unpack _). by vm_compute.
  - unfold plain. apply (bool_decide_unpack _). by vm_compute.
  - unfold sample_messages, year2024. rewrite decide_True by done.
    repeat constructor; cbn [m_Time]; lia.
Qed.

Lemma durable_like_memory_witness :
  let d := (save_all empty_tables sample_messages).1 in
  let s := (save_all MemStore.NewMemStore sample_messages).1 in
  ∃ out, ChatStore.History d (bs "general") 0 2 = inl out
    ∧ m_ID <$> out = [bs "4"; bs "5"]
    ∧ ChatStore.History s (bs "general") 0 2 = inl out.
Proof.
  intros d s. eexists. split; [vm_compute; reflexivity|]. split; [vm_compute; reflexivity|].
  refine (proj1 (durable_like_memory empty_tables sample_messages 0 2 _ eq_refl
    sample_comparable ltac:(lia) _) (bs "general") _ _).
  - vm_compute; reflexivity.
  - apply (bool_decide_unpack _). by vm_compute.
  - vm_compute; reflexivity.
Defined.

(** Two web users ask for one callsign at the same time; both find it free. *)
Definition race_call (user : gostring) (p : phase) : call := mkCall user (bs "M0ABC") (year2024 0) p.
Definition race_state : Tables * gmap nat call :=
  (empty_tables, <[1%nat := race_call (bs "bob") PWrite]>
                   (<[0%nat := race_call (bs "ann") PWrite]> ∅)).

Lemma race_reachable : rtc claim_step (empty_tables, ∅) race_state.
Proof.
  eapply rtc_l; [apply (step_call _ _ 0 (bs "ann") (bs "M0ABC") (year2024 0)); done|].
  eapply rtc_l; [apply (step_call _ _ 1 (bs "bob") (bs "M0ABC") (year2024 0)); done|].
  eapply rtc_l; [apply (step_own _ _ 0 (race_call (bs "ann") POwn)); done|].
  eapply rtc_l; [apply (step_own _ _ 1 (race_call (bs "bob") POwn)); done|].
  eapply rtc_l; [apply (step_check _ _ 0 (race_call (bs "ann") PCheck)); done|].
  eapply rtc_l; [apply (step_check _ _ 1 (race_call (bs "bob") PCheck)); done|].
  match goal with |- rtc _ ?a ?b => replace b with a; [done|] end.
  by vm_compute.
Qed.

Lemma claims_exclusive_witness :
  exclusive (tbl_claims race_state.1)
  ∧ ∀ s' c' r, claim_step race_state s' → s'.2 !! 0%nat = Some c' → c_phase c' = PDone r →
      match r with
      | None => ∃ a, tbl_claims s'.1 !! bs "ann" = Some (bs "M0ABC", a)
      | Some ErrCallsignClaimed => held ∅ (bs "ann") (bs "M0ABC") ∧ tbl_claims s'.1 = ∅
      | Some (ClaimFailed _) => tbl_claims s'.1 = ∅
      end.
Proof.
  assert (exclusive (tbl_claims empty_tables)) as He by (intros ? ? ? ? ? ? H; discriminate H).
  split; [exact (proj1 (claims_exclusive empty_tables race_state race_state He race_reachable))|].
  intros s' c' r Hs Hc Hr.
  destruct (proj2 (claims_exclusive empty_tables race_state s' He race_reachable) Hs) as [H _].
  exact (H 0%nat (race_call (bs "ann") PWrite) c' r eq_refl ltac:(intros q; discriminate) Hc Hr).
Defined.

(** The loser of that race is told so, by the engine's unique index. *)
Example race_loser :
  let d1 := (claim_write empty_tables (bs "ann") (bs "M0ABC") 0).1 in
  (claim_write d1 (bs "bob") (bs "m0abc") 0).2 = Some ErrCallsignClaimed.
Proof. by vm_compute. Qed.
