(* ===== verification/Web.v ===== *)
(** * The web chat ([internal/web])

    The HTTP handlers behind the gateway check, as operations on the node: the hub,
    the router's links, the shared allow-list, the presence counts and, inside the
    hub, the store that also keeps the claims and the configuration (the daemon passes
    one store object for all three).  A request comes decoded: its header fields, query
    and form values are finite maps and its JSON body a value.  A response carries the
    status and the data it renders; the JSON text is in [WebWire.v] and the page in
    [Page.v]; logging and the HTML of the claim form are not modelled.  Paths come clean (the redirects of [http.ServeMux] for others are not
    modelled), a redirect carries the target handed to [http.Redirect], and the writer
    can flush.  Each handler runs to its end; an event stream is opened, fed and closed
    by separate operations. *)
From S2P Require Import Prelude Unicode GoStrings ChatModel ChatSeen ChatStore ChatHub.
From S2P Require Import PeerAllow PeerRouter Sqlite.
From stdpp Require Import options.
Local Open Scope Z_scope.

Abbreviation claim_error := Durable.claim_error.

(** The interface [ClaimStore] of [claims.go]. *)
Class ClaimStore (St : Type) := {
  ClaimedCall : St → gostring → option gostring + error;
  Claim : St → gostring → gostring → Time → St * option claim_error }.

#[export] Instance durable_claims {D} `{!Durable.Engine D} : ClaimStore D :=
  {| ClaimedCall := Durable.ClaimedCall; Claim := Durable.Claim |}.

Module Webchat.

(** ** Requests *)

(** The value of a field of a JSON body; a number is kept as the text
    [strconv.FormatFloat] gives it, and no handler looks inside an array or object. *)
Inductive json :=
| JNull | JBool (b : bool) | JNumber (text : gostring) | JString (s : gostring) | JNested.
#[export] Instance json_eq_dec : EqDecision json.
Proof. solve_decision. Defined.

(** What the JSON decoder finds in a body: the end of the input, an error, [null], an
    object's fields in order, or another value. *)
Inductive body :=
| BodyEmpty | BodyMalformed | BodyNull | BodyObject (fields : list (gostring * json)) | BodyOther.

Record Request := mkRequest {
  rq_Method : gostring; rq_Path : gostring;
  rq_Header : gmap gostring gostring;
  rq_Query : gmap gostring gostring;
  rq_Form : gmap gostring gostring;
  rq_Body : body }.

Definition Get (m : gmap gostring gostring) (key : gostring) : gostring := default [] (m !! key).

Record Identity := mkIdentity { i_User : gostring; i_Scope : gostring; i_Gateway : bool }.

Definition IdentityFromRequest (r : Request) : Identity :=
  mkIdentity (Get (rq_Header r) (bs "X-Pdn-User")) (Get (rq_Header r) (bs "X-Pdn-Scope"))
    (bool_decide (Get (rq_Header r) (bs "X-Pdn-Gateway") = bs "1")).

Definition ScopeRead : gostring := bs "read".
Definition ScopeOperate : gostring := bs "operate".
Definition ScopeAdmin : gostring := bs "admin".

Definition canWrite (id : Identity) : bool :=
  if decide (TrimSpace (i_User id) = []) then true
  else
    let scope := ToLower (TrimSpace (i_Scope id)) in
    bool_decide (scope = ScopeOperate) || bool_decide (scope = ScopeAdmin).

Definition isAdmin (id : Identity) : bool :=
  if decide (TrimSpace (i_User id) = []) then true
  else EqualFold (TrimSpace (i_Scope id)) ScopeAdmin.

Definition baseCall (callsign : gostring) : gostring :=
  match IndexByte callsign (zb 45) with Some i => take i callsign | None => callsign end.

(** *** [gateway.go] *)

Definition U (prefix path0 : gostring) : gostring :=
  let path := if decide (path0 = []) then bs "/" else path0 in
  let path := if HasPrefix path (bs "/") then path else bs "/" ++ path in
  if decide (prefix = []) then path else TrimRight (bs "/") prefix ++ path.

(** [u]: behind the gateway the request's context carries the prefix. *)
Definition u (r : Request) (path : gostring) : gostring :=
  U (Get (rq_Header r) (bs "X-Forwarded-Prefix")) path.

(** *** Bodies ([handlers.go]) *)

(** The fields of the structs that bodies are decoded into. *)
Inductive ftype := FString | FBool.
Abbreviation schema := (list (gostring * ftype)).

Record decoded := mkDecoded {
  d_strings : gmap gostring gostring; d_bools : gmap gostring bool; d_mismatch : bool }.
Definition no_fields : decoded := mkDecoded ∅ ∅ false.

(** The field a JSON key names: by its exact name, else by case folding. *)
Definition field_of (sch : schema) (key : gostring) : option (gostring * ftype) :=
  match List.find (λ f : gostring * ftype, bool_decide (f.1 = key)) sch with
  | Some f => Some f
  | None => List.find (λ f : gostring * ftype, EqualFold f.1 key) sch
  end.

Definition assign (sch : schema) (d : decoded) (kv : gostring * json) : decoded :=
  match field_of sch kv.1 with
  | None => d
  | Some (name, ty) =>
      match ty, kv.2 with
      | _, JNull => d
      | FString, JString s => mkDecoded (<[name := s]> (d_strings d)) (d_bools d) (d_mismatch d)
      | FBool, JBool b => mkDecoded (d_strings d) (<[name := b]> (d_bools d)) (d_mismatch d)
      | _, _ => mkDecoded (d_strings d) (d_bools d) true
      end
  end.

(** [decodeJSON]; [None] is the error. *)
Definition decodeJSON (sch : schema) (b : body) : option decoded :=
  match b with
  | BodyEmpty => Some no_fields
  | BodyMalformed => None
  | BodyNull => Some no_fields
  | BodyOther => None
  | BodyObject fields =>
      let d := foldl (assign sch) no_fields fields in
      if d_mismatch d then None else Some d
  end.

Definition str_field (d : decoded) (name : gostring) : gostring := default [] (d_strings d !! name).
Definition bool_field (d : decoded) (name : gostring) : bool := default false (d_bools d !! name).

Definition toString (v : json) : gostring :=
  match v with JString s => s | JNumber t => t | _ => [] end.

(** The value of a key in a JSON object: the last one counts. *)
Definition json_lookup (fields : list (gostring * json)) (key : gostring) : option json :=
  snd <$> last (List.filter (λ kv : gostring * json, bool_decide (kv.1 = key)) fields).

Definition readField (r : Request) (field : gostring) : gostring :=
  let ct := Get (rq_Header r) (bs "Content-Type") in
  if HasPrefix ct (bs "application/json") then
    match rq_Body r with
    | BodyObject fields =>
        match json_lookup fields field with Some v => toString v | None => [] end
    | _ => []
    end
  else Get (rq_Form r) field.

(** *** Callsigns ([claims.go]) *)

(** The runes [looksLikeCallsign] accepts. *)
Definition digit_rune (r : rune) : bool := (48 <=? r) && (r <=? 57).
Definition call_rune (r : rune) : bool :=
  digit_rune r || ((65 <=? r) && (r <=? 90)) || ((97 <=? r) && (r <=? 122)).

Definition looksLikeCallsign (cs0 : gostring) : bool :=
  let cs := TrimSpace cs0 in
  if (length cs <? 3)%nat then false
  else forallb call_rune (runes cs) && existsb digit_rune (runes cs).

Definition normClaim (s0 : gostring) : gostring :=
  let s := ToUpper (TrimSpace s0) in
  match IndexByte s (zb 45) with Some i => take i s | None => s end.

(** ** Views and responses *)

Record wireEvent := mkWireEvent {
  e_Type : gostring; e_From : gostring; e_Node : gostring; e_To : gostring; e_With : gostring;
  e_Mine : bool; e_Topic : gostring; e_Text : gostring; e_Time : Z }.

(** A [wireEvent] literal with only these fields. *)
Definition plainEvent (typ from node topic text : gostring) : wireEvent :=
  mkWireEvent typ from node [] [] false topic text 0.

(** [t.UnixMilli()] *)
Definition ms (t : Time) : Z := (t - unix_epoch) / 1000000.
Definition msOrZero (t : Time) : Z := if t =? 0 then 0 else ms t.

Definition topicEvent (m : Message) : wireEvent :=
  mkWireEvent (bs "msg") (m_FromCall m) [] [] [] false (m_Topic m) (m_Text m) (ms (m_Time m)).

Definition privateEvent (m : Message) (viewer : gostring) : wireEvent :=
  let mine := EqualFold (m_FromCall m) viewer in
  let other := if mine then m_ToCall m else m_FromCall m in
  mkWireEvent (bs "private") (m_FromCall m) [] (m_ToCall m) other mine [] (m_Text m) (ms (m_Time m)).

Definition offNode (usr : User) (ourNode : gostring) : gostring :=
  if decide (o_Node (u_Origin usr) = ourNode) then [] else o_Node (u_Origin usr).

Record userView := mkUserView { v_call : gostring; v_node : gostring; v_name : gostring }.

Record settingsView := mkSettingsView {
  sv_Name : gostring; sv_QTH : gostring;
  sv_Echo : bool; sv_Bells : bool; sv_Colour : bool; sv_ShowNames : bool; sv_ShowTime : bool }.

Definition viewFromUser (usr : User) : settingsView :=
  mkSettingsView (u_Name usr) (u_QTH usr) (f_Echo (u_Flags usr)) (f_Bells (u_Flags usr))
    (f_Colour (u_Flags usr)) (f_ShowNames (u_Flags usr)) (f_ShowTime (u_Flags usr)).

Record nodeView := mkNodeView {
  nv_Call : gostring; nv_Alias : gostring; nv_Version : gostring; nv_LinkedSince : Z }.
Record linkView := mkLinkView {
  lv_Peer : gostring; lv_Outbound : bool; lv_LinkedAt : Z; lv_LastSeen : Z; lv_RTTms : Z }.
Record ConfiguredPeer := mkConfiguredPeer {
  cp_Call : gostring; cp_Transport : gostring; cp_Target : gostring }.
Record peersView := mkPeersView {
  pv_OurNode : gostring; pv_Nodes : list nodeView; pv_Links : list linkView;
  pv_Configured : list ConfiguredPeer; pv_Allow : list gostring; pv_Pinned : list gostring;
  pv_Rejected : Z }.

Inductive response :=
| HttpError (status : Z) (text : gostring)
| NoContent
| SeeOther (location : gostring)
| ClaimForm (status : Z) (usr action err call : gostring)
| IndexPage
| Healthy
| UsersJSON (l : list userView)
| EventsJSON (l : list wireEvent)
| SettingsJSON (v : settingsView)
| PeersJSON (v : peersView)
| AllowJSON (changed : bool) (allow : list gostring)
| EventStream (call : gostring).       (* handed over to the stream operations below *)

(** ** The server *)

(** What [WithFederation] attaches, beside the shared allow-list and the router. *)
Record Federation := mkFederation {
  fd_AllowStore : bool; fd_Router : bool; fd_Peers : list ConfiguredPeer }.

Record Server := mkServer {
  s_callsign : gostring; s_ownerCall : gostring;
  s_claims : bool;                        (* whether a claim store was passed *)
  s_fed : option Federation }.

Definition New (callsign : gostring) (claims : bool) (fed : option Federation) : Server :=
  mkServer callsign (baseCall callsign) claims fed.

Section web.
Context {St : Type} `{!Store St, !ClaimStore St}.
Context (s : Server).

(** The node as the handlers see it.  [st_allow] is the allow-list both ingresses
    hold, [st_ref] the counts of [presence]. *)
Record Site := mkSite {
  st_world : Router.World St;
  st_allow : option AllowList;
  st_ref : gmap gostring Z }.

Definition hub (st : Site) : Hub.Hub St := Router.w_hub (st_world st).
Definition store (st : Site) : St := Hub.h_store (hub st).
Definition ourNode (st : Site) : gostring := Hub.h_ourNode (hub st).

Definition upd_hub (g : Hub.Hub St → Hub.Hub St) (st : Site) : Site :=
  mkSite (Router.upd_hub g (st_world st)) (st_allow st) (st_ref st).
Definition upd_allow g (st : Site) : Site := mkSite (st_world st) (g (st_allow st)) (st_ref st).
Definition upd_ref g (st : Site) : Site := mkSite (st_world st) (st_allow st) (g (st_ref st)).

Abbreviation SiteM := (ST Site).
Definition on_hub {A} (m : ST (Hub.Hub St) A) : SiteM A :=
  λ st, ((m (hub st)).1, upd_hub (λ _, (m (hub st)).2) st).

(** ** Presence ([presence.go]) *)

Definition enter_count (call : gostring) : SiteM bool :=
  ref ← st_get st_ref;
  let n := default 0 (ref !! call) in
  st_mod (upd_ref <[call := n + 1]>);;
  mret (n =? 0).

Definition leave_count (call : gostring) : SiteM bool :=
  ref ← st_get st_ref;
  let n := default 0 (ref !! call) in
  let n := if 0 <? n then n - 1 else n in
  if n =? 0 then st_mod (upd_ref (delete call));; mret true
  else st_mod (upd_ref <[call := n]>);; mret false.

Definition web_user (our call : gostring) : User :=
  mkUser call [] [] (mkOrigin our true []) [] 0 0 (mkUserFlags false false false false false).

(** [enter] and [leave] take the lock for their first half only, the count; the hub is
    told after it is released, and others may come between: [WebPresence.v].  [enter] and
    [leave] are the two halves without an interruption. *)
Definition enter_hub (call : gostring) (first : bool) : SiteM UserKey :=
  our ← st_get ourNode;
  if first then
    r ← on_hub (Hub.Join (web_user our call));
    match r with
    | inl usr => mret (Key usr)
    | inr _ => mret (mkUserKey call our)
    end
  else mret (mkUserKey call our).
Definition leave_hub (call : gostring) (last : bool) : SiteM unit :=
  our ← st_get ourNode;
  if last then on_hub (Hub.Leave (mkUserKey call our)) else mret tt.

Definition enter (call : gostring) : SiteM UserKey := enter_count call ≫= enter_hub call.
Definition leave (call : gostring) : SiteM unit := leave_count call ≫= leave_hub call.

(** ** Viewers *)

(** [resolveViewer]: the callsign of a viewer who has one. *)
Definition resolveViewer (r : Request) (st : Site) : option gostring :=
  let usr := TrimSpace (i_User (IdentityFromRequest r)) in
  if decide (usr = []) then Some (s_ownerCall s)
  else if s_claims s then
    match ClaimedCall (store st) usr with
    | inl (Some cs) => Some cs
    | inl None => None
    | inr _ => None
    end
  else None.

Definition forbidden (text : gostring) : response := HttpError 403 text.

(** [requireWrite], [requireAdmin] and [requireViewer] in front of the rest. *)
Definition requireWrite (r : Request) (k : SiteM response) : SiteM response :=
  if canWrite (IdentityFromRequest r) then k
  else mret (forbidden (bs "forbidden: your access is read-only (lurker)")).
Definition requireAdmin (r : Request) (k : SiteM response) : SiteM response :=
  if isAdmin (IdentityFromRequest r) then k
  else mret (forbidden (bs "forbidden: federation administration requires admin scope")).
Definition requireViewer (r : Request) (k : gostring → SiteM response) : SiteM response :=
  v ← st_get (resolveViewer r);
  match v with
  | Some call => k call
  | None => mret (forbidden (bs "claim a callsign before chatting"))
  end.
Definition requirePost (r : Request) (k : SiteM response) : SiteM response :=
  if decide (rq_Method r = bs "POST") then k
  else mret (HttpError 405 (bs "method not allowed")).

(** An action of a viewer who may have no stream open: they are made present for the
    time of the request. *)
Definition with_presence (call : gostring) (k : UserKey → SiteM response) : SiteM response :=
  our ← st_get ourNode;
  let key := mkUserKey call our in
  present ← st_get (λ st, Hub.UserOf (hub st) key);
  match present with
  | Some _ => k key
  | None =>
      key' ← enter call;
      res ← k key';
      leave call;;
      mret res
  end.

Definition err_text (e : error) : gostring :=
  match e with
  | ErrNoSuchUser => bs "chat: no such user"
  | ErrEmptyText => bs "chat: empty message"
  | ErrNoSuchTopic => bs "chat: no such topic"
  | ErrStore t => t
  end.

(** The end of the writing handlers. *)
Definition no_content {A} (res : A + error) : response :=
  match res with inl _ => NoContent | inr e => HttpError 400 (err_text e) end.

(** ** Reading ([handlers.go]) *)

(** [usersFor], [historyFor], [privateHistoryFor]: a failed query shows nothing. *)
Definition usersFor (st : Site) (topic : gostring) : list userView :=
  (λ usr, mkUserView (u_Call usr) (offNode usr (ourNode st)) (u_Name usr))
    <$> Hub.UsersInTopic (hub st) topic.

Definition historyFor (st : Site) (topic : gostring) : list Message :=
  match Hub.HistoryQ (hub st) topic 0 100 with inl l => l | inr _ => [] end.

Definition privateHistoryFor (st : Site) (call : gostring) : list Message :=
  match Hub.PrivateHistoryQ (hub st) call 0 200 with inl l => l | inr _ => [] end.

Definition topic_query (r : Request) : gostring :=
  let topic := Get (rq_Query r) (bs "topic") in if decide (topic = []) then DefaultTopic else topic.

Definition handleUsers (r : Request) : SiteM response :=
  st_get (λ st, UsersJSON (usersFor st (topic_query r))).

Definition handleHistory (r : Request) : SiteM response :=
  st_get (λ st, EventsJSON (topicEvent <$> historyFor st (topic_query r))).

Definition handleDMs (r : Request) : SiteM response :=
  requireViewer r (λ call,
    st_get (λ st, EventsJSON ((λ m, privateEvent m call) <$> privateHistoryFor st call))).

(** ** Writing *)

Definition handleSend (r : Request) : SiteM response :=
  requirePost r (requireWrite r (requireViewer r (λ call,
    let text := TrimSpace (readField r (bs "text")) in
    if decide (text = []) then mret (HttpError 400 (bs "empty"))
    else with_presence call (λ key, res ← on_hub (Hub.Post key text); mret (no_content res))))).

Definition handleTopic (r : Request) : SiteM response :=
  requirePost r (requireWrite r (requireViewer r (λ call,
    our ← st_get ourNode;
    let name := TrimSpace (readField r (bs "topic")) in
    if decide (name = []) then mret (HttpError 400 (bs "empty topic"))
    else (res ← on_hub (Hub.SetTopic (mkUserKey call our) name); mret (no_content res))))).

Definition dm_schema : schema := [(bs "to", FString); (bs "text", FString)].

Definition handleDM (r : Request) : SiteM response :=
  requirePost r (requireWrite r (requireViewer r (λ call,
    match decodeJSON dm_schema (rq_Body r) with
    | None => mret (HttpError 400 (bs "bad request body"))
    | Some d =>
        let to := ToUpper (TrimSpace (str_field d (bs "to"))) in
        let text := TrimSpace (str_field d (bs "text")) in
        if decide (to = [] ∨ text = []) then mret (HttpError 400 (bs "to and text are required"))
        else with_presence call (λ key, res ← on_hub (Hub.Private key to text); mret (no_content res))
    end))).

(** *** Settings ([settings.go]) *)

Definition settings_schema : schema :=
  [(bs "name", FString); (bs "qth", FString); (bs "echo", FBool); (bs "bells", FBool);
   (bs "colour", FBool); (bs "shownames", FBool); (bs "showtime", FBool)].

(** [settingsView] as it is sent back: the zero user when there is none. *)
Definition current_settings (key : UserKey) (st : Site) : response :=
  SettingsJSON (match Hub.UserOf (hub st) key with
                | Some usr => viewFromUser usr
                | None => mkSettingsView [] [] false false false false false
                end).

Definition set_settings (r : Request) (key : UserKey) : SiteM response :=
  match decodeJSON settings_schema (rq_Body r) with
  | None => mret (HttpError 400 (bs "bad settings body"))
  | Some d =>
      res ← on_hub (Hub.SetInfo key (str_field d (bs "name")) (str_field d (bs "qth")));
      match res with
      | inr e => mret (HttpError 400 (err_text e))
      | inl _ =>
          let flags := mkUserFlags (bool_field d (bs "echo")) (bool_field d (bs "bells"))
            (bool_field d (bs "colour")) (bool_field d (bs "shownames"))
            (bool_field d (bs "showtime")) in
          res ← on_hub (Hub.SetFlags key flags);
          match res with
          | inr e => mret (HttpError 400 (err_text e))
          | inl _ => st_get (current_settings key)
          end
      end
  end.

Definition handleSettings (r : Request) : SiteM response :=
  if decide (rq_Method r = bs "GET") then
    requireViewer r (λ call, with_presence call (λ key, st_get (current_settings key)))
  else if decide (rq_Method r = bs "POST") then
    requireWrite r (requireViewer r (λ call, with_presence call (set_settings r)))
  else mret (HttpError 405 (bs "method not allowed")).

(** *** Claims ([claims.go]) *)

(** [renderClaimFormErr] *)
Definition claimFormErr (r : Request) (status : Z) (prefill err : gostring) : response :=
  ClaimForm status (TrimSpace (i_User (IdentityFromRequest r))) (u r (bs "/claim")) err
    (TrimSpace prefill).

Definition store_claim (pdnUser call : gostring) (now : Time) : SiteM (option claim_error) :=
  λ st, let '(s', r) := Claim (store st) pdnUser call now in
        (r, upd_hub (Hub.upd_store (λ _, s')) st).

Definition handleClaim (now : Time) (r : Request) : SiteM response :=
  requirePost r (
    let pdnUser := TrimSpace (i_User (IdentityFromRequest r)) in
    if decide (pdnUser = []) then
      mret (HttpError 400
        (bs "no pdn identity to claim a callsign for (management auth is off)"))
    else if negb (s_claims s) then mret (HttpError 503 (bs "claims are not available"))
    else
      let raw := readField r (bs "callsign") in
      let call := normClaim raw in
      if negb (looksLikeCallsign call) then
        mret (claimFormErr r 400 raw (bs "That does not look like a callsign (need at least 3 letters/digits including a digit, no SSID)."))
      else
        res ← store_claim pdnUser call now;
        match res with
        | Some Durable.ErrCallsignClaimed =>
            mret (claimFormErr r 409 raw (bs "That callsign is already claimed by another user."))
        | Some (Durable.ClaimFailed _) =>
            mret (HttpError 500 (bs "could not record the claim"))
        | None => mret (SeeOther (u r (bs "/")))
        end).

(** *** Federation ([federation.go]) *)

(** [pinnedOnly] *)
Definition pinnedOnly (a : option AllowList) : list gostring :=
  let editable := Entries a in
  merge_sort str_le (List.filter (λ c, negb (bool_decide (c ∈ editable))) (AllEntries a)).

Definition peers_view (fed : Federation) (st : Site) : peersView :=
  mkPeersView (ourNode st)
    ((λ n, mkNodeView (n_Call n) (n_Alias n) (n_Version n) (msOrZero (n_Linked n)))
       <$> Hub.Nodes (hub st))
    (if fd_Router fed then
       (λ l, mkLinkView (ls_PeerCall l) (ls_Outbound l) (msOrZero (ls_LinkedAt l))
               (msOrZero (ls_LastSeen l)) (Z.quot (ls_RTT l) 1000000))
         <$> Router.LinkStatuses (st_world st)
     else [])
    (fd_Peers fed) (Entries (st_allow st)) (pinnedOnly (st_allow st)) (Rejected (st_allow st)).

Definition unavailable : response :=
  HttpError 503 (bs "federation administration is not available on this node").

Definition handlePeers (r : Request) : SiteM response :=
  if decide (rq_Method r = bs "GET") then
    requireAdmin r
      (match s_fed s with
       | None => mret unavailable
       | Some fed => st_get (λ st, PeersJSON (peers_view fed st))
       end)
  else mret (HttpError 405 (bs "method not allowed")).

Definition allow_schema : schema := [(bs "action", FString); (bs "callsign", FString)].

(** The edits, on the list both ingresses share. *)
Definition on_allow {A} (f : option AllowList → A * option AllowList) : SiteM A :=
  λ st, ((f (st_allow st)).1, upd_allow (λ _, (f (st_allow st)).2) st).

(** [peer.PersistAllowList] into the store the hub also uses. *)
Definition persist : SiteM (option error) :=
  λ st, let '(s', err) := PersistAllowList (Some (store st)) (st_allow st) in
        (err, upd_hub (Hub.upd_store (λ s0, default s0 s')) st).

Definition edit_allow (fed : Federation) (edit : option AllowList → bool * option AllowList)
    : SiteM response :=
  changed ← on_allow edit;
  err ← (if changed && fd_AllowStore fed then persist else mret None);
  match err with
  | Some _ => mret (HttpError 500 (bs "the edit was applied live but could not be persisted"))
  | None => st_get (λ st, AllowJSON changed (Entries (st_allow st)))
  end.

Definition handlePeersAllow (r : Request) : SiteM response :=
  requirePost r (requireAdmin r (
    allow ← st_get st_allow;
    match s_fed s, allow with
    | Some fed, Some _ =>
        match decodeJSON allow_schema (rq_Body r) with
        | None => mret (HttpError 400 (bs "bad allow-list edit body"))
        | Some d =>
            let call := ToUpper (TrimSpace (str_field d (bs "callsign"))) in
            if decide (call = []) then mret (HttpError 400 (bs "callsign is required"))
            else
              let action := ToLower (TrimSpace (str_field d (bs "action"))) in
              if decide (action = bs "add") then edit_allow fed (Add call)
              else if decide (action = bs "remove") then edit_allow fed (Remove call)
              else mret (HttpError 400 (bs "action must be add or remove"))
        end
    | _, _ => mret unavailable
    end)).

(** ** Pages and routing ([web.go], [gateway.go]) *)

Definition handleIndex (r : Request) : SiteM response :=
  if decide (rq_Path r = bs "/") then
    v ← st_get (resolveViewer r);
    match v with
    | None => mret (claimFormErr r 200 [] [])
    | Some _ => mret IndexPage
    end
  else mret (HttpError 404 (bs "404 page not found")).

(** The beginning of [handleEvents]: whether it opens a stream, and for whom.  What it does
    then is [open_stream]; the whole is [ask]. *)
Definition handleEvents (r : Request) : SiteM response :=
  requireViewer r (λ call, mret (EventStream call)).

Definition mux (now : Time) (r : Request) : SiteM response :=
  let p := rq_Path r in
  if decide (p = bs "/healthz") then mret Healthy
  else if decide (p = bs "/events") then handleEvents r
  else if decide (p = bs "/send") then handleSend r
  else if decide (p = bs "/topic") then handleTopic r
  else if decide (p = bs "/users") then handleUsers r
  else if decide (p = bs "/history") then handleHistory r
  else if decide (p = bs "/dms") then handleDMs r
  else if decide (p = bs "/dm") then handleDM r
  else if decide (p = bs "/settings") then handleSettings r
  else if decide (p = bs "/claim") then handleClaim now r
  else if decide (p = bs "/peers") then handlePeers r
  else if decide (p = bs "/peers/allow") then handlePeersAllow r
  else handleIndex r.

(** The gateway check in front of everything but the liveness probe; the boolean is
    the [no-store] mark. *)
Definition gatewayTrust (next : Request → SiteM response) (r : Request)
    : SiteM (bool * response) :=
  if decide (rq_Path r = bs "/healthz") then (res ← next r; mret (false, res))
  else if decide (Get (rq_Header r) (bs "X-Pdn-Gateway") = bs "1") then (res ← next r; mret (true, res))
  else mret (false,
    forbidden (bs "forbidden: requests must arrive through the pdn app-gateway")).

Definition serve (now : Time) : Request → SiteM (bool * response) := gatewayTrust (mux now).

(** ** Event streams ([handleEvents], [filter]) *)

Definition filter (key : UserKey) (ev : Event) (st : Site) : option wireEvent :=
  let myTopic := match Hub.UserOf (hub st) key with Some usr => u_Topic usr | None => [] end in
  match ev with
  | TopicMessage m => if EqualFold (m_Topic m) myTopic then Some (topicEvent m) else None
  | PrivateMessage m =>
      if EqualFold (m_ToCall m) (uk_Call key) || EqualFold (m_FromCall m) (uk_Call key)
      then Some (privateEvent m (uk_Call key)) else None
  | UserJoined usr =>
      if bool_decide (Key usr ≠ key) && EqualFold (u_Topic usr) myTopic
      then Some (plainEvent (bs "join") (u_Call usr) (offNode usr (ourNode st)) (u_Topic usr) [])
      else None
  | UserLeft usr =>
      if bool_decide (Key usr ≠ key)
      then Some (plainEvent (bs "leave") (u_Call usr) [] [] []) else None
  | TopicChanged usr _ =>
      if bool_decide (Key usr ≠ key) && EqualFold (u_Topic usr) myTopic
      then Some (plainEvent (bs "join") (u_Call usr) [] (u_Topic usr) []) else None
  | NodeLinked n =>
      Some (plainEvent (bs "node") [] [] []
              (bs "Link to node " ++ n_Call n ++ bs " established"))
  | NodeUnlinked n =>
      Some (plainEvent (bs "node") [] [] [] (bs "Link to node " ++ n_Call n ++ bs " lost"))
  | UserInfoChanged _ => None
  end.

(** What is written to a stream. *)
Inductive sse :=
| SseYou (call topic : gostring)
| SseEvent (e : wireEvent)
| SseUsers (l : list userView).

Record stream := mkStream { sm_call : gostring; sm_key : UserKey; sm_sub : Z }.

(** The opening of a stream: presence, subscription and snapshot. *)
Definition open_stream (call : gostring) : SiteM (stream * list sse) :=
  key ← enter call;
  sub ← on_hub Hub.Subscribe;
  topic ← st_get (λ st, match Hub.UserOf (hub st) key with Some usr => u_Topic usr | None => [] end);
  hist ← st_get (λ st, historyFor st topic);
  users ← st_get (λ st, usersFor st topic);
  mret (mkStream call key sub,
        SseYou (uk_Call key) topic :: ((SseEvent ∘ topicEvent) <$> hist) ++ [SseUsers users]).

(** One round of its loop on an event: what is written, or [None] when the channel is
    closed. *)
Definition stream_event (sm : stream) : SiteM (option (list sse)) :=
  got ← on_hub (Hub.recv (sm_sub sm));
  match got with
  | None => mret (Some [])
  | Some None => mret None
  | Some (Some ev) =>
      we ← st_get (filter (sm_key sm) ev);
      mret (Some (match we with Some e => [SseEvent e] | None => [] end))
  end.

(** The deferred calls. *)
Definition close_stream (sm : stream) : SiteM unit :=
  on_hub (Hub.cancel (sm_sub sm));; leave (sm_call sm).

(** ** The server and its open streams *)

Abbreviation Tabs := (Site * list stream)%type.

(** A request, served to its end or until its stream is open. *)
Definition ask (now : Time) (r : Request) (w : Tabs) : Tabs :=
  let '((_, answer), st') := serve now r w.1 in
  match answer with
  | EventStream call => let '((sm, _), st'') := open_stream call st' in (st'', w.2 ++ [sm])
  | _ => (st', w.2)
  end.

(** The end of a stream. *)
Definition shut (i : nat) (w : Tabs) : Tabs :=
  match w.2 !! i with
  | Some sm => ((close_stream sm w.1).2, delete i w.2)
  | None => w
  end.

End web.
End Webchat.
