(* ===== verification/WebWire.v ===== *)
(** * The web chat on the wire

    The JSON texts of the web handlers' views ([handlers.go], [federation.go],
    [settings.go]), the event stream ([writeSSE]) and its reader in the browser
    (EventSource, as the HTML standard describes it), and the request bodies the page
    writes with [JSON.stringify].  Both directions are read back exactly. *)
From S2P Require Import Prelude Unicode GoStrings ChatModel ChatStore ChatHub PeerAllow PeerRouter.
From S2P Require Import Sqlite JsonText JsonFacts Web.
From stdpp Require Import options.
Local Open Scope Z_scope.
Import Webchat.

Module Wire.

(** ** JSON of the views *)

(** Struct members, plain and [omitempty]. *)
Definition str (key s : gostring) : list (gostring * gostring) := [(key, quote true s)].
Definition num (key : gostring) (z : Z) : list (gostring * gostring) := [(key, itoa z)].
Definition flag (key : gostring) (b : bool) : list (gostring * gostring) := [(key, json_bool b)].
Definition str_omit (key s : gostring) : list (gostring * gostring) :=
  if decide (s = []) then [] else str key s.
Definition num_omit (key : gostring) (z : Z) : list (gostring * gostring) :=
  if z =? 0 then [] else num key z.
Definition flag_omit (key : gostring) (b : bool) : list (gostring * gostring) :=
  if b then flag key b else [].

Definition wireEvent_json (e : wireEvent) : gostring :=
  json_object true
    (str (bs "type") (e_Type e) ++ str_omit (bs "from") (e_From e)
     ++ str_omit (bs "node") (e_Node e) ++ str_omit (bs "to") (e_To e)
     ++ str_omit (bs "with") (e_With e) ++ flag_omit (bs "mine") (e_Mine e)
     ++ str_omit (bs "topic") (e_Topic e) ++ str_omit (bs "text") (e_Text e)
     ++ num_omit (bs "time") (e_Time e)).

(** Maps are written with their keys sorted. *)
Definition user_json (v : userView) : gostring :=
  json_object true
    (str (bs "call") (v_call v) ++ str (bs "name") (v_name v) ++ str (bs "node") (v_node v)).
Definition you_json (call topic : gostring) : gostring :=
  json_object true (str (bs "call") call ++ str (bs "topic") topic).

Definition settings_json (v : settingsView) : gostring :=
  json_object true
    (str (bs "name") (sv_Name v) ++ str (bs "qth") (sv_QTH v) ++ flag (bs "echo") (sv_Echo v)
     ++ flag (bs "bells") (sv_Bells v) ++ flag (bs "colour") (sv_Colour v)
     ++ flag (bs "shownames") (sv_ShowNames v) ++ flag (bs "showtime") (sv_ShowTime v)).

Definition nodeView_json (v : nodeView) : gostring :=
  json_object true
    (str (bs "call") (nv_Call v) ++ str_omit (bs "alias") (nv_Alias v)
     ++ str_omit (bs "version") (nv_Version v) ++ num_omit (bs "linkedSince") (nv_LinkedSince v)).
Definition linkView_json (v : linkView) : gostring :=
  json_object true
    (str (bs "peer") (lv_Peer v) ++ flag (bs "outbound") (lv_Outbound v)
     ++ num_omit (bs "linkedAt") (lv_LinkedAt v) ++ num_omit (bs "lastSeen") (lv_LastSeen v)
     ++ num_omit (bs "rttMs") (lv_RTTms v)).
Definition configuredPeerView_json (v : ConfiguredPeer) : gostring :=
  json_object true
    (str (bs "call") (cp_Call v) ++ str (bs "transport") (cp_Transport v)
     ++ str_omit (bs "target") (cp_Target v)).
Definition peersView_json (v : peersView) : gostring :=
  json_object true
    (str (bs "ourNode") (pv_OurNode v)
     ++ [(bs "nodes", json_array (nodeView_json <$> pv_Nodes v));
         (bs "links", json_array (linkView_json <$> pv_Links v));
         (bs "configured", json_array (configuredPeerView_json <$> pv_Configured v));
         (bs "allow", json_array (quote true <$> pv_Allow v));
         (bs "pinned", json_array (quote true <$> pv_Pinned v))]
     ++ num (bs "rejected") (pv_Rejected v)).
Definition allow_json (changed : bool) (allow : list gostring) : gostring :=
  json_object true
    (flag (bs "changed") changed ++ [(bs "allow", json_array (quote true <$> allow))]).

(** [writeJSON] ends the text with a line end. *)
Definition writeJSON (text : gostring) : gostring := text ++ [zb 10].

(** The bodies of the answers that carry JSON. *)
Definition json_body (r : response) : option gostring :=
  match r with
  | UsersJSON l => Some (writeJSON (json_array (user_json <$> l)))
  | EventsJSON l => Some (writeJSON (json_array (wireEvent_json <$> l)))
  | SettingsJSON v => Some (writeJSON (settings_json v))
  | PeersJSON v => Some (writeJSON (peersView_json v))
  | AllowJSON c l => Some (writeJSON (allow_json c l))
  | _ => None
  end.

(** ** The event stream *)

Definition writeSSE (event data : gostring) : gostring :=
  bs "event: " ++ event ++ [zb 10] ++ bs "data: " ++ data ++ [zb 10; zb 10].

(** What [handleEvents] writes: the items of the stream and keepalives between them. *)
Inductive chunk := Item (x : sse) | Ping.

Definition sse_name (x : sse) : gostring :=
  match x with SseYou _ _ => bs "you" | SseEvent _ => bs "event" | SseUsers _ => bs "users" end.
Definition sse_data (x : sse) : gostring :=
  match x with
  | SseYou call topic => you_json call topic
  | SseEvent e => wireEvent_json e
  | SseUsers l => json_array (user_json <$> l)
  end.
Definition chunk_text (c : chunk) : gostring :=
  match c with
  | Item x => writeSSE (sse_name x) (sse_data x)
  | Ping => bs ": ping" ++ [zb 10; zb 10]
  end.

(** *** Its reader *)

(** The lines of a stream: CR, LF and CRLF end one; what is not ended is no line yet.
    [cr] tells that the byte before was a CR. *)
Fixpoint sse_lines (cr : bool) (cur s : gostring) : list gostring :=
  match s with
  | [] => []
  | c :: t =>
      if bz c =? 10 then if cr then sse_lines false [] t else cur :: sse_lines false [] t
      else if bz c =? 13 then cur :: sse_lines true [] t
      else sse_lines false (cur ++ [c]) t
  end.

Record source := mkSource { es_type : gostring; es_data : gostring }.

(** One line: a field for the event being collected, or its end. *)
Definition sse_line (st : source) (line : gostring) : source * list (gostring * gostring) :=
  match line with
  | [] =>
      match es_data st with
      | [] => (mkSource [] [], [])
      | d => (mkSource [] [], [(es_type st, removelast d)])
      end
  | c :: _ =>
      if bz c =? 58 then (st, [])
      else
        let '(field, rest, _) := Cut line (zb 58) in
        let val := match rest with d :: t => if bz d =? 32 then t else rest | [] => [] end in
        if decide (field = bs "event") then (mkSource val (es_data st), [])
        else if decide (field = bs "data") then (mkSource (es_type st) (es_data st ++ val ++ [zb 10]), [])
        else (st, [])
  end.

Fixpoint sse_dispatch (st : source) (ls : list gostring) : list (gostring * gostring) :=
  match ls with
  | [] => []
  | l :: ls' => let '(st', out) := sse_line st l in out ++ sse_dispatch st' ls'
  end.

(** The events of a stream so far: their names and data.  A byte order mark at its head
    is skipped. *)
Definition eventsource (s : gostring) : list (gostring * gostring) :=
  let s := fst (CutPrefix s (encode_rune 65279)) in
  sse_dispatch (mkSource [] []) (sse_lines false [] s).

(** ** Reading the views in the page *)

(** A property of a parsed object: the last member of that name; an absent string is as
    good as an empty one to the page, an absent number as zero, an absent flag as false. *)
Definition prop (kvs : list (gostring * JsonText.json)) (key : gostring) : option JsonText.json :=
  snd <$> last (List.filter (λ kv : gostring * JsonText.json, bool_decide (kv.1 = key)) kvs).
Definition prop_str kvs key : gostring :=
  match prop kvs key with Some (JsonText.JString _ s) => s | _ => [] end.
Definition prop_num kvs key : Z :=
  match prop kvs key with
  | Some (JsonText.JNumber lit) => default 0 (Atoi lit)
  | _ => 0
  end.
Definition prop_flag kvs key : bool :=
  match prop kvs key with Some (JsonText.JBool b) => b | _ => false end.
Definition members_of (v : JsonText.json) : list (gostring * JsonText.json) :=
  match v with JsonText.JObject _ kvs => kvs | _ => [] end.
Definition elements_of (v : JsonText.json) : list JsonText.json :=
  match v with JsonText.JArray _ l => l | _ => [] end.
Definition prop_list kvs key : list JsonText.json :=
  match prop kvs key with Some v => elements_of v | None => [] end.

Definition read_event (v : JsonText.json) : wireEvent :=
  let o := members_of v in
  mkWireEvent (prop_str o (bs "type")) (prop_str o (bs "from")) (prop_str o (bs "node"))
    (prop_str o (bs "to")) (prop_str o (bs "with")) (prop_flag o (bs "mine"))
    (prop_str o (bs "topic")) (prop_str o (bs "text")) (prop_num o (bs "time")).
Definition read_user (v : JsonText.json) : userView :=
  let o := members_of v in
  mkUserView (prop_str o (bs "call")) (prop_str o (bs "node")) (prop_str o (bs "name")).
Definition read_events (v : JsonText.json) : list wireEvent := read_event <$> elements_of v.
Definition read_users (v : JsonText.json) : list userView := read_user <$> elements_of v.
Definition read_settings (v : JsonText.json) : settingsView :=
  let o := members_of v in
  mkSettingsView (prop_str o (bs "name")) (prop_str o (bs "qth")) (prop_flag o (bs "echo"))
    (prop_flag o (bs "bells")) (prop_flag o (bs "colour")) (prop_flag o (bs "shownames"))
    (prop_flag o (bs "showtime")).
Definition read_node (v : JsonText.json) : nodeView :=
  let o := members_of v in
  mkNodeView (prop_str o (bs "call")) (prop_str o (bs "alias")) (prop_str o (bs "version"))
    (prop_num o (bs "linkedSince")).
Definition read_link (v : JsonText.json) : linkView :=
  let o := members_of v in
  mkLinkView (prop_str o (bs "peer")) (prop_flag o (bs "outbound")) (prop_num o (bs "linkedAt"))
    (prop_num o (bs "lastSeen")) (prop_num o (bs "rttMs")).
Definition read_peer (v : JsonText.json) : ConfiguredPeer :=
  let o := members_of v in
  mkConfiguredPeer (prop_str o (bs "call")) (prop_str o (bs "transport")) (prop_str o (bs "target")).
Definition read_string (v : JsonText.json) : gostring :=
  match v with JsonText.JString _ s => s | _ => [] end.
Definition read_peers (v : JsonText.json) : peersView :=
  let o := members_of v in
  mkPeersView (prop_str o (bs "ourNode")) (read_node <$> prop_list o (bs "nodes"))
    (read_link <$> prop_list o (bs "links")) (read_peer <$> prop_list o (bs "configured"))
    (read_string <$> prop_list o (bs "allow")) (read_string <$> prop_list o (bs "pinned"))
    (prop_num o (bs "rejected")).

(** The page's reading of a stream item. *)
Definition read_item (ev : gostring * gostring) : option sse :=
  match parse ev.2 with
  | None => None
  | Some v =>
      if decide (ev.1 = bs "you") then
        Some (SseYou (prop_str (members_of v) (bs "call")) (prop_str (members_of v) (bs "topic")))
      else if decide (ev.1 = bs "users") then Some (SseUsers (read_users v))
      else if decide (ev.1 = bs "event") then Some (SseEvent (read_event v))
      else None
  end.

(** ** Request bodies *)

(** [JSON.stringify] of an object of strings and booleans. *)
Inductive jsval := JsString (s : gostring) | JsBool (b : bool).
Definition stringify (l : list (gostring * jsval)) : gostring :=
  json_object false
    ((λ kv : gostring * jsval,
        (kv.1, match kv.2 with JsString s => quote false s | JsBool b => json_bool b end)) <$> l).

(** What the server's decoders find in a body; [fmt] is the text [strconv.FormatFloat]
    gives a number. *)
Definition body_value (fmt : gostring → gostring) (v : JsonText.json) : Webchat.json :=
  match v with
  | JsonText.JNull => JNull
  | JsonText.JBool b => JBool b
  | JsonText.JNumber lit => JNumber (fmt lit)
  | JsonText.JString _ s => JString s
  | JsonText.JArray _ _ | JsonText.JObject _ _ => JNested
  end.
Definition body_of_text (fmt : gostring → gostring) (s : gostring) : body :=
  match decode_first s with
  | DecodeEOF => BodyEmpty
  | DecodeError => BodyMalformed
  | Decoded JsonText.JNull => BodyNull
  | Decoded (JsonText.JObject _ kvs) => BodyObject ((λ kv, (kv.1, body_value fmt kv.2)) <$> kvs)
  | Decoded _ => BodyOther
  end.

End Wire.
