(* ===== verification/WireProps.v ===== *)
(** * The web chat's texts are read back

    Every view the server writes as JSON is read by the page as the view it was, every
    event stream as the events it was written from, and every body the page writes is
    found by the server's decoders as it was typed. *)
From S2P Require Import Prelude Unicode GoStrings ChatModel ChatStore ChatHub PeerAllow PeerRouter.
From S2P Require Import Sqlite JsonText JsonFacts Web WebWire.
From stdpp Require Import options.
Local Open Scope Z_scope.
Import Webchat Wire.

(** ** Properties of written objects *)

Definition str_vals (s : gostring) : list JsonText.json := [written_string true s].
Definition str_vals_omit (s : gostring) : list JsonText.json :=
  if decide (s = []) then [] else str_vals s.
Definition num_vals (z : Z) : list JsonText.json := [JsonText.JNumber (itoa z)].
Definition num_vals_omit (z : Z) : list JsonText.json := if z =? 0 then [] else num_vals z.
Definition flag_vals (b : bool) : list JsonText.json := [JsonText.JBool b].
Definition flag_vals_omit (b : bool) : list JsonText.json := if b then flag_vals b else [].
Definition array_value (l : list JsonText.json) : JsonText.json :=
  JsonText.JArray (json_array (raw <$> l)) l.
Definition object_value (ps : list (gostring * list JsonText.json)) : JsonText.json :=
  JsonText.JObject (json_object true (text_member <$> flatten ps)) (flatten ps).

Abbreviation keyed key := (λ v : JsonText.json, (key, v)).

Lemma prop_app kvs kvs' key :
  prop (kvs ++ kvs') key = match prop kvs' key with Some v => Some v | None => prop kvs key end.
Proof.
  unfold prop. rewrite List.filter_app, last_app.
  by destruct (last (List.filter _ kvs')).
Qed.

Lemma prop_keyed key l name :
  prop (keyed key <$> l) name = if bool_decide (key = name) then last l else None.
Proof.
  induction l as [|v l IH] using rev_ind; [by case_bool_decide|].
  rewrite fmap_app, prop_app, IH. cbn [fmap list_fmap]. unfold prop. cbn [List.filter fst].
  case_bool_decide; [|done]. by rewrite last_snoc.
Qed.

Lemma prop_flatten ps name : NoDup ps.*1 → prop (flatten ps) name = last (assoc name ps).
Proof.
  induction ps as [|[key l] ps IH]; [done|]. intros [Hk Hd]%NoDup_cons. unfold flatten in *.
  rewrite fmap_cons. cbn [concat fst snd assoc]. rewrite prop_app, IH, prop_keyed by done.
  case_bool_decide as E; [|by destruct (last (assoc name ps))].
  subst. rewrite assoc_none by done. done.
Qed.

(** What the page finds under a key, from the values written for it. *)
Definition str_of (l : list JsonText.json) : gostring :=
  match last l with Some (JsonText.JString _ s) => s | _ => [] end.
Definition num_of (l : list JsonText.json) : Z :=
  match last l with Some (JsonText.JNumber lit) => default 0 (Atoi lit) | _ => 0 end.
Definition flag_of (l : list JsonText.json) : bool :=
  match last l with Some (JsonText.JBool b) => b | _ => false end.
Definition list_of (l : list JsonText.json) : list JsonText.json :=
  match last l with Some v => elements_of v | None => [] end.

Lemma str_of_vals s : str_of (str_vals s) = repair s.
Proof. done. Qed.
Lemma str_of_omit s : str_of (str_vals_omit s) = repair s.
Proof. unfold str_vals_omit. by destruct (decide (s = [])) as [->|]. Qed.
Lemma num_of_vals z : in_int64 z → num_of (num_vals z) = z.
Proof. intros H. unfold num_of, num_vals. cbn [last]. by rewrite Atoi_itoa. Qed.
Lemma num_of_omit z : in_int64 z → num_of (num_vals_omit z) = z.
Proof. intros H. unfold num_vals_omit. destruct (Z.eqb_spec z 0) as [->|]; [done|by apply num_of_vals]. Qed.
Lemma flag_of_vals b : flag_of (flag_vals b) = b.
Proof. done. Qed.
Lemma flag_of_omit b : flag_of (flag_vals_omit b) = b.
Proof. by destruct b. Qed.

Lemma str_vals_read s : Forall (raw_reads 0) (str_vals s).
Proof. apply Forall_cons. split; [apply reads_quote|done]. Qed.
Lemma str_vals_omit_read s : Forall (raw_reads 0) (str_vals_omit s).
Proof. unfold str_vals_omit. destruct (decide _); [done|apply str_vals_read]. Qed.
Lemma num_vals_read z : in_int64 z → Forall (raw_reads 0) (num_vals z).
Proof. intros H. apply Forall_cons. split; [by apply reads_int|done]. Qed.
Lemma num_vals_omit_read z : in_int64 z → Forall (raw_reads 0) (num_vals_omit z).
Proof. intros H. unfold num_vals_omit. destruct (z =? 0); [done|by apply num_vals_read]. Qed.
Lemma flag_vals_read b : Forall (raw_reads 0) (flag_vals b).
Proof. apply Forall_cons. split; [apply reads_bool|done]. Qed.
Lemma flag_vals_omit_read b : Forall (raw_reads 0) (flag_vals_omit b).
Proof. destruct b; [apply flag_vals_read|done]. Qed.

Create HintDb wire.
#[export] Hint Resolve str_vals_read str_vals_omit_read num_vals_read num_vals_omit_read
  flag_vals_read flag_vals_omit_read : wire.

Lemma str_text key s : str key s = text_member <$> (keyed key <$> str_vals s).
Proof. done. Qed.
Lemma str_omit_text key s : str_omit key s = text_member <$> (keyed key <$> str_vals_omit s).
Proof. unfold str_omit, str_vals_omit. by destruct (decide _). Qed.
Lemma num_text key z : num key z = text_member <$> (keyed key <$> num_vals z).
Proof. done. Qed.
Lemma num_omit_text key z : num_omit key z = text_member <$> (keyed key <$> num_vals_omit z).
Proof. unfold num_omit, num_vals_omit. by destruct (z =? 0). Qed.
Lemma flag_text key b : flag key b = text_member <$> (keyed key <$> flag_vals b).
Proof. done. Qed.
Lemma flag_omit_text key b : flag_omit key b = text_member <$> (keyed key <$> flag_vals_omit b).
Proof. by destruct b. Qed.

(** The text of a view is the text of the object with its values. *)
Ltac object_text :=
  unfold object_value, flatten; cbn [raw]; f_equal;
  rewrite ?str_text, ?str_omit_text, ?num_text, ?num_omit_text, ?flag_text, ?flag_omit_text;
  rewrite !fmap_cons; cbn [concat fst snd fmap list_fmap]; rewrite ?fmap_app, ?app_nil_r;
  reflexivity.

(** A property of a written object. *)
Ltac read_prop :=
  unfold prop_str, prop_num, prop_flag, prop_list; cbn [members_of object_value];
  rewrite prop_flatten by (apply (bool_decide_unpack (NoDup _)); vm_compute; exact I);
  first [exact (str_of_vals _)|exact (str_of_omit _)|exact (flag_of_vals _)|exact (flag_of_omit _)
        |by apply num_of_vals|by apply num_of_omit].

(** ** Events, users and settings *)

Definition event_pieces (e : wireEvent) : list (gostring * list JsonText.json) :=
  [(bs "type", str_vals (e_Type e)); (bs "from", str_vals_omit (e_From e));
   (bs "node", str_vals_omit (e_Node e)); (bs "to", str_vals_omit (e_To e));
   (bs "with", str_vals_omit (e_With e)); (bs "mine", flag_vals_omit (e_Mine e));
   (bs "topic", str_vals_omit (e_Topic e)); (bs "text", str_vals_omit (e_Text e));
   (bs "time", num_vals_omit (e_Time e))].

(** A view with the bytes that are no UTF-8 replaced. *)
Definition repair_event (e : wireEvent) : wireEvent :=
  mkWireEvent (repair (e_Type e)) (repair (e_From e)) (repair (e_Node e)) (repair (e_To e))
    (repair (e_With e)) (e_Mine e) (repair (e_Topic e)) (repair (e_Text e)) (e_Time e).

Lemma wireEvent_text e : wireEvent_json e = raw (object_value (event_pieces e)).
Proof. unfold wireEvent_json, event_pieces. object_text. Qed.

Lemma wireEvent_reads e :
  in_int64 (e_Time e) → reads 1 (wireEvent_json e) (object_value (event_pieces e)).
Proof.
  intros H. rewrite wireEvent_text. apply (reads_flatten true 0); [done|by vm_compute|].
  unfold event_pieces. repeat (apply Forall_cons; split; [cbn [snd]; auto with wire|]). done.
Qed.

Lemma read_wireEvent e :
  in_int64 (e_Time e) → read_event (object_value (event_pieces e)) = repair_event e.
Proof. intros H. unfold read_event, repair_event. cbv zeta. f_equal; read_prop. Qed.

Definition user_pieces (v : userView) : list (gostring * list JsonText.json) :=
  [(bs "call", str_vals (v_call v)); (bs "name", str_vals (v_name v));
   (bs "node", str_vals (v_node v))].
Definition repair_user (v : userView) : userView :=
  mkUserView (repair (v_call v)) (repair (v_node v)) (repair (v_name v)).
Lemma user_text v : user_json v = raw (object_value (user_pieces v)).
Proof. unfold user_json, user_pieces. object_text. Qed.
Lemma user_reads v : reads 1 (user_json v) (object_value (user_pieces v)).
Proof.
  rewrite user_text. apply (reads_flatten true 0); [done|by vm_compute|].
  unfold user_pieces. repeat (apply Forall_cons; split; [cbn [snd]; auto with wire|]). done.
Qed.
Lemma read_userView v : read_user (object_value (user_pieces v)) = repair_user v.
Proof. unfold read_user, repair_user. cbv zeta. f_equal; read_prop. Qed.

Definition you_pieces (call topic : gostring) : list (gostring * list JsonText.json) :=
  [(bs "call", str_vals call); (bs "topic", str_vals topic)].
Lemma you_text call topic : you_json call topic = raw (object_value (you_pieces call topic)).
Proof. unfold you_json, you_pieces. object_text. Qed.
Lemma you_reads call topic : reads 1 (you_json call topic) (object_value (you_pieces call topic)).
Proof.
  rewrite you_text. apply (reads_flatten true 0); [done|by vm_compute|].
  unfold you_pieces. repeat (apply Forall_cons; split; [cbn [snd]; auto with wire|]). done.
Qed.

Definition settings_pieces (v : settingsView) : list (gostring * list JsonText.json) :=
  [(bs "name", str_vals (sv_Name v)); (bs "qth", str_vals (sv_QTH v));
   (bs "echo", flag_vals (sv_Echo v)); (bs "bells", flag_vals (sv_Bells v));
   (bs "colour", flag_vals (sv_Colour v)); (bs "shownames", flag_vals (sv_ShowNames v));
   (bs "showtime", flag_vals (sv_ShowTime v))].
Definition repair_settings (v : settingsView) : settingsView :=
  mkSettingsView (repair (sv_Name v)) (repair (sv_QTH v)) (sv_Echo v) (sv_Bells v) (sv_Colour v)
    (sv_ShowNames v) (sv_ShowTime v).
Lemma settings_text v : settings_json v = raw (object_value (settings_pieces v)).
Proof. unfold settings_json, settings_pieces. object_text. Qed.
Lemma settings_reads v : reads 1 (settings_json v) (object_value (settings_pieces v)).
Proof.
  rewrite settings_text. apply (reads_flatten true 0); [done|by vm_compute|].
  unfold settings_pieces. repeat (apply Forall_cons; split; [cbn [snd]; auto with wire|]). done.
Qed.
Lemma read_settingsView v : read_settings (object_value (settings_pieces v)) = repair_settings v.
Proof. unfold read_settings, repair_settings. cbv zeta. f_equal; read_prop. Qed.

(** ** The federation panel *)

Definition node_pieces (v : nodeView) : list (gostring * list JsonText.json) :=
  [(bs "call", str_vals (nv_Call v)); (bs "alias", str_vals_omit (nv_Alias v));
   (bs "version", str_vals_omit (nv_Version v));
   (bs "linkedSince", num_vals_omit (nv_LinkedSince v))].
Definition repair_node (v : nodeView) : nodeView :=
  mkNodeView (repair (nv_Call v)) (repair (nv_Alias v)) (repair (nv_Version v)) (nv_LinkedSince v).
Definition node_ok (v : nodeView) : Prop := in_int64 (nv_LinkedSince v).
Lemma node_text v : nodeView_json v = raw (object_value (node_pieces v)).
Proof. unfold nodeView_json, node_pieces. object_text. Qed.
Lemma node_reads v : node_ok v → reads 1 (nodeView_json v) (object_value (node_pieces v)).
Proof.
  intros H. rewrite node_text. apply (reads_flatten true 0); [done|by vm_compute|].
  unfold node_pieces. repeat (apply Forall_cons; split; [cbn [snd]; auto with wire|]). done.
Qed.
Lemma read_nodeView v : node_ok v → read_node (object_value (node_pieces v)) = repair_node v.
Proof. intros H. unfold read_node, repair_node. cbv zeta. f_equal; read_prop. Qed.

Definition link_pieces (v : linkView) : list (gostring * list JsonText.json) :=
  [(bs "peer", str_vals (lv_Peer v)); (bs "outbound", flag_vals (lv_Outbound v));
   (bs "linkedAt", num_vals_omit (lv_LinkedAt v)); (bs "lastSeen", num_vals_omit (lv_LastSeen v));
   (bs "rttMs", num_vals_omit (lv_RTTms v))].
Definition repair_link (v : linkView) : linkView :=
  mkLinkView (repair (lv_Peer v)) (lv_Outbound v) (lv_LinkedAt v) (lv_LastSeen v) (lv_RTTms v).
Definition link_ok (v : linkView) : Prop :=
  in_int64 (lv_LinkedAt v) ∧ in_int64 (lv_LastSeen v) ∧ in_int64 (lv_RTTms v).
Lemma link_text v : linkView_json v = raw (object_value (link_pieces v)).
Proof. unfold linkView_json, link_pieces. object_text. Qed.
Lemma link_reads v : link_ok v → reads 1 (linkView_json v) (object_value (link_pieces v)).
Proof.
  intros (H1 & H2 & H3). rewrite link_text. apply (reads_flatten true 0); [done|by vm_compute|].
  unfold link_pieces. repeat (apply Forall_cons; split; [cbn [snd]; auto with wire|]). done.
Qed.
Lemma read_linkView v : link_ok v → read_link (object_value (link_pieces v)) = repair_link v.
Proof. intros (H1 & H2 & H3). unfold read_link, repair_link. cbv zeta. f_equal; read_prop. Qed.

Definition peer_pieces (v : ConfiguredPeer) : list (gostring * list JsonText.json) :=
  [(bs "call", str_vals (cp_Call v)); (bs "transport", str_vals (cp_Transport v));
   (bs "target", str_vals_omit (cp_Target v))].
Definition repair_peer (v : ConfiguredPeer) : ConfiguredPeer :=
  mkConfiguredPeer (repair (cp_Call v)) (repair (cp_Transport v)) (repair (cp_Target v)).
Lemma peer_text v : configuredPeerView_json v = raw (object_value (peer_pieces v)).
Proof. unfold configuredPeerView_json, peer_pieces. object_text. Qed.
Lemma peer_reads v : reads 1 (configuredPeerView_json v) (object_value (peer_pieces v)).
Proof.
  rewrite peer_text. apply (reads_flatten true 0); [done|by vm_compute|].
  unfold peer_pieces. repeat (apply Forall_cons; split; [cbn [snd]; auto with wire|]). done.
Qed.
Lemma read_peerView v : read_peer (object_value (peer_pieces v)) = repair_peer v.
Proof. unfold read_peer, repair_peer. cbv zeta. f_equal; read_prop. Qed.

(** An array of views. *)
Lemma array_reads {A} (json_of : A → gostring) (val : A → JsonText.json) h (ok : A → Prop) l :
  0 ≤ h → (∀ x, raw (val x) = json_of x) → (∀ x, ok x → reads h (json_of x) (val x)) → Forall ok l →
  reads (h + 1) (json_array (json_of <$> l)) (array_value (val <$> l)).
Proof.
  intros Hh Ht Hr Hl. pose proof (reads_values h (val <$> l) Hh) as H.
  unfold array_value. rewrite <- list_fmap_compose in *.
  assert (raw ∘ val <$> l = json_of <$> l) as E by (apply list_fmap_ext; intros i x _; apply Ht).
  rewrite E in *. apply H. apply Forall_fmap. eapply Forall_impl; [exact Hl|].
  intros x Hx. cbn. rewrite Ht. by apply Hr.
Qed.

Lemma strings_reads l :
  reads 1 (json_array (quote true <$> l)) (array_value (written_string true <$> l)).
Proof.
  apply (array_reads _ _ 0 (λ _, True)); [done|done| |by apply Forall_true].
  intros s _. apply reads_quote.
Qed.

Definition peers_pieces (v : peersView) : list (gostring * list JsonText.json) :=
  [(bs "ourNode", str_vals (pv_OurNode v));
   (bs "nodes", [array_value (object_value ∘ node_pieces <$> pv_Nodes v)]);
   (bs "links", [array_value (object_value ∘ link_pieces <$> pv_Links v)]);
   (bs "configured", [array_value (object_value ∘ peer_pieces <$> pv_Configured v)]);
   (bs "allow", [array_value (written_string true <$> pv_Allow v)]);
   (bs "pinned", [array_value (written_string true <$> pv_Pinned v)]);
   (bs "rejected", num_vals (pv_Rejected v))].
Definition repair_peers (v : peersView) : peersView :=
  mkPeersView (repair (pv_OurNode v)) (repair_node <$> pv_Nodes v) (repair_link <$> pv_Links v)
    (repair_peer <$> pv_Configured v) (repair <$> pv_Allow v) (repair <$> pv_Pinned v)
    (pv_Rejected v).
Definition peers_ok (v : peersView) : Prop :=
  Forall node_ok (pv_Nodes v) ∧ Forall link_ok (pv_Links v) ∧ in_int64 (pv_Rejected v).

Lemma array_text {A} (json_of : A → gostring) (val : A → JsonText.json) l :
  (∀ x, raw (val x) = json_of x) → json_array (json_of <$> l) = raw (array_value (val <$> l)).
Proof.
  intros H. unfold array_value. cbn [raw]. rewrite <- list_fmap_compose. f_equal.
  apply list_fmap_ext. intros i x _. symmetry. apply H.
Qed.

Lemma peers_text v : peersView_json v = raw (object_value (peers_pieces v)).
Proof.
  unfold peersView_json, peers_pieces.
  rewrite (array_text nodeView_json (object_value ∘ node_pieces)) by (intros; symmetry; apply node_text).
  rewrite (array_text linkView_json (object_value ∘ link_pieces)) by (intros; symmetry; apply link_text).
  rewrite (array_text configuredPeerView_json (object_value ∘ peer_pieces))
    by (intros; symmetry; apply peer_text).
  rewrite !(array_text (quote true) (written_string true)) by done.
  reflexivity.
Qed.

Lemma peers_reads v : peers_ok v → reads 3 (peersView_json v) (object_value (peers_pieces v)).
Proof.
  intros (Hn & Hl & Hr). rewrite peers_text. apply (reads_flatten true 2); [done|by vm_compute|].
  assert (∀ l, Forall (raw_reads 0) l → Forall (raw_reads 2) l) as Hw.
  { intros l H. eapply Forall_impl; [exact H|]. intros x. by apply reads_weaken. }
  assert (∀ l h, h ≤ 2 → reads h (raw l) l → Forall (raw_reads 2) [l]) as Ha.
  { intros l h Hh H. apply Forall_cons. split; [|done]. by eapply reads_weaken. }
  unfold peers_pieces. rewrite !Forall_cons. split_and!; [..|by constructor]; cbn [snd].
  - apply Hw; auto with wire.
  - eapply (Ha _ 2); [done|]. rewrite <- (array_text nodeView_json) by (intros; symmetry; apply node_text).
    apply (array_reads _ _ 1 node_ok); [done| | |done]; [intros; symmetry; apply node_text|apply node_reads].
  - eapply (Ha _ 2); [done|]. rewrite <- (array_text linkView_json) by (intros; symmetry; apply link_text).
    apply (array_reads _ _ 1 link_ok); [done| | |done]; [intros; symmetry; apply link_text|apply link_reads].
  - eapply (Ha _ 2); [done|]. rewrite <- (array_text configuredPeerView_json) by (intros; symmetry; apply peer_text).
    apply (array_reads _ _ 1 (λ _, True)); [done| | |by apply Forall_true];
      [intros; symmetry; apply peer_text|intros; apply peer_reads].
  - eapply (Ha _ 1); [done|]. rewrite <- (array_text (quote true)) by done. apply strings_reads.
  - eapply (Ha _ 1); [done|]. rewrite <- (array_text (quote true)) by done. apply strings_reads.
  - apply Hw; auto with wire.
Qed.

Lemma read_peersView v : peers_ok v → read_peers (object_value (peers_pieces v)) = repair_peers v.
Proof.
  intros (Hn & Hl & Hr). unfold read_peers, repair_peers. cbv zeta.
  assert (∀ key l, prop_list (flatten (peers_pieces v)) key = l ↔
    list_of (assoc key (peers_pieces v)) = l) as Hp.
  { intros key l. unfold prop_list. by rewrite prop_flatten
      by (apply (bool_decide_unpack (NoDup _)); vm_compute; exact I). }
  cbn [members_of object_value].
  rewrite (proj2 (Hp (bs "nodes") _) eq_refl), (proj2 (Hp (bs "links") _) eq_refl),
    (proj2 (Hp (bs "configured") _) eq_refl), (proj2 (Hp (bs "allow") _) eq_refl),
    (proj2 (Hp (bs "pinned") _) eq_refl).
  f_equal; try read_prop.
  - change (list_of (assoc (bs "nodes") (peers_pieces v))) with (object_value ∘ node_pieces <$> pv_Nodes v).
    rewrite <- list_fmap_compose. apply list_fmap_ext. intros i x Hx.
    apply read_nodeView. by eapply Forall_lookup_1.
  - change (list_of (assoc (bs "links") (peers_pieces v))) with (object_value ∘ link_pieces <$> pv_Links v).
    rewrite <- list_fmap_compose. apply list_fmap_ext. intros i x Hx.
    apply read_linkView. by eapply Forall_lookup_1.
  - change (list_of (assoc (bs "configured") (peers_pieces v)))
      with (object_value ∘ peer_pieces <$> pv_Configured v).
    rewrite <- list_fmap_compose. apply list_fmap_ext. intros i x Hx. apply read_peerView.
  - change (list_of (assoc (bs "allow") (peers_pieces v))) with (written_string true <$> pv_Allow v).
    rewrite <- list_fmap_compose. by apply list_fmap_ext.
  - change (list_of (assoc (bs "pinned") (peers_pieces v))) with (written_string true <$> pv_Pinned v).
    rewrite <- list_fmap_compose. by apply list_fmap_ext.
Qed.

(** ** Event streams *)

Definition no_eol (l : gostring) : Prop := Forall (λ c, bz c ≠ 10 ∧ bz c ≠ 13) l.

Lemma plain_no_eol html l : plain html l → no_eol l.
Proof.
  intros H. eapply Forall_impl; [exact H|]. intros c Hc. unfold plainb in Hc. cbv beta in Hc.
  apply andb_true_iff in Hc as [Hc _]. apply Z.leb_le in Hc. lia.
Qed.

Lemma sse_lines_line l : ∀ cr cur t,
  no_eol l → (cr = true → l ≠ []) →
  sse_lines cr cur (l ++ zb 10 :: t) = (cur ++ l) :: sse_lines false [] t.
Proof.
  induction l as [|c l IH]; intros cr cur t Hl Hcr.
  - destruct cr; [by specialize (Hcr eq_refl)|]. cbn [app sse_lines].
    rewrite bz_zb_small by lia. by rewrite app_nil_r.
  - apply Forall_cons in Hl as [[H1 H2] Hl]. cbn [app sse_lines].
    rewrite (proj2 (Z.eqb_neq _ _) H1), (proj2 (Z.eqb_neq _ _) H2), IH by done.
    by rewrite <- app_assoc.
Qed.

(** The lines before a cut are the first lines of the whole. *)
Lemma sse_lines_prefix p q : ∀ cr cur, sse_lines cr cur p `prefix_of` sse_lines cr cur (p ++ q).
Proof.
  induction p as [|c p IH]; intros cr cur; [apply prefix_nil|]. cbn [app sse_lines].
  repeat case_match; try apply prefix_cons; apply IH.
Qed.

Definition chunk_lines (c : chunk) : list gostring :=
  match c with
  | Item x => [bs "event: " ++ sse_name x; bs "data: " ++ sse_data x; []]
  | Ping => [bs ": ping"; []]
  end.

Lemma user_plain v : plain true (user_json v).
Proof.
  apply json_object_plain. repeat (apply Forall_cons; split; [apply quote_plain|]). constructor.
Qed.
Lemma you_plain call topic : plain true (you_json call topic).
Proof.
  apply json_object_plain. repeat (apply Forall_cons; split; [apply quote_plain|]). constructor.
Qed.

Lemma wireEvent_plain e : in_int64 (e_Time e) → plain true (wireEvent_json e).
Proof.
  intros H. apply json_object_plain.
  assert (∀ k s, Forall (λ kv : gostring * gostring, plain true kv.2) (str_omit k s)) as Hs.
  { intros k s. unfold str_omit, str. destruct (decide _); [by constructor|].
    apply Forall_cons. split; [apply quote_plain|done]. }
  assert (∀ k z, in_int64 z → Forall (λ kv : gostring * gostring, plain true kv.2) (num_omit k z)) as Hn.
  { intros k z Hz. unfold num_omit, num. destruct (z =? 0); [by constructor|].
    apply Forall_cons. split; [by apply itoa_plain|done]. }
  assert (∀ k b, Forall (λ kv : gostring * gostring, plain true kv.2) (flag_omit k b)) as Hb.
  { intros k [|]; [|by constructor]. apply Forall_cons. split; [apply json_bool_plain|done]. }
  rewrite !Forall_app. split_and!; auto. apply Forall_cons. split; [apply quote_plain|done].
Qed.

Definition sse_ok (x : sse) : Prop :=
  match x with SseEvent e => in_int64 (e_Time e) | _ => True end.

Lemma sse_data_plain x : sse_ok x → plain true (sse_data x).
Proof.
  destruct x as [call topic|e|l]; intros H; cbn [sse_data].
  - apply you_plain.
  - by apply wireEvent_plain.
  - apply json_array_plain, Forall_fmap, Forall_forall. intros v _. apply user_plain.
Qed.

Lemma sse_name_no_eol x : no_eol (bs "event: " ++ sse_name x).
Proof.
  apply (plain_no_eol false), plain_by. by destruct x.
Qed.
Lemma sse_data_no_eol x : sse_ok x → no_eol (bs "data: " ++ sse_data x).
Proof.
  intros H. apply (plain_no_eol true), Forall_app. split; [by apply plain_by|].
  by apply sse_data_plain.
Qed.

Definition chunk_ok (c : chunk) : Prop := match c with Item x => sse_ok x | Ping => True end.

Lemma chunk_text_lines c t :
  chunk_ok c → sse_lines false [] (chunk_text c ++ t) = chunk_lines c ++ sse_lines false [] t.
Proof.
  destruct c as [x|]; intros H; [|done]. cbn [chunk_text chunk_lines]. unfold writeSSE.
  replace ((bs "event: " ++ sse_name x ++ [zb 10] ++ bs "data: " ++ sse_data x ++ [zb 10; zb 10]) ++ t)
    with ((bs "event: " ++ sse_name x) ++ zb 10 :: (bs "data: " ++ sse_data x) ++ zb 10 :: [] ++ zb 10 :: t)
    by (rewrite <- !app_assoc; reflexivity).
  rewrite sse_lines_line by (done || apply sse_name_no_eol).
  rewrite sse_lines_line by (done || by apply sse_data_no_eol).
  rewrite sse_lines_line by (done || by constructor). done.
Qed.

Definition item_event (c : chunk) : list (gostring * gostring) :=
  match c with Item x => [(sse_name x, sse_data x)] | Ping => [] end.

Lemma sse_data_nonempty x : sse_data x ≠ [].
Proof. destruct x; discriminate. Qed.

Lemma dispatch_chunk c ls :
  sse_dispatch (mkSource [] []) (chunk_lines c ++ ls)
  = item_event c ++ sse_dispatch (mkSource [] []) ls.
Proof.
  destruct c as [x|]; [|done]. cbn [chunk_lines app sse_dispatch item_event].
  assert (sse_line (mkSource [] []) (bs "event: " ++ sse_name x) = (mkSource (sse_name x) [], []))
    as -> by by destruct x.
  assert (sse_line (mkSource (sse_name x) []) (bs "data: " ++ sse_data x)
    = (mkSource (sse_name x) (sse_data x ++ [zb 10]), [])) as ->.
  { unfold sse_line. change (bs "data: " ++ sse_data x) with (bs "data" ++ zb 58 :: zb 32 :: sse_data x).
    rewrite Cut_app by (apply (bool_decide_unpack _); vm_compute; exact I). done. }
  cbn [app]. unfold sse_line at 1. cbn [es_data es_type].
  destruct (sse_data x ++ [zb 10]) as [|c t] eqn:E; [by destruct (sse_data x)|].
  rewrite <- E, removelast_last. done.
Qed.

Lemma no_bom s : match s with c :: _ => bz c ≠ 239 | [] => True end →
  (CutPrefix s (encode_rune 65279)).1 = s.
Proof.
  intros H. unfold CutPrefix.
  assert (HasPrefix s (encode_rune 65279) = false) as ->; [|done].
  change (encode_rune 65279) with (zb 239 :: [zb 187; zb 191]). destruct s as [|c s]; [done|].
  cbn [HasPrefix]. rewrite bz_zb_small by lia.
  rewrite (proj2 (Z.eqb_neq _ _)); [done|]. congruence.
Qed.

Lemma eventsource_lines s :
  match s with c :: _ => bz c ≠ 239 | [] => True end →
  eventsource s = sse_dispatch (mkSource [] []) (sse_lines false [] s).
Proof. intros H. unfold eventsource. by rewrite no_bom. Qed.

Definition stream_text (cs : list chunk) : gostring := concat (chunk_text <$> cs).
Definition stream_events (cs : list chunk) : list (gostring * gostring) := concat (item_event <$> cs).

Lemma dispatch_stream cs tail :
  Forall chunk_ok cs →
  sse_dispatch (mkSource [] []) (sse_lines false [] (stream_text cs ++ tail))
  = stream_events cs ++ sse_dispatch (mkSource [] []) (sse_lines false [] tail).
Proof.
  induction 1 as [|c cs Hc _ IH]; [done|]. unfold stream_text, stream_events in *.
  rewrite !fmap_cons. cbn [concat].
  rewrite <- !app_assoc, chunk_text_lines, dispatch_chunk, IH by done. done.
Qed.

(** A chunk that is cut short gives no event. *)
Lemma dispatch_fields ls : ∀ st, Forall (λ l, l ≠ []) ls → sse_dispatch st ls = [].
Proof.
  induction ls as [|l ls IH]; intros st Hl; [done|]. apply Forall_cons in Hl as [Hl Hls].
  cbn [sse_dispatch]. assert (sse_line st l = ((sse_line st l).1, [])) as ->.
  { destruct l as [|c l]; [done|]. unfold sse_line. destruct (bz c =? 58); [done|].
    destruct (Cut _ _) as [[f r] b]. by repeat case_match. }
  cbn. by apply IH.
Qed.

Lemma dispatch_cut c p q :
  chunk_ok c → chunk_text c = p ++ q → q ≠ [] →
  sse_dispatch (mkSource [] []) (sse_lines false [] p) = [].
Proof.
  intros Hc E Hq. apply dispatch_fields.
  assert (∃ m, chunk_text c = m ++ [zb 10] ∧ ∃ l, sse_lines false [] m = l ∧ Forall (λ x, x ≠ []) l)
    as (m & Em & l & El & Hl).
  { destruct c as [x|].
    - exists ((bs "event: " ++ sse_name x) ++ zb 10 :: (bs "data: " ++ sse_data x) ++ [zb 10]).
      split.
      { cbn [chunk_text]. unfold writeSSE.
        rewrite <- app_assoc, <- (app_comm_cons _ [zb 10]), <- !app_assoc. reflexivity. }
      eexists. split; [done|]. rewrite sse_lines_line by (done || apply sse_name_no_eol).
      rewrite sse_lines_line by (done || by apply sse_data_no_eol).
      repeat (apply Forall_cons; split; [done|]). constructor.
    - exists (bs ": ping" ++ [zb 10]). split; [done|]. eexists. split; [done|].
      repeat (apply Forall_cons; split; [done|]). constructor. }
  assert (p `prefix_of` m) as [k ->].
  { rewrite E in Em. destruct q as [|d q] using rev_ind; [done|]. rewrite app_assoc in Em.
    apply app_inj_tail in Em as [<- _]. by exists q. }
  pose proof (sse_lines_prefix p k false []) as [k' Hk]. rewrite El, Hk in *.
  subst l. by apply Forall_app in Hl as [Hl _].
Qed.

Lemma prefix_cases {A} (a b p : list A) :
  p `prefix_of` a ++ b → (∃ q, a = p ++ q ∧ q ≠ []) ∨ (∃ p', p = a ++ p' ∧ p' `prefix_of` b).
Proof.
  intros [k E]. apply app_eq_inv in E as [(l & -> & ->)|(l & -> & ->)].
  - destruct l as [|x l]; [right; exists []; split; [by rewrite !app_nil_r|apply prefix_nil]|].
    left. by exists (x :: l).
  - right. exists l. split; [done|]. by exists k.
Qed.

Lemma dispatch_prefix cs : ∀ p,
  Forall chunk_ok cs → p `prefix_of` stream_text cs → ∃ n,
  sse_dispatch (mkSource [] []) (sse_lines false [] p) = stream_events (take n cs).
Proof.
  induction cs as [|c cs IH]; intros p Hok Hp.
  - apply prefix_nil_inv in Hp as ->. by exists 0%nat.
  - apply Forall_cons in Hok as [Hc Hok]. unfold stream_text in Hp. rewrite fmap_cons in Hp.
    cbn [concat] in Hp. apply prefix_cases in Hp as [(q & E & Hq)|(p' & -> & Hp')].
    + exists 0%nat. by apply (dispatch_cut c p q).
    + destruct (IH p' Hok Hp') as [n Hn]. exists (S n).
      rewrite chunk_text_lines, dispatch_chunk, Hn by done. done.
Qed.

(** An item as the page reads it. *)
Definition repair_sse (x : sse) : sse :=
  match x with
  | SseYou call topic => SseYou (repair call) (repair topic)
  | SseEvent e => SseEvent (repair_event e)
  | SseUsers l => SseUsers (repair_user <$> l)
  end.
Definition items (cs : list chunk) : list sse :=
  omap (λ c, match c with Item x => Some x | Ping => None end) cs.

Lemma read_written x : sse_ok x → read_item (sse_name x, sse_data x) = Some (repair_sse x).
Proof.
  intros H. unfold read_item. cbn [fst snd]. destruct x as [call topic|e|l]; cbn [sse_name sse_data].
  - rewrite (parse_reads 1 _ _ (you_reads call topic)) by done. cbn match.
    rewrite decide_True by done. cbn [repair_sse]. do 2 f_equal; read_prop.
  - rewrite (parse_reads 1 _ _ (wireEvent_reads e H)) by done. cbn match.
    rewrite !decide_False, decide_True by (by vm_compute || done).
    cbn [repair_sse]. by rewrite read_wireEvent.
  - assert (reads 2 (json_array (user_json <$> l)) (array_value (object_value ∘ user_pieces <$> l))) as Hr.
    { apply (array_reads _ _ 1 (λ _, True)); [done| | |by apply Forall_true].
      - intros v. symmetry. apply user_text.
      - intros v _. apply user_reads. }
    rewrite (parse_reads 2 _ _ Hr) by done. cbn match.
    rewrite decide_False, decide_True by done. cbn [repair_sse]. do 2 f_equal.
    unfold read_users, array_value. cbn [elements_of]. rewrite <- list_fmap_compose.
    apply list_fmap_ext. intros i v _. apply read_userView.
Qed.

Lemma read_stream cs :
  Forall chunk_ok cs → read_item <$> stream_events cs = (Some ∘ repair_sse) <$> items cs.
Proof.
  induction 1 as [|c cs Hc _ IH]; [done|]. unfold stream_events in *. rewrite fmap_cons.
  cbn [concat]. rewrite fmap_app, IH. destruct c as [x|]; [|done]. cbn [item_event items omap list_omap].
  cbn [fmap list_fmap app]. rewrite read_written by done. done.
Qed.

(** C13. What an event stream says cannot be forged.  For any items the server writes to a
    stream, with keepalives anywhere between them, whatever text users and nodes put into
    messages, names and topics: the browser's reader finds exactly these items, in their
    order, each with its own name and its fields as they were (bytes that are no UTF-8
    apart, which become U+FFFD): no text ends an event early, adds a field or makes up an
    event.  Where the stream is cut, the items before the cut are found and no part of the
    next one. *)
Theorem stream_is_read_back (cs : list chunk) :
  Forall chunk_ok cs →
  read_item <$> eventsource (stream_text cs) = (Some ∘ repair_sse) <$> items cs
  ∧ (∀ p, p `prefix_of` stream_text cs → ∃ n,
       read_item <$> eventsource p = (Some ∘ repair_sse) <$> items (take n cs)).
Proof.
  intros H.
  assert (∀ p, p `prefix_of` stream_text cs →
    match p with c :: _ => bz c ≠ 239 | [] => True end) as Hb.
  { intros [|b p] Hp; [done|]. destruct cs as [|c cs]; [by apply prefix_nil_inv in Hp|].
    unfold stream_text in Hp. destruct Hp as [k Hk].
    destruct c as [x|]; injection Hk as <- _; done. }
  split.
  - rewrite eventsource_lines by by apply Hb. rewrite <- (app_nil_r (stream_text cs)), dispatch_stream by done.
    rewrite app_nil_r. by apply read_stream.
  - intros p Hp. rewrite eventsource_lines by by apply Hb.
    destruct (dispatch_prefix cs p H Hp) as [n ->]. exists n. by apply read_stream, Forall_take.
Qed.

(** A message whose text tries to end the event and to start one of its own. *)
Definition forged : wireEvent :=
  plainEvent (bs "msg") (bs "M0ABC") [] (bs "General")
    (bs "hi" ++ [zb 10; zb 10] ++ bs "event: you" ++ [zb 10] ++ bs "data: {}" ++ [zb 10; zb 10]).
Lemma stream_is_read_back_witness :
  read_item <$> eventsource (stream_text [Ping; Item (SseEvent forged); Item (SseUsers [])])
  = (Some ∘ repair_sse) <$> items [Ping; Item (SseEvent forged); Item (SseUsers [])].
Proof.
  apply stream_is_read_back.
  repeat (apply Forall_cons; split; [done|]). constructor.
Defined.

(** ** Request bodies *)

Definition js_value (x : jsval) : JsonText.json :=
  match x with JsString s => written_string false s | JsBool b => JsonText.JBool b end.
Definition typed_value (x : jsval) : Webchat.json :=
  match x with JsString s => JString (repair s) | JsBool b => JBool b end.

(** What the page writes is what the server finds. *)
Lemma stringify_found fmt (l : list (gostring * jsval)) :
  Forall (λ kv : gostring * jsval, utf8 kv.1) l →
  body_of_text fmt (stringify l) = BodyObject ((λ kv, (kv.1, typed_value kv.2)) <$> l).
Proof.
  intros H. unfold body_of_text, stringify.
  set (kvs := (λ kv : gostring * jsval, (kv.1, js_value kv.2)) <$> l).
  assert ((λ kv : gostring * jsval,
    (kv.1, match kv.2 with JsString s => quote false s | JsBool b => json_bool b end)) <$> l
    = text_member <$> kvs) as ->.
  { unfold kvs. rewrite <- list_fmap_compose. apply list_fmap_ext. by intros i [k [s|b]] _. }
  assert (reads 1 (json_object false (text_member <$> kvs))
    (JsonText.JObject (json_object false (text_member <$> kvs)) kvs)) as Hr.
  { apply (reads_members false 0); [done|]. unfold kvs. apply Forall_fmap.
    eapply Forall_impl; [exact H|]. intros [k [s|b]] Hk; split; try done;
      [apply reads_quote|apply reads_bool]. }
  rewrite (decode_first_reads 1 _ _ Hr) by done. f_equal. unfold kvs. rewrite <- list_fmap_compose.
  apply list_fmap_ext. by intros i [k [s|b]] _.
Qed.
