(* ===== verification/WebSteps.v ===== *)
(** * What a web request does to the node

    Every request is a sequence of primitive steps, each guarded by what the request is
    entitled to: hub operations by write access, edits of the allow-list by the admin
    scope, a claim by an authenticated user and a plausible callsign, and otherwise at
    most a visit, which makes an absent viewer present and absent again.  The theorems
    about requests are inductions over these steps. *)
From S2P Require Import Prelude Unicode GoStrings ChatModel ChatSeen ChatStore ChatHub.
From S2P Require Import HubProps HubTheorems PeerAllow PeerRouter Sqlite Web.
From stdpp Require Import options.
Local Open Scope Z_scope.
Import Webchat.

(** ** Hub operations on the store *)

Section hub_store.
Context {St : Type} `{!Store St}.
Implicit Types h : Hub.Hub St.

(** A hub operation leaves the node's name alone and touches the store at most by
    saving one message, which has an id. *)
Definition saves h h' : Prop :=
  Hub.h_ourNode h' = Hub.h_ourNode h
  ∧ (Hub.h_store h' = Hub.h_store h
     ∨ ∃ m, m_ID m ≠ [] ∧ Hub.h_store h' = (SaveMessage (Hub.h_store h) m).1).

Lemma saves_frame h h' :
  Hub.h_ourNode h' = Hub.h_ourNode h → Hub.h_store h' = Hub.h_store h → saves h h'.
Proof. intros H1 H2. split; [done|by left]. Qed.

Lemma saves_refl h : saves h h.
Proof. by apply saves_frame. Qed.

Lemma saves_emit es h h' : saves h h' → saves h (Hub.emit es h').2.
Proof. intros H. by destruct es. Qed.

Lemma saves_member t k h h' : saves h h' → saves h (Hub.member_add t k h').2.
Proof. intros H. unfold Hub.member_add. by destruct (_ !! _). Qed.

Lemma saves_ensure name h h' : saves h h' → saves h (Hub.ensureTopicLocked name h').2.
Proof. intros H. unfold Hub.ensureTopicLocked. st_simpl. by destruct (_ !! _). Qed.

Lemma saves_users g h h' : saves h h' → saves h (Hub.upd_users g h').
Proof. done. Qed.
Lemma saves_del t k h h' : saves h h' → saves h (Hub.member_del t k h').2.
Proof. done. Qed.

Lemma saves_publish ev m h h' :
  m_ID m ≠ [] →
  Hub.h_ourNode h' = Hub.h_ourNode h → Hub.h_store h' = Hub.h_store h →
  saves h (publish ev m h').2.
Proof.
  intros Hm H1 H2. pose proof (publish_spec ev m h') as H. cbn zeta in H.
  destruct (SaveMessage (Hub.h_store h') m) as [s err] eqn:E. rewrite H.
  assert (saves h (Hub.upd_store (λ _, s) (Hub.SeenID (m_ID m) h').2)) as Hs.
  { split; [exact H1|]. right. exists m. rewrite <- H2, E. done. }
  destruct err; [done|by apply saves_emit].
Qed.

Lemma saves_exec op h : saves h (Hub.exec op h).
Proof.
  destruct op as [usr|k|k t|k c t|k n|k n q|k f|c a v|c|i| |i|i]; cbn [Hub.exec].
  - unfold Hub.Join. st_simpl. case_decide; [apply saves_refl|]. st_simpl.
    apply saves_emit, saves_member, saves_users, saves_ensure. by apply saves_frame.
  - unfold Hub.Leave. st_simpl. destruct (_ !! _); [|apply saves_refl]. st_simpl.
    by apply saves_emit, saves_frame.
  - destruct (decide (clip t = [])) as [Hc|Hc];
      [unfold Hub.Post; rewrite decide_True by done; apply saves_refl|].
    destruct (Hub.h_users h !! canonKey k) as [usr|] eqn:E.
    + rewrite (Post_publish k t h usr Hc E). apply saves_publish; [apply SynthID_nonempty|done..].
    + unfold Hub.Post. rewrite decide_False by done. st_simpl. rewrite E. apply saves_refl.
  - destruct (decide (clip t = [])) as [Hc|Hc];
      [unfold Hub.Private; rewrite decide_True by done; apply saves_refl|].
    destruct (Hub.h_users h !! canonKey k) as [usr|] eqn:E;
      [destruct (Hub.userPresentLocked (Hub.h_users h) (normCall c)) eqn:Ep|].
    + rewrite (Private_publish k c t h usr Hc E Ep). apply saves_publish; [apply SynthID_nonempty|done..].
    + unfold Hub.Private. rewrite decide_False by done. st_simpl. rewrite E, Ep. apply saves_refl.
    + unfold Hub.Private. rewrite decide_False by done. st_simpl. rewrite E. apply saves_refl.
  - unfold Hub.SetTopic. case_decide; [apply saves_refl|]. st_simpl.
    destruct (_ !! _); [|apply saves_refl]. case_decide; [apply saves_refl|]. st_simpl.
    apply saves_emit, saves_member, saves_users, saves_ensure, saves_del, saves_refl.
  - unfold Hub.SetInfo. st_simpl. destruct (_ !! _); [|apply saves_refl].
    case_decide; [apply saves_refl|]. st_simpl. by apply saves_emit, saves_frame.
  - unfold Hub.SetFlags. st_simpl. destruct (_ !! _); [|apply saves_refl].
    case_decide; [apply saves_refl|]. st_simpl. by apply saves_emit, saves_frame.
  - unfold Hub.LinkNode. case_decide; [apply saves_refl|]. st_simpl. cbn [Hub.now fst snd].
    destruct (_ !! _); st_simpl; [by apply saves_frame|]. by apply saves_emit, saves_frame.
  - unfold Hub.UnlinkNode. st_simpl. destruct (_ !! _); [|apply saves_refl]. st_simpl.
    apply saves_emit. generalize (List.filter (Hub.via_node (normCall c))
      (map_to_list (Hub.h_users (Hub.upd_nodes (delete (normCall c)) h)))) as l.
    assert (saves h (Hub.upd_nodes (delete (normCall c)) h)) as H by by apply saves_frame.
    revert H. generalize (Hub.upd_nodes (delete (normCall c)) h) as h'.
    intros h' H l. revert h' H. induction l as [|e l IH]; intros h' H; [done|].
    cbn [Hub.drop_users]. st_simpl. apply IH. unfold Hub.drop_user. st_simpl. exact H.
  - unfold Hub.SeenID, Hub.seen_at. st_simpl. by apply saves_frame.
  - by apply saves_frame.
  - unfold Hub.cancel. st_simpl. case_decide; [by apply saves_frame|apply saves_refl].
  - unfold Hub.recv. st_simpl.
    destruct (_ !! _) as [[[|? ?] []]|]; try apply saves_refl; by apply saves_frame.
Qed.
(** The hub operations a viewer can cause: none of them ends anybody's presence. *)
Definition speaks (op : Hub.hub_op) : Prop :=
  match op with
  | Hub.OpPost _ _ | Hub.OpPrivate _ _ _ | Hub.OpSetTopic _ _ | Hub.OpSetInfo _ _ _
  | Hub.OpSetFlags _ _ => True
  | _ => False
  end.

Definition stays h h' : Prop :=
  ∀ k, is_Some (Hub.h_users h !! k) → is_Some (Hub.h_users h' !! k).

Lemma stays_users h h' : Hub.h_users h' = Hub.h_users h → stays h h'.
Proof. intros E k. by rewrite E. Qed.
Lemma stays_insert k v h h' :
  Hub.h_users h' = <[k := v]> (Hub.h_users h) → stays h h'.
Proof.
  intros E k' H. rewrite E, lookup_insert_is_Some. destruct (decide (k = k')); auto.
Qed.

Lemma users_member t k h : Hub.h_users (Hub.member_add t k h).2 = Hub.h_users h.
Proof. unfold Hub.member_add. by destruct (_ !! _). Qed.
Lemma users_ensure name h : Hub.h_users (Hub.ensureTopicLocked name h).2 = Hub.h_users h.
Proof. unfold Hub.ensureTopicLocked. st_simpl. by destruct (_ !! _). Qed.

Lemma speaks_stays op h : speaks op → stays h (Hub.exec op h).
Proof.
  destruct op as [v|v|k t|k c t|k n|k n q|k f|c a v|c|i| |i|i]; cbn [speaks Hub.exec];
    try done; intros _.
  - destruct (decide (clip t = [])) as [Hc|Hc];
      [unfold Hub.Post; rewrite decide_True by done; by apply stays_users|].
    destruct (Hub.h_users h !! canonKey k) as [usr|] eqn:E.
    + rewrite (Post_publish k t h usr Hc E). eapply stays_insert. by rewrite publish_users.
    + unfold Hub.Post. rewrite decide_False by done. st_simpl. rewrite E. by apply stays_users.
  - destruct (decide (clip t = [])) as [Hc|Hc];
      [unfold Hub.Private; rewrite decide_True by done; by apply stays_users|].
    destruct (Hub.h_users h !! canonKey k) as [usr|] eqn:E;
      [destruct (Hub.userPresentLocked (Hub.h_users h) (normCall c)) eqn:Ep|].
    + rewrite (Private_publish k c t h usr Hc E Ep). apply stays_users. by rewrite publish_users.
    + unfold Hub.Private. rewrite decide_False by done. st_simpl. rewrite E, Ep. by apply stays_users.
    + unfold Hub.Private. rewrite decide_False by done. st_simpl. rewrite E. by apply stays_users.
  - unfold Hub.SetTopic. case_decide; [by apply stays_users|]. st_simpl.
    destruct (_ !! _) as [usr|]; [|by apply stays_users]. case_decide; [by apply stays_users|].
    st_simpl. eapply (stays_insert (canonKey k)). rewrite (proj1 (emit_core _ _)).
    rewrite users_member. cbn [Hub.h_users Hub.upd_users]. by rewrite users_ensure.
  - unfold Hub.SetInfo. st_simpl. destruct (_ !! _); [|by apply stays_users].
    case_decide; [by apply stays_users|]. st_simpl. eapply stays_insert.
    by rewrite (proj1 (emit_core _ _)).
  - unfold Hub.SetFlags. st_simpl. destruct (_ !! _); [|by apply stays_users].
    case_decide; [by apply stays_users|]. st_simpl. eapply stays_insert.
    by rewrite (proj1 (emit_core _ _)).
Qed.
End hub_store.

(** ** The steps of a request *)

Section steps.
Context {St : Type} `{!Store St, !ClaimStore St}.
Context (s : Server) (now : Time) (r : Request).
Abbreviation id := (IdentityFromRequest r).
Implicit Types st : Site (St := St).

Inductive hub_step : Site (St := St) → Site (St := St) → Prop :=
| hs_op st op : speaks op → hub_step st (upd_hub (Hub.exec op) st).

Inductive web_step : Site (St := St) → Site (St := St) → Prop :=
| ws_hub st op : canWrite id = true → speaks op → web_step st (upd_hub (Hub.exec op) st)
| ws_present st call st2 :
    (* an absent viewer is made present and absent again; in between, a viewer with
       write access acts *)
    Hub.UserOf (hub st) (mkUserKey call (ourNode st)) = None →
    rtc hub_step (enter call st).2 st2 →
    canWrite id = true ∨ st2 = (enter call st).2 →
    web_step st (leave call st2).2
| ws_claim st call :
    TrimSpace (i_User id) ≠ [] → rq_Path r = bs "/claim" → rq_Method r = bs "POST" →
    (∃ raw, call = normClaim raw) → looksLikeCallsign call = true →
    web_step st (store_claim (TrimSpace (i_User id)) call now st).2
| ws_allow st edit c :
    isAdmin id = true → edit = Add c ∨ edit = Remove c →
    web_step st (on_allow edit st).2
| ws_persist st : isAdmin id = true → web_step st (persist st).2.

(** A computation within the steps of [R]. *)
Definition within (R : Site (St := St) → Site → Prop) {A} (m : ST (Site (St := St)) A) : Prop :=
  ∀ st, rtc R st (m st).2.

Lemma within_ret R {A} (a : A) : within R (mret a).
Proof. by intros st. Qed.
Lemma within_get R {A} (f : Site → A) : within R (st_get f).
Proof. by intros st. Qed.
Lemma within_bind R {A B} (m : ST (Site (St := St)) A) (k : A → ST (Site (St := St)) B) :
  within R m → (∀ a, within R (k a)) → within R (m ≫= k).
Proof. intros H1 H2 st. etrans; [apply H1|apply H2]. Qed.

Abbreviation does := (within web_step).
Abbreviation says := (within hub_step).

Lemma does_ret {A} (a : A) : does (mret a).
Proof. apply within_ret. Qed.
Lemma does_get {A} (f : Site → A) : does (st_get f).
Proof. apply within_get. Qed.
Lemma does_bind {A B} (m : ST (Site (St := St)) A) (k : A → ST (Site (St := St)) B) :
  does m → (∀ a, does (k a)) → does (m ≫= k).
Proof. apply within_bind. Qed.

Lemma says_hub {A} (m : ST (Hub.Hub St) A) op :
  speaks op → (∀ h, (m h).2 = Hub.exec op h) → says (on_hub m).
Proof.
  intros Hs Hm st. apply rtc_once.
  replace ((on_hub m st).2) with (upd_hub (Hub.exec op) st); [by constructor|].
  unfold on_hub, upd_hub. cbn. unfold hub. f_equal. unfold Router.upd_hub. by rewrite <- Hm.
Qed.

Lemma says_does {A} (m : ST (Site (St := St)) A) : canWrite id = true → says m → does m.
Proof.
  intros Hw Hm st. refine (rtc_subrel _ _ _ _ _ (Hm st)). intros ? ? []. by constructor.
Qed.

Lemma does_requirePost k : (rq_Method r = bs "POST" → does k) → does (requirePost r k).
Proof. intros H. unfold requirePost. case_decide; [auto|apply does_ret]. Qed.
Lemma does_requireWrite k : (canWrite id = true → does k) → does (requireWrite r k).
Proof. intros H. unfold requireWrite. destruct (canWrite id); [auto|apply does_ret]. Qed.
Lemma does_requireAdmin k : (isAdmin id = true → does k) → does (requireAdmin r k).
Proof. intros H. unfold requireAdmin. destruct (isAdmin id); [auto|apply does_ret]. Qed.
Lemma does_requireViewer k : (∀ call, does (k call)) → does (requireViewer s r k).
Proof.
  intros H. unfold requireViewer. apply does_bind; [apply does_get|].
  intros [call|]; [auto|apply does_ret].
Qed.

Lemma does_with_presence call k :
  canWrite id = true → (∀ key, says (k key)) → does (with_presence call k).
Proof.
  intros Hw Hk st. unfold with_presence. st_simpl.
  destruct (Hub.UserOf (hub st) (mkUserKey call (ourNode st))) eqn:E; [by apply says_does|].
  st_simpl. apply rtc_once. apply (ws_present st call); [done|apply Hk|by left].
Qed.

(** Looking only, a viewer leaves the trace of a visit. *)
Lemma does_look call (k : UserKey → Site → response) :
  does (with_presence (St := St) call (λ key, st_get (k key))).
Proof.
  intros st. unfold with_presence. st_simpl.
  destruct (Hub.UserOf (hub st) (mkUserKey call (ourNode st))) eqn:E; [done|]. st_simpl.
  apply rtc_once. apply (ws_present st call); [done|done|by right].
Qed.

Lemma does_edit fed edit c :
  isAdmin id = true → edit = Add c ∨ edit = Remove c → does (edit_allow (St := St) fed edit).
Proof.
  intros Ha He. unfold edit_allow. apply does_bind.
  { intros st. apply rtc_once. by econstructor. }
  intros changed. apply does_bind.
  { destruct (changed && fd_AllowStore fed); [|apply does_ret].
    intros st. apply rtc_once. by constructor. }
  intros [?|]; [apply does_ret|apply does_get].
Qed.

Lemma does_handleSend : does (handleSend s r).
Proof.
  apply does_requirePost; intros _. apply does_requireWrite; intros Hw.
  apply does_requireViewer; intros call. cbn zeta. case_decide; [apply does_ret|].
  apply does_with_presence; [done|]. intros key.
  apply within_bind; [|intros; apply within_ret].
  by apply (says_hub _ (Hub.OpPost key (TrimSpace (readField r (bs "text"))))).
Qed.

Lemma does_handleTopic : does (handleTopic s r).
Proof.
  apply does_requirePost; intros _. apply does_requireWrite; intros Hw.
  apply does_requireViewer; intros call. apply does_bind; [apply does_get|]. intros our.
  cbn zeta. case_decide; [apply does_ret|]. apply does_bind; [|intros; apply does_ret].
  apply says_does; [done|].
  by apply (says_hub _ (Hub.OpSetTopic (mkUserKey call our) (TrimSpace (readField r (bs "topic"))))).
Qed.

Lemma does_handleDM : does (handleDM s r).
Proof.
  apply does_requirePost; intros _. apply does_requireWrite; intros Hw.
  apply does_requireViewer; intros call.
  destruct (decodeJSON dm_schema (rq_Body r)) as [d|]; [|apply does_ret].
  cbn zeta. case_decide; [apply does_ret|]. apply does_with_presence; [done|]. intros key.
  apply within_bind; [|intros; apply within_ret].
  by apply (says_hub _ (Hub.OpPrivate key (ToUpper (TrimSpace (str_field d (bs "to"))))
    (TrimSpace (str_field d (bs "text"))))).
Qed.

Lemma does_handleSettings : does (handleSettings s r).
Proof.
  unfold handleSettings. case_decide; [|case_decide; [|apply does_ret]].
  { apply does_requireViewer; intros call. apply does_look. }
  apply does_requireWrite; intros Hw. apply does_requireViewer; intros call.
  apply does_with_presence; [done|]. intros key. unfold set_settings.
  destruct (decodeJSON settings_schema (rq_Body r)) as [d|]; [|apply within_ret].
  apply within_bind; [by apply (says_hub _ (Hub.OpSetInfo key (str_field d (bs "name"))
    (str_field d (bs "qth"))))|].
  intros [?|?]; [|apply within_ret]. cbn zeta. apply within_bind; [|intros [?|?];
    [apply within_get|apply within_ret]].
  match goal with |- within _ (on_hub (Hub.SetFlags _ ?f)) =>
    by apply (says_hub _ (Hub.OpSetFlags key f)) end.
Qed.

Lemma does_handleClaim : rq_Path r = bs "/claim" → does (handleClaim s now r).
Proof.
  intros Hp. apply does_requirePost; intros Hpost. cbn zeta. case_decide as Hu; [apply does_ret|].
  destruct (s_claims s); cbn [negb]; [|apply does_ret].
  destruct (looksLikeCallsign _) eqn:El; cbn [negb]; [|apply does_ret].
  apply does_bind; [|intros [[]|]; apply does_ret].
  intros st. apply rtc_once. constructor; eauto.
Qed.

Lemma does_handlePeers : does (handlePeers (St := St) s r).
Proof.
  unfold handlePeers. case_decide; [|apply does_ret].
  apply does_requireAdmin; intros Ha. destruct (s_fed s); [apply does_get|apply does_ret].
Qed.

Lemma does_handlePeersAllow : does (handlePeersAllow (St := St) s r).
Proof.
  apply does_requirePost; intros _. apply does_requireAdmin; intros Ha.
  apply does_bind; [apply does_get|]. intros allow.
  destruct (s_fed s) as [fed|]; [|apply does_ret]. destruct allow; [|apply does_ret].
  destruct (decodeJSON allow_schema (rq_Body r)) as [d|]; [|apply does_ret].
  cbn zeta. case_decide; [apply does_ret|].
  case_decide; [by eapply does_edit; auto|]. case_decide; [by eapply does_edit; auto|].
  apply does_ret.
Qed.

Lemma does_mux : does (mux s now r).
Proof.
  unfold mux. cbn zeta.
  case_decide; [apply does_ret|].
  case_decide; [apply does_requireViewer; intros; apply does_ret|].
  case_decide; [apply does_handleSend|].
  case_decide; [apply does_handleTopic|].
  case_decide; [apply does_get|].
  case_decide; [apply does_get|].
  case_decide; [apply does_requireViewer; intros; apply does_get|].
  case_decide; [apply does_handleDM|].
  case_decide; [apply does_handleSettings|].
  case_decide; [by apply does_handleClaim|].
  case_decide; [apply does_handlePeers|].
  case_decide; [apply does_handlePeersAllow|].
  unfold handleIndex. case_decide; [|apply does_ret].
  apply does_bind; [apply does_get|]. intros [?|]; apply does_ret.
Qed.

(** A request that the gateway did not stamp, other than the liveness probe. *)
Definition unstamped : Prop :=
  Get (rq_Header r) (bs "X-Pdn-Gateway") ≠ bs "1" ∧ rq_Path r ≠ bs "/healthz".

Lemma serve_steps : does (serve s now r).
Proof.
  unfold serve, gatewayTrust. case_decide; [|case_decide; [|apply does_ret]];
    (apply does_bind; [apply does_mux|intros; apply does_ret]).
Qed.

Lemma serve_unstamped st :
  unstamped → serve s now r st
    = ((false, forbidden (bs "forbidden: requests must arrive through the pdn app-gateway")), st).
Proof. intros [H1 H2]. unfold serve, gatewayTrust. by rewrite !decide_False. Qed.

End steps.
