(* ===== verification/WebProps.v ===== *)
(** * The web chat keeps its promises

    Who may change what through the web, who a viewer is, and that the web and the
    radio plane show and do the same. *)
From S2P Require Import Prelude Unicode GoStrings ChatModel ChatSeen ChatStore ChatHub.
From S2P Require Import HubProps HubTheorems PeerProto PeerAllow PeerRouter PeerLink.
From S2P Require Import SessionInput Session SessionProps Sqlite SqliteProps Web WebSteps.
From stdpp Require Import options.
Local Open Scope Z_scope.
Import Webchat.

(** ** Claims as the web relies on them *)

(** No two users hold one callsign, whatever its case. *)
Definition one_holder (m : gmap gostring gostring) : Prop :=
  ∀ usr usr' cs cs', m !! usr = Some cs → m !! usr' = Some cs' →
    Durable.nocase cs = Durable.nocase cs' → usr = usr'.

Class ClaimLaws (St : Type) `{!Store St, !StoreLaws St, !ClaimStore St} := {
  cl_map : St → gmap gostring gostring;
  cl_get s usr v : store_ok s → ClaimedCall s usr = inl v → v = cl_map s !! usr;
  cl_claimed s usr cs t :
    store_ok s → one_holder (cl_map s) → (Claim s usr cs t).2 = None →
    cl_map (Claim s usr cs t).1 = <[usr := cs]> (cl_map s)
    ∧ ∀ usr' cs', cl_map s !! usr' = Some cs' → usr' ≠ usr →
        Durable.nocase cs' ≠ Durable.nocase cs;
  cl_refused s usr cs t e :
    store_ok s → one_holder (cl_map s) → (Claim s usr cs t).2 = Some e →
    cl_map (Claim s usr cs t).1 = cl_map s;
  cl_frame s usr cs t :
    store_ok s → store_ok (Claim s usr cs t).1
    ∧ store_log (Claim s usr cs t).1 = store_log s
    ∧ store_config (Claim s usr cs t).1 = store_config s;
  cl_save s m : store_ok s → cl_map (SaveMessage s m).1 = cl_map s;
  cl_config s k v : store_ok s → cl_map (SetConfig s k v).1 = cl_map s }.

#[export] Program Instance durable_claim_laws {D} `{!Durable.Engine D, !Durable.EngineLaws D} :
  ClaimLaws D := {| cl_map d := fst <$> Durable.tbl_claims d |}.
Next Obligation.
  intros D ? ? d usr v _ ->%claimed_call_spec. by rewrite lookup_fmap.
Qed.
Next Obligation.
  intros D ? ? d usr cs t _ Ho Hn. cbn [Claim durable_claims] in *.
  destruct (Durable.Claim d usr cs t) as [d' res] eqn:E. cbn [fst snd] in *. subst res.
  apply Claim_spec in E as (_ & Hh & a & ->).
  2:{ intros u1 u2 c1 c2 a1 a2 H1 H2. apply Ho; by rewrite lookup_fmap, ?H1, ?H2. }
  split; [by rewrite fmap_insert|]. intros usr' cs' Hl Hne Hc. destruct Hh.
  rewrite lookup_fmap in Hl. destruct (Durable.tbl_claims d !! usr') as [[c' a']|] eqn:E'; [|done].
  injection Hl as ->. by exists usr', cs', a'.
Qed.
Next Obligation.
  intros D ? ? d usr cs t e _ Ho Hn. cbn [Claim durable_claims] in *.
  destruct (Durable.Claim d usr cs t) as [d' res] eqn:E. cbn [fst snd] in *. subst res.
  apply Claim_spec in E as (_ & E).
  2:{ intros u1 u2 c1 c2 a1 a2 H1 H2. apply Ho; by rewrite lookup_fmap, ?H1, ?H2. }
  destruct e; [by destruct E as [_ ->]|by rewrite E].
Qed.
Next Obligation.
  intros D ? ? d usr cs t _. cbn [Claim durable_claims]. split; [done|].
  assert (same_rows d (Durable.Claim d usr cs t).1) as [H1 H2].
  { unfold Durable.Claim. destruct (Durable.claim_own d usr cs); [done|].
    destruct (Durable.claim_check d usr cs); [done|].
    destruct (Durable.claim_write d usr cs t) as [d' res] eqn:E.
    by apply claim_write_spec in E as [E _]. }
  cbn. unfold log. by rewrite H1, H2.
Qed.
Next Obligation. intros D ? ? d m _. cbn. by rewrite (proj2 (save_frame d m)). Qed.
Next Obligation.
  intros D ? ? d k v _. cbn. by rewrite (proj1 (proj2 (set_config_frame d k v))).
Qed.

(** ** A visit *)

Section visits.
Context {St : Type} `{!Store St}.
Implicit Types h : Hub.Hub St.

(** Joining in the default topic. *)
Lemma Join_general usr h :
  hub_wf h → u_Topic usr = [] → normCall (u_Call usr) ≠ [] → normCall (o_Node (u_Origin usr)) ≠ [] →
  ∃ stored, (Hub.Join usr h).1 = inl stored ∧ Key stored = canonKey (Key usr)
  ∧ u_Topic stored = DefaultTopic
  ∧ let h' := (Hub.Join usr h).2 in
    Hub.h_users h' = <[canonKey (Key usr) := stored]> (Hub.h_users h)
    ∧ Hub.h_topics h' = Hub.h_topics h ∧ Hub.h_nodes h' = Hub.h_nodes h
    ∧ Hub.h_store h' = Hub.h_store h ∧ Hub.h_ourNode h' = Hub.h_ourNode h.
Proof.
  intros Hwf Ht Hc Hn. pose proof (cw_default _ _ _ (hw_core _ Hwf)) as Hd.
  assert (Hub.ensureTopicLocked DefaultTopic (Hub.upd_tick S h) = (DefaultTopic, Hub.upd_tick S h)) as He.
  { unfold Hub.ensureTopicLocked. st_simpl. cbn [Hub.h_topics Hub.upd_tick]. by rewrite Hd. }
  unfold Hub.Join. st_simpl. rewrite decide_False by (cbn; tauto).
  st_simpl. cbn [u_Topic user_id]. rewrite Ht, decide_True by done. cbn [Hub.now fst snd].
  cbn [user_times user_topic user_id u_Topic]. rewrite He. cbn [fst snd].
  eexists. split; [done|]. split; [done|]. split; [done|]. unfold Hub.member_add. cbn [snd].
  destruct (Hub.h_member _ !! normTopicKey DefaultTopic); by split_and!.
Qed.

Lemma Leave_spec k h :
  let h' := (Hub.Leave k h).2 in
  Hub.h_users h' = delete (canonKey k) (Hub.h_users h)
  ∧ Hub.h_topics h' = Hub.h_topics h ∧ Hub.h_nodes h' = Hub.h_nodes h
  ∧ Hub.h_store h' = Hub.h_store h ∧ Hub.h_ourNode h' = Hub.h_ourNode h.
Proof.
  unfold Hub.Leave. st_simpl. destruct (Hub.h_users h !! canonKey k) eqn:E; [by split_and!|].
  cbn. by rewrite delete_id.
Qed.
End visits.

(** ** Access *)

Section access.
Context {St : Type} `{!Store St, !StoreLaws St, !ClaimStore St, !ClaimLaws St}.
Implicit Types st : Site (St := St).

(** What everybody sees of a node: its users with their names, topics and flags, its
    topics, its mesh, the message log; and its links. *)
Record same_content st st' : Prop := {
  sc_users : Hub.h_users (hub st') = Hub.h_users (hub st);
  sc_topics : Hub.h_topics (hub st') = Hub.h_topics (hub st);
  sc_nodes : Hub.h_nodes (hub st') = Hub.h_nodes (hub st);
  sc_log : store_log (store st') = store_log (store st) }.

#[local] Instance same_content_refl : Reflexive same_content.
Proof. by intros st. Qed.
#[local] Instance same_content_trans : Transitive same_content.
Proof. intros st1 st2 st3 [] []. split; congruence. Qed.

(** The number of open streams of a callsign. *)
Definition count st (call : gostring) : Z := default 0 (st_ref st !! call).
Definition counts_ok (ref : gmap gostring Z) : Prop := ∀ call n, ref !! call = Some n → 0 ≤ n.

Definition site_ok st : Prop :=
  hub_wf (hub st) ∧ store_ok (store st) ∧ counts_ok (st_ref st).

(** What the web never touches: the peer links. *)
Definition same_links st st' : Prop :=
  Router.w_links (st_world st') = Router.w_links (st_world st)
  ∧ Router.w_heap (st_world st') = Router.w_heap (st_world st).

Lemma hub_step_ok op st :
  site_ok st → site_ok (upd_hub (Hub.exec op) st)
  ∧ store_config (store (upd_hub (Hub.exec op) st)) = store_config (store st)
  ∧ cl_map (store (upd_hub (Hub.exec op) st)) = cl_map (store st).
Proof.
  intros (Hwf & Hok & Hr). destruct (saves_exec op (hub st)) as [_ Hs].
  unfold site_ok, store. change (hub (upd_hub (Hub.exec op) st)) with (Hub.exec op (hub st)).
  destruct Hs as [E|(m & _ & E)]; rewrite E.
  - split; [|done]. split_and!; [by apply exec_keeps|done|done].
  - split; [split_and!; [by apply exec_keeps|by apply save_ok|done]|].
    split; [by apply save_config|by apply cl_save].
Qed.

(** What happens around one user: everything else stays. *)
Record around (k : UserKey) st st' : Prop := {
  ar_ok : site_ok st → site_ok st';
  ar_users k' : k' ≠ k → Hub.h_users (hub st') !! k' = Hub.h_users (hub st) !! k';
  ar_topics : Hub.h_topics (hub st') = Hub.h_topics (hub st);
  ar_nodes : Hub.h_nodes (hub st') = Hub.h_nodes (hub st);
  ar_store : store st' = store st;
  ar_name : ourNode st' = ourNode st;
  ar_links : same_links st st';
  ar_allow : st_allow st' = st_allow st }.

Lemma around_refl k st : around k st st.
Proof. by split. Qed.
Lemma around_trans k st1 st2 st3 : around k st1 st2 → around k st2 st3 → around k st1 st3.
Proof.
  intros [] []. split; try congruence; [auto| |].
  - intros k' Hk. rewrite ar_users1, ar_users0 by done. done.
  - destruct ar_links0, ar_links1. split; congruence.
Qed.
Lemma around_ref k g st : counts_ok (g (st_ref st)) → around k st (upd_ref g st).
Proof. intros Hg. split; try done. intros (? & ? & ?). by split_and!. Qed.

Lemma counts_insert call n ref : 0 ≤ n → counts_ok ref → counts_ok (<[call := n]> ref).
Proof. intros Hn Hr c m. rewrite lookup_insert_Some. intros [[_ <-]|[_ H]]; [done|eauto]. Qed.
Lemma counts_delete call ref : counts_ok ref → counts_ok (delete call ref).
Proof. intros Hr c m [_ H]%lookup_delete_Some. eauto. Qed.
Lemma count_nonneg st call : counts_ok (st_ref st) → 0 ≤ count st call.
Proof. intros H. unfold count. destruct (st_ref st !! call) eqn:E; cbn; [by eapply H|lia]. Qed.

(** The key of a web user. *)
Definition web_key st (call : gostring) : UserKey := canonKey (mkUserKey call (ourNode st)).

Lemma join_around call st :
  site_ok st → around (web_key st call) st (on_hub (Hub.Join (web_user (ourNode st) call)) st).2.
Proof.
  intros (Hwf & Hok & Hr). set (usr := web_user (ourNode st) call).
  destruct (decide (normCall call = [] ∨ normCall (ourNode st) = [])) as [Hd|Hd].
  - assert (Hub.Join usr (hub st) = (inr ErrNoSuchUser, hub st)) as E.
    { unfold Hub.Join. st_simpl. by rewrite decide_True. }
    unfold on_hub. rewrite E. cbn [snd]. by split.
  - apply Decidable.not_or in Hd as [Hc Hn].
    destruct (Join_general usr (hub st) Hwf eq_refl Hc Hn) as (w & _ & _ & _ & H1 & H2 & H3 & H4 & H5).
    unfold on_hub. cbn [snd].
    split; try done; unfold store, ourNode; cbn [hub upd_hub st_world Router.upd_hub Router.w_hub].
    + intros _. split_and!; [cbn; by apply Join_keeps|unfold store; cbn [hub upd_hub st_world Router.upd_hub Router.w_hub]; by rewrite H4|done].
    + intros k' Hk. rewrite H1. by rewrite lookup_insert_ne.
Qed.

Lemma leave_hub_around call st :
  around (web_key st call) st (on_hub (Hub.Leave (mkUserKey call (ourNode st))) st).2
  ∧ Hub.h_users (hub (on_hub (Hub.Leave (mkUserKey call (ourNode st))) st).2) !! web_key st call = None.
Proof.
  destruct (Leave_spec (mkUserKey call (ourNode st)) (hub st)) as (L1 & L2 & L3 & L4 & L5).
  unfold on_hub. cbn [snd]. split.
  - unfold ourNode in L1, L4, L5.
    split; try done; unfold store, ourNode; cbn [hub upd_hub st_world Router.upd_hub Router.w_hub].
    + intros (Hwf & Hok & Hr).
      split_and!; [cbn; by apply Leave_keeps|unfold store; cbn [hub upd_hub st_world Router.upd_hub Router.w_hub]; by rewrite L4|done].
    + intros k' Hk. rewrite L1. by rewrite lookup_delete_ne.
  - cbn [hub upd_hub st_world Router.upd_hub Router.w_hub]. rewrite L1. by rewrite lookup_delete_eq.
Qed.

Lemma enter_count_spec call st :
  enter_count call st = ((count st call =? 0), upd_ref <[call := count st call + 1]> st).
Proof. done. Qed.
Lemma leave_count_spec call st :
  0 ≤ count st call →
  leave_count call st
  = (bool_decide (count st call ≤ 1),
     upd_ref (λ ref, if decide (count st call ≤ 1) then delete call ref
                     else <[call := count st call - 1]> ref) st).
Proof.
  intros Hn. unfold leave_count. st_simpl. fold (count st call).
  destruct (Z.ltb_spec 0 (count st call)), (Z.eqb_spec (count st call - 1) 0),
    (Z.eqb_spec (count st call) 0), (decide (count st call ≤ 1)); try lia;
    rewrite ?bool_decide_eq_true_2, ?bool_decide_eq_false_2 by done; done.
Qed.

Lemma enter_hub_around call b st :
  site_ok st →
  around (web_key st call) st (enter_hub call b st).2
  ∧ st_ref (enter_hub call b st).2 = st_ref st
  ∧ hub (enter_hub call b st).2
    = if b then (Hub.Join (web_user (ourNode st) call) (hub st)).2 else hub st.
Proof.
  intros Hok. unfold enter_hub. st_simpl. destruct b; [|by split; [apply around_refl|]].
  set (m := on_hub (Hub.Join (web_user (ourNode st) call)) st).
  enough (around (web_key st call) st m.2 ∧ st_ref m.2 = st_ref st
    ∧ hub m.2 = (Hub.Join (web_user (ourNode st) call) (hub st)).2) by (by destruct m.1).
  split; [|done]. by apply join_around.
Qed.
Lemma leave_hub_spec call b st :
  around (web_key st call) st (leave_hub call b st).2
  ∧ st_ref (leave_hub call b st).2 = st_ref st
  ∧ Hub.h_users (hub (leave_hub call b st).2)
    = (if b then delete (web_key st call) (Hub.h_users (hub st)) else Hub.h_users (hub st)).
Proof.
  unfold leave_hub. st_simpl. destruct b; [|by split; [apply around_refl|]].
  split; [apply leave_hub_around|]. split; [done|].
  apply (Leave_spec (mkUserKey call (ourNode st)) (hub st)).
Qed.

Lemma enter_around call st :
  site_ok st →
  around (web_key st call) st (enter call st).2
  ∧ st_ref (enter call st).2 = <[call := count st call + 1]> (st_ref st)
  ∧ (count st call ≠ 0 → hub (enter call st).2 = hub st)
  ∧ (count st call = 0 →
     hub (enter call st).2 = (Hub.Join (web_user (ourNode st) call) (hub st)).2).
Proof.
  intros Hok. unfold enter, mbind, ST_bind. rewrite enter_count_spec. cbn [fst snd].
  set (st1 := upd_ref _ st). pose proof (count_nonneg st call (proj2 (proj2 Hok))) as Hn.
  assert (around (web_key st call) st st1) as H1
    by (apply around_ref, counts_insert; [lia|apply Hok]).
  destruct (enter_hub_around call (count st call =? 0) st1) as (H2 & H3 & H4); [by apply H1|].
  split; [by eapply around_trans|]. split; [by rewrite H3|]. rewrite H4.
  by destruct (Z.eqb_spec (count st call) 0).
Qed.

Lemma leave_around call st :
  site_ok st →
  around (web_key st call) st (leave call st).2
  ∧ (Hub.h_users (hub st) !! web_key st call = None ∨ count st call ≤ 1 →
     Hub.h_users (hub (leave call st).2) !! web_key st call = None)
  ∧ (1 < count st call → hub (leave call st).2 = hub st)
  ∧ st_ref (leave call st).2 = (if decide (count st call ≤ 1) then delete call (st_ref st)
                                else <[call := count st call - 1]> (st_ref st)).
Proof.
  intros Hok. pose proof (count_nonneg st call (proj2 (proj2 Hok))) as Hn.
  unfold leave, mbind, ST_bind. rewrite leave_count_spec by done. cbn [fst snd].
  set (st1 := upd_ref _ st). set (b := bool_decide _).
  assert (around (web_key st call) st st1) as H1.
  { apply around_ref. case_decide; [apply counts_delete, Hok|apply counts_insert; [lia|apply Hok]]. }
  destruct (leave_hub_spec call b st1) as (H2 & H3 & H4).
  split; [by eapply around_trans|]. split; [|split].
  - intros H. rewrite H4. change (hub st1) with (hub st). change (web_key st1 call) with (web_key st call).
    destruct b eqn:Eb; [by rewrite lookup_delete_eq|]. apply bool_decide_eq_false in Eb. by destruct H.
  - intros H. unfold b, leave_hub. st_simpl. by rewrite bool_decide_eq_false_2 by lia.
  - rewrite H3. done.
Qed.

(** A visit leaves everything as it was. *)
Lemma visit_ok call st :
  site_ok st → Hub.UserOf (hub st) (mkUserKey call (ourNode st)) = None →
  around (web_key st call) st (leave call (enter call st).2).2
  ∧ Hub.h_users (hub (leave call (enter call st).2).2) = Hub.h_users (hub st).
Proof.
  intros Hok Hu.
  destruct (enter_around call st Hok) as (E1 & E2 & E3 & E4). set (st1 := (enter call st).2) in *.
  destruct (leave_around call st1 (ar_ok _ _ _ E1 Hok)) as (L1 & L2 & _ & _).
  assert (web_key st1 call = web_key st call) as Ek by (unfold web_key; by rewrite (ar_name _ _ _ E1)).
  rewrite Ek in L1, L2. assert (around (web_key st call) st (leave call st1).2) as HA
    by (eapply around_trans; done).
  split; [done|]. apply map_eq. intros k. destruct (decide (k = web_key st call)) as [->|Hk].
  - transitivity (None : option User); [|symmetry; exact Hu]. apply L2.
    destruct (decide (count st call = 0)) as [E0|E0].
    + right. unfold count at 1. rewrite E2, lookup_insert_eq. cbn. lia.
    + left. by rewrite E3.
  - by apply (ar_users _ _ _ HA).
Qed.

(** What the acting of a viewer leaves alone. *)
Record harmless st st' : Prop := {
  hl_ok : site_ok st';
  hl_name : ourNode st' = ourNode st;
  hl_counts call : count st' call = count st call;
  hl_stays : stays (hub st) (hub st');
  hl_links : same_links st st';
  hl_allow : st_allow st' = st_allow st }.

Lemma harmless_refl st : site_ok st → harmless st st.
Proof. intros H. split; try done. by apply stays_users. Qed.
Lemma harmless_trans st1 st2 st3 : harmless st1 st2 → harmless st2 st3 → harmless st1 st3.
Proof.
  intros [H1 N1 C1 S1 L1 A1] [H2 N2 C2 S2 L2 A2].
  split; [done|congruence| | |split; destruct L1, L2; congruence|congruence].
  - intros call. by rewrite C2.
  - intros k Hk. auto.
Qed.

Lemma hub_steps_frame st st' :
  rtc hub_step st st' → site_ok st →
  harmless st st' ∧ st_ref st' = st_ref st
  ∧ store_config (store st') = store_config (store st)
  ∧ cl_map (store st') = cl_map (store st).
Proof.
  induction 1 as [st|st1 st2 st3 H _ IH]; intros Hok; [by split; [apply harmless_refl|]|].
  assert (harmless st1 st2 ∧ st_ref st2 = st_ref st1
    ∧ store_config (store st2) = store_config (store st1)
    ∧ cl_map (store st2) = cl_map (store st1)) as (H1 & H2 & H3 & H4).
  { destruct H as [st op Hs]. destruct (hub_step_ok op st Hok) as (H1 & H2 & H3).
    split; [|done]. split; try done; [apply (saves_exec op (hub st))|by apply speaks_stays]. }
  destruct (IH (hl_ok _ _ H1)) as (H5 & H6 & H7 & H8).
  split; [by eapply harmless_trans|]. split_and!; congruence.
Qed.

(** A viewer present for the time of a request. *)
Lemma present_frame call st st2 :
  site_ok st → Hub.UserOf (hub st) (mkUserKey call (ourNode st)) = None →
  rtc hub_step (enter call st).2 st2 →
  harmless st (leave call st2).2
  ∧ store_config (store (leave call st2).2) = store_config (store st)
  ∧ cl_map (store (leave call st2).2) = cl_map (store st).
Proof.
  intros Hok Hu Hs.
  destruct (enter_around call st Hok) as (E1 & E2 & E3 & E4). set (st1 := (enter call st).2) in *.
  assert (site_ok st1) as Hok1 by by apply E1.
  destruct (hub_steps_frame st1 st2 Hs Hok1) as (F1 & F2 & F3 & F4).
  destruct (leave_around call st2 (hl_ok _ _ F1)) as (L1 & L2 & L3 & L4).
  assert (ourNode st2 = ourNode st) as En
    by (rewrite (hl_name _ _ F1); apply E1).
  assert (web_key st2 call = web_key st call) as Ek by (unfold web_key; by rewrite En).
  rewrite Ek in L1, L2. rewrite (ar_store _ _ _ L1), F3, F4, (ar_store _ _ _ E1).
  split; [|done]. split.
  - apply L1, F1.
  - by rewrite (ar_name _ _ _ L1).
  - intros c. pose proof (count_nonneg st call (proj2 (proj2 Hok))) as Hn.
    assert (count st2 call = count st call + 1) as Ec
      by (unfold count at 1; rewrite F2, E2, lookup_insert_eq; done).
    unfold count at 1. rewrite L4, Ec, F2, E2.
    destruct (decide (count st call + 1 ≤ 1)); (destruct (decide (c = call)) as [->|Hc]).
    + rewrite lookup_delete_eq. cbn. lia.
    + by rewrite lookup_delete_ne, lookup_insert_ne.
    + rewrite lookup_insert_eq. cbn. lia.
    + by rewrite !lookup_insert_ne.
  - intros k Hk. destruct (decide (k = web_key st call)) as [->|Hne].
    { change (Hub.UserOf (hub st) (mkUserKey call (ourNode st)) = None) in Hu.
      unfold Hub.UserOf in Hu. unfold web_key in Hk. rewrite Hu in Hk. by destruct Hk. }
    rewrite (ar_users _ _ _ L1) by done. apply (hl_stays _ _ F1).
    by rewrite (ar_users _ _ _ E1).
  - destruct (ar_links _ _ _ E1), (hl_links _ _ F1), (ar_links _ _ _ L1). split; congruence.
  - rewrite (ar_allow _ _ _ L1), (hl_allow _ _ F1). apply E1.
Qed.

(** Each kind of step, against what a request may not do. *)
Section steps.
Context (s : Server) (now : Time) (r : Request).
Abbreviation id := (IdentityFromRequest r).

Lemma claim_frame call st :
  site_ok st →
  let st' := (store_claim (TrimSpace (i_User id)) call now st).2 in
  site_ok st' ∧ same_content st st' ∧ same_links st st' ∧ st_allow st' = st_allow st
  ∧ store_config (store st') = store_config (store st)
  ∧ store st' = (Claim (store st) (TrimSpace (i_User id)) call now).1.
Proof using Type*.
  intros (Hwf & Hok & Hr). unfold store_claim.
  destruct (cl_frame (store st) (TrimSpace (i_User id)) call now Hok) as (F1 & F2 & F3).
  destruct (Claim (store st) (TrimSpace (i_User id)) call now) as [s' e] eqn:E. cbn [fst snd] in *.
  split_and!; try done. split_and!; [|done|done]. by destruct Hwf.
Qed.

Lemma persist_frame st :
  site_ok st →
  let st' := (persist st).2 in
  site_ok st' ∧ same_content st st' ∧ same_links st st' ∧ st_allow st' = st_allow st
  ∧ (cl_map (store st') = cl_map (store st)).
Proof using Type*.
  intros (Hwf & Hok & Hr). unfold persist, PersistAllowList. cbn [acs_SetConfig chat_allow_store].
  set (raw := encodeAllow (Entries (st_allow st))).
  pose proof (config_ok (store st) ConfigKVAllowKey raw Hok) as H1.
  pose proof (config_log (store st) ConfigKVAllowKey raw) as H2.
  pose proof (cl_config (store st) ConfigKVAllowKey raw Hok) as H3.
  destruct (SetConfig (store st) ConfigKVAllowKey raw) as [s' e] eqn:E. cbn [fst snd] in *.
  split_and!; try done. split_and!; [|done|done]. by destruct Hwf.
Qed.

Lemma allow_frame edit st :
  let st' := (on_allow (A := bool) edit st).2 in
  (site_ok st → site_ok st') ∧ same_content st st' ∧ same_links st st' ∧ store st' = store st.
Proof. by split_and!. Qed.

(** What every request keeps, what one without write access keeps, and what one without
    the admin scope keeps. *)
Definition permitted st st' : Prop :=
  site_ok st' ∧ same_links st st'
  ∧ (canWrite id = false → same_content st st')
  ∧ (isAdmin id = false →
     st_allow st' = st_allow st ∧ store_config (store st') = store_config (store st)).

Lemma web_step_permitted st st' : site_ok st → web_step now r st st' → permitted st st'.
Proof using Type*.
  intros Hok Hs. revert Hok.
  destruct Hs as [st0 op Hw Hsp|st0 call st2 Hu Hst Hor|st0 call Hu _ _ _ _|st0 edit c Ha _|st0 Ha];
    intros Hok.
  - destruct (hub_step_ok op st0 Hok) as (H1 & H2 & _).
    split_and!; try done; congruence.
  - destruct (present_frame call st0 st2 Hok Hu Hst) as (HA & Hc & _).
    split; [apply HA|]. split; [apply HA|]. split; [|intros _; split; [apply HA|done]].
    intros Hw. destruct Hor as [?| ->]; [congruence|].
    destruct (visit_ok call st0 Hok Hu) as [HB Hus].
    split; [done|apply HB|apply HB|by rewrite (ar_store _ _ _ HB)].
  - destruct (claim_frame call st0 Hok) as (H1 & H2 & [H3 H3b] & H4 & H5 & _). by split_and!.
  - split_and!; try done; congruence.
  - destruct (persist_frame st0 Hok) as (H1 & H2 & [H3 H3b] & H4 & _).
    split_and!; try done; congruence.
Qed.

Lemma permitted_refl st : site_ok st → permitted st st.
Proof using Type*. intros H. by split_and!. Qed.
Lemma permitted_trans st1 st2 st3 : permitted st1 st2 → permitted st2 st3 → permitted st1 st3.
Proof using Type*.
  intros (H1 & [H2 H2'] & H3 & H4) (H5 & [H6 H6'] & H7 & H8).
  split; [done|split; [split; congruence|split]].
  - intros Hw. etrans; [by apply H3|by apply H7].
  - intros Ha. destruct (H8 Ha) as [-> ->]. by apply H4.
Qed.

Lemma web_steps_permitted st st' : rtc (web_step now r) st st' → site_ok st → permitted st st'.
Proof using Type*.
  induction 1 as [st|st1 st2 st3 H _ IH]; intros Hok; [by apply permitted_refl|].
  pose proof (web_step_permitted st1 st2 Hok H) as Hp.
  eapply permitted_trans; [exact Hp|]. by apply IH, Hp.
Qed.
End steps.
End access.

(** Who a request is from, by what the gateway says. *)
Definition viewer_user (r : Request) : gostring := TrimSpace (i_User (IdentityFromRequest r)).
Definition viewer_scope (r : Request) : gostring := TrimSpace (i_Scope (IdentityFromRequest r)).

(** The scope ladder: a signed-in viewer writes with the scope operate or admin and
    administers with the scope admin, in any case of letters; a node without sign-in has
    its owner only, who may do everything. *)
Definition may_write (r : Request) : Prop :=
  viewer_user r = [] ∨ ToLower (viewer_scope r) ∈ [bs "operate"; bs "admin"].
Definition may_administer (r : Request) : Prop :=
  viewer_user r = [] ∨ EqualFold (viewer_scope r) (bs "admin") = true.

Lemma canWrite_spec r : canWrite (IdentityFromRequest r) = true ↔ may_write r.
Proof.
  unfold canWrite, may_write. fold (viewer_user r) (viewer_scope r).
  case_decide as H; [tauto|]. cbn zeta. unfold ScopeOperate, ScopeAdmin.
  rewrite orb_true_iff, !bool_decide_eq_true. set_solver.
Qed.
Lemma isAdmin_spec r : isAdmin (IdentityFromRequest r) = true ↔ may_administer r.
Proof.
  unfold isAdmin, may_administer. fold (viewer_user r) (viewer_scope r).
  case_decide as H; [tauto|]. unfold ScopeAdmin. tauto.
Qed.

(** What a request does to the node before it opens a stream. *)
Lemma serve_permitted {St : Type} `{!Store St, !StoreLaws St, !ClaimStore St, !ClaimLaws St}
    (s : Server) now r (st : Site (St := St)) :
  site_ok st →
  let st' := (serve s now r st).2 in
  site_ok st' ∧ same_links st st'
  ∧ (¬ may_write r → same_content st st')
  ∧ (¬ may_administer r →
     st_allow st' = st_allow st ∧ store_config (store st') = store_config (store st)).
Proof.
  intros Hok st'.
  destruct (web_steps_permitted now r st st' (serve_steps s now r st) Hok) as (H1 & H2 & H3 & H4).
  split_and!; [done|done|..].
  - intros Hw. apply H3, not_true_is_false. by rewrite canWrite_spec.
  - intros Ha. apply H4, not_true_is_false. by rewrite isAdmin_spec.
Qed.

(** ** Who a viewer is *)

Lemma looks_ascii cs : looksLikeCallsign cs = true → ascii (TrimSpace cs).
Proof.
  unfold looksLikeCallsign. case_match; [done|]. rewrite andb_true_iff. intros [Hr _].
  apply ascii_of_runes. rewrite forallb_forall in Hr. apply Forall_forall.
  intros r Hin%list_elem_of_In. specialize (Hr r Hin). unfold call_rune, digit_rune in Hr. lia.
Qed.

(** The state of the claims: exclusive, and plausible callsigns only. *)
Definition claims_ok (m : gmap gostring gostring) : Prop :=
  one_holder m ∧ ∀ usr cs, m !! usr = Some cs → looksLikeCallsign cs = true.

(** What happens to a node between requests: the hub serves the other planes. *)
Inductive web_event :=
| WebRequest (now : Time) (r : Request)
| HubOp (op : Hub.hub_op).

Section identity.
Context {St : Type} `{!Store St, !StoreLaws St, !ClaimStore St, !ClaimLaws St}.
Context (s : Server).
Implicit Types st : Site (St := St).

Definition web_exec (e : web_event) st : Site :=
  match e with
  | WebRequest now r => (serve s now r st).2
  | HubOp op => upd_hub (Hub.exec op) st
  end.
Definition web_run (es : list web_event) st : Site := foldl (λ st e, web_exec e st) st es.

(** Nobody's claim changes but that of the requesting user. *)
Definition claims_step (usr : gostring) st st' : Prop :=
  (claims_ok (cl_map (store st)) → claims_ok (cl_map (store st')))
  ∧ ∀ usr', usr' ≠ usr → claims_ok (cl_map (store st)) →
      cl_map (store st') !! usr' = cl_map (store st) !! usr'.

Lemma claims_same usr st st' :
  cl_map (store st') = cl_map (store st) → claims_step usr st st'.
Proof. intros E. by split; rewrite E. Qed.

Lemma store_claim_step usr call now st :
  site_ok st → looksLikeCallsign call = true →
  claims_step usr st (store_claim usr call now st).2.
Proof using Type*.
  intros (_ & Hok & _) Hl. unfold store_claim.
  destruct (Claim (store st) usr call now) as [s' e] eqn:E.
  assert (store (upd_hub (Hub.upd_store (λ _, s')) st) = (Claim (store st) usr call now).1) as Es
    by (by rewrite E).
  unfold claims_step. cbn [snd]. rewrite Es. clear Es. destruct e as [e|].
  - assert (claims_ok (cl_map (store st)) →
      cl_map (Claim (store st) usr call now).1 = cl_map (store st)) as He.
    { intros [Ho _]. eapply cl_refused; [done|done|]. by rewrite E. }
    split; [intros Hc; by rewrite He|]. intros usr' _ Hc. by rewrite He.
  - assert (claims_ok (cl_map (store st)) →
      cl_map (Claim (store st) usr call now).1 = <[usr := call]> (cl_map (store st))
      ∧ ∀ usr' cs', cl_map (store st) !! usr' = Some cs' → usr' ≠ usr →
          Durable.nocase cs' ≠ Durable.nocase call) as He.
    { intros [Ho _]. apply cl_claimed; [done|done|]. by rewrite E. }
    split.
    + intros Hc. destruct (He Hc) as [-> Hn]. destruct Hc as [Ho Hp]. split.
      * intros u1 u2 c1 c2 [[<- <-]|[H1 H2]]%lookup_insert_Some
          [[<- <-]|[H3 H4]]%lookup_insert_Some Hcs; [done| | |by eapply Ho].
        { by destruct (Hn u2 c2). }
        { by destruct (Hn u1 c1). }
      * intros u1 c1 [[_ <-]|[_ H]]%lookup_insert_Some; [done|by eapply Hp].
    + intros usr' Hne Hc. destruct (He Hc) as [-> _]. by rewrite lookup_insert_ne.
Qed.

Lemma web_step_claims now r st st' :
  site_ok st → web_step now r st st' → claims_step (viewer_user r) st st'.
Proof using Type*.
  intros Hok Hs. revert Hok.
  destruct Hs as [st0 op Hw _|st0 call st2 Hu Hst _|st0 call Hu Hp Hm Hr Hl|st0 edit c Ha _|st0 Ha];
    intros Hok.
  - apply claims_same. apply (hub_step_ok op st0 Hok).
  - apply claims_same. apply (present_frame call st0 st2 Hok Hu Hst).
  - by apply store_claim_step.
  - by apply claims_same.
  - apply claims_same. apply (persist_frame st0 Hok).
Qed.

Lemma web_steps_claims now r st st' :
  rtc (web_step now r) st st' → site_ok st → claims_step (viewer_user r) st st'.
Proof using Type*.
  induction 1 as [st|st1 st2 st3 H _ IH]; intros Hok; [by apply claims_same|].
  pose proof (web_step_permitted now r st1 st2 Hok H) as [Hok2 _].
  destruct (web_step_claims now r st1 st2 Hok H) as [H1 H2]. destruct (IH Hok2) as [H3 H4].
  split; [auto|]. intros usr' Hne Hc. rewrite H4, H2; auto.
Qed.

Lemma web_exec_ok e st :
  site_ok st → claims_ok (cl_map (store st)) →
  site_ok (web_exec e st) ∧ claims_ok (cl_map (store (web_exec e st))).
Proof using Type*.
  intros Hok Hc. destruct e as [now r|op]; cbn [web_exec].
  - pose proof (serve_steps s now r st) as Hs. split.
    + by apply (web_steps_permitted now r st).
    + by apply (web_steps_claims now r st).
  - destruct (hub_step_ok op st Hok) as (H1 & _ & H3). by rewrite H3.
Qed.

Lemma web_run_ok es : ∀ st,
  site_ok st → claims_ok (cl_map (store st)) →
  site_ok (web_run es st) ∧ claims_ok (cl_map (store (web_run es st))).
Proof using Type*.
  induction es as [|e es IH]; intros st Hok Hc; [done|]. cbn.
  destruct (web_exec_ok e st Hok Hc). by apply IH.
Qed.

(** The callsign a signed-in viewer resolves to is their claim. *)
Lemma resolve_claim r st cs :
  site_ok st → viewer_user r ≠ [] → resolveViewer s r st = Some cs →
  cl_map (store st) !! viewer_user r = Some cs.
Proof using Type*.
  intros (_ & Hok & _) Hu. unfold resolveViewer. rewrite decide_False by done.
  destruct (s_claims s); [|done].
  destruct (ClaimedCall (store st) _) as [v|] eqn:E; [|done].
  apply cl_get in E; [|done]. destruct v; [|done]. intros [= ->]. by rewrite E.
Qed.

(** An accepted claim is the viewer's identity. *)
Lemma accepted_claim now r st loc :
  site_ok st → claims_ok (cl_map (store st)) → rq_Path r = bs "/claim" →
  (serve s now r st).1.2 = SeeOther loc →
  cl_map (store (serve s now r st).2) !! viewer_user r = Some (normClaim (readField r (bs "callsign")))
  ∧ viewer_user r ≠ [].
Proof using Type*.
  intros (_ & Hok & _) [Ho _] Hp. unfold serve, gatewayTrust.
  rewrite decide_False by (by rewrite Hp). case_decide; [|done]. st_simpl.
  assert (mux s now r = handleClaim s now r) as ->
    by (unfold mux; rewrite Hp; cbn zeta; by repeat (rewrite decide_False by done)).
  unfold handleClaim, requirePost. case_decide; [|done]. cbn zeta.
  case_decide as Hu; [done|]. destruct (s_claims s); cbn [negb]; [|done].
  destruct (looksLikeCallsign _) eqn:El; cbn [negb]; [|done]. st_simpl. unfold store_claim.
  fold (viewer_user r). set (cs := normClaim _).
  destruct (Claim (store st) (viewer_user r) cs now) as [s' e] eqn:E. cbn [fst snd].
  destruct e as [[]|]; [done|done|]. intros _. split; [|done].
  destruct (cl_claimed (store st) (viewer_user r) cs now Hok Ho) as [Hc _]; [by rewrite E|].
  rewrite E in Hc. cbn [fst] in Hc. cbn. change (cl_map s' !! viewer_user r = Some cs).
  rewrite Hc. by rewrite lookup_insert_eq.
Qed.
End identity.

(** C27. Web identities.  After any requests and any activity of the other planes: a
    signed-in viewer chats under the callsign they claimed and nobody else's claim
    changes it, two signed-in viewers never have the same callsign, whatever its case
    (nor, unless a stored callsign kept a trailing blank, the same identity in the
    hub), every claimed callsign passed the form's check, and an accepted claim is the
    viewer's callsign from then on, bare and upper-cased, whether they had one
    before or not. *)
Theorem viewer_identity {St : Type} `{!Store St, !StoreLaws St, !ClaimStore St, !ClaimLaws St}
    (s : Server) (st0 : Site (St := St)) es :
  site_ok st0 → claims_ok (cl_map (store st0)) →
  let st := web_run s es st0 in
  (∀ r r' cs cs', viewer_user r ≠ [] → viewer_user r' ≠ [] → viewer_user r ≠ viewer_user r' →
     resolveViewer s r st = Some cs → resolveViewer s r' st = Some cs' →
     Durable.nocase cs ≠ Durable.nocase cs'
     ∧ (TrimSpace cs = cs → TrimSpace cs' = cs' → normCall cs ≠ normCall cs'))
  ∧ (∀ r cs, viewer_user r ≠ [] → resolveViewer s r st = Some cs →
       looksLikeCallsign cs = true ∧ cl_map (store st) !! viewer_user r = Some cs)
  ∧ (∀ now r usr, usr ≠ viewer_user r →
       cl_map (store (serve s now r st).2) !! usr = cl_map (store st) !! usr)
  ∧ (∀ now r loc, rq_Path r = bs "/claim" → (serve s now r st).1.2 = SeeOther loc →
       cl_map (store (serve s now r st).2) !! viewer_user r
         = Some (normClaim (readField r (bs "callsign")))).
Proof.
  intros Hok Hc st. destruct (web_run_ok s es st0 Hok Hc) as [Hok' [Ho Hp]]. fold st in Hok', Ho, Hp.
  split_and!.
  - intros r r' cs cs' Hu Hu' Hne H1%resolve_claim H2%resolve_claim; [|done..].
    assert (Durable.nocase cs ≠ Durable.nocase cs') as Hn by (intros E; by destruct Hne; eapply Ho).
    split; [done|]. intros T1 T2 E. destruct Hn. apply call_nocase; [| |done].
    + split; [|done]. rewrite <- T1. by eapply looks_ascii, Hp.
    + split; [|done]. rewrite <- T2. by eapply looks_ascii, Hp.
  - intros r cs Hu H%resolve_claim; [|done..]. split; [by eapply Hp|done].
  - intros now r usr Hne. by apply (web_steps_claims now r st _ (serve_steps s now r st) Hok').
  - intros now r loc Hpath H. by destruct (accepted_claim s now r st loc Hok' (conj Ho Hp) Hpath H).
Qed.

(** ** The web and the radio plane *)

Lemma EqualFold_sym a b : EqualFold a b = EqualFold b a.
Proof. unfold EqualFold. by apply bool_decide_ext. Qed.

Section planes.
Context {St : Type} `{!Store St, !ClaimStore St}.
Context (s : Server) (now : Time) (r : Request) (st : Site (St := St)).
Context (sess : Sess.Session St) (call : gostring) (usr : User).
Abbreviation key := (mkUserKey call (ourNode st)).

(** The same user on both planes: a stamped, writing viewer and a radio session whose
    sends succeed. *)
Record same_user : Prop := {
  su_hub : Sess.s_hub sess = hub st;
  su_key : Sess.s_key sess = key;
  su_user : Hub.UserOf (hub st) key = Some usr;
  su_viewer : resolveViewer s r st = Some call;
  su_write : canWrite (IdentityFromRequest r) = true;
  su_post : rq_Method r = bs "POST";
  su_stamp : Get (rq_Header r) (bs "X-Pdn-Gateway") = bs "1";
  su_sends n : Sess.s_sends sess n = true }.
Hypothesis Hsame : same_user.

Lemma me_user : Sess.me sess = Some usr.
Proof using Hsame.
  unfold Sess.me. rewrite (su_hub Hsame), (su_key Hsame). apply (su_user Hsame).
Qed.

Lemma filter_render ev :
  is_Some (filter key ev st)
  ↔ is_Some (Sess.render_line sess ev)
    ∨ ∃ m, ev = PrivateMessage m ∧ EqualFold (m_FromCall m) call = true.
Proof using Hsame.
  assert (∀ t, Sess.inMyTopic sess t = EqualFold t (u_Topic usr)) as Ht.
  { intros t. unfold Sess.inMyTopic. rewrite me_user. apply EqualFold_sym. }
  unfold filter, Sess.render_line. rewrite (su_user Hsame), (su_key Hsame).
  destruct ev as [u'|u'|m|m|u' f|u'|n|n]; cbn [uk_Call]; rewrite ?Ht.
  1,2,3,5,6,7,8: (split; [intros H; left|intros [H|(m' & [=] & _)]]); revert H;
    try (destruct (decide (Key u' ≠ key)) as [Hk|Hk];
      [rewrite bool_decide_eq_true_2 by done|rewrite bool_decide_eq_false_2 by done]);
    cbn [andb]; repeat case_match; try done; eauto.
  destruct (EqualFold (m_FromCall m) call) eqn:E.
  { rewrite orb_true_r. split; [|by eauto]. intros _. right. by exists m. }
  rewrite orb_false_r. destruct (EqualFold (m_ToCall m) call).
  - split; [|by eauto]. intros _. left. by eauto.
  - split; [by intros [? [=]]|]. intros [[? [=]]|(m' & [= <-] & E')]. congruence.
Qed.

Lemma sent_hub text (s0 : Sess.Session St) :
  (∀ n, Sess.s_sends s0 n = true) → Sess.s_hub (Sess.sendLine text s0).2 = Sess.s_hub s0.
Proof. intros H. unfold Sess.sendLine. by rewrite send_ok. Qed.

(** A request that passed the checks in front of a handler. *)
Lemma serve_writing path (k : gostring → ST (Site (St := St)) response) :
  rq_Path r = path → path ≠ bs "/healthz" →
  mux s now r = requirePost r (requireWrite r (requireViewer s r k)) →
  (serve s now r st).1.2 = (k call st).1 ∧ (serve s now r st).2 = (k call st).2.
Proof using Hsame.
  intros Hp Hh Hm. unfold serve, gatewayTrust. rewrite decide_False by (by rewrite Hp).
  rewrite decide_True by apply Hsame. st_simpl. rewrite Hm. unfold requirePost.
  rewrite decide_True by apply Hsame. unfold requireWrite. rewrite (su_write Hsame).
  unfold requireViewer. st_simpl. rewrite (su_viewer Hsame). done.
Qed.

Lemma with_presence_present (k : UserKey → ST (Site (St := St)) response) :
  with_presence call k st = k key st.
Proof using Hsame. unfold with_presence. st_simpl. by rewrite (su_user Hsame). Qed.

(** The answer to a writing request. *)
Definition answered {A} (res : A + error) (a : response) : Prop :=
  match res with inl _ => a = NoContent | inr _ => ∃ t, a = HttpError 400 t end.

Lemma no_content_answered {A} (res : A + error) : answered res (no_content res).
Proof. destruct res; cbn; [done|by eexists]. Qed.

Lemma web_send :
  let text := TrimSpace (readField r (bs "text")) in
  rq_Path r = bs "/send" → text ≠ [] →
  hub (serve s now r st).2 = (Hub.Post key text (hub st)).2
  ∧ answered (Hub.Post key text (hub st)).1 (serve s now r st).1.2.
Proof using Hsame.
  intros text Hp Ht.
  destruct (serve_writing (bs "/send") (λ call,
    let text := TrimSpace (readField r (bs "text")) in
    if decide (text = []) then mret (HttpError 400 (bs "empty"))
    else with_presence call (λ key, res ← on_hub (Hub.Post key text); mret (no_content res)))
    Hp ltac:(done)) as [-> ->].
  { unfold mux. rewrite Hp. done. }
  cbn zeta. fold text. rewrite decide_False by done. rewrite with_presence_present.
  split; [done|apply no_content_answered].
Qed.

Lemma web_topic :
  let name := TrimSpace (readField r (bs "topic")) in
  rq_Path r = bs "/topic" → name ≠ [] →
  hub (serve s now r st).2 = (Hub.SetTopic key name (hub st)).2
  ∧ answered (Hub.SetTopic key name (hub st)).1 (serve s now r st).1.2.
Proof using Hsame.
  intros name Hp Hn.
  destruct (serve_writing (bs "/topic") (λ call,
    our ← st_get ourNode;
    let name := TrimSpace (readField r (bs "topic")) in
    if decide (name = []) then mret (HttpError 400 (bs "empty topic"))
    else (res ← on_hub (Hub.SetTopic (mkUserKey call our) name); mret (no_content res)))
    Hp ltac:(done)) as [-> ->].
  { unfold mux. rewrite Hp. done. }
  st_simpl. fold name. rewrite decide_False by done.
  split; [done|apply no_content_answered].
Qed.

Lemma web_private d :
  let to := ToUpper (TrimSpace (str_field d (bs "to"))) in
  let text := TrimSpace (str_field d (bs "text")) in
  rq_Path r = bs "/dm" → decodeJSON dm_schema (rq_Body r) = Some d → to ≠ [] → text ≠ [] →
  hub (serve s now r st).2 = (Hub.Private key to text (hub st)).2
  ∧ answered (Hub.Private key to text (hub st)).1 (serve s now r st).1.2.
Proof using Hsame.
  intros to text Hp Hd Ht Hx.
  destruct (serve_writing (bs "/dm") (λ call,
    match decodeJSON dm_schema (rq_Body r) with
    | None => mret (HttpError 400 (bs "bad request body"))
    | Some d =>
        let to := ToUpper (TrimSpace (str_field d (bs "to"))) in
        let text := TrimSpace (str_field d (bs "text")) in
        if decide (to = [] ∨ text = []) then mret (HttpError 400 (bs "to and text are required"))
        else with_presence call (λ key, res ← on_hub (Hub.Private key to text); mret (no_content res))
    end) Hp ltac:(done)) as [-> ->].
  { unfold mux. rewrite Hp. done. }
  rewrite Hd. cbn zeta. fold to text. rewrite decide_False by tauto. rewrite with_presence_present.
  split; [done|apply no_content_answered].
Qed.

(** What the lines typed in the session do to the hub. *)
Lemma typed_post line :
  let typed := TrimSpace (sanitise line) in
  typed ≠ [] → head typed ≠ Some (zb 47) →
  Sess.s_hub (Sess.processLine line sess).2 = (Hub.Post key typed (hub st)).2.
Proof using Hsame.
  intros typed Ht Hh. unfold Sess.processLine. fold typed.
  destruct typed as [|c t] eqn:E; [done|].
  destruct (Z.eqb_spec (bz c) 47) as [Hc|Hc].
  { destruct Hh. cbn. by rewrite <- Hc, zb_bz. }
  st_simpl. rewrite (su_key Hsame). unfold Sess.on_hub. rewrite (su_hub Hsame). cbn [fst snd].
  destruct (Hub.Post key (c :: t) (hub st)) as [[m|e] h] eqn:Ep; cbn [fst snd]; [done|].
  rewrite sent_hub; [done|]. intros n. apply (su_sends Hsame).
Qed.

Lemma typed_command line :
  let typed := TrimSpace (sanitise line) in
  head typed = Some (zb 47) → Sess.processLine line sess = Sess.command typed sess.
Proof using Type.
  intros typed Hh. unfold Sess.processLine. fold typed.
  destruct typed as [|c t]; [done|]. by injection Hh as ->.
Qed.

Lemma typed_topic line name :
  let typed := TrimSpace (sanitise line) in
  head typed = Some (zb 47) → Sess.parse_command typed = Sess.CTopic name → name ≠ [] →
  Sess.s_hub (Sess.processLine line sess).2 = (Hub.SetTopic key name (hub st)).2.
Proof using Hsame.
  intros typed Hh Hc Hn. rewrite typed_command by done. unfold Sess.command. fold typed. rewrite Hc.
  st_simpl. unfold Sess.topic. rewrite decide_False by done. st_simpl. rewrite (su_key Hsame).
  unfold Sess.on_hub. rewrite (su_hub Hsame). cbn [fst snd].
  destruct (Hub.SetTopic key name (hub st)) as [[b|e] h] eqn:Ep; cbn [fst snd].
  - destruct (Sess.me _) as [u'|]; [|done].
    destruct b; (rewrite sent_hub; [done|]; intros n; apply (su_sends Hsame)).
  - rewrite sent_hub; [done|]. intros n. apply (su_sends Hsame).
Qed.

Lemma typed_private line rest to text :
  let typed := TrimSpace (sanitise line) in
  head typed = Some (zb 47) → Sess.parse_command typed = Sess.CSend rest →
  Cut rest SP = (to, text, true) → TrimSpace text ≠ [] →
  Sess.s_hub (Sess.processLine line sess).2 = (Hub.Private key to (TrimSpace text) (hub st)).2.
Proof using Hsame.
  intros typed Hh Hc Hcut Ht. rewrite typed_command by done. unfold Sess.command. fold typed. rewrite Hc.
  st_simpl. unfold Sess.private. rewrite Hcut. cbn [negb orb].
  rewrite bool_decide_eq_false_2 by done. st_simpl. rewrite (su_key Hsame).
  unfold Sess.on_hub. rewrite (su_hub Hsame). cbn [fst snd].
  destruct (Hub.Private key to (TrimSpace text) (hub st)) as [[m|e] h] eqn:Ep; cbn [fst snd]; [done|].
  rewrite sent_hub; [done|]. intros n. apply (su_sends Hsame).
Qed.
End planes.

(** A private message goes to the callsign as the hub writes it. *)
Lemma Private_to {St : Type} `{!Store St} k to to' text (h : Hub.Hub St) :
  normCall to = normCall to' → Hub.Private k to text h = Hub.Private k to' text h.
Proof. intros E. unfold Hub.Private. by rewrite E. Qed.


(** ** A node to try it on *)

#[local] Existing Instance Durable.tables_engine.
Definition sample_site : Site (St := Durable.Tables) :=
  mkSite (Router.NewRouter (Hub.NewHub (bs "GB7AAA-4") Durable.empty_tables
            (λ n, year2024 (Z.of_nat n))))
    (Some (NewAllowList [bs "GB7BBB"])) ∅.
Definition sample_server : Server := New (bs "GB7AAA-4") true (Some (mkFederation true true [])).

(** A stamped request of a signed-in user. *)
Definition web_post (usr scope path : gostring) (form : list (gostring * gostring)) : Request :=
  mkRequest (bs "POST") path
    (list_to_map [(bs "X-Pdn-Gateway", bs "1"); (bs "X-Pdn-User", usr); (bs "X-Pdn-Scope", scope)])
    ∅ (list_to_map form) BodyEmpty.

Lemma sample_site_ok : site_ok sample_site.
Proof.
  split; [|split; [done|intros c n H; discriminate H]].
  exact (proj1 (Subscribe_keeps _ (proj1 (NewHub_wf _ _ _)))).
Qed.
Lemma sample_claims_ok : claims_ok (cl_map (store sample_site)).
Proof. split; intros ? ? H; [intros ? ? H1; discriminate H1|]; discriminate H. Qed.

Definition claim_of (usr call : gostring) : web_event :=
  WebRequest (year2024 9) (web_post usr (bs "operate") (bs "/claim") [(bs "callsign", call)]).

(** Ann claims a callsign, Bob is refused it and claims another. *)
Lemma viewer_identity_witness :
  let es := [claim_of (bs "ann") (bs "m0abc-7"); claim_of (bs "bob") (bs "M0ABC");
     claim_of (bs "bob") (bs "g4xyz")] in
  let st := web_run sample_server es sample_site in
  let viewer usr := web_post usr [] (bs "/events") [] in
  resolveViewer sample_server (viewer (bs "ann")) st = Some (bs "M0ABC")
  ∧ resolveViewer sample_server (viewer (bs "bob")) st = Some (bs "G4XYZ")
  ∧ normCall (bs "M0ABC") ≠ normCall (bs "G4XYZ").
Proof.
  intros es st viewer.
  assert (resolveViewer sample_server (viewer (bs "ann")) st = Some (bs "M0ABC")) as H1
    by (vm_compute; reflexivity).
  assert (resolveViewer sample_server (viewer (bs "bob")) st = Some (bs "G4XYZ")) as H2
    by (vm_compute; reflexivity).
  split; [exact H1|]. split; [exact H2|].
  destruct (viewer_identity sample_server sample_site es sample_site_ok sample_claims_ok)
    as (H & _).
  destruct (H (viewer (bs "ann")) (viewer (bs "bob")) _ _ ltac:(by vm_compute) ltac:(by vm_compute)
    ltac:(by vm_compute) H1 H2) as [_ Hn].
  apply Hn; by vm_compute.
Defined.

(** The owner, present on the web and on the radio. *)
Definition owner_site : Site (St := Durable.Tables) := (enter (bs "GB7AAA") sample_site).2.
Definition owner_session : Sess.Session Durable.Tables :=
  Sess.mkSession (hub owner_site) (mkUserKey (bs "GB7AAA") (bs "GB7AAA-4")) (NewLineAssembler 0)
    0 [] (λ _, true) 0 [] false None false.

