(* ===== verification/WebTabs.v ===== *)
(** * The tabs of the web chat

    Event streams over the life of a node: any requests, the streams they open, their
    closing, and the activity of the other planes.  The tabs of a viewer are one user, as
    long as nobody comes between the halves of [enter] or [leave] (with that,
    [WebPresence.v]): the reference counts of [presence] are exactly the numbers of open
    streams, a viewer with an open stream is present unless another plane removes them,
    and only the last tab takes them away.  And access to the web, with the presence
    that opening a stream brings. *)
From S2P Require Import Prelude Unicode GoStrings ChatModel ChatSeen ChatStore ChatHub.
From S2P Require Import HubProps HubTheorems PeerProto PeerAllow PeerRouter Sqlite SqliteProps.
From S2P Require Import Web WebSteps WebProps.
From stdpp Require Import options.
Local Open Scope Z_scope.
Import Webchat.

Section tabs.
Context {St : Type} `{!Store St, !StoreLaws St, !ClaimStore St, !ClaimLaws St}.
Context (s : Server).
Implicit Types st : Site (St := St).
Implicit Types tabs : list stream.

(** ** Runs *)

(** A node and the streams open on it. *)
Abbreviation Tabs := (Site (St := St) * list stream)%type.

(** The life of a node: requests, of which the accepted ones to [/events] open a
    stream, the end of a stream, and operations of the other planes on the hub. *)
Inductive tab_event :=
| TabRequest (now : Time) (r : Request)
| TabShut (i : nat)
| TabHub (op : Hub.hub_op).

Definition tab_exec (e : tab_event) (w : Tabs) : Tabs :=
  match e with
  | TabRequest now r => ask s now r w
  | TabShut i => shut i w
  | TabHub op => (upd_hub (Hub.exec op) w.1, w.2)
  end.

(** The callsigns of viewers are in the form the hub keeps them in, and the other planes
    do not end the presence of a viewer with an open stream. *)
Definition canonical (call : gostring) : Prop := normCall call = call ∧ call ≠ [].

Definition proper (e : tab_event) (w : Tabs) : Prop :=
  match e with
  | TabRequest now r => ∀ call, (serve s now r w.1).1.2 = EventStream call → canonical call
  | TabShut _ => True
  | TabHub op => ∀ sm, sm ∈ w.2 →
      is_Some (Hub.h_users (Hub.exec op (hub w.1)) !! web_key w.1 (sm_call sm))
  end.

Fixpoint tab_run (es : list tab_event) (w : Tabs) : Tabs :=
  match es with [] => w | e :: es' => tab_run es' (tab_exec e w) end.
Fixpoint proper_run (es : list tab_event) (w : Tabs) : Prop :=
  match es with [] => True | e :: es' => proper e w ∧ proper_run es' (tab_exec e w) end.

(** ** The invariant *)

(** The open streams of a callsign. *)
Fixpoint opened (call : gostring) tabs : Z :=
  match tabs with
  | [] => 0
  | sm :: tabs' => (if decide (sm_call sm = call) then 1 else 0) + opened call tabs'
  end.

Record tabs_ok st tabs : Prop := {
  to_ok : site_ok st;
  to_name : normCall (ourNode st) ≠ [];
  to_calls sm : sm ∈ tabs → canonical (sm_call sm);
  to_keys sm : sm ∈ tabs → canonKey (sm_key sm) = web_key st (sm_call sm);
  to_counts call : count st call = opened call tabs;
  to_present sm : sm ∈ tabs → is_Some (Hub.h_users (hub st) !! web_key st (sm_call sm)) }.

Lemma opened_app call tabs tabs' : opened call (tabs ++ tabs') = opened call tabs + opened call tabs'.
Proof. induction tabs as [|sm tabs IH]; cbn; [done|]. rewrite IH. lia. Qed.
Lemma opened_nonneg call tabs : 0 ≤ opened call tabs.
Proof. induction tabs as [|sm tabs IH]; cbn; [done|]. case_decide; lia. Qed.
Lemma opened_elem sm tabs : sm ∈ tabs → 1 ≤ opened (sm_call sm) tabs.
Proof.
  induction 1 as [sm tabs|sm sm' tabs _ IH]; cbn.
  - rewrite decide_True by done. pose proof (opened_nonneg (sm_call sm) tabs). lia.
  - case_decide; lia.
Qed.
Lemma opened_delete call i sm tabs :
  tabs !! i = Some sm →
  opened call (delete i tabs) = opened call tabs - (if decide (sm_call sm = call) then 1 else 0).
Proof.
  intros Hi. rewrite <- (take_drop_middle tabs i sm Hi) at 2. rewrite delete_take_drop.
  rewrite !opened_app. cbn [opened]. case_decide; lia.
Qed.

Lemma web_key_inj st call call' :
  canonical call → canonical call' → web_key st call = web_key st call' → call = call'.
Proof. intros [H1 _] [H2 _]. unfold web_key, canonKey. cbn. intros [= H]. congruence. Qed.

(** ** Steps that leave the tabs alone *)

Record calm st st' : Prop := {
  ca_ok : site_ok st';
  ca_name : ourNode st' = ourNode st;
  ca_counts call : count st' call = count st call;
  ca_stays : stays (hub st) (hub st') }.

Lemma calm_refl st : site_ok st → calm st st.
Proof. intros H. split; try done. by apply stays_users. Qed.
Lemma calm_trans st1 st2 st3 : calm st1 st2 → calm st2 st3 → calm st1 st3.
Proof.
  intros [H1 N1 C1 S1] [H2 N2 C2 S2]. split; [done|congruence| |].
  - intros call. by rewrite C2.
  - intros k Hk. auto.
Qed.
Lemma harmless_calm st st' : harmless st st' → calm st st'.
Proof. intros []. by split. Qed.

Lemma calm_tabs st st' tabs : calm st st' → tabs_ok st tabs → tabs_ok st' tabs.
Proof.
  intros [H1 N1 C1 S1] [O1 O2 O3 O6 O4 O5].
  assert (∀ call, web_key st' call = web_key st call) as Ek by (intros; unfold web_key; by rewrite N1).
  split; [done|by rewrite N1|done| | |].
  - intros sm Hsm. rewrite Ek. auto.
  - intros call. by rewrite C1.
  - intros sm Hsm. rewrite Ek. auto.
Qed.

Lemma web_step_calm now r st st' : site_ok st → web_step now r st st' → calm st st'.
Proof using Type*.
  intros Hok Hs. revert Hok.
  destruct Hs as [st0 op Hw Hsp|st0 call st2 Hu Hst Hor|st0 call Hu _ _ _ _|st0 edit c Ha _|st0 Ha];
    intros Hok.
  - apply harmless_calm, hub_steps_frame; [|done]. by apply rtc_once.
  - by apply harmless_calm, present_frame.
  - destruct (claim_frame now r call st0 Hok) as (H1 & [H2 _ _ _] & _).
    split; [done| | |by apply stays_users]; unfold store_claim, ourNode, count;
      by destruct (Claim _ _ _ _).
  - split; try done. by apply stays_users.
  - destruct (persist_frame st0 Hok) as (H1 & [H2 _ _ _] & _).
    split; [done| | |by apply stays_users]; unfold persist, ourNode, count;
      by destruct (PersistAllowList _ _).
Qed.

Lemma web_steps_calm now r st st' : rtc (web_step now r) st st' → site_ok st → calm st st'.
Proof using Type*.
  induction 1 as [st|st1 st2 st3 H _ IH]; intros Hok; [by apply calm_refl|].
  pose proof (web_step_calm now r st1 st2 Hok H) as H1.
  eapply calm_trans; [exact H1|]. apply IH, H1.
Qed.

Lemma serve_calm now r st : site_ok st → calm st (serve s now r st).2.
Proof using Type*. apply (web_steps_calm now r). apply serve_steps. Qed.

(** A hub operation that touches neither users nor anything beyond the hub. *)
Lemma hub_calm op st :
  site_ok st → Hub.h_users (Hub.exec op (hub st)) = Hub.h_users (hub st) →
  calm st (upd_hub (Hub.exec op) st).
Proof using Type*.
  intros Hok E. destruct (hub_step_ok op st Hok) as (H1 & _).
  split; [done|apply (saves_exec op (hub st))|done|by apply stays_users].
Qed.

Lemma cancel_users i h : Hub.h_users (Hub.cancel (St := St) i h).2 = Hub.h_users h.
Proof. unfold Hub.cancel. st_simpl. by case_decide. Qed.
(** ** Opening and closing *)

Lemma opened_pos call tabs : 1 ≤ opened call tabs → ∃ sm, sm ∈ tabs ∧ sm_call sm = call.
Proof.
  induction tabs as [|sm tabs IH]; cbn; [lia|]. case_decide as E.
  - intros _. exists sm. by split; [left|].
  - intros H. destruct IH as (sm' & Hin & Hc); [lia|]. exists sm'. by split; [right|].
Qed.

(** Entering, for a viewer in canonical form: the first tab joins. *)
Lemma enter_spec st tabs call :
  tabs_ok st tabs → canonical call →
  let st' := (enter call st).2 in
  site_ok st' ∧ ourNode st' = ourNode st
  ∧ st_ref st' = <[call := count st call + 1]> (st_ref st)
  ∧ canonKey (enter call st).1 = web_key st call
  ∧ if decide (opened call tabs = 0)
    then ∃ usr, u_Topic usr = DefaultTopic
      ∧ Hub.h_users (hub st') = <[web_key st call := usr]> (Hub.h_users (hub st))
    else Hub.h_users (hub st') = Hub.h_users (hub st).
Proof.
  intros Ht [Hc Hn] st'. pose proof (to_ok _ _ Ht) as Hok.
  destruct (enter_around call st Hok) as (E1 & E2 & E3 & E4). fold st' in E1, E2, E3, E4.
  split; [by apply E1|]. split; [apply E1|]. split; [done|].
  rewrite (to_counts _ _ Ht) in E3, E4.
  destruct (Join_general (web_user (ourNode st) call) (hub st)) as (usr & J1 & J2 & J3 & J4 & _);
    [apply Hok|done|by cbn; rewrite Hc|cbn; apply Ht|].
  assert (canonKey (Key usr) = web_key st call) as Ek
    by (rewrite J2; unfold web_key; by rewrite canonKey_idemp).
  split.
  - unfold enter, mbind, ST_bind. rewrite enter_count_spec. cbn [fst snd].
    set (st1 := upd_ref _ st). unfold enter_hub. st_simpl.
    destruct (count st call =? 0); [|done]. unfold on_hub. cbn [fst snd].
    change (ourNode st1) with (ourNode st). change (hub st1) with (hub st).
    rewrite J1. cbn [fst]. exact Ek.
  - case_decide as H0; [|by rewrite E3]. exists usr. split; [done|].
    rewrite E4 by done. exact J4.
Qed.

Lemma open_state call st :
  (open_stream call st).2 = upd_hub (Hub.exec Hub.OpSubscribe) (enter call st).2
  ∧ sm_call (open_stream call st).1.1 = call
  ∧ sm_key (open_stream call st).1.1 = (enter call st).1.
Proof. done. Qed.

Lemma open_tabs st tabs call :
  tabs_ok st tabs → canonical call →
  tabs_ok (open_stream call st).2 (tabs ++ [(open_stream call st).1.1]).
Proof using Type*.
  intros Ht Hc. destruct (enter_spec st tabs call Ht Hc) as (E1 & E2 & E3 & E4 & E5).
  destruct (open_state call st) as (-> & Hsc & Hsk). set (sm := (open_stream call st).1.1) in *.
  eapply calm_tabs; [by apply hub_calm|].
  assert (∀ c, web_key (enter call st).2 c = web_key st c) as Ek
    by (intros; unfold web_key; by rewrite E2).
  assert (∀ c, is_Some (Hub.h_users (hub st) !! web_key st c) ∨ c = call →
    is_Some (Hub.h_users (hub (enter call st).2) !! web_key st c)) as Hp.
  { intros c H. destruct (decide (opened call tabs = 0)) as [H0|H0].
    - destruct E5 as (usr & _ & ->). apply lookup_insert_is_Some.
      destruct (decide (web_key st call = web_key st c)); [by left|right; split; [done|]].
      by destruct H as [?| ->].
    - rewrite E5. destruct H as [?| ->]; [done|].
      destruct (opened_pos call tabs) as (sm' & Hin & <-);
        [pose proof (opened_nonneg call tabs); lia|by apply (to_present _ _ Ht)]. }
  split; [done|rewrite E2; apply Ht| | | |].
  - intros sm' [H| ->%list_elem_of_singleton]%elem_of_app; [by apply (to_calls _ _ Ht)|].
    by rewrite Hsc.
  - intros sm' H. rewrite Ek. apply elem_of_app in H as [H| ->%list_elem_of_singleton].
    + by apply (to_keys _ _ Ht).
    + by rewrite Hsc, Hsk.
  - intros c. unfold count at 1. rewrite E3, opened_app. cbn [opened]. rewrite Hsc.
    rewrite <- (to_counts _ _ Ht c). destruct (decide (call = c)) as [<-|Hne].
    + rewrite lookup_insert_eq. cbn. lia.
    + rewrite lookup_insert_ne by done. unfold count. lia.
  - intros sm' H. rewrite Ek. apply Hp. apply elem_of_app in H as [H| ->%list_elem_of_singleton].
    + left. by apply (to_present _ _ Ht).
    + right. done.
Qed.

(** The end of a stream. *)
Lemma close_spec st tabs i sm :
  tabs_ok st tabs → tabs !! i = Some sm →
  let st' := (close_stream sm st).2 in
  tabs_ok st' (delete i tabs)
  ∧ Hub.h_users (hub st') = if decide (opened (sm_call sm) tabs = 1)
      then delete (web_key st (sm_call sm)) (Hub.h_users (hub st))
      else Hub.h_users (hub st).
Proof using Type*.
  intros Ht Hi st'. pose proof (list_elem_of_lookup_2 _ _ _ Hi) as Hin.
  set (st1 := upd_hub (Hub.exec (Hub.OpCancel (sm_sub sm))) st).
  assert (st' = (leave (sm_call sm) st1).2) as -> by done.
  assert (Hub.h_users (hub st1) = Hub.h_users (hub st)) as Eu by apply cancel_users.
  pose proof (hub_calm (Hub.OpCancel (sm_sub sm)) st (to_ok _ _ Ht) Eu) as Hcalm. fold st1 in Hcalm.
  pose proof (calm_tabs _ _ _ Hcalm Ht) as Ht1.
  assert (∀ c, web_key st1 c = web_key st c) as Ek
    by (intros; unfold web_key; by rewrite (ca_name _ _ Hcalm)).
  destruct (leave_around (sm_call sm) st1 (to_ok _ _ Ht1)) as (L1 & L2 & L3 & L4).
  rewrite Ek in L1, L2. rewrite (to_counts _ _ Ht1) in L2, L3, L4.
  set (st2 := (leave (sm_call sm) st1).2) in *.
  pose proof (opened_elem sm tabs Hin) as Hge.
  assert (Hub.h_users (hub st2) = if decide (opened (sm_call sm) tabs = 1)
      then delete (web_key st (sm_call sm)) (Hub.h_users (hub st))
      else Hub.h_users (hub st)) as EU.
  { destruct (decide (opened (sm_call sm) tabs = 1)) as [H1|H1]; [|rewrite L3 by lia; exact Eu]. rewrite <- Eu. apply map_eq. intros k.
    destruct (decide (k = web_key st (sm_call sm))) as [->|Hk].
    - rewrite lookup_delete_eq. apply L2. right. lia.
    - rewrite lookup_delete_ne by done. by apply L1. }
  split; [|done].
  assert (∀ c, web_key st2 c = web_key st c) as Ek2
    by (intros; unfold web_key; rewrite (ar_name _ _ _ L1), (ca_name _ _ Hcalm); done).
  assert (∀ sm', sm' ∈ delete i tabs → sm' ∈ tabs) as Hsub.
  { intros sm' H. rewrite delete_take_drop in H. rewrite <- (take_drop_middle tabs i sm Hi).
    apply elem_of_app in H as [H|H]; apply elem_of_app; [by left|right; by right]. }
  split; [by apply L1, Ht1| | | | |].
  - rewrite (ar_name _ _ _ L1). apply Ht1.
  - intros sm' H. apply (to_calls _ _ Ht). auto.
  - intros sm' H. rewrite Ek2. apply (to_keys _ _ Ht). auto.
  - intros c. unfold count. rewrite L4, (opened_delete c i sm tabs Hi).
    pose proof (to_counts _ _ Ht1 c) as Hc. unfold count in Hc.
    destruct (decide (opened (sm_call sm) tabs ≤ 1)) as [H1|H1];
      destruct (decide (sm_call sm = c)) as [<-|Hne].
    + rewrite lookup_delete_eq. cbn. lia.
    + rewrite lookup_delete_ne by done. lia.
    + rewrite lookup_insert_eq. cbn. lia.
    + rewrite lookup_insert_ne by done. lia.
  - intros sm' H. rewrite Ek2, EU. case_decide as H1; [|by apply (to_present _ _ Ht), Hsub].
    rewrite lookup_delete_ne; [by apply (to_present _ _ Ht), Hsub|].
    intros E. apply web_key_inj in E; [|by apply (to_calls _ _ Ht); auto..].
    pose proof (opened_delete (sm_call sm') i sm tabs Hi) as Hd.
    rewrite decide_True in Hd by done. rewrite <- E, H1 in Hd.
    pose proof (opened_elem sm' _ H) as Hg. rewrite <- E in Hg. lia.
Qed.
(** ** Which requests open a stream *)

Definition never (m : ST (Site (St := St)) response) : Prop :=
  ∀ st c, (m st).1 ≠ EventStream c.

Lemma never_ret a : (∀ c, a ≠ EventStream c) → never (mret a).
Proof. intros H st c. apply H. Qed.
Lemma never_get f : (∀ st c, f st ≠ EventStream c) → never (st_get f).
Proof. intros H st c. apply H. Qed.
Lemma never_bind {A} (m : ST (Site (St := St)) A) k : (∀ a, never (k a)) → never (m ≫= k).
Proof. intros H st c. apply H. Qed.
Lemma never_post r k : never k → never (requirePost r k).
Proof. intros H. unfold requirePost. case_decide; [done|by apply never_ret]. Qed.
Lemma never_write r k : never k → never (requireWrite r k).
Proof. intros H. unfold requireWrite. case_match; [done|by apply never_ret]. Qed.
Lemma never_admin r k : never k → never (requireAdmin r k).
Proof. intros H. unfold requireAdmin. case_match; [done|by apply never_ret]. Qed.
Lemma never_viewer r k : (∀ c, never (k c)) → never (requireViewer s r k).
Proof. intros H. apply never_bind. intros [c|]; [done|by apply never_ret]. Qed.
Lemma never_presence call k : (∀ key, never (k key)) → never (with_presence call k).
Proof.
  intros H. apply never_bind. intros our. apply never_bind. intros [?|]; [done|].
  intros st c. unfold with_presence. st_simpl. apply H.
Qed.

(** Every handler but that of [/events] ends in another answer. *)
Ltac never_tac :=
  repeat first
    [ apply never_post | apply never_write | apply never_admin | apply never_viewer; intros ?
    | apply never_presence; intros ? | apply never_ret; (done || by case_match)
    | apply never_get; done | apply never_bind; intros ? | progress case_match | progress cbn zeta ].

Lemma mux_never now r : rq_Path r ≠ bs "/events" → never (mux s now r).
Proof.
  intros Hp. unfold mux. cbn zeta. case_decide; [by apply never_ret|].
  rewrite decide_False by done.
  unfold handleSend, handleTopic, handleUsers, handleHistory, handleDMs, handleDM, handleSettings,
    set_settings, handleClaim, claimFormErr, handlePeers, handlePeersAllow, edit_allow, handleIndex,
    no_content, unavailable, current_settings.
  never_tac.
Qed.

(** A stream is opened by a stamped request of a viewer, and by nothing else. *)
Lemma serve_stream now r st call :
  (serve s now r st).1.2 = EventStream call →
  (serve s now r st).2 = st ∧ resolveViewer s r st = Some call.
Proof.
  unfold serve, gatewayTrust. case_decide as Hz; [|case_decide; [|done]]; st_simpl.
  { intros H. exfalso. revert H. apply mux_never. by rewrite Hz. }
  destruct (decide (rq_Path r = bs "/events")) as [Hp|Hp]; [|intros Ha; exfalso; by apply mux_never in Ha].
  assert (mux s now r = handleEvents s r) as -> by (unfold mux; by rewrite Hp).
  unfold handleEvents, requireViewer. st_simpl. destruct (resolveViewer s r st); [|done].
  cbn. by intros [= ->].
Qed.
(** ** Whole runs *)

Lemma tab_exec_ok e w :
  proper e w → tabs_ok w.1 w.2 → tabs_ok (tab_exec e w).1 (tab_exec e w).2.
Proof using Type*.
  intros Hp Ht. destruct e as [now r|i|op]; cbn [tab_exec proper] in *.
  - pose proof (serve_calm now r w.1 (to_ok _ _ Ht)) as Hc. unfold ask.
    destruct (serve s now r w.1) as [[b answer] st'] eqn:E. cbn [fst snd] in Hp, Hc.
    pose proof (calm_tabs _ _ _ Hc Ht) as Ht'. destruct answer; try exact Ht'.
    pose proof (open_tabs st' w.2 call Ht' (Hp call eq_refl)) as Ho.
    destruct (open_stream call st') as [[sm evs] st'']. exact Ho.
  - unfold shut. destruct (w.2 !! i) as [sm|] eqn:Hi; [|done].
    by apply (close_spec w.1 w.2 i sm).
  - destruct (hub_step_ok op w.1 (to_ok _ _ Ht)) as (H1 & _).
    assert (ourNode (upd_hub (Hub.exec op) w.1) = ourNode w.1) as En
      by apply (saves_exec op (hub w.1)).
    assert (∀ c, web_key (upd_hub (Hub.exec op) w.1) c = web_key w.1 c) as Ek
      by (intros; unfold web_key; by rewrite En).
    split; [done|cbn [fst]; rewrite En; apply Ht|apply Ht| |apply Ht|]; intros sm Hsm; cbn [fst]; rewrite Ek;
      [by apply (to_keys _ _ Ht)|by apply Hp].
Qed.

Lemma tab_run_ok es : ∀ w,
  proper_run es w → tabs_ok w.1 w.2 → tabs_ok (tab_run es w).1 (tab_run es w).2.
Proof using Type*.
  induction es as [|e es IH]; intros w; [done|]. intros [H1 H2] Ht.
  apply (IH _ H2). by apply tab_exec_ok.
Qed.

Lemma no_tabs st : site_ok st → normCall (ourNode st) ≠ [] → st_ref st = ∅ → tabs_ok st [].
Proof.
  intros H1 H2 H3. split; [done|done|set_solver|set_solver| |set_solver].
  intros c. unfold count. by rewrite H3, lookup_empty.
Qed.

Lemma ask_users now r w call :
  tabs_ok w.1 w.2 → (serve s now r w.1).1.2 = EventStream call → canonical call →
  ∃ sm, (ask s now r w).2 = w.2 ++ [sm] ∧ sm_call sm = call
  ∧ if decide (opened call w.2 = 0)
    then ∃ usr, u_Topic usr = DefaultTopic
      ∧ Hub.h_users (hub (ask s now r w).1) = <[web_key w.1 call := usr]> (Hub.h_users (hub w.1))
    else Hub.h_users (hub (ask s now r w).1) = Hub.h_users (hub w.1).
Proof.
  intros Ht Ha Hc. destruct (serve_stream now r w.1 call Ha) as [Es _].
  unfold ask. destruct (serve s now r w.1) as [[b answer] st'] eqn:E. cbn [fst snd] in Ha, Es. subst.
  destruct (enter_spec w.1 w.2 call Ht Hc) as (_ & _ & _ & _ & E5).
  destruct (open_stream call w.1) as [[sm evs] st''] eqn:Eo.
  exists sm. split; [done|]. split; [by injection Eo as <- _ _|].
  assert (Hub.h_users (hub st'') = Hub.h_users (hub (enter call w.1).2)) as Eu
    by (by injection Eo as _ _ <-).
  cbn [fst snd]. rewrite Eu. exact E5.
Qed.
End tabs.

(** The tabs of a viewer are one user.  Start a node with no web tab open and let
    anything happen: any requests, which open streams, streams ending, and hub operations
    of the radio and mesh planes that do not themselves end the presence of a viewer with
    an open stream; the viewers' callsigns are in canonical form.  At every point the
    reference count of a callsign is the number of its open streams, and each open
    stream's viewer is present.  A request opens a stream only for the viewer it
    resolves to; the first stream of a callsign makes it one user of the default topic
    and a further one changes no user at all; the end of a stream removes its viewer
    exactly when it was the last one of the callsign, and changes no other user. *)
Theorem tabs_are_one_user {St : Type} `{!Store St, !StoreLaws St, !ClaimStore St, !ClaimLaws St}
    (s : Server) (st0 : Site (St := St)) es :
  site_ok st0 → normCall (ourNode st0) ≠ [] → st_ref st0 = ∅ → proper_run s es (st0, []) →
  let '(st, tabs) := tab_run s es (st0, []) in
  (∀ call, count st call = opened call tabs)
  ∧ (∀ sm, sm ∈ tabs → is_Some (Hub.UserOf (hub st) (sm_key sm)))
  ∧ (∀ now r call, (serve s now r st).1.2 = EventStream call → canonical call →
       resolveViewer s r st = Some call
       ∧ ∃ sm, (ask s now r (st, tabs)).2 = tabs ++ [sm] ∧ sm_call sm = call
         ∧ if decide (opened call tabs = 0)
           then ∃ usr, u_Topic usr = DefaultTopic
             ∧ Hub.h_users (hub (ask s now r (st, tabs)).1)
               = <[web_key st call := usr]> (Hub.h_users (hub st))
           else Hub.h_users (hub (ask s now r (st, tabs)).1) = Hub.h_users (hub st))
  ∧ (∀ i sm, tabs !! i = Some sm →
       Hub.h_users (hub (shut i (st, tabs)).1)
         = if decide (opened (sm_call sm) tabs = 1)
           then delete (web_key st (sm_call sm)) (Hub.h_users (hub st))
           else Hub.h_users (hub st)).
Proof.
  intros Hok Hn Hr Hp. pose proof (tab_run_ok s es (st0, []) Hp (no_tabs st0 Hok Hn Hr)) as Ht.
  destruct (tab_run s es (st0, [])) as [st tabs]. cbn [fst snd] in Ht.
  split_and!.
  - apply Ht.
  - intros sm Hsm. unfold Hub.UserOf. rewrite (to_keys _ _ Ht) by done. by apply (to_present _ _ Ht).
  - intros now r call Ha Hc. split; [by apply (serve_stream s now r)|].
    by apply (ask_users s now r (st, tabs)).
  - intros i sm Hi. unfold shut. cbn [fst snd]. rewrite Hi. by apply (close_spec st tabs i sm).
Qed.

(** The owner opens two tabs and closes one. *)
Definition events_request : Request :=
  mkRequest (bs "GET") (bs "/events") (list_to_map [(bs "X-Pdn-Gateway", bs "1")]) ∅ ∅ BodyEmpty.
#[local] Existing Instance Durable.tables_engine.

Lemma events_proper now w : proper sample_server (TabRequest now events_request) w.
Proof.
  intros call [_ H]%serve_stream.
  assert (resolveViewer sample_server events_request w.1 = Some (bs "GB7AAA")) as E by by vm_compute.
  rewrite E in H. assert (canonical (bs "GB7AAA")) as Hc by (split; [vm_compute; reflexivity|done]).
  by injection H as <-.
Qed.

Lemma tabs_are_one_user_witness :
  let es := [TabRequest 1 events_request; TabRequest 2 events_request; TabShut 0] in
  let w := tab_run sample_server es (sample_site, []) in
  length w.2 = 1%nat ∧ count w.1 (bs "GB7AAA") = 1
  ∧ (∀ sm, sm ∈ w.2 → is_Some (Hub.UserOf (hub w.1) (sm_key sm))).
Proof.
  intros es w.
  assert (proper_run sample_server es (sample_site, [])) as Hp.
  { split; [apply events_proper|]. split; [apply events_proper|]. by split. }
  pose proof (tabs_are_one_user sample_server sample_site es sample_site_ok ltac:(by vm_compute)
    eq_refl Hp) as H.
  assert (length w.2 = 1%nat) as Hl by (vm_compute; reflexivity).
  assert (opened (bs "GB7AAA") w.2 = 1) as Ho by (vm_compute; reflexivity).
  fold w in H. destruct w as [st tabs]. destruct H as (H1 & H2 & _).
  split; [exact Hl|]. split; [|exact H2]. rewrite H1. exact Ho.
Defined.

(** ** Access, streams included *)

Section access.
Context {St : Type} `{!Store St, !StoreLaws St, !ClaimStore St, !ClaimLaws St}.
Implicit Types st : Site (St := St).

(** A hub operation that touches only the subscriptions. *)
Lemma quiet_around k op st :
  (let h' := Hub.exec op (hub st) in
   Hub.h_users h' = Hub.h_users (hub st) ∧ Hub.h_topics h' = Hub.h_topics (hub st)
   ∧ Hub.h_nodes h' = Hub.h_nodes (hub st) ∧ Hub.h_store h' = Hub.h_store (hub st)
   ∧ Hub.h_ourNode h' = Hub.h_ourNode (hub st)) →
  around k st (upd_hub (Hub.exec op) st).
Proof using Type*.
  intros (H1 & H2 & H3 & H4 & H5). split; try done.
  - intros Hok. by apply hub_step_ok.
  - intros k' _. change (Hub.h_users (Hub.exec op (hub st)) !! k' = Hub.h_users (hub st) !! k').
    by rewrite H1.
Qed.

Lemma open_around call st :
  site_ok st →
  around (web_key st call) st (open_stream call st).2
  ∧ Hub.h_users (hub (open_stream call st).2)
    = Hub.h_users (if decide (count st call = 0)
                   then (Hub.Join (web_user (ourNode st) call) (hub st)).2 else hub st).
Proof using Type*.
  intros Hok. destruct (enter_around call st Hok) as (H1 & _ & H3 & H4).
  destruct (open_state call st) as (-> & _ & _). split.
  - eapply around_trans; [exact H1|]. by apply quiet_around.
  - transitivity (Hub.h_users (hub (enter call st).2)); [done|]. case_decide as Hc; [by rewrite H4|by rewrite H3].
Qed.

Lemma shut_around i sm st tabs :
  site_ok st → tabs !! i = Some sm → around (web_key st (sm_call sm)) st (shut i (st, tabs)).1.
Proof using Type*.
  intros Hok Hi. unfold shut. cbn [fst snd]. rewrite Hi. cbn [fst].
  set (st1 := upd_hub (Hub.exec (Hub.OpCancel (sm_sub sm))) st).
  assert (around (web_key st (sm_call sm)) st st1) as H1.
  { apply quiet_around. cbn [Hub.exec]. unfold Hub.cancel. st_simpl. by case_decide. }
  change ((close_stream sm st).2) with ((leave (sm_call sm) st1).2).
  eapply around_trans; [exact H1|].
  assert (web_key st (sm_call sm) = web_key st1 (sm_call sm)) as ->
    by (unfold web_key; by rewrite (ar_name _ _ _ H1)).
  by apply leave_around, H1.
Qed.
End access.

(** C19. Access to the web.  For every request, served to its end or until its stream is open,
    in any state of a node with any streams open: the node stays well-formed, and no
    request touches the peer links.  A request the gateway did not stamp is refused and
    changes nothing at all (the liveness probe aside).  A signed-in viewer whose scope is
    neither operate nor admin, whatever they send, leaves every user, topic, name, flag,
    mesh node and logged message as it was, with one exception: an event stream that is
    opened makes them present, which replaces or adds the user of their own callsign at
    this node when it is the first stream of that callsign, and touches nothing else.  A
    signed-in viewer without the admin scope changes neither the allow-list of the two
    ingresses nor the stored configuration.  The end of a stream touches at most the user
    of its viewer's callsign at this node. *)
Theorem web_access {St : Type} `{!Store St, !StoreLaws St, !ClaimStore St, !ClaimLaws St}
    (s : Server) now r (st : Site (St := St)) tabs :
  site_ok st →
  let answer := (serve s now r st).1 in
  let st' := (ask s now r (st, tabs)).1 in
  site_ok st' ∧ same_links st st'
  ∧ (unstamped r → (∃ text, answer = (false, HttpError 403 text))
     ∧ ask s now r (st, tabs) = (st, tabs))
  ∧ (¬ may_write r →
     same_content st st'
     ∨ ∃ call, answer.2 = EventStream call ∧ resolveViewer s r st = Some call
       ∧ around (web_key st call) st st'
       ∧ Hub.h_users (hub st')
         = Hub.h_users (if decide (count st call = 0)
                        then (Hub.Join (web_user (ourNode st) call) (hub st)).2 else hub st))
  ∧ (¬ may_administer r →
     st_allow st' = st_allow st ∧ store_config (store st') = store_config (store st))
  ∧ ∀ i sm, tabs !! i = Some sm →
     let st'' := (shut i (st, tabs)).1 in
     site_ok st'' ∧ around (web_key st (sm_call sm)) st st''.
Proof.
  intros Hok answer st'.
  destruct (serve_permitted s now r st Hok) as (H1 & H2 & H3 & H4). cbv zeta in H1, H2, H3, H4.
  assert (∀ i sm, tabs !! i = Some sm → let st'' := (shut i (st, tabs)).1 in
    site_ok st'' ∧ around (web_key st (sm_call sm)) st st'') as Hshut.
  { intros i sm Hi st''. pose proof (shut_around i sm st tabs Hok Hi) as Ha. split; [by apply Ha|done]. }
  assert (unstamped r → (∃ text, answer = (false, HttpError 403 text)) ∧ ask s now r (st, tabs) = (st, tabs)) as Hu.
  { intros Hu. unfold answer, ask. cbn [fst snd]. rewrite serve_unstamped by done. split; [by eexists|done]. }
  assert ((∃ call, answer.2 = EventStream call) ∨ ¬ ∃ call, answer.2 = EventStream call) as [He|He].
  { destruct (answer.2); try (right; by intros [? ?]). left. by eexists. }
  - destruct He as [call Hc]. destruct (serve_stream s now r st call Hc) as [Es Ev].
    assert (st' = (open_stream call st).2) as ->.
    { unfold st', ask. cbn [fst snd]. unfold answer in Hc. destruct (serve s now r st) as [[b a] st1].
      cbn [fst snd] in Hc, Es. subst a st1. by destruct (open_stream call st) as [[sm evs] st2]. }
    destruct (open_around call st Hok) as [Ha Hh].
    split_and!; [by apply Ha|apply Ha|exact Hu| | |exact Hshut].
    + intros _. right. by exists call.
    + intros _. split; [apply Ha|]. by rewrite (ar_store _ _ _ Ha).
  - assert (st' = (serve s now r st).2) as ->.
    { unfold st', ask. cbn [fst snd]. unfold answer in He. destruct (serve s now r st) as [[b a] st1].
      cbn [fst snd] in He. destruct a; try done. destruct He. by eexists. }
    split_and!; [exact H1|exact H2|exact Hu| |exact H4|exact Hshut].
    intros Hw. left. by apply H3.
Qed.

(** A reader's post is refused. *)
Lemma web_access_witness :
  let post := web_post (bs "ann") (bs "read") (bs "/send") [(bs "text", bs "hello")] in
  let st' := (ask sample_server (year2024 9) post (sample_site, [])).1 in
  ¬ may_write post ∧ ¬ may_administer post
  ∧ same_content sample_site st' ∧ st_allow st' = st_allow sample_site.
Proof.
  intros post st'.
  assert (¬ may_write post) as Hw by (rewrite <- canWrite_spec; by vm_compute).
  assert (¬ may_administer post) as Ha by (rewrite <- isAdmin_spec; by vm_compute).
  destruct (web_access sample_server (year2024 9) post sample_site [] sample_site_ok)
    as (_ & _ & _ & H1 & H2 & _).
  split; [exact Hw|]. split; [exact Ha|]. split; [|apply (H2 Ha)].
  destruct (H1 Hw) as [H|(call & Hc & _)]; [exact H|]. vm_compute in Hc. discriminate Hc.
Defined.
