(* ===== verification/WebPresence.v ===== *)
(** * Web presence, interleaved ([internal/web/presence.go])

    The goroutines that make a web viewer present: event streams, and requests of viewers
    with no stream.  Each calls [enter], does what it is there for, and calls [leave]; both
    count under the lock and tell the hub after it is released.  An event is one half of
    one of them, or anything else that happens to the hub in between. *)
From S2P Require Import Prelude Unicode GoStrings ChatModel ChatSeen ChatStore ChatHub.
From S2P Require Import HubProps HubTheorems PeerProto PeerAllow PeerRouter Sqlite SqliteProps.
From S2P Require Import Web WebSteps WebProps WebTabs.
From stdpp Require Import options.
Local Open Scope Z_scope.
Import Webchat.

Module Presence.

(** Where a goroutine is: between the halves of [enter] (with whether it was the first),
    present, between the halves of [leave] (with whether it was the last), or done. *)
Inductive phase := Entering (first : bool) | Inside | Leaving (last : bool) | Gone.
#[export] Instance phase_eq_dec : EqDecision phase.
Proof. solve_decision. Defined.
Record visitor := mkVisitor { v_call : gostring; v_phase : phase }.
#[export] Instance visitor_eq_dec : EqDecision visitor.
Proof. solve_decision. Defined.

Section presence.
Context {St : Type} `{!Store St}.

Abbreviation State := (Site (St := St) * list visitor)%type.

Inductive event :=
| Enter (call : gostring)          (* a new goroutine counts itself in *)
| Joined (i : nat)                 (* ... and tells the hub if it was the first *)
| Leave (i : nat)                  (* it counts itself out *)
| Left (i : nat)                   (* ... and tells the hub if it was the last *)
| Plane (op : Hub.hub_op).         (* an operation of anybody on the hub *)

Definition go (i : nat) (p : phase) (st : Site) (vs : list visitor) : State :=
  (st, alter (λ v, mkVisitor (v_call v) p) i vs).

Definition exec (e : event) (w : State) : option State :=
  let '(st, vs) := w in
  match e with
  | Enter call =>
      let '(first, st') := enter_count call st in
      Some (st', vs ++ [mkVisitor call (Entering first)])
  | Joined i =>
      v ← vs !! i;
      match v_phase v with
      | Entering first => Some (go i Inside (enter_hub (v_call v) first st).2 vs)
      | _ => None
      end
  | Leave i =>
      v ← vs !! i;
      match v_phase v with
      | Inside => let '(last, st') := leave_count (v_call v) st in Some (go i (Leaving last) st' vs)
      | _ => None
      end
  | Left i =>
      v ← vs !! i;
      match v_phase v with
      | Leaving last => Some (go i Gone (leave_hub (v_call v) last st).2 vs)
      | _ => None
      end
  | Plane op => Some (upd_hub (Hub.exec op) st, vs)
  end.

Fixpoint execs (es : list event) (w : State) : option State :=
  match es with
  | [] => Some w
  | e :: es' => w1 ← exec e w; execs es' w1
  end.

(** ** What the theorem says of a run *)

(** Counted in and not counted out. *)
Definition counts (call : gostring) (v : visitor) : Z :=
  if decide (v_call v = call) then
    match v_phase v with Entering _ | Inside => 1 | _ => 0 end
  else 0.
Definition counted (call : gostring) (vs : list visitor) : Z := foldr (λ v n, counts call v + n) 0 vs.

(** Somebody of the callsign is about to tell the hub of the first arrival, or of the last
    departure. *)
Definition arriving (call : gostring) (vs : list visitor) : Prop := mkVisitor call (Entering true) ∈ vs.
Definition departing (call : gostring) (vs : list visitor) : Prop := mkVisitor call (Leaving true) ∈ vs.

(** The conditions under which the counted are present: nobody enters a callsign while its
    last departure is on the way to the hub; nothing else removes the user of a callsign
    that is counted in; callsigns are in canonical form. *)
Definition orderly (e : event) (w : State) : Prop :=
  match e with
  | Enter call => canonical call ∧ ¬ departing call w.2
  | Plane op => ∀ call, 0 < counted call w.2 → is_Some (Hub.h_users (hub w.1) !! web_key w.1 call) →
      is_Some (Hub.h_users (Hub.exec op (hub w.1)) !! web_key w.1 call)
  | _ => True
  end.
Fixpoint orderly_run (es : list event) (w : State) : Prop :=
  match es with
  | [] => True
  | e :: es' => orderly e w ∧ match exec e w with Some w1 => orderly_run es' w1 | None => True end
  end.

(** ** Counting *)

Lemma counts_nonneg call v : 0 ≤ counts call v.
Proof. unfold counts. case_decide; [by destruct (v_phase v)|done]. Qed.
Lemma counted_cons call v vs : counted call (v :: vs) = counts call v + counted call vs.
Proof. done. Qed.
Lemma counted_nonneg call vs : 0 ≤ counted call vs.
Proof.
  induction vs as [|v vs IH]; [done|]. rewrite counted_cons. pose proof (counts_nonneg call v). lia.
Qed.
Lemma counted_app call vs vs' : counted call (vs ++ vs') = counted call vs + counted call vs'.
Proof.
  induction vs as [|v vs IH]; [done|]. cbn [app]. rewrite !counted_cons, IH. lia.
Qed.
Lemma counted_go call (i : nat) v p (vs : list visitor) :
  vs !! i = Some v →
  counted call (alter (λ v, mkVisitor (v_call v) p) i vs)
  = counted call vs - counts call v + counts call (mkVisitor (v_call v) p).
Proof.
  revert i. induction vs as [|u vs IH]; intros [|i] E; try done.
  - injection E as ->. change (alter _ 0%nat (v :: vs)) with (mkVisitor (v_call v) p :: vs).
    rewrite !counted_cons. lia.
  - change (alter ?f (S i) (u :: vs)) with (u :: alter f i vs).
    rewrite !counted_cons, (IH i E). lia.
Qed.
Lemma counted_in call v vs : v ∈ vs → counts call v ≤ counted call vs.
Proof.
  induction 1 as [v vs|v u vs _ IH]; rewrite counted_cons.
  - pose proof (counted_nonneg call vs). lia.
  - pose proof (counts_nonneg call u). lia.
Qed.
Lemma counted_pos call vs : 0 < counted call vs → ∃ v, v ∈ vs ∧ v_call v = call ∧ counts call v = 1.
Proof.
  induction vs as [|v vs IH]; [cbn; lia|]. rewrite counted_cons. intros H.
  destruct (decide (counts call v = 0)) as [H0|H0].
  - destruct IH as (u & Hu & H1); [lia|]. exists u. split; [by right|done].
  - exists v. split; [by left|]. revert H0. unfold counts. case_decide; [|done]. by destruct (v_phase v).
Qed.

Lemma elem_go (u v : visitor) (i : nat) p (vs : list visitor) :
  vs !! i = Some v → u ∈ alter (λ v, mkVisitor (v_call v) p) i vs → u ∈ vs ∨ u = mkVisitor (v_call v) p.
Proof.
  intros E (j & Hj)%list_elem_of_lookup. destruct (decide (j = i)) as [->|Hne].
  - rewrite list_lookup_alter_eq, E in Hj. injection Hj as <-. by right.
  - rewrite list_lookup_alter_ne in Hj by done. left. by eapply list_elem_of_lookup_2.
Qed.
Lemma elem_go_other (u v : visitor) (i : nat) p (vs : list visitor) :
  vs !! i = Some v → u ∈ vs → u ≠ v → u ∈ alter (λ v, mkVisitor (v_call v) p) i vs.
Proof.
  intros E (j & Hj)%list_elem_of_lookup Hne. apply (list_elem_of_lookup_2 _ j).
  rewrite list_lookup_alter_ne; [done|]. intros ->. congruence.
Qed.

(** ** Every run *)

Section laws.
Context `{!StoreLaws St, !ClaimStore St, !ClaimLaws St}.
Implicit Types st : Site (St := St).

Record run_ok (w : State) : Prop := {
  ro_site : site_ok w.1;
  ro_counts call : count w.1 call = counted call w.2 }.

Lemma count_insert st call n c :
  count (upd_ref <[call := n]> st) c = if decide (call = c) then n else count st c.
Proof. unfold count. cbn. case_decide as E; [subst c; by rewrite lookup_insert_eq|by rewrite lookup_insert_ne]. Qed.
Lemma count_delete st call c :
  count (upd_ref (delete call) st) c = if decide (call = c) then 0 else count st c.
Proof. unfold count. cbn. case_decide as E; [subst c; by rewrite lookup_delete_eq|by rewrite lookup_delete_ne]. Qed.

(** What the first half of [leave] does. *)
Lemma leave_half st vs i v :
  run_ok (st, vs) → vs !! i = Some v → v_phase v = Inside →
  let st' := (leave_count (v_call v) st).2 in
  (leave_count (v_call v) st).1 = bool_decide (counted (v_call v) vs = 1)
  ∧ site_ok st' ∧ hub st' = hub st
  ∧ ∀ c, count st' c = count st c - (if decide (v_call v = c) then 1 else 0).
Proof using Type*.
  intros [Hok Hc] Hi Hp. cbn [fst snd] in Hok, Hc.
  pose proof (counted_in (v_call v) v vs (list_elem_of_lookup_2 _ _ _ Hi)) as Hge.
  assert (counts (v_call v) v = 1) as Hv by (unfold counts; by rewrite decide_True, Hp).
  rewrite leave_count_spec by (rewrite Hc; lia). cbn [fst snd]. rewrite Hc.
  split; [apply bool_decide_ext; lia|]. destruct (decide (counted (v_call v) vs ≤ 1)) as [Hl|Hl].
  - split; [|split; [done|]].
    + destruct Hok as (? & ? & ?). split_and!; [done|done|by apply counts_delete].
    + intros c. rewrite count_delete. case_decide as E; [subst c; rewrite Hc; lia|lia].
  - split; [|split; [done|]].
    + destruct Hok as (? & ? & ?). split_and!; [done|done|apply counts_insert; [lia|done]].
    + intros c. rewrite count_insert. case_decide as E; [subst c; rewrite Hc; lia|lia].
Qed.

Lemma run_step e w w' : run_ok w → exec e w = Some w' → run_ok w'.
Proof using Type*.
  intros Hw He. destruct w as [st vs]. pose proof Hw as [Hok Hc]. cbn [fst snd] in Hok, Hc.
  destruct e as [call|i|i|i|op]; cbn [exec] in He.
  - rewrite enter_count_spec in He. injection He as <-. split; cbn [fst snd].
    + destruct Hok as (? & ? & Hr). split_and!; [done|done|]. apply counts_insert; [|done].
      rewrite Hc. pose proof (counted_nonneg call vs). lia.
    + intros c. rewrite count_insert, counted_app, Hc. unfold counted at 3. cbn [foldr].
      unfold counts. cbn. case_decide as E; [subst c; lia|rewrite Hc; lia].
  - destruct (vs !! i) as [v|] eqn:Ei; [|done]. cbn [mbind option_bind] in He.
    destruct (v_phase v) as [b| | |] eqn:Ep; try done. injection He as <-.
    destruct (enter_hub_around (v_call v) b st Hok) as (H1 & H2 & _). split; cbn [go fst snd].
    + by apply H1.
    + intros c. rewrite (counted_go c i v Inside vs Ei). unfold count. rewrite H2. fold (count st c).
      rewrite Hc. unfold counts. cbn. rewrite Ep. case_decide; lia.
  - destruct (vs !! i) as [v|] eqn:Ei; [|done]. cbn [mbind option_bind] in He.
    destruct (v_phase v) eqn:Ep; try done.
    destruct (leave_half st vs i v Hw Ei Ep) as (_ & H2 & _ & H4).
    destruct (leave_count (v_call v) st) as [b st']. injection He as <-. cbn [fst snd] in H2, H4.
    split; cbn [go fst snd]; [done|]. intros c. rewrite (counted_go c i v _ vs Ei), H4, Hc.
    unfold counts. cbn. rewrite Ep. case_decide; lia.
  - destruct (vs !! i) as [v|] eqn:Ei; [|done]. cbn [mbind option_bind] in He.
    destruct (v_phase v) as [| |b|] eqn:Ep; try done. injection He as <-.
    destruct (leave_hub_spec (v_call v) b st) as (H1 & H2 & _). split; cbn [go fst snd].
    + by apply H1.
    + intros c. rewrite (counted_go c i v Gone vs Ei). unfold count. rewrite H2. fold (count st c).
      rewrite Hc. unfold counts. cbn. rewrite Ep. case_decide; lia.
  - injection He as <-. destruct (hub_step_ok op st Hok) as (H1 & _). by split.
Qed.

Lemma runs_ok es : ∀ w w', run_ok w → execs es w = Some w' → run_ok w'.
Proof using Type*.
  induction es as [|e es IH]; cbn; intros w w' Hw He; [by injection He as <-|].
  apply bind_Some in He as (w1 & H1 & He). by eapply IH; [eapply run_step|].
Qed.

(** ** Orderly runs *)

Record present_ok (w : State) : Prop := {
  po_run : run_ok w;
  po_name : normCall (ourNode w.1) ≠ [];
  po_calls v : v ∈ w.2 → canonical (v_call v);
  po_leaving call : departing call w.2 → counted call w.2 = 0;
  po_present call : 0 < counted call w.2 → ¬ arriving call w.2 →
    is_Some (Hub.h_users (hub w.1) !! web_key w.1 call) }.

Lemma arriving_counted call vs : arriving call vs → 1 ≤ counted call vs.
Proof.
  intros H. pose proof (counted_in call _ _ H) as Hc. unfold counts in Hc. cbn in Hc.
  by rewrite decide_True in Hc.
Qed.

(** The hub's part of [enter], for a callsign in canonical form. *)
Lemma join_half st call :
  site_ok st → normCall (ourNode st) ≠ [] → canonical call →
  ∃ usr, u_Topic usr = DefaultTopic
    ∧ Hub.h_users (hub (enter_hub call true st).2) = <[web_key st call := usr]> (Hub.h_users (hub st)).
Proof using Type*.
  intros Hok Hn [Hc Hne]. destruct (enter_hub_around call true st Hok) as (_ & _ & H3). rewrite H3.
  destruct (Join_general (web_user (ourNode st) call) (hub st)) as (usr & _ & _ & J3 & J4 & _);
    [apply Hok|done|by cbn; rewrite Hc|done|].
  exists usr. by split.
Qed.

Lemma present_step e w w' : present_ok w → orderly e w → exec e w = Some w' → present_ok w'.
Proof using Type*.
  intros Hw Ho He. pose proof (run_step e w w' (po_run _ Hw) He) as Hrun.
  destruct w as [st vs]. destruct Hw as [Hr Hn Hcalls Hl Hp]. pose proof Hr as [Hok Hc].
  cbn [fst snd] in *. destruct e as [call|i|i|i|op]; cbn [exec orderly] in He, Ho; cbn [fst snd] in Ho.
  - rewrite enter_count_spec in He. injection He as <-. destruct Ho as [Hcan Hd].
    split; cbn [fst snd]; [done|done| | |].
    + intros v [Hv| ->%list_elem_of_singleton]%elem_of_app; [by apply Hcalls|done].
    + intros c [Hv|Hv%list_elem_of_singleton]%elem_of_app; [|done]. rewrite counted_app, (Hl c Hv).
      unfold counted, counts. cbn. rewrite decide_False; [done|]. by intros ->.
    + intros c Hpos Ha. assert (¬ arriving c vs) as Ha' by (intros H; apply Ha, elem_of_app; by left).
      apply (Hp c); [|done]. rewrite counted_app in Hpos. unfold counted at 2 in Hpos. cbn in Hpos.
      pose proof (counted_nonneg c vs) as Hg. destruct (decide (counted c vs = 0)) as [H0|]; [|lia].
      destruct Ha. apply elem_of_app. right. apply list_elem_of_singleton.
      unfold counts in Hpos. cbn in Hpos. case_decide as E; [|lia]. subst c.
      by rewrite Hc, H0.
  - destruct (vs !! i) as [v|] eqn:Ei; [|done]. cbn [mbind option_bind] in He.
    destruct (v_phase v) as [b| | |] eqn:Ep; try done. injection He as <-.
    pose proof (Hcalls v (list_elem_of_lookup_2 _ _ _ Ei)) as Hcan.
    destruct (enter_hub_around (v_call v) b st Hok) as (H1 & H2 & H3).
    assert (∀ c, counted c (alter (λ u, mkVisitor (v_call u) Inside) i vs) = counted c vs) as Hsame.
    { intros c. rewrite (counted_go c i v Inside vs Ei). unfold counts. cbn. rewrite Ep. case_decide; lia. }
    assert (∀ c, web_key (enter_hub (v_call v) b st).2 c = web_key st c) as Ek
      by (intros c; unfold web_key; by rewrite (ar_name _ _ _ H1)).
    split; cbn [go fst snd]; [done|by rewrite (ar_name _ _ _ H1)| | |].
    + intros u Hu. destruct (elem_go u v i Inside vs Ei Hu) as [Hu'| ->]; [by apply Hcalls|done].
    + intros c Hd. rewrite Hsame. apply Hl. destruct (elem_go _ v i Inside vs Ei Hd) as [?|?]; done.
    + intros c Hpos Ha. rewrite Hsame in Hpos. rewrite Ek. destruct b.
      * destruct (join_half st (v_call v) Hok Hn Hcan) as (usr & _ & ->). apply lookup_insert_is_Some'.
        destruct (decide (v_call v = c)) as [->|Hne]; [by left|right]. apply (Hp c Hpos).
        intros Hx. apply Ha. apply (elem_go_other _ v i Inside vs Ei Hx). intros <-. by apply Hne.
      * rewrite H3. apply (Hp c Hpos). intros Hx. apply Ha. apply (elem_go_other _ v i Inside vs Ei Hx).
        intros <-. discriminate Ep.
  - destruct (vs !! i) as [v|] eqn:Ei; [|done]. cbn [mbind option_bind] in He.
    destruct (v_phase v) eqn:Ep; try done.
    destruct (leave_half st vs i v Hr Ei Ep) as (L1 & L2 & L3 & L4).
    destruct (leave_count (v_call v) st) as [b st']. injection He as <-. cbn [fst snd] in L1, L2, L3, L4.
    assert (∀ c, web_key st' c = web_key st c) as Ek by (intros c; unfold web_key, ourNode; by rewrite L3).
    assert (∀ c, counted c (alter (λ u, mkVisitor (v_call u) (Leaving b)) i vs)
                 = counted c vs - (if decide (v_call v = c) then 1 else 0)) as Hcnt.
    { intros c. rewrite (counted_go c i v _ vs Ei). unfold counts. cbn. rewrite Ep. destruct (decide (v_call v = c)) as [E|E]; lia. }
    split; cbn [go fst snd]; [done|unfold ourNode; by rewrite L3| | |].
    + intros u Hu. destruct (elem_go u v i _ vs Ei Hu) as [Hu'| ->]; [by apply Hcalls|].
      apply (Hcalls v). by eapply list_elem_of_lookup_2.
    + intros c Hd. rewrite Hcnt. destruct (elem_go _ v i _ vs Ei Hd) as [Hx|Hx].
      * pose proof (Hl c Hx) as H0. destruct (decide (v_call v = c)) as [E|E]; [|lia]. subst c.
        pose proof (counted_in (v_call v) v vs (list_elem_of_lookup_2 _ _ _ Ei)) as Hge.
        unfold counts in Hge. rewrite decide_True, Ep in Hge by done. lia.
      * injection Hx as E <-. subst c. rewrite decide_True by done. symmetry in L1.
        apply bool_decide_eq_true in L1. lia.
    + intros c Hpos Ha. rewrite Hcnt in Hpos. rewrite Ek, L3. apply (Hp c).
      * destruct (decide (v_call v = c)); lia.
      * intros Hx. apply Ha, (elem_go_other _ v i _ vs Ei Hx). intros <-. discriminate Ep.
  - destruct (vs !! i) as [v|] eqn:Ei; [|done]. cbn [mbind option_bind] in He.
    destruct (v_phase v) as [| |b|] eqn:Ep; try done. injection He as <-.
    pose proof (list_elem_of_lookup_2 _ _ _ Ei) as Hin. pose proof (Hcalls v Hin) as Hcan.
    destruct (leave_hub_spec (v_call v) b st) as (H1 & H2 & H3).
    assert (∀ c, counted c (alter (λ u, mkVisitor (v_call u) Gone) i vs) = counted c vs) as Hsame.
    { intros c. rewrite (counted_go c i v Gone vs Ei). unfold counts. cbn. rewrite Ep. case_decide; lia. }
    assert (∀ c, web_key (leave_hub (v_call v) b st).2 c = web_key st c) as Ek
      by (intros c; unfold web_key; by rewrite (ar_name _ _ _ H1)).
    split; cbn [go fst snd]; [done|by rewrite (ar_name _ _ _ H1)| | |].
    + intros u Hu. destruct (elem_go u v i Gone vs Ei Hu) as [Hu'| ->]; [by apply Hcalls|done].
    + intros c Hd. rewrite Hsame. apply Hl. destruct (elem_go _ v i Gone vs Ei Hd) as [?|?]; done.
    + intros c Hpos Ha. rewrite Hsame in Hpos. rewrite Ek, H3.
      assert (is_Some (Hub.h_users (hub st) !! web_key st c)) as Hs.
      { apply (Hp c Hpos). intros Hx. apply Ha, (elem_go_other _ v i _ vs Ei Hx).
        intros <-. discriminate Ep. }
      destruct b; [|done]. rewrite lookup_delete_ne; [done|]. intros E.
      destruct (counted_pos c vs Hpos) as (u & Hu & <- & _).
      apply web_key_inj in E; [|done|by apply Hcalls].
      assert (departing (v_call u) vs) as Hdep.
      { unfold departing. rewrite <- E. destruct v as [cv pv]. cbn in Ep |- *. by subst pv. }
      rewrite (Hl _ Hdep) in Hpos. lia.
  - injection He as <-. assert (ourNode (upd_hub (Hub.exec op) st) = ourNode st) as En
      by apply (saves_exec op (hub st)).
    split; cbn [fst snd]; [done|by rewrite En|done|done|].
    intros c Hpos Ha. assert (web_key (upd_hub (Hub.exec op) st) c = web_key st c) as ->
      by (unfold web_key; by rewrite En).
    apply (Ho c Hpos), (Hp c Hpos Ha).
Qed.

Lemma presents_ok es : ∀ w w',
  present_ok w → orderly_run es w → execs es w = Some w' → present_ok w'.
Proof using Type*.
  induction es as [|e es IH]; cbn; intros w w' Hw Ho He; [by injection He as <-|].
  destruct Ho as [Ho Hrest]. apply bind_Some in He as (w1 & H1 & He). rewrite H1 in Hrest.
  by eapply IH; [eapply present_step|..].
Qed.

Lemma run_start st : site_ok st → st_ref st = ∅ → run_ok (st, []).
Proof using Type*. intros Hok Hr. split; [done|]. intros call. unfold count. cbn. by rewrite Hr. Qed.
Lemma present_start st :
  site_ok st → normCall (ourNode st) ≠ [] → st_ref st = ∅ → present_ok (st, []).
Proof using Type*.
  intros Hok Hn Hr. split; cbn [fst snd]; [by apply run_start|done|..].
  - by intros v Hv%elem_of_nil.
  - by intros c Hv%elem_of_nil.
  - intros c H. cbn in H. lia.
Qed.

(** C23. Web presence, in every interleaving.  Event streams and requests enter and leave in
    any order, each in its two halves (the count under the lock, the hub after it is
    released), and operations of anybody on the hub come between any two of the halves.
    At any point the count of a callsign is the number of visitors that have counted
    themselves in and not out.  A visitor that counts itself in is the one to tell the
    hub exactly when the callsign's count was zero, one that counts itself out exactly
    when it was one, and neither half touches the hub.  The one that tells the hub of an arrival
    puts the callsign's user at this node into the default topic, in place of one already
    there, and the one that tells it of a departure removes that user and nobody else;
    the other visitors' second halves leave the users as they are.  And the counted are present:
    if callsigns are canonical, nobody enters a callsign while its last departure is
    on the way to the hub, and nothing else removes the user of a callsign that is counted
    in, then at any point every callsign with a visitor counted in, and whose first
    arrival is not still on the way to the hub, has a user at this node. *)
Theorem presence_interleaved (st0 st : Site (St := St)) vs es :
  site_ok st0 → normCall (ourNode st0) ≠ [] → st_ref st0 = ∅ →
  execs es (st0, []) = Some (st, vs) →
  (∀ call, count st call = counted call vs)
  ∧ (∀ call, ∃ st', hub st' = hub st
       ∧ exec (Enter call) (st, vs)
         = Some (st', vs ++ [mkVisitor call (Entering (bool_decide (counted call vs = 0)))]))
  ∧ (∀ i v, vs !! i = Some v → v_phase v = Inside →
       ∃ st', hub st' = hub st
       ∧ exec (Leave i) (st, vs)
         = Some (go i (Leaving (bool_decide (counted (v_call v) vs = 1))) st' vs))
  ∧ (∀ i v first, vs !! i = Some v → v_phase v = Entering first →
       ∃ st', exec (Joined i) (st, vs) = Some (go i Inside st' vs)
       ∧ (canonical (v_call v) → normCall (ourNode st) ≠ [] → first = true →
            ∃ usr, u_Topic usr = DefaultTopic
              ∧ Hub.h_users (hub st') = <[web_key st (v_call v) := usr]> (Hub.h_users (hub st)))
       ∧ (first = false → hub st' = hub st))
  ∧ (∀ i v last, vs !! i = Some v → v_phase v = Leaving last →
       ∃ st', exec (Left i) (st, vs) = Some (go i Gone st' vs)
       ∧ Hub.h_users (hub st')
         = if last then delete (web_key st (v_call v)) (Hub.h_users (hub st))
           else Hub.h_users (hub st))
  ∧ (orderly_run es (st0, []) → ∀ call, 0 < counted call vs → ¬ arriving call vs →
       is_Some (Hub.h_users (hub st) !! web_key st call)).
Proof using Type*.
  intros Hok0 Hn Hr He. pose proof (runs_ok es _ _ (run_start st0 Hok0 Hr) He) as Hw.
  pose proof Hw as [Hok Hc]. cbn [fst snd] in Hok, Hc. split_and!.
  - exact Hc.
  - intros call. cbn [exec]. rewrite enter_count_spec. rewrite Hc. exists (upd_ref <[call := counted call vs + 1]> st). split; [done|].
    repeat f_equal. apply Bool.eq_iff_eq_true. by rewrite Z.eqb_eq, bool_decide_eq_true.
  - intros i v Hi Hp. cbn [exec]. rewrite Hi. cbn [mbind option_bind]. rewrite Hp.
    destruct (leave_half st vs i v Hw Hi Hp) as (L1 & _ & L3 & _).
    destruct (leave_count (v_call v) st) as [b st']. cbn [fst snd] in L1, L3. subst b. by exists st'.
  - intros i v b Hi Hp. cbn [exec]. rewrite Hi. cbn [mbind option_bind]. rewrite Hp.
    eexists. split; [done|]. split.
    + intros Hcan Hnn ->. by apply join_half.
    + intros ->. by destruct (enter_hub_around (v_call v) false st Hok) as (_ & _ & H3).
  - intros i v b Hi Hp. cbn [exec]. rewrite Hi. cbn [mbind option_bind]. rewrite Hp.
    eexists. split; [done|]. apply leave_hub_spec.
  - intros Ho call. apply (po_present (st, vs)).
    exact (presents_ok es _ _ (present_start st0 Hok0 Hn Hr) Ho He).
Qed.
End laws.
End presence.
End Presence.

(** Two tabs of the owner open at once: the second passes the first, which is still on its
    way to the hub; then the first closes. *)
#[local] Existing Instance Durable.tables_engine.
Definition owner : gostring := bs "GB7AAA".
Definition two_tabs : list Presence.event :=
  [Presence.Enter owner; Presence.Enter owner; Presence.Joined 1; Presence.Joined 0; Presence.Leave 0].

Lemma two_tabs_orderly : Presence.orderly_run two_tabs (sample_site, []).
Proof.
  assert (canonical owner) as Hc by (split; [vm_compute; reflexivity|done]).
  split; [split; [exact Hc|by intros H%elem_of_nil]|].
  split; [split; [exact Hc|by intros H%list_elem_of_singleton]|]. by repeat split.
Qed.

Lemma presence_interleaved_witness :
  match Presence.execs two_tabs (sample_site, []) with
  | Some (st, vs) =>
      count st owner = Presence.counted owner vs
      ∧ is_Some (Hub.h_users (hub st) !! web_key st owner)
  | None => False
  end.
Proof.
  assert (bool_decide (is_Some (Presence.execs two_tabs (sample_site, []))) = true) as Hs by (vm_compute; reflexivity).
  apply bool_decide_eq_true in Hs. destruct (Presence.execs two_tabs (sample_site, [])) as [[st vs]|] eqn:He;
    [|destruct Hs; discriminate].
  destruct (Presence.presence_interleaved sample_site st vs two_tabs sample_site_ok ltac:(by vm_compute)
    eq_refl He) as (H1 & _ & _ & _ & _ & H2).
  assert (vs = [Presence.mkVisitor owner (Presence.Leaving false); Presence.mkVisitor owner Presence.Inside]) as ->.
  { assert (snd <$> Presence.execs two_tabs (sample_site, [])
      = Some [Presence.mkVisitor owner (Presence.Leaving false); Presence.mkVisitor owner Presence.Inside]) as E
      by (vm_compute; reflexivity).
    rewrite He in E. by injection E. }
  split; [apply H1|]. apply H2; [exact two_tabs_orderly|vm_compute; reflexivity|].
  intros [[=]|[[=]|[]%elem_of_nil]%elem_of_cons]%elem_of_cons.
Defined.
