(* ===== verification/WebAllow.v ===== *)
(** * Editing the allow-list from the web

    An edit from the federation page is live at both ingresses at once and survives a
    restart; every other request to that endpoint is refused and changes nothing. *)
From S2P Require Import Prelude Unicode GoStrings ChatModel ChatSeen ChatStore ChatHub.
From S2P Require Import HubProps HubTheorems PeerAllow PeerRouter Sqlite SqliteProps.
From S2P Require Import Web WebSteps WebProps.
From stdpp Require Import options.
Local Open Scope Z_scope.
Import Webchat.

(** The two edits, on the set of callsigns. *)
Inductive edit := EditAdd | EditRemove.
Definition edit_name (e : edit) : gostring :=
  match e with EditAdd => bs "add" | EditRemove => bs "remove" end.
Definition edit_set (e : edit) (call : gostring) (l : gset gostring) : gset gostring :=
  match e with EditAdd => {[call]} ∪ l | EditRemove => l ∖ {[call]} end.
Definition edit_run (e : edit) (call : gostring) : option AllowList → bool * option AllowList :=
  match e with EditAdd => Add call | EditRemove => Remove call end.

Lemma edit_run_spec e call l :
  normCallsign call = call → call ≠ [] →
  edit_run e call (Some l)
  = (bool_decide (edit_set e call (al_allowed l) ≠ al_allowed l),
     Some (mkAllowList (edit_set e call (al_allowed l)) (al_pinned l) (al_rejected l))).
Proof.
  intros Hn Hc. destruct l as [al pn rj]. destruct e; cbn [edit_run edit_set al_allowed al_pinned al_rejected].
  - unfold Add. rewrite Hn, decide_False by done. cbn [al_allowed al_pinned al_rejected].
    case_decide as H.
    + assert ({[call]} ∪ al = al) as -> by set_solver. by rewrite bool_decide_eq_false_2 by auto.
    + rewrite bool_decide_eq_true_2; [done|]. set_solver.
  - unfold Remove. rewrite Hn, decide_False by done. cbn [al_allowed al_pinned al_rejected].
    case_decide as H.
    + rewrite bool_decide_eq_true_2; [done|]. set_solver.
    + assert (al ∖ {[call]} = al) as -> by set_solver. by rewrite bool_decide_eq_false_2 by auto.
Qed.

Section allow.
Context {St : Type} `{!Store St, !StoreLaws St, !ClaimStore St, !ClaimLaws St}.
Context (s : Server) (now : Time) (r : Request).
Implicit Types st : Site (St := St).

(** A request that asks for an edit and may have it. *)
Record edit_request (fed : Federation) (l : AllowList) st (e : edit) (call : gostring) : Prop := {
  er_stamp : Get (rq_Header r) (bs "X-Pdn-Gateway") = bs "1";
  er_post : rq_Method r = bs "POST";
  er_admin : isAdmin (IdentityFromRequest r) = true;
  er_fed : s_fed s = Some fed;
  er_list : st_allow st = Some l;
  er_body : ∃ d, decodeJSON allow_schema (rq_Body r) = Some d
    ∧ call = ToUpper (TrimSpace (str_field d (bs "callsign")))
    ∧ ToLower (TrimSpace (str_field d (bs "action"))) = edit_name e;
  er_call : call ≠ [] }.

Lemma serve_allow st :
  rq_Path r = bs "/peers/allow" → Get (rq_Header r) (bs "X-Pdn-Gateway") = bs "1" →
  (serve s now r st).1.2 = (handlePeersAllow s r st).1
  ∧ (serve s now r st).2 = (handlePeersAllow s r st).2.
Proof.
  intros Hp Hs. unfold serve, gatewayTrust. rewrite decide_False by (by rewrite Hp).
  rewrite decide_True by done. st_simpl.
  assert (mux s now r = handlePeersAllow s r) as -> by (unfold mux; by rewrite Hp). done.
Qed.

Lemma edit_handler fed l st e call :
  edit_request fed l st e call → handlePeersAllow s r st = edit_allow fed (edit_run e call) st.
Proof.
  intros [H1 H2 H3 H4 H5 (d & Hd & -> & Ha) H6]. unfold handlePeersAllow, requirePost, requireAdmin.
  rewrite decide_True, H3 by done. st_simpl. rewrite H4, H5, Hd. cbn zeta.
  rewrite decide_False by done. rewrite Ha. by destruct e.
Qed.

(** Everything else the handler refuses without a trace. *)
Lemma edit_refused st :
  Get (rq_Header r) (bs "X-Pdn-Gateway") = bs "1" →
  (∀ fed l e call, ¬ edit_request fed l st e call) →
  (handlePeersAllow s r st).2 = st ∧ ∃ code text, (handlePeersAllow s r st).1 = HttpError code text.
Proof.
  intros Hs Hn. unfold handlePeersAllow, requirePost, requireAdmin.
  case_decide as Hpost; [|split; [done|by do 2 eexists]].
  destruct (isAdmin _) eqn:Hadm; [|split; [done|by do 2 eexists]]. st_simpl.
  destruct (s_fed s) as [fed|] eqn:Hf; [|split; [done|by do 2 eexists]].
  destruct (st_allow st) as [l|] eqn:Hl; [|split; [done|by do 2 eexists]].
  destruct (decodeJSON allow_schema (rq_Body r)) as [d|] eqn:Hd; [|split; [done|by do 2 eexists]].
  cbn zeta. case_decide as Hc; [split; [done|by do 2 eexists]|].
  set (call := ToUpper (TrimSpace (str_field d (bs "callsign")))) in *.
  assert (∀ e, ToLower (TrimSpace (str_field d (bs "action"))) = edit_name e → False) as Hne.
  { intros e He. apply (Hn fed l e call). split; try done. by exists d. }
  case_decide as Ha; [exfalso; by apply (Hne EditAdd)|].
  case_decide as Hr; [exfalso; by apply (Hne EditRemove)|].
  split; [done|by do 2 eexists].
Qed.

Lemma edit_call_norm fed l st e call :
  edit_request fed l st e call → normCallsign call = call.
Proof. intros [_ _ _ _ _ (d & _ & -> & _) _]. apply (normCallsign_idemp (str_field d _)). Qed.

(** The persisting half. *)
Lemma persist_spec st :
  store_ok (store st) →
  let raw := encodeAllow (Entries (st_allow st)) in
  match (persist st).1 with
  | None => store_config (store (persist st).2) = <[ConfigKVAllowKey := raw]> (store_config (store st))
  | Some _ => store_config (store (persist st).2) = store_config (store st)
  end.
Proof.
  intros Hok raw. unfold persist, PersistAllowList. cbn [acs_SetConfig chat_allow_store]. fold raw.
  pose proof (config_set (store st) ConfigKVAllowKey raw Hok) as H1.
  pose proof (λ e, config_failed (store st) ConfigKVAllowKey raw e Hok) as H2.
  destruct (SetConfig (store st) ConfigKVAllowKey raw) as [s' [err|]]; cbn in *; [by apply (H2 err)|by apply H1].
Qed.

(** The new list. *)
Definition edited (e : edit) (call : gostring) (l : AllowList) : AllowList :=
  mkAllowList (edit_set e call (al_allowed l)) (al_pinned l) (al_rejected l).

(** The answers to an edit, with what the store's configuration then is. *)
Definition edit_answer (changed keeps : bool) (l' : AllowList) (cfg cfg' : gmap gostring gostring)
    (a : response) : Prop :=
  let raw := encodeAllow (Entries (Some l')) in
  (a = AllowJSON changed (Entries (Some l'))
     ∧ cfg' = if changed && keeps then <[ConfigKVAllowKey := raw]> cfg else cfg)
  ∨ (changed && keeps = true ∧ (∃ text, a = HttpError 500 text) ∧ cfg' = cfg).

Lemma edit_outcome fed l st e call :
  edit_request fed l st e call → site_ok st →
  let changed := bool_decide (edit_set e call (al_allowed l) ≠ al_allowed l) in
  let out := edit_allow fed (edit_run e call) st in
  st_allow out.2 = Some (edited e call l)
  ∧ same_content st out.2 ∧ same_links st out.2 ∧ site_ok out.2
  ∧ edit_answer changed (fd_AllowStore fed) (edited e call l)
      (store_config (store st)) (store_config (store out.2)) out.1.
Proof using Type*.
  intros He Hok changed. cbn zeta. pose proof (edit_call_norm _ _ _ _ _ He) as Hn.
  pose proof (edit_run_spec e call l Hn (er_call _ _ _ _ _ He)) as Hr.
  unfold edit_allow. st_simpl. unfold on_allow. rewrite (er_list _ _ _ _ _ He), Hr. cbn [fst snd].
  fold (edited e call l) changed. set (st1 := upd_allow (λ _, Some (edited e call l)) st).
  assert (st_allow st1 = Some (edited e call l)) as E1 by done.
  assert (same_content st st1 ∧ same_links st st1 ∧ site_ok st1) as (C1 & L1 & O1) by done.
  unfold edit_answer. destruct (changed && fd_AllowStore fed) eqn:Eb; st_simpl.
  - pose proof (persist_spec st1 (proj1 (proj2 O1))) as Hp. rewrite E1 in Hp. cbn zeta in Hp.
    destruct (persist_frame st1 O1) as (O2 & C2 & L2 & E2 & _).
    destruct C1, C2, L1, L2. destruct (persist st1) as [[err|] st2]; cbn [fst snd] in *.
    + split; [congruence|]. split; [split; congruence|]. split; [split; congruence|].
      split; [done|]. right. split; [done|]. split; [by eexists|]. by rewrite Hp.
    + split; [congruence|]. split; [split; congruence|]. split; [split; congruence|].
      split; [done|]. left. rewrite E2, E1. split; [done|]. by rewrite Hp.
  - split; [done|]. split; [done|]. split; [done|]. split; [done|]. left. by split.
Qed.

Lemma Allowed_edited e call l c :
  call ≠ [] →
  Allowed (Some (edited e call l)) c
  = if decide (normCallsign c = call)
    then match e with EditAdd => true | EditRemove => bool_decide (call ∈ al_pinned l) end
    else Allowed (Some l) c.
Proof.
  intros Hc. cbn [Allowed edited al_allowed al_pinned]. cbn zeta.
  destruct (decide (normCallsign c = call)) as [->|Hne].
  - rewrite decide_False by done. destruct e; cbn [edit_set].
    + by rewrite decide_True by set_solver.
    + by rewrite decide_False by set_solver.
  - case_decide; [done|]. destruct e; cbn [edit_set].
    + destruct (decide (normCallsign c ∈ al_allowed l));
        [by rewrite decide_True by set_solver|by rewrite decide_False by set_solver].
    + destruct (decide (normCallsign c ∈ al_allowed l));
        [by rewrite decide_True by set_solver|by rewrite decide_False by set_solver].
Qed.
End allow.

(** C40. Editing the allow-list from the web.  A stamped POST of an admin to the
    federation page, on a node that has the allow-list, with a callsign and one of the
    two actions: from its answer on, the inbound admission of every callsign is what it
    was, except that the named one is admitted after an add and, unless pinned, refused
    after a removal; nobody's chat and no link is touched; and the answer is either the
    new list, with it stored if the edit changed it and the node has a store for it, and
    nothing stored otherwise, or, when a changed list could not be stored, the 500 that
    says so, with the stored list as it was.  An edit that changed the list, was answered with the new list and had a store is
    what a restarted process loads, whatever its environment says, if every entry
    is canonical and storable (a callsign with a blank or a comma inside is not) and the
    store can be read.  Any other request there is refused and changes nothing. *)
Theorem allow_edit_live {St : Type} `{!Store St, !StoreLaws St, !ClaimStore St, !ClaimLaws St}
    (s : Server) now r (st : Site (St := St)) :
  site_ok st → rq_Path r = bs "/peers/allow" →
  let answer := (serve s now r st).1.2 in
  let st' := (serve s now r st).2 in
  (∀ fed l e call, edit_request s r fed l st e call →
     let l' := edited e call l in
     let changed := bool_decide (edit_set e call (al_allowed l) ≠ al_allowed l) in
     (∀ c, Allowed (st_allow st') c
        = if decide (normCallsign c = call)
          then match e with EditAdd => true | EditRemove => bool_decide (call ∈ al_pinned l) end
          else Allowed (st_allow st) c)
     ∧ same_content st st' ∧ same_links st st'
     ∧ edit_answer changed (fd_AllowStore fed) l'
         (store_config (store st)) (store_config (store st')) answer
     ∧ (answer = AllowJSON true (Entries (Some l')) → fd_AllowStore fed = true →
        (∀ c, c ∈ al_allowed l → normCallsign c = c) → storable (Entries (Some l')) →
        ∀ envSeed,
          (∃ err, GetConfig (store st') ConfigKVAllowKey = inr err)
          ∨ ∃ b, LoadAllowList (Some (store st')) envSeed = (Some (store st'), inl (Some b))
             ∧ al_allowed b = al_allowed l' ∧ al_pinned b = ∅))
  ∧ ((∀ fed l e call, ¬ edit_request s r fed l st e call) →
     st' = st ∧ ∃ code text, answer = HttpError code text).
Proof.
  intros Hok Hp answer st'. unfold answer, st'. split.
  - intros fed l e call He. cbn zeta.
    destruct (serve_allow s now r st Hp (er_stamp _ _ _ _ _ _ _ He)) as [-> ->].
    rewrite (edit_handler s r fed l st e call He).
    destruct (edit_outcome s r fed l st e call He Hok) as (E1 & E2 & E3 & (E4 & E5 & E6) & E7).
    split_and!; [|done|done|done|].
    + intros c. rewrite E1, (er_list _ _ _ _ _ _ _ He). by apply Allowed_edited, He.
    + intros Ea Hs Hn Hw envSeed.
      assert (∀ c, c ∈ al_allowed (edited e call l) → normCallsign c = c) as Hn'.
      { pose proof (edit_call_norm _ _ _ _ _ _ _ He). intros c. cbn [edited al_allowed].
        destruct e; cbn [edit_set]; set_solver. }
      destruct E7 as [[Ea' Ec]|(_ & (t & Et) & _)]; [|congruence].
      rewrite Ea in Ea'. injection Ea' as Ech. rewrite <- Ech, Hs in Ec. cbn [andb] in Ec.
      set (s' := store (edit_allow fed (edit_run e call) st).2) in *.
      assert (acs_ok s') as Ho by exact E5.
      destruct (load_stored s' (edited e call l) envSeed Ho Hn' Hw) as [(err & H & _)|Hb]; [|by left; exists err|by right].
      cbn [acs_map chat_allow_laws]. etrans; [apply (f_equal (.!! _)), Ec|]. by apply lookup_insert_eq.
  - intros Hn. destruct (decide (Get (rq_Header r) (bs "X-Pdn-Gateway") = bs "1")) as [Hs|Hs].
    + destruct (serve_allow s now r st Hp Hs) as [-> ->]. by apply edit_refused.
    + rewrite serve_unstamped by (split; [done|by rewrite Hp]). split; [done|by do 2 eexists].
Qed.

(** An edit that could not be stored is not stored by repeating it: the list has it
    already, so the repetition changes nothing and is answered as if all were well. *)
Lemma failed_edit_not_retried {St : Type} `{!Store St, !StoreLaws St, !ClaimStore St, !ClaimLaws St}
    (s : Server) now now' r (st : Site (St := St)) fed l e call text :
  site_ok st → rq_Path r = bs "/peers/allow" → edit_request s r fed l st e call →
  (serve s now r st).1.2 = HttpError 500 text →
  let again := serve s now' r (serve s now r st).2 in
  again.1.2 = AllowJSON false (Entries (Some (edited e call l)))
  ∧ store_config (store again.2) = store_config (store st).
Proof.
  intros Hok Hp He Ha again. pose proof (er_stamp _ _ _ _ _ _ _ He) as Hs.
  destruct (serve_allow s now r st Hp Hs) as [E1 E2]. rewrite E1 in Ha. unfold again. rewrite E2.
  rewrite (edit_handler s r fed l st e call He) in *.
  destruct (edit_outcome s r fed l st e call He Hok) as (O1 & _ & _ & O4 & O5).
  set (st1 := (edit_allow fed (edit_run e call) st).2) in *.
  assert (edit_request s r fed (edited e call l) st1 e call) as He' by (by destruct He; split).
  destruct (serve_allow s now' r st1 Hp Hs) as [-> ->].
  rewrite (edit_handler s r fed _ st1 e call He').
  destruct (edit_outcome s r fed _ st1 e call He' O4) as (_ & _ & _ & _ & O6).
  assert (edit_set e call (al_allowed (edited e call l)) = al_allowed (edited e call l)) as Hi
    by (destruct e; cbn; set_solver).
  assert (edited e call (edited e call l) = edited e call l) as Hl by (unfold edited at 1; rewrite Hi; reflexivity).
  rewrite Hi, Hl, bool_decide_eq_false_2 in O6 by tauto.
  destruct O6 as [[-> ->]|([=] & _)]. split; [done|].
  destruct O5 as [[Hx _]|(_ & _ & ->)]; [congruence|done].
Qed.

(** An admin adds a peer. *)
Definition edit_json (action call : gostring) : Request :=
  mkRequest (bs "POST") (bs "/peers/allow")
    (list_to_map [(bs "X-Pdn-Gateway", bs "1"); (bs "X-Pdn-User", bs "ann");
                  (bs "X-Pdn-Scope", bs "admin")])
    ∅ ∅ (BodyObject [(bs "action", JString action); (bs "callsign", JString call)]).
#[local] Existing Instance Durable.tables_engine.

Lemma allow_edit_live_witness :
  let r := edit_json (bs "add") (bs " gb7ccc") in
  let st' := (serve sample_server 1 r sample_site).2 in
  (serve sample_server 1 r sample_site).1.2 = AllowJSON true [bs "GB7BBB"; bs "GB7CCC"]
  ∧ Allowed (st_allow st') (bs "gb7ccc") = true
  ∧ Allowed (st_allow st') (bs "GB7BBB") = Allowed (st_allow sample_site) (bs "GB7BBB").
Proof.
  intros r st'. split; [vm_compute; reflexivity|].
  assert (edit_request sample_server r (mkFederation true true []) (NewAllowList [bs "GB7BBB"])
    sample_site EditAdd (bs "GB7CCC")) as He.
  { split; try done. exists (default no_fields (decodeJSON allow_schema (rq_Body r))).
    split_and!; by vm_compute. }
  destruct (proj1 (allow_edit_live sample_server 1 r sample_site sample_site_ok eq_refl) _ _ _ _ He)
    as (H & _).
  split; (etrans; [apply H|]); by vm_compute.
Defined.
