(* ===== verification/WebExamples.v ===== *)
(** * Behaviours of the web chat the theorems leave out

    Concrete runs outside the hypotheses of the theorems of the web chat: text with a
    line break, a claim with a blank inside, tabs that close while others open, and a
    callsign on two planes at once. *)
From S2P Require Import Prelude Unicode GoStrings ChatModel ChatSeen ChatStore ChatHub.
From S2P Require Import HubProps PeerProto PeerAllow PeerRouter PeerLink Sqlite SqliteProps.
From S2P Require Import Web WebSteps WebProps.
From stdpp Require Import options.
Local Open Scope Z_scope.
Import Webchat.
#[local] Existing Instance Durable.tables_engine.

(** The lines a peer reads when the router writes an event to its link. *)
Definition peer_reads (our : gostring) (ev : Event) : list gostring :=
  match Router.encodeLocal our ev with Some raw => readLines (raw ++ [zb 13]) | None => [] end.

Definition forged : gostring := encodeData (bs "GB7ZZZ") (bs "G4BAD") (bs "not me").

(** The web does not sanitise what it posts: a message with a carriage return inside is
    logged as one message, but a peer reads it as two records, the second one with any
    node and user the sender likes. *)
Example web_text_forges_record :
  let r := web_post [] [] (bs "/send") [(bs "text", bs "hi" ++ zb 13 :: forged)] in
  let st' := (serve sample_server (year2024 9) r sample_site).2 in
  (serve sample_server (year2024 9) r sample_site).1.2 = NoContent
  ∧ match ChatStore.History (store st') (bs "General") 0 0 with
    | inl [m] =>
        m_FromCall m = bs "GB7AAA"
        ∧ (λ line, (λ rec, (r_Node rec, r_User rec)) <$> Decode line)
            <$> peer_reads (bs "GB7AAA-4") (TopicMessage m)
          = [Some (bs "GB7AAA-4", bs "GB7AAA"); Some (bs "GB7ZZZ", bs "G4BAD")]
    | _ => False
    end.
Proof. vm_compute. by split_and!. Qed.

(** [normClaim] cuts the SSID after trimming, so a blank in front of the hyphen stays:
    a second user claims a callsign that is taken, and has its identity in the hub. *)
Example claim_with_blank_impersonates :
  let st := web_run sample_server
    [claim_of (bs "ann") (bs "M0LTE"); claim_of (bs "bob") (bs "M0LTE -1")] sample_site in
  let viewer usr := web_post usr [] (bs "/events") [] in
  ∃ cs cs', resolveViewer sample_server (viewer (bs "ann")) st = Some cs
  ∧ resolveViewer sample_server (viewer (bs "bob")) st = Some cs'
  ∧ web_key st cs = web_key st cs'.
Proof.
  intros st viewer. exists (bs "M0LTE"), (bs "M0LTE "). split_and!; by vm_compute.
Qed.

(** [leave] counts under its lock but leaves the hub after it: a tab opened in between
    counts itself in as the first one and joins, and then the departure of the closed
    tab removes its user. *)
Example presence_race :
  let st1 := (enter (bs "M0ABC") sample_site).2 in
  let st2 := (leave_count (bs "M0ABC") st1).2 in                (* the old tab, first half *)
  let st3 := (enter (bs "M0ABC") st2).2 in                      (* the new tab *)
  let key := mkUserKey (bs "M0ABC") (ourNode st3) in
  let st4 := (on_hub (Hub.Leave key) st3).2 in                  (* the old tab, second half *)
  (leave_count (bs "M0ABC") st1).1 = true
  ∧ is_Some (Hub.UserOf (hub st3) key)
  ∧ count st4 (bs "M0ABC") = 1 ∧ Hub.UserOf (hub st4) key = None.
Proof.
  intros st1 st2 st3 key st4. split; [by vm_compute|]. split; [|split; by vm_compute].
  apply (bool_decide_unpack (is_Some (Hub.UserOf (hub st3) key))). by vm_compute.
Qed.

(** The counts know nothing of the radio plane: the last tab of a callsign also removes
    the user of a radio session of that callsign. *)
Example tab_evicts_radio_user :
  let key := mkUserKey (bs "M0ABC") (ourNode sample_site) in
  let on_air := upd_hub (Hub.exec (Hub.OpJoin (web_user (ourNode sample_site) (bs "M0ABC"))))
                  sample_site in
  let st' := (leave (bs "M0ABC") (enter (bs "M0ABC") on_air).2).2 in
  is_Some (Hub.UserOf (hub on_air) key) ∧ Hub.UserOf (hub st') key = None.
Proof.
  intros key on_air st'. split; [|by vm_compute].
  apply (bool_decide_unpack (is_Some (Hub.UserOf (hub on_air) key))). by vm_compute.
Qed.
