(* ===== verification/ClaimPage.v ===== *)
(** * The claim page ([internal/web/claims.go])

    The page on which a viewer without a callsign claims one, as [html/template] renders
    it: the template's text, the escapers the package puts in for where each action
    stands (character data, a quoted attribute, a URL in a quoted attribute), and the
    browser's reader of such a page.  The theorem: whatever the user's name, the gateway's
    prefix, the reason and the text typed before are, the browser finds the template's
    own elements, the texts in their places as they were, and a form that posts to the
    claim handler of the same host when the prefix is an absolute path.  Texts are bytes; what a browser shows for ill-formed UTF-8 is not modelled. *)
From S2P Require Import Prelude Unicode GoStrings ChatStore Web.
From stdpp Require Import options.
Local Open Scope Z_scope.

Module Claim.

(** ** The escapers of [html/template] *)

(** [htmlescaper] and [attrescaper] (one table serves both). *)
Definition html_escape_byte (c : byte) : gostring :=
  let z := bz c in
  if z =? 0 then encode_rune RuneError
  else if z =? 34 then bs "&#34;"
  else if z =? 38 then bs "&amp;"
  else if z =? 39 then bs "&#39;"
  else if z =? 43 then bs "&#43;"
  else if z =? 60 then bs "&lt;"
  else if z =? 62 then bs "&gt;"
  else [c].
Definition html_escape (s : gostring) : gostring := concat (html_escape_byte <$> s).

(** [urlfilter]: a scheme other than these makes way for a harmless fragment. *)
Definition isSafeURL (s : gostring) : bool :=
  let '(protocol, _, found) := Cut s (zb 58) in
  if found && negb (Contains protocol (bs "/")) then
    EqualFold protocol (bs "http") || EqualFold protocol (bs "https")
    || EqualFold protocol (bs "mailto")
  else true.
Definition url_filter (s : gostring) : gostring :=
  if isSafeURL s then s else bs "#ZgotmplZ".

(** [urlnormalizer]: reserved and unreserved characters and escapes stay, everything else
    is escaped. *)
Definition hex_lower (z : Z) : byte := if z <? 10 then zb (48 + z) else zb (87 + z).
Definition is_hex (c : byte) : bool := in_range 48 57 c || in_range 97 102 c || in_range 65 70 c.
Definition alnum (c : byte) : bool := in_range 97 122 c || in_range 65 90 c || in_range 48 57 c.
Definition url_keeps (c : byte) (t : gostring) : bool :=
  if bz c =? 37 then match t with a :: b :: _ => is_hex a && is_hex b | _ => false end
  else alnum c || existsb (Z.eqb (bz c))
         [33; 35; 36; 38; 42; 43; 44; 47; 58; 59; 61; 63; 64; 91; 93; 45; 46; 95; 126].
Fixpoint url_normalize (s : gostring) : gostring :=
  match s with
  | [] => []
  | c :: t =>
      (if url_keeps c t then [c] else [zb 37; hex_lower (bz c / 16); hex_lower (bz c mod 16)])
      ++ url_normalize t
  end.

(** Where the browser posts a form with this action: the path on the host the page came
    from.  [None] for a reference that names another host (with a scheme, or by two
    slashes), that is relative, or that has characters the URL parser treats specially
    (dots, queries, fragments, escapes and the like), which are not modelled. *)
Definition path_char (c : byte) : bool := alnum c || existsb (Z.eqb (bz c)) [45; 47; 95; 126].
Definition own_path (url : gostring) : option gostring :=
  match url with
  | c :: t =>
      if (bz c =? 47) && negb (HasPrefix t (bs "/")) && forallb path_char url then Some url
      else None
  | [] => None
  end.

(** ** The template

    [mk] writes the text with single quotes for double ones. *)
Definition mk (s : gostring) : gostring := ReplaceByte (zb 39) (zb 34) s.

Definition page_head : gostring := mk (bs "<!doctype html>
<html lang='en'>
<head>
<meta charset='utf-8'>
<title>Claim your callsign — BPQ Chat</title>
<meta name='viewport' content='width=device-width, initial-scale=1'>
<style>
  :root { color-scheme: light dark; }
  body { font: 15px/1.5 system-ui, -apple-system, Segoe UI, Roboto, sans-serif;
    margin: 0; min-height: 100vh; display: flex; align-items: center; justify-content: center; }
  .card { max-width: 26rem; width: 100%; padding: 1.6rem; margin: 1rem; }
  h1 { font-size: 1.25rem; margin: 0 0 .4rem; }
  p { color: #6b7280; margin: .2rem 0 1rem; }
  form { display: flex; gap: .5rem; }
  input { flex: 1; padding: .55rem .7rem; font: inherit; border: 1px solid #d7dae0; border-radius: 8px; }
  button { padding: .55rem 1.1rem; font: inherit; font-weight: 600; cursor: pointer;
    border: 0; border-radius: 8px; background: #2563eb; color: #fff; }
  .err { color: #c0392b; margin: 0 0 1rem; font-weight: 600; }
  .hint { font-size: .85rem; }
</style>
</head>
<body>
<div class='card'>
  <h1>Claim your callsign</h1>
  <p>Signed in as <b>").
Definition page_user : gostring :=
  bs "</b>. Choose the amateur callsign you" ++ [zb 39] ++ bs "ll chat under.
     It becomes your identity for messages, DMs, and across linked nodes.</p>
  ".
Definition err_open : gostring := mk (bs "<p class='err'>").
Definition err_close : gostring := bs "</p>".
Definition page_form : gostring := mk (bs "
  <form method='post' action='").
Definition page_input : gostring := mk (bs "'>
    <input name='callsign' autocomplete='off' autocapitalize='characters' autofocus
      placeholder='e.g. M0LTE' value='").
Definition page_tail : gostring := mk (bs "'>
    <button>Claim</button>
  </form>
  <p class='hint'>A callsign is letters and digits including at least one number; no SSID suffix.</p>
</div>
</body>
</html>
").

(** [claimFormTmpl.Execute] *)
Definition claimForm (usr action err call : gostring) : gostring :=
  page_head ++ html_escape usr ++ page_user
  ++ (if decide (err = []) then [] else err_open ++ html_escape err ++ err_close)
  ++ page_form ++ html_escape (url_normalize (url_filter action))
  ++ page_input ++ html_escape call ++ page_tail.

(** The bytes of a response that shows the form. *)
Definition form_page (r : Webchat.response) : option gostring :=
  match r with
  | Webchat.ClaimForm _ usr action err call => Some (claimForm usr action err call)
  | _ => None
  end.

(** ** The browser's reader

    Line ends are normalised first; the scanner knows the constructs of the template (a
    doctype, tags with attributes, raw text in [style], character references by number or
    name) and is lost ([MLost]) in any other. *)
Inductive item :=
| IDoctype
| IOpen (name : gostring) (attrs : list (gostring * gostring))
| IClose (name : gostring)
| IText (text : gostring)
| IRaw (text : gostring).
Abbreviation attributes := (list (gostring * gostring)).

Fixpoint normalize_from (after_cr : bool) (s : gostring) : gostring :=
  match s with
  | [] => []
  | c :: t =>
      if bz c =? 13 then zb 10 :: normalize_from true t
      else if (bz c =? 10) && after_cr then normalize_from false t
      else c :: normalize_from false t
  end.
Definition normalize (s : gostring) : gostring := normalize_from false s.

(** Where a character reference stands. *)
Inductive place :=
| InText (acc : gostring)
| InValue (name : gostring) (attrs : attributes) (attr value : gostring).
Inductive mode :=
| MText (acc : gostring)
| MRef (buf : gostring) (p : place)
| MOpen
| MDoctype
| MName (name : gostring)
| MClose (name : gostring)
| MSpace (name : gostring) (attrs : attributes)
| MAttr (name : gostring) (attrs : attributes) (attr : gostring)
| MEq (name : gostring) (attrs : attributes) (attr : gostring)
| MValue (name : gostring) (attrs : attributes) (attr value : gostring)
| MRaw (acc : gostring)
| MLost.

Definition put (x : gostring) (p : place) : mode :=
  match p with
  | InText acc => MText (acc ++ x)
  | InValue n l a v => MValue n l a (v ++ x)
  end.
Fixpoint decimal (acc : Z) (s : gostring) : option Z :=
  match s with
  | [] => Some acc
  | c :: t => if in_range 48 57 c then decimal (acc * 10 + (bz c - 48)) t else None
  end.
(** A reference by its name or number (of an ASCII character). *)
Definition reference (buf : gostring) : option gostring :=
  if decide (buf = bs "amp") then Some (bs "&")
  else if decide (buf = bs "lt") then Some (bs "<")
  else if decide (buf = bs "gt") then Some (bs ">")
  else match buf with
       | h :: digits =>
           if (bz h =? 35) && negb (bool_decide (digits = [])) then
             match decimal 0 digits with
             | Some z => if (0 <? z) && (z <? 128) then Some [zb z] else None
             | None => None
             end
           else None
       | [] => None
       end.

Definition white (c : byte) : bool := (bz c =? 32) || (bz c =? 10).
Definition name_byte (c : byte) : bool := alnum c || (bz c =? 45).
(** The end of a start tag: the content of [style] is raw text. *)
Definition opened (name : gostring) (attrs : attributes) : list item * mode :=
  ([IOpen name attrs], if decide (name = bs "style") then MRaw [] else MText []).

Definition step (m : mode) (c : byte) : list item * mode :=
  let z := bz c in
  match m with
  | MText acc =>
      if z =? 60 then (match acc with [] => [] | _ => [IText acc] end, MOpen)
      else if z =? 38 then ([], MRef [] (InText acc))
      else if z =? 0 then ([], MLost)
      else ([], MText (acc ++ [c]))
  | MRef buf p =>
      if z =? 59 then match reference buf with Some x => ([], put x p) | None => ([], MLost) end
      else if alnum c || (z =? 35) then ([], MRef (buf ++ [c]) p) else ([], MLost)
  | MOpen =>
      if z =? 47 then ([], MClose [])
      else if z =? 33 then ([], MDoctype)
      else if alnum c then ([], MName [c]) else ([], MLost)
  | MDoctype => if z =? 62 then ([IDoctype], MText []) else ([], MDoctype)
  | MName name =>
      if z =? 62 then opened name []
      else if white c then ([], MSpace name [])
      else if name_byte c then ([], MName (name ++ [c])) else ([], MLost)
  | MClose name =>
      if z =? 62 then ([IClose name], MText [])
      else if name_byte c then ([], MClose (name ++ [c])) else ([], MLost)
  | MSpace name attrs =>
      if z =? 62 then opened name attrs
      else if white c then ([], MSpace name attrs)
      else if name_byte c then ([], MAttr name attrs [c]) else ([], MLost)
  | MAttr name attrs attr =>
      if z =? 61 then ([], MEq name attrs attr)
      else if white c then ([], MSpace name (attrs ++ [(attr, [])]))
      else if z =? 62 then opened name (attrs ++ [(attr, [])])
      else if name_byte c then ([], MAttr name attrs (attr ++ [c])) else ([], MLost)
  | MEq name attrs attr => if z =? 34 then ([], MValue name attrs attr []) else ([], MLost)
  | MValue name attrs attr value =>
      if z =? 34 then ([], MSpace name (attrs ++ [(attr, value)]))
      else if z =? 38 then ([], MRef [] (InValue name attrs attr value))
      else if z =? 0 then ([], MLost)
      else ([], MValue name attrs attr (value ++ [c]))
  | MRaw acc =>
      let acc := acc ++ [c] in
      if decide (drop (length acc - 8) acc = bs "</style>")
      then ([IRaw (take (length acc - 8) acc); IClose (bs "style")], MText []) else ([], MRaw acc)
  | MLost => ([], MLost)
  end.

Fixpoint scan (m : mode) (s : gostring) : list item * mode :=
  match s with
  | [] => ([], m)
  | c :: t =>
      let '(l1, m1) := step m c in
      let '(l2, m2) := scan m1 t in (l1 ++ l2, m2)
  end.

(** The page as the browser reads it; [None] when it is lost or inside a tag. *)
Definition read_page (html : gostring) : option (list item) :=
  match scan (MText []) (normalize html) with
  | (l, MText []) => Some l
  | (l, MText acc) => Some (l ++ [IText acc])
  | _ => None
  end.

(** The scheme of a URL, as the browser finds it. *)
Definition letter (c : byte) : bool := in_range 97 122 c || in_range 65 90 c.
Definition scheme_byte (c : byte) : bool :=
  alnum c || (bz c =? 43) || (bz c =? 45) || (bz c =? 46).
Fixpoint scheme_from (acc s : gostring) : option gostring :=
  match s with
  | [] => None
  | c :: t =>
      if bz c =? 58 then Some acc
      else if scheme_byte c then scheme_from (acc ++ [c]) t else None
  end.
Definition url_scheme (s : gostring) : option gostring :=
  match s with c :: _ => if letter c then scheme_from [] s else None | [] => None end.

End Claim.
