(* ===== verification/ClaimPageProps.v ===== *)
(** * What the browser makes of the claim page *)
From S2P Require Import Prelude Unicode GoStrings ChatStore Web ClaimPage.
From stdpp Require Import options.
Local Open Scope Z_scope.
Import Claim.

(** ** The scanner *)

Lemma scan_app a : ∀ m b,
  scan m (a ++ b) = let '(l1, m1) := scan m a in let '(l2, m2) := scan m1 b in (l1 ++ l2, m2).
Proof.
  induction a as [|c a IH]; intros m b; cbn [app scan]; [by destruct (scan m b)|].
  destruct (step m c) as [l0 m0]. rewrite IH. destruct (scan m0 a) as [l1 m1].
  destruct (scan m1 b) as [l2 m2]. by rewrite app_assoc.
Qed.

Lemma scan_then m a b l1 m1 l2 m2 :
  scan m a = (l1, m1) → scan m1 b = (l2, m2) → scan m (a ++ b) = (l1 ++ l2, m2).
Proof. intros E1 E2. by rewrite scan_app, E1, E2. Qed.

Lemma scan_cons m c t l0 m0 l m' :
  step m c = (l0, m0) → scan m0 t = (l, m') → scan m (c :: t) = (l0 ++ l, m').
Proof. intros E1 E2. cbn [scan]. by rewrite E1, E2. Qed.

(** A text, if there is one. *)
Definition text_item (t : gostring) : list item := match t with [] => [] | _ => [IText t] end.

Lemma scan_tag acc t l m :
  scan MOpen t = (l, m) → scan (MText acc) (zb 60 :: t) = (text_item acc ++ l, m).
Proof. intros E. by apply (scan_cons _ _ _ (text_item acc) MOpen). Qed.

Lemma scan_close n attrs a v t l m :
  n ≠ bs "style" → scan (MText []) t = (l, m) →
  scan (MValue n attrs a v) (zb 34 :: zb 62 :: t) = (IOpen n (attrs ++ [(a, v)]) :: l, m).
Proof.
  intros Hn E.
  apply (scan_cons _ _ _ [] (MSpace n (attrs ++ [(a, v)]))); [done|].
  apply (scan_cons _ _ _ [IOpen n (attrs ++ [(a, v)])] (MText [])); [|done].
  cbn [step]. unfold opened. by rewrite decide_False.
Qed.

(** What is shown of a text: its line ends normalised, U+FFFD for NUL. *)
Definition shown_byte (c : byte) : gostring := if bz c =? 0 then encode_rune RuneError else [c].
Definition shown (s : gostring) : gostring := concat (shown_byte <$> s).
Definition displayed (s : gostring) : gostring := shown (normalize s).

Lemma put_nil p : put [] p = match p with InText acc => MText acc | InValue n l a v => MValue n l a v end.
Proof. destruct p; cbn; by rewrite app_nil_r. Qed.
Lemma put_put x y p : put (x ++ y) p = match put x p with
  | MText acc => MText (acc ++ y) | MValue n l a v => MValue n l a (v ++ y) | m => m end.
Proof. destruct p; cbn; by rewrite app_assoc. Qed.

(** One escaped byte, in text and in a quoted value. *)
Lemma escape_cases (P : byte → gostring → gostring → Prop) :
  (∀ z e, (z, e) ∈ [(0, encode_rune RuneError)] → P (zb z) e e) →
  (∀ z e, (z, e) ∈ [(34, bs "&#34;"); (38, bs "&amp;"); (39, bs "&#39;"); (43, bs "&#43;");
     (60, bs "&lt;"); (62, bs "&gt;")] → P (zb z) e [zb z]) →
  (∀ c, Forall (λ z, bz c ≠ z) [0; 34; 38; 39; 43; 60; 62] → P c [c] [c]) →
  ∀ c, P c (html_escape_byte c) (shown_byte c).
Proof.
  intros H0 H1 H2 c. unfold html_escape_byte, shown_byte.
  assert (∀ z, bz c = z → c = zb z) as Hz by (intros z <-; by rewrite zb_bz).
  destruct (Z.eqb_spec (bz c) 0) as [E|]; [rewrite (Hz _ E); apply H0; by left|].
  destruct (Z.eqb_spec (bz c) 34) as [E|]; [rewrite (Hz _ E); apply H1; set_solver|].
  destruct (Z.eqb_spec (bz c) 38) as [E|]; [rewrite (Hz _ E); apply H1; set_solver|].
  destruct (Z.eqb_spec (bz c) 39) as [E|]; [rewrite (Hz _ E); apply H1; set_solver|].
  destruct (Z.eqb_spec (bz c) 43) as [E|]; [rewrite (Hz _ E); apply H1; set_solver|].
  destruct (Z.eqb_spec (bz c) 60) as [E|]; [rewrite (Hz _ E); apply H1; set_solver|].
  destruct (Z.eqb_spec (bz c) 62) as [E|]; [rewrite (Hz _ E); apply H1; set_solver|].
  apply H2. by repeat constructor.
Qed.

Ltac six H := repeat (apply elem_of_cons in H as [[= -> ->]|H]; [reflexivity|]); by apply elem_of_nil in H.

Lemma scan_byte_text c acc :
  scan (MText acc) (html_escape_byte c) = ([], MText (acc ++ shown_byte c)).
Proof.
  revert c acc. apply (escape_cases (λ _ e s, ∀ acc, scan (MText acc) e = ([], MText (acc ++ s)))).
  - intros z e Hz acc. apply list_elem_of_singleton in Hz as [= -> ->].
    change (scan (MText acc) (encode_rune RuneError))
      with (@nil item, MText (((acc ++ [zb 239]) ++ [zb 191]) ++ [zb 189])).
    by rewrite <- !app_assoc.
  - intros z e Hz acc. six Hz.
  - intros c Hc acc. cbn [scan step]. rewrite Forall_forall in Hc.
    by rewrite !(proj2 (Z.eqb_neq _ _)) by (apply Hc; set_solver).
Qed.

Lemma scan_byte_value c n attrs a v :
  scan (MValue n attrs a v) (html_escape_byte c) = ([], MValue n attrs a (v ++ shown_byte c)).
Proof.
  revert c v.
  apply (escape_cases (λ _ e s, ∀ v, scan (MValue n attrs a v) e = ([], MValue n attrs a (v ++ s)))).
  - intros z e Hz v. apply list_elem_of_singleton in Hz as [= -> ->].
    change (scan (MValue n attrs a v) (encode_rune RuneError))
      with (@nil item, MValue n attrs a (((v ++ [zb 239]) ++ [zb 191]) ++ [zb 189])).
    by rewrite <- !app_assoc.
  - intros z e Hz v. six Hz.
  - intros c Hc v. cbn [scan step]. rewrite Forall_forall in Hc.
    by rewrite !(proj2 (Z.eqb_neq _ _)) by (apply Hc; set_solver).
Qed.

Lemma scan_text s : ∀ acc, scan (MText acc) (html_escape s) = ([], MText (acc ++ shown s)).
Proof.
  unfold html_escape, shown. induction s as [|c s IH]; intros acc; cbn [fmap list_fmap concat];
    [by rewrite app_nil_r|].
  rewrite (scan_then _ _ _ _ _ _ _ (scan_byte_text c acc) (IH _)). by rewrite app_assoc.
Qed.
Lemma scan_value s n attrs a : ∀ v,
  scan (MValue n attrs a v) (html_escape s) = ([], MValue n attrs a (v ++ shown s)).
Proof.
  unfold html_escape, shown. induction s as [|c s IH]; intros v; cbn [fmap list_fmap concat];
    [by rewrite app_nil_r|].
  rewrite (scan_then _ _ _ _ _ _ _ (scan_byte_value c n attrs a v) (IH _)). by rewrite app_assoc.
Qed.

(** ** Line ends *)

Fixpoint cr_end (x : bool) (s : gostring) : bool :=
  match s with [] => x | c :: t => cr_end (bz c =? 13) t end.
Lemma normalize_app a : ∀ x b,
  normalize_from x (a ++ b) = normalize_from x a ++ normalize_from (cr_end x a) b.
Proof.
  induction a as [|c a IH]; intros x b; [done|]. cbn [app normalize_from cr_end].
  destruct (Z.eqb_spec (bz c) 13) as [E|E]; [by rewrite IH|].
  destruct (_ && x); by rewrite IH.
Qed.

Definition no_cr (s : gostring) : bool := forallb (λ c, negb (bz c =? 13)) s.
Definition no_lf_first (s : gostring) : bool :=
  match s with c :: _ => negb (bz c =? 10) && negb (bz c =? 13) | [] => false end.
Lemma normalize_id s : no_cr s = true → normalize_from false s = s ∧ cr_end false s = false.
Proof.
  induction s as [|c s IH]; [done|]. cbn. intros [Hc Hs]%andb_true_iff. apply negb_true_iff in Hc.
  rewrite Hc, andb_false_r. destruct (IH Hs) as [-> ->]. done.
Qed.
(** The template's text, wherever it follows. *)
Lemma normalize_static x s b :
  no_cr s = true → no_lf_first s = true ∨ x = false →
  normalize_from x (s ++ b) = s ++ normalize_from (match s with [] => x | _ => false end) b.
Proof.
  intros Hc Hx. rewrite normalize_app. destruct s as [|c s]; [done|].
  assert (normalize_from x (c :: s) = normalize_from false (c :: s)) as ->.
  { destruct Hx as [Hl| ->]; [|done]. cbn in Hl |- *. apply andb_true_iff in Hl as [Hl _].
    apply negb_true_iff in Hl. by rewrite Hl. }
  destruct (normalize_id (c :: s) Hc) as [-> He]. do 2 f_equal. exact He.
Qed.

Lemma escape_byte_plain c :
  bz c ≠ 13 → bz c ≠ 10 → no_cr (html_escape_byte c) = true ∧ no_lf_first (html_escape_byte c) = true.
Proof.
  revert c. apply (escape_cases (λ c e _, bz c ≠ 13 → bz c ≠ 10 → no_cr e = true ∧ no_lf_first e = true)).
  - intros z e Hz _ _. apply list_elem_of_singleton in Hz as [= -> ->]. done.
  - intros z e Hz _ _. repeat (apply elem_of_cons in Hz as [[= -> ->]|Hz]; [done|]).
    by apply elem_of_nil in Hz.
  - intros c _ H1 H2. cbn. by rewrite (proj2 (Z.eqb_neq _ _) H1), (proj2 (Z.eqb_neq _ _) H2).
Qed.

Lemma escape_eol c : bz c = 13 ∨ bz c = 10 → html_escape_byte c = [c].
Proof. unfold html_escape_byte. intros [-> | ->]; reflexivity. Qed.

(** Normalising before or after the escaping is the same. *)
Lemma normalize_escape s : ∀ x b,
  normalize_from x (html_escape s ++ b)
  = html_escape (normalize_from x s) ++ normalize_from (cr_end x s) b.
Proof.
  unfold html_escape. induction s as [|c s IH]; intros x b; [done|].
  cbn [fmap list_fmap concat normalize_from cr_end]. rewrite <- app_assoc.
  destruct (Z.eqb_spec (bz c) 13) as [E|E13].
  - rewrite escape_eol by auto. cbn [app normalize_from]. rewrite E. cbn. by rewrite IH.
  - destruct (Z.eqb_spec (bz c) 10) as [E|E10]; cbn [andb].
    + rewrite escape_eol by auto. cbn [app normalize_from]. rewrite E. cbn.
      destruct x; cbn [fmap list_fmap concat]; [by rewrite IH|].
      rewrite escape_eol by auto. cbn [app]. by rewrite IH.
    + destruct (escape_byte_plain c E13 E10) as [H1 H2].
      rewrite normalize_static by auto. cbn [fmap list_fmap concat]. rewrite <- app_assoc. f_equal.
      destruct (html_escape_byte c); [done|]. apply IH.
Qed.

(** ** The form's URL *)

Lemma url_keeps_plain c t : url_keeps c t = true → bz c ≠ 0 ∧ bz c ≠ 10 ∧ bz c ≠ 13.
Proof.
  intros H. split_and!; intros E; revert H; unfold url_keeps, alnum, in_range; by rewrite !E.
Qed.

Lemma hex_lower_plain z : 0 ≤ z < 16 → bz (hex_lower z) ≠ 0 ∧ bz (hex_lower z) ≠ 10 ∧ bz (hex_lower z) ≠ 13.
Proof.
  intros Hz. unfold hex_lower. destruct (Z.ltb_spec z 10); rewrite bz_zb_small by lia; lia.
Qed.

Lemma url_plain s : Forall (λ c, bz c ≠ 0 ∧ bz c ≠ 10 ∧ bz c ≠ 13) (url_normalize s).
Proof.
  induction s as [|c t IH]; cbn [url_normalize]; [constructor|]. apply Forall_app. split; [|done].
  destruct (url_keeps c t) eqn:E; [by constructor; [eapply url_keeps_plain|]|].
  pose proof (bz_range c). repeat constructor; try done;
    (apply hex_lower_plain; Z.to_euclidean_division_equations; lia).
Qed.

Lemma plain_normalize s x :
  Forall (λ c, bz c ≠ 0 ∧ bz c ≠ 10 ∧ bz c ≠ 13) s → normalize_from x s = s ∧ cr_end false s = false.
Proof.
  intros H. revert x. induction H as [|c s (H0 & H1 & H2) _ IH]; intros x; [done|]. cbn.
  rewrite (proj2 (Z.eqb_neq _ _) H1), (proj2 (Z.eqb_neq _ _) H2). cbn.
  destruct (IH false) as [E1 E2]. by rewrite E1, E2.
Qed.
Lemma plain_shown s : Forall (λ c, bz c ≠ 0 ∧ bz c ≠ 10 ∧ bz c ≠ 13) s → shown s = s.
Proof.
  unfold shown. induction 1 as [|c s (H0 & _) _ IH]; [done|]. cbn [fmap list_fmap concat].
  unfold shown_byte at 1. rewrite (proj2 (Z.eqb_neq _ _) H0). by rewrite IH.
Qed.

(** A prefix of scheme characters comes through the normaliser from itself. *)
Lemma scheme_kept c t : scheme_byte c = true ∨ bz c = 58 → url_keeps c t = true.
Proof.
  intros H. unfold url_keeps.
  assert (bz c ≠ 37) as Hp.
  { intros E. destruct H as [H|H]; [|lia]. revert H. unfold scheme_byte, alnum, in_range. by rewrite E. }
  rewrite (proj2 (Z.eqb_neq _ _) Hp). destruct H as [H|H]; [|by rewrite H, orb_true_r].
  unfold scheme_byte in H. destruct (alnum c); [done|]. cbn in H |- *.
  destruct (Z.eqb_spec (bz c) 43) as [->|]; [done|]. destruct (Z.eqb_spec (bz c) 45) as [->|]; [done|].
  destruct (Z.eqb_spec (bz c) 46) as [->|]; [done|]. done.
Qed.

Lemma scheme_normalized s : ∀ acc sch,
  scheme_from acc (url_normalize s) = Some sch →
  ∃ p t, s = p ++ zb 58 :: t ∧ sch = acc ++ p ∧ Forall (λ c, scheme_byte c = true) p.
Proof.
  induction s as [|c s IH]; intros acc sch; [done|]. cbn [url_normalize].
  destruct (url_keeps c s) eqn:Ek; cbn [app scheme_from].
  - destruct (Z.eqb_spec (bz c) 58) as [E|E].
    + intros [= <-]. exists [], s. rewrite <- (zb_bz c), E. by rewrite app_nil_r.
    + destruct (scheme_byte c) eqn:Es; [|done]. intros H.
      destruct (IH _ _ H) as (p & t & -> & -> & Hp). exists (c :: p), t.
      split_and!; [done|by rewrite <- app_assoc|by constructor].
  - change (bz (zb 37) =? 58) with false. change (scheme_byte (zb 37)) with false. done.
Qed.

Lemma scheme_no_slash p : Forall (λ c, scheme_byte c = true) p → (zb 58 ∉ p) ∧ Contains p (bs "/") = false.
Proof.
  intros H. split.
  - intros Hin. rewrite Forall_forall in H. specialize (H _ Hin). discriminate H.
  - induction H as [|c p Hc _ IH]; [done|].
    assert (HasPrefix (c :: p) (bs "/") = (47 =? bz c)) as Hh.
    { cbn. change (bz Byte.x2f) with 47. destruct p; apply andb_true_r. }
    change (Contains (c :: p) (bs "/")) with (HasPrefix (c :: p) (bs "/") || Contains p (bs "/")).
    rewrite IH, Hh. destruct (Z.eqb_spec 47 (bz c)) as [E|]; [|done].
    revert Hc. unfold scheme_byte, alnum, in_range. by rewrite <- E.
Qed.

(** The only schemes a form posts to. *)
Lemma url_scheme_safe s sch :
  url_scheme (url_normalize (url_filter s)) = Some sch →
  EqualFold sch (bs "http") || EqualFold sch (bs "https") || EqualFold sch (bs "mailto") = true.
Proof.
  intros H. assert (scheme_from [] (url_normalize (url_filter s)) = Some sch) as H1.
  { unfold url_scheme in H. destruct (url_normalize (url_filter s)); [done|]. by case_match. }
  unfold url_filter in H1. destruct (isSafeURL s) eqn:Es; [|discriminate H1].
  destruct (scheme_normalized s [] sch H1) as (p & t & -> & -> & Hp).
  destruct (scheme_no_slash p Hp) as [H58 Hs]. unfold isSafeURL in Es.
  rewrite Cut_app in Es by done. by rewrite Hs in Es.
Qed.

(** ** The page *)

(** What the template's own text is read as: its items, and the text it ends in. *)
Definition head_items : list item := Eval vm_compute in (scan (MText []) page_head).1.
Definition user_items : list item := Eval vm_compute in (scan MOpen (drop 1 page_user)).1.
Definition tail_items : list item := Eval vm_compute in (scan (MText []) (drop 2 page_tail)).1.
Definition input_attrs : attributes :=
  [(bs "name", bs "callsign"); (bs "autocomplete", bs "off"); (bs "autocapitalize", bs "characters");
   (bs "autofocus", []); (bs "placeholder", bs "e.g. M0LTE")].
Definition gap : gostring := bs "
  ".

(** The reason, if there is one, and the space around it. *)
Definition reason_items (err : gostring) : list item :=
  if decide (err = []) then [IText (gap ++ gap)]
  else [IText gap; IOpen (bs "p") [(bs "class", bs "err")]] ++ text_item (displayed err)
       ++ [IClose (bs "p"); IText gap].

Definition page_items (usr action err call : gostring) : list item :=
  head_items ++ text_item (displayed usr) ++ user_items ++ reason_items err
  ++ [IOpen (bs "form") [(bs "method", bs "post"); (bs "action", url_normalize (url_filter action))];
      IText (bs "
    "); IOpen (bs "input") (input_attrs ++ [(bs "value", displayed call)])]
  ++ tail_items ++ [IText [zb 10]].

Lemma scan_head : scan (MText []) page_head = (head_items, MText []).
Proof. vm_compute. reflexivity. Qed.
Lemma scan_user acc : scan (MText acc) page_user = (text_item acc ++ user_items, MText gap).
Proof. apply (scan_tag acc (drop 1 page_user)). vm_compute. reflexivity. Qed.
Lemma scan_form acc :
  scan (MText acc) page_form
  = ([IText (acc ++ gap)], MValue (bs "form") [(bs "method", bs "post")] (bs "action") []).
Proof.
  apply (scan_cons _ (zb 10) _ [] (MText (acc ++ [zb 10]))); [done|].
  apply (scan_cons _ (zb 32) _ [] (MText ((acc ++ [zb 10]) ++ [zb 32]))); [done|].
  apply (scan_cons _ (zb 32) _ [] (MText (((acc ++ [zb 10]) ++ [zb 32]) ++ [zb 32]))); [done|].
  rewrite <- !app_assoc. change ([zb 10] ++ [zb 32] ++ [zb 32]) with gap.
  replace [IText (acc ++ gap)] with (text_item (acc ++ gap) ++ []) by by destruct acc.
  apply (scan_tag (acc ++ gap) (drop 4 page_form)). vm_compute. reflexivity.
Qed.
Lemma scan_input attrs v :
  scan (MValue (bs "form") attrs (bs "action") v) page_input
  = ([IOpen (bs "form") (attrs ++ [(bs "action", v)]); IText (bs "
    ")], MValue (bs "input") input_attrs (bs "value") []).
Proof. apply (scan_close _ _ _ _ (drop 2 page_input)); [done|]. vm_compute. reflexivity. Qed.
Lemma scan_tail attrs v :
  scan (MValue (bs "input") attrs (bs "value") v) page_tail
  = (IOpen (bs "input") (attrs ++ [(bs "value", v)]) :: tail_items, MText [zb 10]).
Proof. apply (scan_close _ _ _ _ (drop 2 page_tail)); [done|]. vm_compute. reflexivity. Qed.

Lemma scan_reason err :
  scan (MText gap) ((if decide (err = []) then [] else err_open ++ html_escape (normalize err) ++ err_close)
    ++ page_form)
  = (reason_items err, MValue (bs "form") [(bs "method", bs "post")] (bs "action") []).
Proof.
  unfold reason_items. case_decide; [apply scan_form|]. rewrite <- !app_assoc.
  refine (scan_then (MText gap) err_open _ [IText gap; IOpen (bs "p") [(bs "class", bs "err")]]
    (MText []) _ _ eq_refl _).
  refine (scan_then (MText []) (html_escape (normalize err)) _ [] (MText (displayed err)) _ _
    (scan_text _ []) _).
  change [IClose (bs "p"); IText gap] with ([IClose (bs "p")] ++ [IText gap]).
  rewrite (app_assoc (text_item (displayed err))).
  refine (scan_then (MText (displayed err)) err_close page_form
    (text_item (displayed err) ++ [IClose (bs "p")]) (MText []) [IText gap] _ _ _).
  - apply (scan_tag _ (bs "/p>")). reflexivity.
  - apply scan_form.
Qed.

Ltac static := first [by right | by vm_compute | left; by vm_compute].

(** Normalising the page's line ends. *)
Lemma normalize_page usr action err call :
  normalize (claimForm usr action err call)
  = page_head ++ html_escape (normalize usr) ++ page_user
    ++ ((if decide (err = []) then [] else err_open ++ html_escape (normalize err) ++ err_close)
        ++ page_form)
    ++ html_escape (url_normalize (url_filter action)) ++ page_input
    ++ html_escape (normalize call) ++ page_tail.
Proof.
  unfold normalize, claimForm. rewrite (normalize_static false page_head) by static.
  change (match page_head with [] => false | _ => false end) with false. f_equal.
  rewrite normalize_escape. f_equal.
  rewrite (normalize_static _ page_user) by static.
  change (match page_user with [] => _ | _ => false end) with false. f_equal.
  assert (∀ b, normalize_from false (page_form ++ b) = page_form ++ normalize_from false b) as Hform.
  { intros b. by rewrite normalize_static by static. }
  set (b := html_escape (url_normalize _) ++ _).
  assert (normalize_from false b = html_escape (url_normalize (url_filter action)) ++ page_input
    ++ html_escape (normalize call) ++ page_tail) as Hb.
  { unfold b. rewrite normalize_escape. destruct (plain_normalize _ false (url_plain (url_filter action))) as [-> ->].
    f_equal. rewrite (normalize_static _ page_input) by static.
    change (match page_input with [] => _ | _ => false end) with false. f_equal.
    rewrite normalize_escape. do 2 f_equal. }
  case_decide; cbn [app].
  - by rewrite Hform, Hb.
  - rewrite <- !app_assoc. rewrite (normalize_static _ err_open) by static.
    change (match err_open with [] => _ | _ => false end) with false. f_equal.
    rewrite normalize_escape. f_equal.
    rewrite (normalize_static _ err_close) by static.
    change (match err_close with [] => _ | _ => false end) with false. f_equal.
    by rewrite Hform, Hb.
Qed.

Lemma read_claimForm usr action err call :
  read_page (claimForm usr action err call) = Some (page_items usr action err call).
Proof.
  unfold read_page, page_items. rewrite normalize_page.
  rewrite (scan_then _ _ _ _ _ _ _ scan_head
    (scan_then _ _ _ _ _ _ _ (scan_text (normalize usr) [])
    (scan_then _ _ _ _ _ _ _ (scan_user _)
    (scan_then _ _ _ _ _ _ _ (scan_reason err)
    (scan_then _ _ _ _ _ _ _ (scan_value _ _ _ _ _)
    (scan_then _ _ _ _ _ _ _ (scan_input _ _)
    (scan_then _ _ _ _ _ _ _ (scan_value _ _ _ _ _) (scan_tail _ _)))))))).
  cbn [app]. rewrite (plain_shown _ (url_plain (url_filter action))). fold (displayed usr) (displayed call).
  rewrite <- ?app_assoc. cbn [app]. by rewrite <- ?app_assoc.
Qed.

Definition path_byte (c : byte) : Prop := alnum c = true ∨ bz c = 45 ∨ bz c = 47.

Lemma path_bytes_by s :
  forallb (λ c, alnum c || (bz c =? 45) || (bz c =? 47)) s = true → Forall path_byte s.
Proof.
  rewrite forallb_forall. intros H. apply Forall_forall. intros c Hc%list_elem_of_In.
  specialize (H c Hc). unfold path_byte. rewrite !orb_true_iff, !Z.eqb_eq in H. tauto.
Qed.

Lemma path_url s : Forall path_byte s → url_normalize (url_filter s) = s.
Proof.
  intros H. assert (zb 58 ∉ s) as H58.
  { intros Hin. rewrite Forall_forall in H. destruct (H _ Hin) as [Hc|Hc]; [discriminate Hc|].
    vm_compute in Hc. lia. }
  unfold url_filter, isSafeURL. rewrite Cut_none by done. cbn [andb].
  clear H58. induction H as [|c s Hc _ IH]; [done|]. cbn [url_normalize].
  assert (url_keeps c s = true) as ->; [|by rewrite IH].
  assert (bz c ≠ 37) as Hp.
  { intros E. destruct Hc as [Hc|Hc]; [|lia]. revert Hc. unfold alnum, in_range. by rewrite E. }
  unfold url_keeps. rewrite (proj2 (Z.eqb_neq _ _) Hp).
  destruct Hc as [->|[-> | ->]]; [done|apply orb_true_r..].
Qed.

Lemma claim_action r :
  let prefix := Webchat.Get (Webchat.rq_Header r) (bs "X-Forwarded-Prefix") in
  Forall path_byte prefix →
  url_normalize (url_filter (Webchat.u r (bs "/claim"))) = TrimRight (bs "/") prefix ++ bs "/claim".
Proof.
  intros prefix Hp. assert (Webchat.u r (bs "/claim") = TrimRight (bs "/") prefix ++ bs "/claim") as ->.
  { unfold Webchat.u. fold prefix. unfold Webchat.U. cbn. by case_decide as E; [rewrite E|]. }
  apply path_url, Forall_app. split.
  - unfold TrimRight. destruct (trim_end_split (λ c, existsb (λ d, bz c =? bz d) (bs "/")) prefix) as [k [Ek _]].
    rewrite Ek in Hp. by apply Forall_app in Hp as [Hp _].
  - by apply path_bytes_by.
Qed.

(** A prefix as the gateway stamps it: nothing, or an absolute path. *)
Definition path_prefix (s : gostring) : Prop :=
  s = [] ∨ ∃ t, s = bs "/" ++ t ∧ HasPrefix t (bs "/") = false ∧ Forall path_byte t.

Lemma path_prefix_bytes s : path_prefix s → Forall path_byte s.
Proof.
  intros [->|(t & -> & _ & H)]; [constructor|]. constructor; [by right; right|done].
Qed.

Lemma slash_first d t : HasPrefix (d :: t) (bs "/") = (bz d =? 47).
Proof.
  change (HasPrefix (d :: t) (bs "/")) with ((47 =? bz d) && HasPrefix t []).
  rewrite Z.eqb_sym. destruct t; apply andb_true_r.
Qed.

Lemma TrimRight_prefix s :
  path_prefix s →
  TrimRight (bs "/") s = []
  ∨ ∃ t, TrimRight (bs "/") s = zb 47 :: t ∧ t ≠ [] ∧ HasPrefix t (bs "/") = false.
Proof.
  intros [->|(t & -> & Hh & Ht)]; [by left|].
  assert (t = [] ∨ t ≠ []) as [->|Hne] by (destruct t; auto); [by left|]. right.
  unfold TrimRight.
  destruct (trim_end_split (λ c, existsb (λ d, bz c =? bz d) (bs "/")) (bs "/" ++ t)) as [k [Ek Fk]].
  set (p := trim_end _ _) in *. destruct t as [|d t]; [done|].
  rewrite slash_first in Hh. assert (bz d ≠ 47) as Hd by (by apply Z.eqb_neq).
  destruct p as [|c [|c' p]]; cbn in Ek.
  - subst k. inversion Fk as [|? ? _ F]; subst. inversion F as [|? ? E _]; subst.
    cbn in E. rewrite orb_false_r in E. by apply Z.eqb_eq in E.
  - injection Ek as _ <-. inversion Fk as [|? ? E _]; subst.
    cbn in E. rewrite orb_false_r in E. by apply Z.eqb_eq in E.
  - injection Ek as <- <- _. exists (d :: p). split_and!; [done|done|].
    by rewrite slash_first.
Qed.

Lemma claim_path r :
  let prefix := Webchat.Get (Webchat.rq_Header r) (bs "X-Forwarded-Prefix") in
  path_prefix prefix →
  own_path (url_normalize (url_filter (Webchat.u r (bs "/claim"))))
  = Some (TrimRight (bs "/") prefix ++ bs "/claim").
Proof.
  intros prefix Hp. rewrite claim_action by (by apply path_prefix_bytes). fold prefix.
  assert (Forall path_byte (TrimRight (bs "/") prefix)) as Hb.
  { unfold TrimRight. pose proof (path_prefix_bytes _ Hp) as H.
    destruct (trim_end_split (λ c, existsb (λ d, bz c =? bz d) (bs "/")) prefix) as [k [Ek _]].
    rewrite Ek in H. by apply Forall_app in H as [H _]. }
  assert (forallb path_char (TrimRight (bs "/") prefix ++ bs "/claim") = true) as Hc.
  { rewrite forallb_app. apply andb_true_iff. split; [|by vm_compute].
    apply forallb_forall. intros c Hin%list_elem_of_In. rewrite Forall_forall in Hb.
    unfold path_char. destruct (Hb c Hin) as [->|[E|E]]; [done|..]; rewrite E; apply orb_true_r. }
  destruct (TrimRight_prefix _ Hp) as [E|(t & E & Hn & Hh)]; rewrite E in Hc |- *; [done|].
  cbn [app own_path]. cbn [app] in Hc. rewrite Hc, andb_true_r.
  assert (HasPrefix (t ++ bs "/claim") (bs "/") = false) as ->; [|done].
  destruct t as [|d t]; [done|]. cbn [app]. by rewrite slash_first in *.
Qed.

(** C16. The claim page is the template, whatever is put into it.  For every user name, form
    action, reason and text typed before, the browser reads the page the server renders
    as the template's own elements, with the user's name and the reason as character
    data and the typed text as the value of the input, each as it was (line ends
    normalised, U+FFFD for NUL); none of them adds, ends or changes an element or an
    attribute.  The form's action has no scheme, or http, https or mailto.  The page of a
    refused or a first claim has the callsign typed, trimmed, and the claim handler under
    the gateway's prefix as the action; and where that prefix is empty or an absolute path of
    letters, digits, hyphens and slashes that does not start with two, the browser posts
    the form to the host the page came from, at the claim handler's path under the
    prefix.  (Another prefix, a host name, makes it post there.) *)
Theorem claim_page_is_template usr action err call :
  read_page (claimForm usr action err call) = Some (page_items usr action err call)
  ∧ (∀ sch, url_scheme (url_normalize (url_filter action)) = Some sch →
       EqualFold sch (bs "http") || EqualFold sch (bs "https") || EqualFold sch (bs "mailto") = true)
  ∧ (∀ r status prefill reason,
       let prefix := Webchat.Get (Webchat.rq_Header r) (bs "X-Forwarded-Prefix") in
       form_page (Webchat.claimFormErr r status prefill reason)
       = Some (claimForm (TrimSpace (Webchat.i_User (Webchat.IdentityFromRequest r)))
           (Webchat.u r (bs "/claim")) reason (TrimSpace prefill))
       ∧ (path_prefix prefix →
          own_path (url_normalize (url_filter (Webchat.u r (bs "/claim"))))
          = Some (TrimRight (bs "/") prefix ++ bs "/claim"))).
Proof.
  split; [apply read_claimForm|]. split; [apply url_scheme_safe|].
  intros r status prefill reason prefix. split; [done|]. apply claim_path.
Qed.

(** A prefix that is no path: the claim goes to another host. *)
Example foreign_prefix_leaves_host :
  let r p := Webchat.mkRequest (bs "GET") (bs "/claim")
    (list_to_map [(bs "X-Pdn-User", bs "tom"); (bs "X-Forwarded-Prefix", p)]) ∅ ∅ Webchat.BodyEmpty in
  url_normalize (url_filter (Webchat.u (r (bs "//evil")) (bs "/claim"))) = bs "//evil/claim"
  ∧ own_path (url_normalize (url_filter (Webchat.u (r (bs "//evil")) (bs "/claim")))) = None
  ∧ url_normalize (url_filter (Webchat.u (r (bs "https://evil")) (bs "/claim"))) = bs "https://evil/claim".
Proof. by split_and!; vm_compute. Qed.

(** A name and a callsign that would be markup, behind the gateway. *)
Lemma claim_page_witness :
  let r := Webchat.mkRequest (bs "POST") (bs "/claim")
    (list_to_map [(bs "X-Pdn-User", bs "<b>&tom"); (bs "X-Forwarded-Prefix", bs "/apps/bpqchat/")])
    ∅ ∅ Webchat.BodyEmpty in
  let typed := mk (bs "M0'><script>") in
  let usr := TrimSpace (Webchat.i_User (Webchat.IdentityFromRequest r)) in
  ∃ page, form_page (Webchat.claimFormErr r 400 typed (bs "no")) = Some page
    ∧ read_page page = Some (page_items usr (Webchat.u r (bs "/claim")) (bs "no") (TrimSpace typed))
    ∧ usr = bs "<b>&tom" ∧ displayed (TrimSpace typed) = typed
    ∧ own_path (url_normalize (url_filter (Webchat.u r (bs "/claim")))) = Some (bs "/apps/bpqchat/claim").
Proof.
  intros r typed usr.
  destruct (claim_page_is_template usr (Webchat.u r (bs "/claim")) (bs "no") (TrimSpace typed))
    as (H1 & _ & H3).
  destruct (H3 r 400 typed (bs "no")) as [H4 H5].
  exists (claimForm usr (Webchat.u r (bs "/claim")) (bs "no") (TrimSpace typed)).
  split; [exact H4|]. split; [exact H1|].
  split; [vm_compute; reflexivity|]. split; [vm_compute; reflexivity|].
  rewrite H5; [vm_compute; reflexivity|]. right. exists (bs "apps/bpqchat/").
  split; [vm_compute; reflexivity|]. split; [vm_compute; reflexivity|].
  apply path_bytes_by. vm_compute. reflexivity.
Defined.
