(* ===== verification/Page.v ===== *)
(** * The page of the web chat ([internal/web/index.go])

    The script inside the page's constant, function by function: rendering, direct
    message threads, topic switches, the event stream's listeners and the composer.
    The script runs one task at a time; an [await] ends a task and leaves the rest of
    its function waiting, here as a continuation beside the request it waits for, and
    answers may come in any order, between any other events.  Strings are UTF-8 (the
    page's strings come from decoded UTF-8 and from input fields).  What goes to
    [innerHTML] is kept as text, and [tokens] is the browser's HTML tokenizer on it.
    The engine's case mappings, collation and clock are parameters.  Scrolling, focus,
    styles and the static markup are not modelled. *)
From S2P Require Import Prelude Unicode GoStrings JsonText JsonFacts Web WebWire.
From stdpp Require Import options.
Local Open Scope Z_scope.
Import Webchat Wire.

(** ** The browser *)

Class Browser := {
  toUpperCase : gostring → gostring;
  toLowerCase : gostring → gostring;
  localeCompare : gostring → gostring → Z;
  clock : Z → Z * Z                       (* [getHours], [getMinutes] of a time in ms *)
}.
Class BrowserLaws `{!Browser} := {
  toUpperCase_idemp s : toUpperCase (toUpperCase s) = toUpperCase s
}.

(** An engine with the simple case mappings, in UTC. *)
#[export] Instance plain_browser : Browser :=
  {| toUpperCase := ToUpper; toLowerCase := ToLower;
     localeCompare s t := if str_ltb s t then -1 else if str_ltb t s then 1 else 0;
     clock t := (t / 3600000 mod 24, t / 60000 mod 60) |}.
#[export] Instance plain_browser_laws : BrowserLaws.
Proof. split. apply ToUpper_idemp. Qed.

(** White space and line terminators of the language, as [trim] and [\s] take them. *)
Definition js_space (r : rune) : bool :=
  ((9 <=? r) && (r <=? 13)) || (r =? 32) || (r =? 160) || (r =? 5760)
  || ((8192 <=? r) && (r <=? 8202)) || (r =? 8232) || (r =? 8233) || (r =? 8239)
  || (r =? 8287) || (r =? 12288) || (r =? 65279).
Definition js_newline (r : rune) : bool := (r =? 10) || (r =? 13) || (r =? 8232) || (r =? 8233).
Definition trim (s : gostring) : gostring := unsegs (trim_segs js_space (segs s)).

(** Markup with its double quotes written as single ones. *)
Definition mk (s : gostring) : gostring := ReplaceByte (zb 39) (zb 34) s.

Definition or_str (s t : gostring) : gostring := if decide (s = []) then t else s.

(** *** The HTML tokenizer, on the markup the page writes

    Tags with quoted attributes, the character references [innerHTML] itself writes, line
    ends normalised and NUL dropped as the parser does; [None] is markup of another
    kind. *)
Inductive token :=
| StartTag (name : gostring) (attrs : list (gostring * gostring))
| EndTag (name : gostring)
| Chars (text : gostring).

Inductive tstate :=
| Data (after_cr : bool)
| CharRef (buf : gostring)
| TagOpen
| TagName (close : bool) (name : gostring)
| BeforeAttr (name : gostring) (attrs : list (gostring * gostring))
| AttrName (name : gostring) (attrs : list (gostring * gostring)) (attr : gostring)
| AttrEq (name : gostring) (attrs : list (gostring * gostring)) (attr : gostring)
| AttrValue (name : gostring) (attrs : list (gostring * gostring)) (attr value : gostring)
| AfterValue (name : gostring) (attrs : list (gostring * gostring)).

Definition letter (c : byte) : bool := in_range 97 122 c.
Definition char_ref (buf : gostring) : option gostring :=
  if decide (buf = bs "amp") then Some (bs "&")
  else if decide (buf = bs "lt") then Some (bs "<")
  else if decide (buf = bs "gt") then Some (bs ">")
  else if decide (buf = bs "nbsp") then Some (encode_rune 160)
  else None.

Definition flush (acc : gostring) (l : list token) : list token :=
  match acc with [] => l | _ => Chars acc :: l end.

Fixpoint tok (st : tstate) (acc s : gostring) : option (list token) :=
  match s with
  | [] => match st with Data _ => Some (flush acc []) | _ => None end
  | c :: t =>
      let z := bz c in
      let tag x := (λ l, flush acc (x :: l)) <$> tok (Data false) [] t in
      match st with
      | Data after_cr =>
          if z =? 60 then tok TagOpen acc t
          else if z =? 38 then tok (CharRef []) acc t
          else if z =? 13 then tok (Data true) (acc ++ [zb 10]) t
          else if (z =? 10) && after_cr then tok (Data false) acc t
          else if z =? 0 then tok (Data false) acc t
          else tok (Data false) (acc ++ [c]) t
      | CharRef buf =>
          if z =? 59 then
            match char_ref buf with Some x => tok (Data false) (acc ++ x) t | None => None end
          else if letter c then tok (CharRef (buf ++ [c])) acc t else None
      | TagOpen =>
          if z =? 47 then tok (TagName true []) acc t
          else if letter c then tok (TagName false [c]) acc t else None
      | TagName close name =>
          if z =? 62 then
            if close then tag (EndTag name) else tag (StartTag name [])
          else if (z =? 32) && negb close then tok (BeforeAttr name []) acc t
          else if letter c then tok (TagName close (name ++ [c])) acc t else None
      | BeforeAttr name attrs =>
          if letter c then tok (AttrName name attrs [c]) acc t else None
      | AttrName name attrs attr =>
          if z =? 61 then tok (AttrEq name attrs attr) acc t
          else if letter c then tok (AttrName name attrs (attr ++ [c])) acc t else None
      | AttrEq name attrs attr =>
          if z =? 34 then tok (AttrValue name attrs attr []) acc t else None
      | AttrValue name attrs attr value =>
          if z =? 34 then tok (AfterValue name (attrs ++ [(attr, value)])) acc t
          else if z =? 38 then None else tok (AttrValue name attrs attr (value ++ [c])) acc t
      | AfterValue name attrs =>
          if z =? 62 then tag (StartTag name attrs)
          else if z =? 32 then tok (BeforeAttr name attrs) acc t else None
      end
  end.
Definition tokens (html : gostring) : option (list token) := tok (Data false) [] html.

(** ** Helpers of the script *)

(** [esc]: a text node's [innerHTML]. *)
Definition esc_seg (x : seg) : gostring :=
  if x.1 =? 38 then bs "&amp;"
  else if x.1 =? 160 then bs "&nbsp;"
  else if x.1 =? 60 then bs "&lt;"
  else if x.1 =? 62 then bs "&gt;"
  else x.2.
Definition esc (s : gostring) : gostring := concat (esc_seg <$> segs s).

Definition pad (n : Z) : gostring := if n <? 10 then bs "0" ++ itoa n else itoa n.

(** [encodeURIComponent] *)
Definition uri_safe (c : byte) : bool :=
  in_range 48 57 c || in_range 65 90 c || in_range 97 122 c
  || existsb (Z.eqb (bz c)) [45; 95; 46; 33; 126; 42; 39; 40; 41].
Definition hex_upper (z : Z) : byte := if z <? 10 then zb (48 + z) else zb (55 + z).
Definition encodeURIComponent (s : gostring) : gostring :=
  concat ((λ c, if uri_safe c then [c]
                else [zb 37; hex_upper (bz c / 16); hex_upper (bz c mod 16)]) <$> s).

(** The composer's two regular expressions, [/^\/[tT]\s+(.+)$/] and
    [/^\/[sS]\s+(\S+)\s+(.+)$/], on the runes of a text that does not end in white space
    (the composer trims it), so that no white space has to be given back. *)
Fixpoint span_segs (p : rune → bool) (l : list seg) : list seg * list seg :=
  match l with
  | x :: l' => if p x.1 then let '(a, b) := span_segs p l' in (x :: a, b) else ([], l)
  | [] => ([], [])
  end.
(** What follows a command's letter and white space. *)
Definition after_command (lower upper : Z) (text : gostring) : option (list seg) :=
  match segs text with
  | x :: y :: l =>
      if (x.1 =? 47) && ((y.1 =? lower) || (y.1 =? upper)) then
        match span_segs js_space l with (_ :: _, rest) => Some rest | ([], _) => None end
      else None
  | _ => None
  end.
Definition rest_of_line (l : list seg) : option gostring :=
  match l with
  | [] => None
  | _ => if existsb (λ x : seg, js_newline x.1) l then None else Some (unsegs l)
  end.
Definition match_topic (text : gostring) : option gostring :=
  match after_command 116 84 text with Some l => rest_of_line l | None => None end.
Definition match_private (text : gostring) : option (gostring * gostring) :=
  match after_command 115 83 text with
  | None => None
  | Some l =>
      match span_segs (negb ∘ js_space) l with
      | ((_ :: _) as call, l') =>
          match span_segs js_space l' with
          | (_ :: _, rest) => (λ r, (unsegs call, r)) <$> rest_of_line rest
          | ([], _) => None
          end
      | ([], _) => None
      end
  end.

(** ** The page's state *)

Record dm := mkDm {
  dm_with : gostring; dm_from : gostring; dm_to : gostring; dm_text : gostring;
  dm_time : Z; dm_mine : bool }.
Record thread := mkThread { th_msgs : list dm; th_unread : nat }.
(** A line of the timeline and an entry of a rail: class and markup. *)
Record element := mkElement { el_class : gostring; el_html : gostring }.
Record request := mkRequest_ { rq_post : bool; rq_url : gostring; rq_text : gostring }.

(** What is left of an [async] function at an [await]. *)
Inductive cont :=
| AfterTopic (name : gostring)            (* [switchTopic], the post *)
| AfterHistory                            (* [loadHistory] within [switchTopic] *)
| AfterUsers                              (* [refreshUsers] *)
| AfterDMs                                (* [loadDMs] *)
| AfterSend                               (* the composer's post *)
| AfterSendDM (call : gostring).          (* [sendDM] *)

Record Page := mkPage {
  me : gostring; topic : gostring;
  channels : list gostring;               (* a [Set], in insertion order *)
  dms : list (gostring * thread);         (* a [Map], in insertion order *)
  dmWith : option gostring;
  log : list element;
  usersEl : list gostring; usercountEl : gostring;
  topicEl : gostring; hashEl : gostring; placeholder : gostring; meEl : gostring;
  live : bool; statustext : gostring;
  chanlistEl : list element; dmlistEl : list element;
  alerts : list gostring;
  waiting : list (request * cont) }.

Definition initial : Page :=
  mkPage [] (bs "General") [bs "General"] [] None [] [] [] (bs "General") (bs "#")
    (bs "Message #General  ·  /T topic to switch  ·  /S CALL text for private")
    (bs "…") false (bs "connecting…") [] [] [] [].

(** Assignments. *)
Definition set_me v p := mkPage v (topic p) (channels p) (dms p) (dmWith p) (log p) (usersEl p)
  (usercountEl p) (topicEl p) (hashEl p) (placeholder p) (meEl p) (live p) (statustext p)
  (chanlistEl p) (dmlistEl p) (alerts p) (waiting p).
Definition set_topic v p := mkPage (me p) v (channels p) (dms p) (dmWith p) (log p) (usersEl p)
  (usercountEl p) (topicEl p) (hashEl p) (placeholder p) (meEl p) (live p) (statustext p)
  (chanlistEl p) (dmlistEl p) (alerts p) (waiting p).
Definition set_channels v p := mkPage (me p) (topic p) v (dms p) (dmWith p) (log p) (usersEl p)
  (usercountEl p) (topicEl p) (hashEl p) (placeholder p) (meEl p) (live p) (statustext p)
  (chanlistEl p) (dmlistEl p) (alerts p) (waiting p).
Definition set_dms v p := mkPage (me p) (topic p) (channels p) v (dmWith p) (log p) (usersEl p)
  (usercountEl p) (topicEl p) (hashEl p) (placeholder p) (meEl p) (live p) (statustext p)
  (chanlistEl p) (dmlistEl p) (alerts p) (waiting p).
Definition set_dmWith v p := mkPage (me p) (topic p) (channels p) (dms p) v (log p) (usersEl p)
  (usercountEl p) (topicEl p) (hashEl p) (placeholder p) (meEl p) (live p) (statustext p)
  (chanlistEl p) (dmlistEl p) (alerts p) (waiting p).
Definition set_log v p := mkPage (me p) (topic p) (channels p) (dms p) (dmWith p) v (usersEl p)
  (usercountEl p) (topicEl p) (hashEl p) (placeholder p) (meEl p) (live p) (statustext p)
  (chanlistEl p) (dmlistEl p) (alerts p) (waiting p).
Definition set_users v c p := mkPage (me p) (topic p) (channels p) (dms p) (dmWith p) (log p) v
  c (topicEl p) (hashEl p) (placeholder p) (meEl p) (live p) (statustext p)
  (chanlistEl p) (dmlistEl p) (alerts p) (waiting p).
Definition set_usercount v p := set_users (usersEl p) v p.
Definition set_head t h p := mkPage (me p) (topic p) (channels p) (dms p) (dmWith p) (log p)
  (usersEl p) (usercountEl p) t h (placeholder p) (meEl p) (live p) (statustext p)
  (chanlistEl p) (dmlistEl p) (alerts p) (waiting p).
Definition set_placeholder v p := mkPage (me p) (topic p) (channels p) (dms p) (dmWith p) (log p)
  (usersEl p) (usercountEl p) (topicEl p) (hashEl p) v (meEl p) (live p) (statustext p)
  (chanlistEl p) (dmlistEl p) (alerts p) (waiting p).
Definition set_meEl v p := mkPage (me p) (topic p) (channels p) (dms p) (dmWith p) (log p)
  (usersEl p) (usercountEl p) (topicEl p) (hashEl p) (placeholder p) v (live p) (statustext p)
  (chanlistEl p) (dmlistEl p) (alerts p) (waiting p).
Definition setStatus b t p := mkPage (me p) (topic p) (channels p) (dms p) (dmWith p) (log p)
  (usersEl p) (usercountEl p) (topicEl p) (hashEl p) (placeholder p) (meEl p) b t
  (chanlistEl p) (dmlistEl p) (alerts p) (waiting p).
Definition set_chanlist v p := mkPage (me p) (topic p) (channels p) (dms p) (dmWith p) (log p)
  (usersEl p) (usercountEl p) (topicEl p) (hashEl p) (placeholder p) (meEl p) (live p)
  (statustext p) v (dmlistEl p) (alerts p) (waiting p).
Definition set_dmlist v p := mkPage (me p) (topic p) (channels p) (dms p) (dmWith p) (log p)
  (usersEl p) (usercountEl p) (topicEl p) (hashEl p) (placeholder p) (meEl p) (live p)
  (statustext p) (chanlistEl p) v (alerts p) (waiting p).
Definition alert v p := mkPage (me p) (topic p) (channels p) (dms p) (dmWith p) (log p)
  (usersEl p) (usercountEl p) (topicEl p) (hashEl p) (placeholder p) (meEl p) (live p)
  (statustext p) (chanlistEl p) (dmlistEl p) (alerts p ++ [v]) (waiting p).
Definition set_waiting v p := mkPage (me p) (topic p) (channels p) (dms p) (dmWith p) (log p)
  (usersEl p) (usercountEl p) (topicEl p) (hashEl p) (placeholder p) (meEl p) (live p)
  (statustext p) (chanlistEl p) (dmlistEl p) (alerts p) v.

Section page.
Context `{!Browser}.
Implicit Types (p : Page) (e : wireEvent).

Definition hhmm (t : Z) : gostring :=
  if t =? 0 then []
  else let '(h, m) := clock t in pad h ++ bs ":" ++ pad m.
Definition ts (t : Z) : gostring :=
  let s := hhmm t in
  if decide (s = []) then [] else mk (bs "<span class='ts'>") ++ s ++ bs "</span>".

(** [add] *)
Definition add (html cls : gostring) p : Page :=
  set_log (log p ++ [mkElement (bs "line " ++ cls) html]) p.

Definition fetch (r : request) (k : cont) p : Page := set_waiting (waiting p ++ [(r, k)]) p.
Definition post (url : gostring) (body : list (gostring * jsval)) (k : cont) p : Page :=
  fetch (mkRequest_ true url (stringify body)) k p.
Definition get (url : gostring) (k : cont) p : Page := fetch (mkRequest_ false url []) k p.

(** ** Threads *)

Fixpoint dm_get (k : gostring) (l : list (gostring * thread)) : option thread :=
  match l with
  | [] => None
  | (k', t) :: l' => if decide (k' = k) then Some t else dm_get k l'
  end.
(** [Map.set]: a key keeps its place. *)
Fixpoint dm_set (k : gostring) (t : thread) (l : list (gostring * thread)) :
    list (gostring * thread) :=
  match l with
  | [] => [(k, t)]
  | (k', t') :: l' => if decide (k' = k) then (k, t) :: l' else (k', t') :: dm_set k t l'
  end.
Definition new_thread : thread := mkThread [] 0.

(** [dmThread]: the key and the thread, made when there is none. *)
Definition dmThread (call : gostring) p : gostring * thread * Page :=
  let k := toUpperCase call in
  match dm_get k (dms p) with
  | Some t => (k, t, p)
  | None => (k, new_thread, set_dms (dm_set k new_thread (dms p)) p)
  end.
(** Changing the thread object. *)
Definition set_thread (k : gostring) (t : thread) p : Page := set_dms (dm_set k t (dms p)) p.

Definition dmLine (m : dm) : gostring :=
  ts (dm_time m) ++ mk (bs "<span class='from'>")
  ++ (if dm_mine m then bs "me" else esc (or_str (dm_with m) (dm_from m)))
  ++ bs ":</span> " ++ esc (dm_text m).
Definition add_dm (m : dm) p : Page :=
  add (dmLine m) (bs "dm" ++ (if dm_mine m then bs " mine" else [])) p.

Definition call_le (a b : gostring * thread) : Prop := localeCompare a.1 b.1 ≤ 0.
#[export] Instance call_le_dec a b : Decision (call_le a b) := decide (localeCompare a.1 b.1 ≤ 0).
Definition name_le (a b : gostring) : Prop := localeCompare a b ≤ 0.
#[export] Instance name_le_dec a b : Decision (name_le a b) := decide (localeCompare a b ≤ 0).

Definition renderDMs p : Page :=
  set_dmlist
    ((λ kt : gostring * thread,
        let open := bool_decide (dmWith p = Some kt.1) in
        mkElement (bs "dm chan" ++ (if open then bs " active" else []))
          (mk (bs "<span class='glyph'>@</span>") ++ esc kt.1
           ++ (if negb (th_unread kt.2 =? 0)%nat && negb open
               then mk (bs "<span class='badge'>") ++ itoa (Z.of_nat (th_unread kt.2)) ++ bs "</span>"
               else [])))
       <$> merge_sort call_le (dms p)) p.

Definition renderChannels p : Page :=
  set_chanlist
    ((λ name,
        mkElement
          (bs "chan" ++ (if bool_decide (dmWith p = None)
                            && bool_decide (toLowerCase name = toLowerCase (topic p))
                         then bs " active" else []))
          (mk (bs "<span class='hash'>#</span>") ++ esc name))
       <$> merge_sort name_le (channels p)) p.

(** The correspondent of a private event; [None] is the exception [toUpperCase] of
    [undefined] throws. *)
Definition correspondent e : option gostring :=
  let c := or_str (e_With e) (if e_Mine e then e_To e else e_From e) in
  if decide (c = []) then None else Some c.
Definition dm_of (k : gostring) e : dm :=
  mkDm k (e_From e) (e_To e) (e_Text e) (e_Time e) (e_Mine e).

(** The boolean of the following functions tells whether they ended without an
    exception. *)
Definition handleDM e p : Page * bool :=
  match correspondent e with
  | None => (p, false)
  | Some c =>
      let '(k, t, p) := dmThread c p in
      let m := dm_of k e in
      let msgs := th_msgs t ++ [m] in
      let p :=
        if decide (dmWith p = Some k) then add_dm m (set_thread k (mkThread msgs (th_unread t)) p)
        else set_thread k (mkThread msgs (S (th_unread t))) p in
      (renderDMs p, true)
  end.

(** ** Events *)

Definition at_node (node : gostring) : gostring :=
  if decide (node = []) then [] else bs " @" ++ esc node.

Definition renderEvent e p : Page * bool :=
  let mine := bool_decide (e_From e ≠ []) && bool_decide (me p ≠ [])
              && bool_decide (toUpperCase (e_From e) = toUpperCase (me p)) in
  if decide (e_Type e = bs "msg") then
    (add (ts (e_Time e) ++ mk (bs "<span class='from'>") ++ esc (e_From e)
          ++ (if decide (e_Node e = []) then []
              else mk (bs "<span class='node'> @") ++ esc (e_Node e) ++ bs "</span>")
          ++ bs ":</span> " ++ esc (e_Text e))
       (if mine then bs "me" else []) p, true)
  else if decide (e_Type e = bs "private") then handleDM e p
  else if decide (e_Type e = bs "join") then
    (add (bs "*** " ++ esc (e_From e) ++ at_node (e_Node e) ++ bs " joined " ++ esc (e_Topic e))
       (bs "sys") p, true)
  else if decide (e_Type e = bs "leave") then
    (add (bs "*** " ++ esc (e_From e) ++ bs " left") (bs "sys") p, true)
  else if decide (e_Type e = bs "node") then
    (add (bs "*** " ++ esc (e_Text e)) (bs "sys") p, true)
  else (p, true).

(** [forEach] *)
Fixpoint each {A} (f : A → Page → Page * bool) (l : list A) p : Page * bool :=
  match l with
  | [] => (p, true)
  | x :: l' => match f x p with (p', true) => each f l' p' | (p', false) => (p', false) end
  end.

Definition renderUsers (l : list userView) p : Page :=
  set_users
    ((λ u, mk (bs "<span class='call'>") ++ esc (v_call u) ++ bs "</span>"
           ++ (if decide (v_node u = []) then []
               else mk (bs " <span class='node'>@") ++ esc (v_node u) ++ bs "</span>")) <$> l)
    (match l with
     | [] => []
     | [_] => bs "1 user"
     | _ => itoa (Z.of_nat (length l)) ++ bs " users"
     end) p.

(** ** Views *)

Definition openDM (call : gostring) p : Page :=
  let '(k, t, p) := dmThread call p in
  let p := set_thread k (mkThread (th_msgs t) 0) (set_dmWith (Some k) p) in
  let p := set_head k (bs "@") p in
  let p := set_usercount (bs "direct message") p in
  let p := set_placeholder (bs "Message " ++ k ++ bs "  (private)") p in
  let p := foldl (λ p m, add_dm m p) (set_log [] p) (th_msgs t) in
  renderDMs (renderChannels p).

Definition leaveDM p : Page :=
  if decide (dmWith p = None) then p
  else renderDMs (set_head (topicEl p) (bs "#") (set_dmWith None p)).

(** [Set.add] *)
Definition set_add (x : gostring) (l : list gostring) : list gostring :=
  if decide (x ∈ l) then l else l ++ [x].

Definition setTopic (name : gostring) p : Page :=
  let p := set_channels (set_add name (channels p)) (set_topic name p) in
  let p := set_head name (hashEl p) p in
  let p := set_placeholder
    (bs "Message #" ++ name ++ bs "  ·  /T topic to switch  ·  /S CALL text for private") p in
  renderChannels p.

(** The head of [switchTopic], up to the answer to its post. *)
Definition switchTopic (name : gostring) p : Page :=
  if bool_decide (dmWith p = None) && bool_decide (toLowerCase name = toLowerCase (topic p)) then p
  else
    post (bs "topic") [(bs "topic", JsString name)] (AfterTopic name)
      (set_usercount [] (leaveDM p)).

Definition refreshUsers p : Page :=
  get (bs "users?topic=" ++ encodeURIComponent (topic p)) AfterUsers p.
Definition loadHistory p : Page :=
  get (bs "history?topic=" ++ encodeURIComponent (topic p)) AfterHistory p.
Definition loadDMs p : Page := get (bs "dms") AfterDMs p.

Definition sendDM (call text : gostring) p : Page :=
  post (bs "dm") [(bs "to", JsString call); (bs "text", JsString text)] (AfterSendDM call) p.

(** The rest of [loadDMs] on the list it fetched. *)
Definition backfill (l : list wireEvent) p : Page :=
  let '(p, done) :=
    each (λ e p,
      match correspondent e with
      | None => (p, false)
      | Some c =>
          let '(k, t, p) := dmThread c p in
          (set_thread k (mkThread (th_msgs t ++ [dm_of k e]) (th_unread t)) p, true)
      end) l (set_dms [] p) in
  if done : bool then
    renderDMs
      (match dmWith p with
       | Some k =>
           match dm_get k (dms p) with
           | Some t => foldl (λ p m, add_dm m p) (set_log [] p) (th_msgs t)
           | None => p
           end
       | None => p
       end)
  else p.

(** ** Inputs *)

(** The listeners of the event stream; an item whose data did not parse throws. *)
Definition on_stream (x : option sse) p : Page :=
  match x with
  | None => p
  | Some (SseYou call t) =>
      let p := set_meEl call (set_me call p) in
      let p := setTopic (or_str t (topic p)) p in
      loadDMs (set_log [] (setStatus true (bs "live") p))
  | Some (SseUsers l) => renderUsers l p
  | Some (SseEvent e) =>
      (renderEvent e (if decide (e_Topic e = []) then p
                      else set_channels (set_add (e_Topic e) (channels p)) p)).1
  end.

(** The composer. *)
Definition on_submit (typed : gostring) p : Page :=
  let text := trim typed in
  if decide (text = []) then p
  else
    match match_topic text with
    | Some t => switchTopic (trim t) p
    | None =>
        match match_private text with
        | Some (c, body) =>
            let call := toUpperCase c in sendDM call (trim body) (openDM call p)
        | None =>
            match dmWith p with
            | Some k => sendDM k text p
            | None => post (bs "send") [(bs "text", JsString text)] AfterSend p
            end
        end
    end.
Definition on_newchan (typed : gostring) p : Page :=
  let name := trim typed in if decide (name = []) then p else switchTopic name p.
Definition on_newdm (typed : gostring) p : Page :=
  let call := toUpperCase (trim typed) in if decide (call = []) then p else openDM call p.

(** An answer: its status and text, or the failure of the request. *)
Inductive reply := Reply (status : Z) (text : gostring) | NetworkError.
Definition ok (status : Z) : bool := (200 <=? status) && (status <? 300).

(** What a task goes on with when its answer is there.  A failure or an exception ends
    the function; the rest of it is dropped. *)
Definition resume (k : cont) (r : reply) p : Page :=
  match r with
  | NetworkError => p
  | Reply status text =>
      match k with
      | AfterTopic name => loadHistory (set_log [] (setTopic name p))
      | AfterHistory =>
          if ok status then
            match parse text with
            | Some (JsonText.JArray _ l) =>
                match each renderEvent (read_event <$> l) p with
                | (p', true) => refreshUsers p'
                | (p', false) => p'
                end
            | _ => p
            end
          else refreshUsers p
      | AfterUsers =>
          if ok status then
            match parse text with
            | Some (JsonText.JArray _ l) => renderUsers (read_user <$> l) p
            | Some _ => set_users [] (usercountEl p) p     (* cleared before the exception *)
            | None => p
            end
          else p
      | AfterDMs =>
          if ok status then
            match parse text with
            | Some (JsonText.JArray _ l) => backfill (read_event <$> l) p
            | Some _ => set_dms [] p                       (* cleared before the exception *)
            | None => p
            end
          else p
      | AfterSend => p
      | AfterSendDM call =>
          if status =? 403 then
            alert (bs "Your access is read-only — you cannot send messages.") p
          else if negb (ok status) then
            alert (call ++ bs " is not logged in — direct messages reach connected users only.") p
          else p
      end
  end.

Inductive input :=
| Stream (x : option sse)
| StreamOpen | StreamError
| Submit (typed : gostring) | NewChan (typed : gostring) | NewDM (typed : gostring)
| ClickChan (name : gostring) | ClickDM (call : gostring)
| Answer (i : nat) (r : reply).

Definition step (i : input) p : Page :=
  match i with
  | Stream x => on_stream x p
  | StreamOpen => setStatus true (bs "live") p
  | StreamError => setStatus false (bs "reconnecting…") p
  | Submit typed => on_submit typed p
  | NewChan typed => on_newchan typed p
  | NewDM typed => on_newdm typed p
  | ClickChan name => switchTopic name p
  | ClickDM call => openDM call p
  | Answer n r =>
      match waiting p !! n with
      | Some (_, k) => resume k r (set_waiting (delete n (waiting p)) p)
      | None => p
      end
  end.
Definition run (l : list input) p : Page := foldl (λ p i, step i p) p l.

End page.

(** Reduce the page's fields through assignments. *)
Ltac page_simpl :=
  cbn [me topic channels dms dmWith log usersEl usercountEl topicEl hashEl placeholder meEl live
       statustext chanlistEl dmlistEl alerts waiting
       set_me set_topic set_channels set_dms set_dmWith set_log set_users set_usercount set_head
       set_placeholder set_meEl setStatus set_chanlist set_dmlist alert set_waiting
       add add_dm fetch post get set_thread renderDMs renderChannels renderUsers setTopic
       loadDMs loadHistory refreshUsers sendDM fst snd].
