(* ===== verification/PageMarkup.v ===== *)
(** * The page's markup

    Whatever the texts that reach the page, the markup it builds from them has the
    page's own tags and no others: the browser's tokenizer finds every text as
    character data, in its place. *)
From S2P Require Import Prelude Unicode GoStrings JsonText JsonFacts Web WebWire Page.
From stdpp Require Import options.
Local Open Scope Z_scope.
Import Webchat Wire.

(** ** Character data *)

(** How the browser shows a text: line ends normalised, NUL dropped. *)
Fixpoint shown_from (after_cr : bool) (s : gostring) : gostring :=
  match s with
  | [] => []
  | c :: t =>
      let z := bz c in
      if z =? 13 then zb 10 :: shown_from true t
      else if (z =? 10) && after_cr then shown_from false t
      else if z =? 0 then shown_from false t
      else c :: shown_from false t
  end.
Definition shown (s : gostring) : gostring := shown_from false s.

Fixpoint ends_cr (after_cr : bool) (s : gostring) : bool :=
  match s with [] => after_cr | c :: t => ends_cr (bz c =? 13) t end.

Lemma shown_app a b x : shown_from x (a ++ b) = shown_from x a ++ shown_from (ends_cr x a) b.
Proof.
  revert x. induction a as [|c a IH]; intros x; [done|]. cbn [app shown_from ends_cr].
  destruct (bz c =? 13); [by rewrite IH|]. destruct (_ && x); [by rewrite IH|].
  destruct (bz c =? 0); by rewrite IH.
Qed.
Lemma ends_cr_app a b x : ends_cr x (a ++ b) = ends_cr (ends_cr x a) b.
Proof. revert x. induction a as [|c a IH]; intros x; [done|]. apply IH. Qed.

(** A text without CR and NUL is shown as it is. *)
Lemma shown_id s : Forall (λ c, bz c ≠ 13 ∧ bz c ≠ 0) s → shown s = s.
Proof.
  unfold shown. induction 1 as [|c s [H1 H2] _ IH]; [done|]. cbn [shown_from].
  rewrite (proj2 (Z.eqb_neq _ _) H1), (proj2 (Z.eqb_neq _ _) H2), andb_false_r. by rewrite IH.
Qed.

Definition no_markup (b : gostring) : Prop := Forall (λ c, bz c ≠ 60 ∧ bz c ≠ 38) b.

Lemma tok_chars b : ∀ x acc rest,
  no_markup b →
  tok (Data x) acc (b ++ rest) = tok (Data (ends_cr x b)) (acc ++ shown_from x b) rest.
Proof.
  induction b as [|c b IH]; intros x acc rest Hb; [cbn; by rewrite app_nil_r|].
  apply Forall_cons in Hb as [[H1 H2] Hb]. cbn [app tok shown_from ends_cr].
  rewrite (proj2 (Z.eqb_neq _ _) H1), (proj2 (Z.eqb_neq _ _) H2).
  destruct (Z.eqb_spec (bz c) 13); [by rewrite IH, <- app_assoc|].
  destruct (_ && x); [by rewrite IH|]. destruct (bz c =? 0); [by rewrite IH|].
  by rewrite IH, <- app_assoc.
Qed.

Lemma no_markup_by b : forallb (λ c, negb (bz c =? 60) && negb (bz c =? 38)) b = true → no_markup b.
Proof.
  rewrite forallb_forall. intros H. apply Forall_forall. intros c Hc%list_elem_of_In.
  specialize (H c Hc). bools. done.
Qed.

(** A text node's markup is read back as its text. *)
Lemma tok_esc s : ∀ x acc rest,
  tok (Data x) acc (esc s ++ rest) = tok (Data (ends_cr x s)) (acc ++ shown_from x s) rest.
Proof.
  induction s as [|s r w Hs Hd IH] using segs_ind; intros x acc rest; [cbn; by rewrite app_nil_r|].
  unfold esc in *. rewrite (segs_step s r w), fmap_cons by done. cbn [concat]. rewrite <- app_assoc.
  rewrite <- (take_drop w s) at 3 4. rewrite ends_cr_app, shown_app, (app_assoc acc).
  pose proof (decode_exact s r w Hs Hd) as Hx.
  assert (∀ z, r = z → valid_rune z = true → z ≠ RuneError → take w s = encode_rune z) as He.
  { intros z -> _ Hz. destruct Hx as [?|[? _]]; [done|by subst]. }
  unfold esc_seg. cbn [fst snd].
  destruct (Z.eqb_spec r 38) as [E|E38]; [rewrite (He 38 E) by done; apply IH|].
  destruct (Z.eqb_spec r 160) as [E|E160]; [rewrite (He 160 E) by done; apply IH|].
  destruct (Z.eqb_spec r 60) as [E|E60]; [rewrite (He 60 E) by done; apply IH|].
  destruct (Z.eqb_spec r 62) as [E|E62]; [rewrite (He 62 E) by done; apply IH|].
  rewrite tok_chars; [apply IH|].
  pose proof (decode_valid s) as Hv. rewrite Hd in Hv. cbn [fst] in Hv.
  assert (0 ≤ r) by (apply valid_rune_spec in Hv; lia).
  destruct Hx as [->|[-> ->]].
  - destruct (Z.ltb_spec r 128).
    + unfold encode_rune. rewrite Hv, (proj2 (Z.ltb_lt _ _)) by done.
      apply Forall_cons. split; [rewrite bz_zb_small; lia|done].
    + eapply Forall_impl; [by apply encode_rune_high|]. cbv beta. intros c Hc. lia.
  - destruct s as [|c s]; [done|]. cbn [take]. apply Forall_cons. split; [|done].
    cbn [decode_rune] in Hd. destruct (Z.ltb_spec (bz c) 128); [|lia].
    injection Hd as Hd. unfold RuneError in Hd. lia.
Qed.

(** Before anything but a line feed it does not matter whether a CR came last. *)
Definition not_lf (s : gostring) : Prop := match s with c :: _ => bz c ≠ 10 | [] => True end.
Lemma tok_after x acc rest : not_lf rest → tok (Data x) acc rest = tok (Data false) acc rest.
Proof.
  destruct rest as [|c t]; [done|]. cbn [not_lf tok]. intros H.
  by rewrite (proj2 (Z.eqb_neq _ _) H).
Qed.

Lemma tok_text s acc rest :
  not_lf rest → tok (Data false) acc (esc s ++ rest) = tok (Data false) (acc ++ shown s) rest.
Proof. intros H. rewrite tok_esc. by apply tok_after. Qed.

Lemma tok_word b acc rest :
  no_markup b → ends_cr false b = false →
  tok (Data false) acc (b ++ rest) = tok (Data false) (acc ++ shown b) rest.
Proof. intros H E. rewrite tok_chars by done. by rewrite E. Qed.

(** ** Tags *)

Definition span_class (cls : gostring) : gostring :=
  mk (bs "<span class='") ++ cls ++ mk (bs "'>").
Definition classed (tag cls : gostring) : token := StartTag tag [(bs "class", cls)].
Definition span_start (cls : gostring) : token := classed (bs "span") cls.
Definition span_end : token := EndTag (bs "span").

Lemma tok_close acc rest :
  tok (Data false) acc (bs "</span>" ++ rest)
  = (λ l, flush acc (span_end :: l)) <$> tok (Data false) [] rest.
Proof. reflexivity. Qed.

(** The page's own spans. *)
Ltac span_tag := reflexivity.
Lemma tok_ts acc rest : tok (Data false) acc (mk (bs "<span class='ts'>") ++ rest)
  = (λ l, flush acc (span_start (bs "ts") :: l)) <$> tok (Data false) [] rest.
Proof. span_tag. Qed.
Lemma tok_from acc rest : tok (Data false) acc (mk (bs "<span class='from'>") ++ rest)
  = (λ l, flush acc (span_start (bs "from") :: l)) <$> tok (Data false) [] rest.
Proof. span_tag. Qed.
Lemma tok_node acc rest : tok (Data false) acc (mk (bs "<span class='node'> @") ++ rest)
  = (λ l, flush acc (span_start (bs "node") :: l)) <$> tok (Data false) (bs " @") rest.
Proof. span_tag. Qed.
Lemma tok_unode acc rest : tok (Data false) acc (mk (bs " <span class='node'>@") ++ rest)
  = (λ l, flush (acc ++ bs " ") (span_start (bs "node") :: l)) <$> tok (Data false) (bs "@") rest.
Proof. span_tag. Qed.
Lemma tok_call acc rest : tok (Data false) acc (mk (bs "<span class='call'>") ++ rest)
  = (λ l, flush acc (span_start (bs "call") :: l)) <$> tok (Data false) [] rest.
Proof. span_tag. Qed.
Lemma tok_hash acc rest : tok (Data false) acc (mk (bs "<span class='hash'>#</span>") ++ rest)
  = (λ l, flush acc (span_start (bs "hash") :: l))
      <$> ((λ l, flush (bs "#") (span_end :: l)) <$> tok (Data false) [] rest).
Proof. span_tag. Qed.
Lemma tok_glyph acc rest : tok (Data false) acc (mk (bs "<span class='glyph'>@</span>") ++ rest)
  = (λ l, flush acc (span_start (bs "glyph") :: l))
      <$> ((λ l, flush (bs "@") (span_end :: l)) <$> tok (Data false) [] rest).
Proof. span_tag. Qed.
Lemma tok_badge acc rest : tok (Data false) acc (mk (bs "<span class='badge'>") ++ rest)
  = (λ l, flush acc (span_start (bs "badge") :: l)) <$> tok (Data false) [] rest.
Proof. span_tag. Qed.
Lemma tok_end acc : tok (Data false) acc [] = Some (flush acc []).
Proof. done. Qed.

Create Rewrite HintDb markup.
#[export] Hint Rewrite tok_close tok_ts tok_from tok_node tok_unode tok_call tok_hash tok_glyph
  tok_badge tok_end : markup.

(** Rewrite the tokenizer through the next piece of markup. *)
Ltac literal := first [by apply no_markup_by|reflexivity].
Ltac markup_step :=
  first [ rewrite tok_from | rewrite tok_node | rewrite tok_unode | rewrite tok_call
        | rewrite tok_hash | rewrite tok_glyph | rewrite tok_badge | rewrite tok_close
        | rewrite tok_text by done | rewrite tok_end
        | rewrite tok_word by literal ].
Ltac markup := repeat markup_step.

Section markup.
Context `{!Browser}.
Implicit Types (p : Page) (e : wireEvent).

Lemma itoa_chars z : Forall (λ c, 45 ≤ bz c ≤ 58) (itoa z).
Proof.
  assert (∀ n z acc, Forall (λ c, 45 ≤ bz c ≤ 58) acc → Forall (λ c, 45 ≤ bz c ≤ 58) (digits_fuel n z acc)) as Hd.
  { clear. induction n as [|n IH]; intros z acc H; [done|]. cbn [digits_fuel].
    assert (Forall (λ c, 45 ≤ bz c ≤ 58) (zb (48 + z mod 10) :: acc)).
    { apply Forall_cons. split; [|done]. pose proof (Z.mod_pos_bound z 10 ltac:(lia)).
      rewrite bz_zb_small; lia. }
    destruct (z <? 10); [done|]. by apply IH. }
  unfold itoa. destruct (z <? 0); [|by apply Hd].
  apply Forall_app. split; [|by apply Hd]. repeat constructor; cbn; lia.
Qed.

Lemma digits_fuel_nonempty k z acc : (0 < k)%nat ∨ acc ≠ [] → digits_fuel k z acc ≠ [].
Proof.
  revert z acc. induction k as [|k IH]; intros z acc Hk; [by destruct Hk as [?%Nat.lt_irrefl|]|].
  cbn [digits_fuel]. destruct (z <? 10); [done|]. apply IH. by right.
Qed.
Lemma itoa_nonempty z : itoa z ≠ [].
Proof. unfold itoa. destruct (z <? 0); [done|]. apply digits_fuel_nonempty. left. lia. Qed.

Lemma hhmm_chars t : Forall (λ c, 45 ≤ bz c ≤ 58) (hhmm t).
Proof.
  unfold hhmm. destruct (t =? 0); [constructor|]. destruct (clock t) as [h m].
  assert (∀ n, Forall (λ c, 45 ≤ bz c ≤ 58) (pad n)) as Hp.
  { intros n. unfold pad. destruct (n <? 10); [|apply itoa_chars].
    apply Forall_app. split; [repeat constructor; cbn; lia|apply itoa_chars]. }
  apply Forall_app. split; [done|]. apply Forall_app. split; [repeat constructor; cbn; lia|done].
Qed.

(** Words of digits and punctuation. *)
Lemma tok_digits b acc rest :
  Forall (λ c, 45 ≤ bz c ≤ 58) b →
  tok (Data false) acc (b ++ rest) = tok (Data false) (acc ++ b) rest.
Proof.
  intros Hb. rewrite tok_word.
  - f_equal. f_equal. apply shown_id. eapply Forall_impl; [exact Hb|]. cbv beta. intros c Hc. lia.
  - eapply Forall_impl; [exact Hb|]. cbv beta. intros c Hc. lia.
  - induction b as [|c b IH] using rev_ind; [done|]. rewrite ends_cr_app.
    apply Forall_app in Hb as [_ [Hb _]%Forall_cons]. cbn. apply Z.eqb_neq. lia.
Qed.

Definition ts_tokens (t : Z) : list token :=
  match hhmm t with [] => [] | s => [span_start (bs "ts"); Chars s; span_end] end.

Lemma tok_ts_line t rest :
  tok (Data false) [] (ts t ++ rest) = (λ l, ts_tokens t ++ l) <$> tok (Data false) [] rest.
Proof.
  unfold ts, ts_tokens. destruct (hhmm t) as [|c s] eqn:E.
  - rewrite decide_True by done. cbn [app]. by destruct (tok (Data false) [] rest).
  - rewrite decide_False by done. cbv zeta. rewrite <- !app_assoc, tok_ts.
    rewrite <- E, tok_digits by apply hhmm_chars. rewrite tok_close, E. cbn [app].
    by destruct (tok (Data false) [] rest).
Qed.

(** What the lines hold. *)
Definition from_tokens (from node : gostring) : list token :=
  span_start (bs "from")
  :: (if decide (node = []) then [Chars (shown from ++ bs ":")]
      else flush (shown from)
             [span_start (bs "node"); Chars (bs " @" ++ shown node); span_end; Chars (bs ":")])
  ++ [span_end].

Definition event_tokens e : list token :=
  if decide (e_Type e = bs "msg") then
    ts_tokens (e_Time e) ++ from_tokens (e_From e) (e_Node e) ++ [Chars (bs " " ++ shown (e_Text e))]
  else if decide (e_Type e = bs "join") then
    [Chars (bs "*** " ++ shown (e_From e)
            ++ (if decide (e_Node e = []) then [] else bs " @" ++ shown (e_Node e))
            ++ bs " joined " ++ shown (e_Topic e))]
  else if decide (e_Type e = bs "leave") then [Chars (bs "*** " ++ shown (e_From e) ++ bs " left")]
  else [Chars (bs "*** " ++ shown (e_Text e))].

Definition dm_tokens (m : dm) : list token :=
  ts_tokens (dm_time m) ++ [span_start (bs "from");
    Chars ((if dm_mine m then bs "me" else shown (or_str (dm_with m) (dm_from m))) ++ bs ":");
    span_end; Chars (bs " " ++ shown (dm_text m))].

Lemma shown_lit b : forallb (λ c, negb (bz c =? 13) && negb (bz c =? 0)) b = true → shown b = b.
Proof.
  rewrite forallb_forall. intros Hb. apply shown_id, Forall_forall. intros c Hc%list_elem_of_In.
  specialize (Hb c Hc). bools. done.
Qed.

Lemma flush_end a b l : b ≠ [] → flush (a ++ b) l = Chars (a ++ b) :: l.
Proof. intros Hb. destruct a; [by destruct b|done]. Qed.

Lemma flush_app a l k : flush a l ++ k = flush a (l ++ k).
Proof. by destruct a. Qed.

Lemma message_tokens t from node text :
  tokens (ts t ++ mk (bs "<span class='from'>") ++ esc from
    ++ (if decide (node = []) then []
        else mk (bs "<span class='node'> @") ++ esc node ++ bs "</span>")
    ++ bs ":</span> " ++ esc text)
  = Some (ts_tokens t ++ from_tokens from node ++ [Chars (bs " " ++ shown text)]).
Proof.
  unfold tokens. rewrite tok_ts_line, tok_from. unfold from_tokens.
  assert (∀ x, bs ":</span> " ++ x = bs ":" ++ bs "</span>" ++ bs " " ++ x) as -> by done.
  rewrite <- (app_nil_r (esc text)).
  destruct (decide (node = [])) as [->|Hn]; rewrite <- ?app_assoc; cbn [app]; markup;
    cbn [fmap option_fmap option_map app].
  - by rewrite (flush_end (shown from) (shown (bs ":"))).
  - by rewrite !flush_app.
Qed.

(** *** Lines of the timeline *)

Lemma dmLine_tokens m : tokens (dmLine m) = Some (dm_tokens m).
Proof.
  unfold tokens, dmLine, dm_tokens. rewrite tok_ts_line, tok_from.
  assert (∀ x, bs ":</span> " ++ x = bs ":" ++ bs "</span>" ++ bs " " ++ x) as -> by done.
  rewrite <- (app_nil_r (esc (dm_text m))).
  destruct (dm_mine m).
  - markup. cbn [fmap option_fmap option_map app]. done.
  - markup. cbn [fmap option_fmap option_map app].
    by rewrite (flush_end (shown _) (shown (bs ":"))).
Qed.

(** The line a rendered event adds. *)
Definition is_line e : bool :=
  bool_decide (e_Type e ∈ [bs "msg"; bs "join"; bs "leave"; bs "node"]).

Lemma renderEvent_line e p :
  is_line e = true → ∃ cls html,
  renderEvent e p = (set_log (log p ++ [mkElement cls html]) p, true)
  ∧ tokens html = Some (event_tokens e).
Proof.
  unfold is_line. rewrite bool_decide_eq_true. intros Hin. unfold renderEvent, event_tokens, add.
  destruct (decide (e_Type e = bs "msg")) as [_|H1].
  { do 2 eexists. split; [done|]. apply message_tokens. }
  destruct (decide (e_Type e = bs "private")) as [E|_]; [exfalso; rewrite E in Hin; revert Hin|].
  { apply (bool_decide_unpack (¬ _)). by vm_compute. }
  destruct (decide (e_Type e = bs "join")) as [_|H2].
  { do 2 eexists. split; [done|]. unfold tokens, at_node.
    rewrite <- (app_nil_r (esc (e_Topic e))).
    destruct (decide (e_Node e = [])); rewrite <- ?app_assoc; cbn [app]; markup;
      by rewrite <- ?app_assoc. }
  destruct (decide (e_Type e = bs "leave")) as [_|H3].
  { do 2 eexists. split; [done|]. unfold tokens.
    rewrite <- (app_nil_r (bs " left")). markup. by rewrite <- ?app_assoc. }
  destruct (decide (e_Type e = bs "node")) as [_|H4]; [|set_solver].
  do 2 eexists. split; [done|]. unfold tokens. rewrite <- (app_nil_r (esc (e_Text e))). markup. done.
Qed.

(** *** Users and rails *)

Definition user_tokens (u : userView) : list token :=
  span_start (bs "call") :: flush (shown (v_call u)) [span_end]
  ++ (if decide (v_node u = []) then []
      else [Chars (bs " "); span_start (bs "node"); Chars (bs "@" ++ shown (v_node u)); span_end]).

Lemma user_markup u :
  tokens (mk (bs "<span class='call'>") ++ esc (v_call u) ++ bs "</span>"
          ++ (if decide (v_node u = []) then []
              else mk (bs " <span class='node'>@") ++ esc (v_node u) ++ bs "</span>"))
  = Some (user_tokens u).
Proof.
  unfold tokens, user_tokens. destruct (decide (v_node u = [])).
  - markup. cbn [fmap option_fmap option_map app]. by rewrite ?app_nil_r.
  - rewrite <- (app_nil_r (bs "</span>")) at 2. markup. cbn [fmap option_fmap option_map app].
    by rewrite !flush_app.
Qed.

Lemma chan_markup name :
  tokens (mk (bs "<span class='hash'>#</span>") ++ esc name)
  = Some (span_start (bs "hash") :: Chars (bs "#") :: span_end :: flush (shown name) []).
Proof.
  unfold tokens. rewrite <- (app_nil_r (esc name)). markup. done.
Qed.

Lemma dm_markup call (unread : option nat) :
  tokens (mk (bs "<span class='glyph'>@</span>") ++ esc call
          ++ match unread with
             | Some n => mk (bs "<span class='badge'>") ++ itoa (Z.of_nat n) ++ bs "</span>"
             | None => []
             end)
  = Some (span_start (bs "glyph") :: Chars (bs "@") :: span_end
          :: flush (shown call)
               match unread with
               | Some n => [span_start (bs "badge"); Chars (itoa (Z.of_nat n)); span_end]
               | None => []
               end).
Proof.
  unfold tokens. rewrite tok_glyph. destruct unread as [n|].
  - rewrite tok_text by done. rewrite tok_badge, tok_digits by apply itoa_chars.
    rewrite <- (app_nil_r (bs "</span>")). markup. cbn [fmap option_fmap option_map app].
    do 5 f_equal. pose proof (itoa_nonempty (Z.of_nat n)) as Hn. by destruct (itoa _).
  - markup. done.
Qed.

End markup.
