(* ===== verification/PageProps.v ===== *)
(** * What the page shows

    No text that reaches the page becomes markup, and the timeline follows the event
    stream. *)
From S2P Require Import Prelude Unicode GoStrings ChatModel ChatStore ChatHub PeerRouter.
From S2P Require Import JsonText JsonFacts.
From S2P Require Import Web WebWire WireProps.
Import Webchat Wire.
From S2P Require Import Page PageMarkup.
From stdpp Require Import options.
Local Open Scope Z_scope.

(** ** The page's own markup *)

(** The tags and classes the script writes into elements it fills at run time. *)
Definition own (t : token) : bool :=
  match t with
  | StartTag name attrs =>
      bool_decide (name = bs "span")
      && existsb (λ cls, bool_decide (attrs = [(bs "class", cls)]))
           [bs "ts"; bs "from"; bs "node"; bs "call"; bs "hash"; bs "glyph"; bs "badge"]
  | EndTag name => bool_decide (name = bs "span")
  | Chars _ => true
  end.
Definition safe (html : gostring) : Prop :=
  ∃ l, tokens html = Some l ∧ Forall (λ t, own t = true) l.

Section safety.
Context `{!Browser}.
Implicit Types (p : Page) (e : wireEvent).

Record page_safe p : Prop := {
  ps_log : Forall (safe ∘ el_html) (log p);
  ps_users : Forall safe (usersEl p);
  ps_chans : Forall (safe ∘ el_html) (chanlistEl p);
  ps_dms : Forall (safe ∘ el_html) (dmlistEl p) }.

Lemma own_flush acc l : Forall (λ t, own t = true) l → Forall (λ t, own t = true) (flush acc l).
Proof. intros Hl. destruct acc; [done|]. by apply Forall_cons. Qed.

Lemma own_ts t : Forall (λ t, own t = true) (ts_tokens t).
Proof. unfold ts_tokens. destruct (hhmm t); [done|]. by repeat (apply Forall_cons; split). Qed.

Ltac own_tokens :=
  repeat first
    [ done | apply own_ts | apply own_flush | (apply Forall_cons; split; [reflexivity|])
    | (apply Forall_app; split) | case_decide ].

Lemma event_tokens_own e : Forall (λ t, own t = true) (event_tokens e).
Proof. unfold event_tokens, from_tokens. own_tokens. Qed.
Lemma dm_tokens_own m : Forall (λ t, own t = true) (dm_tokens m).
Proof. unfold dm_tokens. own_tokens. Qed.
Lemma user_tokens_own u : Forall (λ t, own t = true) (user_tokens u).
Proof. unfold user_tokens. own_tokens. Qed.

Lemma dmLine_safe m : safe (dmLine m).
Proof. eexists. split; [apply dmLine_tokens|apply dm_tokens_own]. Qed.

Lemma dm_entry_safe (open : bool) (kt : gostring * thread) :
  safe (mk (bs "<span class='glyph'>@</span>") ++ esc kt.1
        ++ (if negb (th_unread kt.2 =? 0)%nat && negb open
            then mk (bs "<span class='badge'>") ++ itoa (Z.of_nat (th_unread kt.2)) ++ bs "</span>"
            else [])).
Proof.
  pose proof (dm_markup kt.1 (if negb (th_unread kt.2 =? 0)%nat && negb open
    then Some (th_unread kt.2) else None)) as Hd.
  destruct (negb (th_unread kt.2 =? 0)%nat && negb open); (eexists; split; [exact Hd|]); own_tokens.
Qed.

Lemma renderDMs_safe p : page_safe p → page_safe (renderDMs p).
Proof.
  intros [H1 H2 H3 H4]. split; try done. cbn. apply Forall_fmap, Forall_forall. intros kt _.
  cbn. apply dm_entry_safe.
Qed.
Lemma renderChannels_safe p : page_safe p → page_safe (renderChannels p).
Proof.
  intros [H1 H2 H3 H4]. split; try done. cbn. apply Forall_fmap, Forall_forall. intros name _.
  cbn. eexists. split; [apply chan_markup|]. own_tokens.
Qed.
Lemma renderUsers_safe l p : page_safe p → page_safe (renderUsers l p).
Proof.
  intros [H1 H2 H3 H4]. split; try done. cbn. apply Forall_fmap, Forall_forall. intros u _.
  eexists. split; [apply user_markup|apply user_tokens_own].
Qed.

Lemma add_safe html cls p : page_safe p → safe html → page_safe (add html cls p).
Proof.
  intros [H1 H2 H3 H4] Hh. split; try done. cbn. apply Forall_app. split; [done|].
  by apply Forall_singleton.
Qed.
Lemma add_dm_safe m p : page_safe p → page_safe (add_dm m p).
Proof. intros Hp. apply add_safe; [done|apply dmLine_safe]. Qed.
Lemma set_log_safe p : page_safe p → page_safe (set_log [] p).
Proof. intros [H1 H2 H3 H4]. by split; try done; apply Forall_nil. Qed.
Lemma add_dms_safe l p : page_safe p → page_safe (foldl (λ p m, add_dm m p) p l).
Proof. revert p. induction l as [|m l IH]; intros p Hp; [done|]. apply IH. by apply add_dm_safe. Qed.

(** Steps that leave the four lists alone. *)
Definition same_markup p p' : Prop :=
  log p' = log p ∧ usersEl p' = usersEl p ∧ chanlistEl p' = chanlistEl p ∧ dmlistEl p' = dmlistEl p.
Lemma same_markup_safe p p' : same_markup p p' → page_safe p → page_safe p'.
Proof. intros (E1 & E2 & E3 & E4) [H1 H2 H3 H4]. split; congruence. Qed.

Ltac same :=
  match goal with
  | Hp : page_safe ?p |- page_safe _ =>
      apply (same_markup_safe p); [split_and!; page_simpl; reflexivity|exact Hp]
  end.

Lemma dmThread_same call p : same_markup p (dmThread call p).2.
Proof. unfold dmThread. cbv zeta. by destruct (dm_get _ _). Qed.

Lemma handleDM_safe e p : page_safe p → page_safe (handleDM e p).1.
Proof.
  intros Hp. unfold handleDM. destruct (correspondent e) as [c|]; [|done].
  pose proof (dmThread_same c p) as Hs. destruct (dmThread c p) as [[k t] p1].
  apply (same_markup_safe p p1) in Hp; [|done]. cbn [fst snd]. apply renderDMs_safe.
  case_decide; [apply add_dm_safe|]; same.
Qed.

Lemma renderEvent_safe e p : page_safe p → page_safe (renderEvent e p).1.
Proof.
  intros Hp. destruct (is_line e) eqn:El.
  - destruct (renderEvent_line e p El) as (cls & html & -> & Ht).
    destruct Hp as [H1 H2 H3 H4]. split; try done. cbn. apply Forall_app. split; [done|].
    apply Forall_singleton. cbn. eexists. split; [exact Ht|apply event_tokens_own].
  - unfold is_line in El. apply bool_decide_eq_false in El. unfold renderEvent. cbv zeta.
    rewrite decide_False by set_solver. case_decide; [by apply handleDM_safe|].
    rewrite !decide_False by set_solver. done.
Qed.

Lemma each_safe {A} (f : A → Page → Page * bool) l : ∀ p,
  (∀ x p, page_safe p → page_safe (f x p).1) → page_safe p → page_safe (each f l p).1.
Proof.
  intros p Hf. revert p. induction l as [|x l IH]; intros p Hp; [done|]. cbn [each].
  specialize (Hf x p Hp). destruct (f x p) as [p' [|]]; [by apply IH|done].
Qed.

Lemma leaveDM_safe p : page_safe p → page_safe (leaveDM p).
Proof.
  intros Hp. unfold leaveDM. case_decide; [done|]. apply renderDMs_safe. same.
Qed.
Lemma setTopic_safe name p : page_safe p → page_safe (setTopic name p).
Proof. intros Hp. apply renderChannels_safe. same. Qed.
Lemma switchTopic_safe name p : page_safe p → page_safe (switchTopic name p).
Proof.
  intros Hp. unfold switchTopic. destruct (_ && _); [done|].
  apply (leaveDM_safe p) in Hp. same.
Qed.
Lemma openDM_safe call p : page_safe p → page_safe (openDM call p).
Proof.
  intros Hp. unfold openDM. pose proof (dmThread_same call p) as Hs.
  destruct (dmThread call p) as [[k t] p1]. cbn [snd] in Hs.
  apply (same_markup_safe p p1) in Hp; [|done].
  apply renderDMs_safe, renderChannels_safe, add_dms_safe. apply set_log_safe. same.
Qed.

Lemma backfill_safe l p : page_safe p → page_safe (backfill l p).
Proof.
  intros Hp. unfold backfill. set (f := λ e p, _).
  assert (page_safe (each f l (set_dms [] p)).1) as Hs.
  { apply each_safe; [|same]. intros e q Hq. unfold f.
    destruct (correspondent e) as [c|]; [|done]. pose proof (dmThread_same c q) as Hs.
    destruct (dmThread c q) as [[k t] q1]. cbn [fst snd] in *.
    apply (same_markup_safe q q1) in Hq; [|done]. same. }
  destruct (each f l (set_dms [] p)) as [q [|]]; [|done]. cbn [fst] in Hs.
  apply renderDMs_safe. destruct (dmWith q) as [k|]; [|done].
  destruct (dm_get k (dms q)) as [t|]; [|done]. by apply add_dms_safe, set_log_safe.
Qed.

Lemma resume_safe k r p : page_safe p → page_safe (resume k r p).
Proof.
  intros Hp. destruct r as [status text|]; [|done]. destruct k as [name| | | | |call]; cbn [resume].
  - apply (same_markup_safe (set_log [] (setTopic name p))); [split_and!; page_simpl; reflexivity|].
    by apply set_log_safe, setTopic_safe.
  - destruct (ok status); [|same].
    destruct (parse text) as [[]|]; try done.
    pose proof (each_safe renderEvent (read_event <$> l) p renderEvent_safe Hp) as Hs.
    destruct (each renderEvent (read_event <$> l) p) as [p' [|]]; [|done].
    cbn [fst] in Hs. same.
  - destruct (ok status); [|done].
    destruct (parse text) as [[]|]; try done; try by apply renderUsers_safe.
    all: destruct Hp as [H1 H2 H3 H4]; split; try done; by apply Forall_nil.
  - destruct (ok status); [|done]. destruct (parse text) as [[]|]; try done;
      first [by apply backfill_safe|same].
  - done.
  - destruct (status =? 403); [same|]. destruct (ok status); [done|same].
Qed.

Lemma step_safe i p : page_safe p → page_safe (step i p).
Proof.
  intros Hp. destruct i as [x| | |typed|typed|typed|name|call|n r]; cbn [step].
  - destruct x as [[call t|e|l]|]; [..|done]; cbn [on_stream].
    + apply (same_markup_safe (set_log [] (setStatus true (bs "live")
        (setTopic (or_str t (topic p)) (set_meEl call (set_me call p))))));
        [split_and!; page_simpl; reflexivity|].
      assert (page_safe (set_meEl call (set_me call p))) as Hm by same.
      apply (setTopic_safe (or_str t (topic p))) in Hm. apply set_log_safe. clear Hp. same.
    + apply renderEvent_safe. case_decide; [done|]. same.
    + by apply renderUsers_safe.
  - same.
  - same.
  - unfold on_submit. case_decide; [done|]. destruct (match_topic _); [by apply switchTopic_safe|].
    destruct (match_private _) as [[c body]|].
    + apply (openDM_safe (toUpperCase c)) in Hp. same.
    + destruct (dmWith p); same.
  - unfold on_newchan. case_decide; [done|]. by apply switchTopic_safe.
  - unfold on_newdm. case_decide; [done|]. by apply openDM_safe.
  - by apply switchTopic_safe.
  - by apply openDM_safe.
  - destruct (waiting p !! n) as [[q k]|]; [|done]. apply resume_safe. same.
Qed.

Lemma run_safe l : ∀ p, page_safe p → page_safe (run l p).
Proof. induction l as [|i l IH]; intros p Hp; [done|]. apply IH. by apply step_safe. Qed.

Lemma initial_safe : page_safe initial.
Proof. split; apply Forall_nil; exact I. Qed.
End safety.

(** C12. No text becomes markup.  Whatever arrives on the event stream and in answers,
    and whatever is typed and clicked, in any order: every line of the timeline, every
    user, every channel and every correspondent of the page is markup the browser's
    tokenizer reads as the page's own spans with the page's own classes and character
    data, and nothing else: no tag, attribute or script comes from a message, a name or
    a topic.  And the texts are where they belong, complete: a rendered event adds one
    line, which holds exactly its time, sender, node and text, and a direct message its
    time, correspondent and text, each shown as it is but for line ends and NUL. *)
Theorem no_text_becomes_markup `{!Browser} (l : list input) :
  page_safe (run l initial)
  ∧ (∀ e p, is_line e = true → ∃ cls html,
       renderEvent e p = (set_log (log p ++ [mkElement cls html]) p, true)
       ∧ tokens html = Some (event_tokens e))
  ∧ (∀ m, tokens (dmLine m) = Some (dm_tokens m))
  ∧ (∀ s, Forall (λ c, bz c ≠ 13 ∧ bz c ≠ 0) s → shown s = s).
Proof.
  split_and!.
  - apply run_safe, initial_safe.
  - apply renderEvent_line.
  - apply dmLine_tokens.
  - apply shown_id.
Qed.

(** ** The timeline follows the stream *)

Section timeline.
Context `{!Browser}.
Implicit Types (p : Page) (e : wireEvent).

(** What a task leaves as it was, outside the timeline and the threads. *)
Record still p p' : Prop := {
  sl_me : me p' = me p; sl_dm : dmWith p' = dmWith p; sl_users : usersEl p' = usersEl p;
  sl_count : usercountEl p' = usercountEl p;
  sl_topic : topic p' = topic p; sl_head : topicEl p' = topicEl p; sl_live : live p' = live p }.

Lemma still_trans p p' p'' : still p p' → still p' p'' → still p p''.
Proof. intros [] []. split; congruence. Qed.
Lemma still_refl p : still p p.
Proof. by split. Qed.

Lemma dmThread_spec call p :
  (dmThread call p).1.1 = toUpperCase call
  ∧ still p (dmThread call p).2 ∧ log (dmThread call p).2 = log p.
Proof. unfold dmThread. cbv zeta. destruct (dm_get _ _); (split; [done|]); split; try done; by split. Qed.

Lemma handleDM_still e p :
  dmWith p = None → still p (handleDM e p).1 ∧ log (handleDM e p).1 = log p.
Proof.
  intros Hd. unfold handleDM. destruct (correspondent e) as [c|]; [|by split; [apply still_refl|]].
  destruct (dmThread_spec c p) as (Hk & Hs & Hl). destruct (dmThread c p) as [[k t] p1].
  cbn [fst snd] in *. rewrite decide_False by (rewrite (sl_dm _ _ Hs), Hd; done).
  page_simpl. split; [|done]. eapply still_trans; [exact Hs|]. split; page_simpl; reflexivity.
Qed.

Definition line_tokens (e : wireEvent) : list (list token) :=
  if is_line e then [event_tokens e] else [].
Definition shown_log p : list (option (list token)) := tokens ∘ el_html <$> log p.

Lemma renderEvent_shows e p :
  dmWith p = None →
  still p (renderEvent e p).1
  ∧ shown_log (renderEvent e p).1 = shown_log p ++ (Some <$> line_tokens e).
Proof.
  intros Hd. unfold line_tokens, shown_log. destruct (is_line e) eqn:El.
  - destruct (renderEvent_line e p El) as (cls & html & -> & Ht). cbn [fst]. page_simpl.
    split; [by split|]. rewrite fmap_app. cbn [fmap list_fmap]. by rewrite <- Ht.
  - unfold is_line in El. apply bool_decide_eq_false in El. unfold renderEvent. cbv zeta.
    rewrite decide_False by set_solver.
    cbn [fmap list_fmap]. rewrite app_nil_r. case_decide.
    + destruct (handleDM_still e p Hd) as [Hs ->]. done.
    + rewrite !decide_False by set_solver. by split; [apply still_refl|].
Qed.

Lemma event_shows e p :
  dmWith p = None →
  still p (on_stream (Some (SseEvent e)) p)
  ∧ shown_log (on_stream (Some (SseEvent e)) p) = shown_log p ++ (Some <$> line_tokens e).
Proof.
  intros Hd. cbn [on_stream]. set (q := if decide _ then _ else _).
  assert (still p q ∧ shown_log q = shown_log p) as [Hs Hl].
  { unfold q. case_decide; [by split; [apply still_refl|]|]. split; [by split|done]. }
  destruct (renderEvent_shows e q) as [H1 H2]; [by rewrite (sl_dm _ _ Hs)|].
  split; [by eapply still_trans|]. by rewrite H2, Hl.
Qed.

Lemma events_show l : ∀ p,
  dmWith p = None →
  still p (run ((Stream ∘ Some ∘ SseEvent) <$> l) p)
  ∧ shown_log (run ((Stream ∘ Some ∘ SseEvent) <$> l) p)
    = shown_log p ++ (Some <$> concat (line_tokens <$> l)).
Proof.
  induction l as [|e l IH]; intros p Hd; [split; [apply still_refl|by rewrite app_nil_r]|].
  rewrite !fmap_cons. cbn [run foldl concat].
  destruct (event_shows e p Hd) as [H1 H2].
  destruct (IH (on_stream (Some (SseEvent e)) p)) as [H3 H4]; [by rewrite (sl_dm _ _ H1)|].
  split; [by eapply still_trans|]. setoid_rewrite H4. by rewrite H2, fmap_app, app_assoc.
Qed.

Lemma run_app l l' p : run (l ++ l') p = run l' (run l p).
Proof. apply foldl_app. Qed.

(** A stream's opening and what follows it, at a page with no thread open. *)
Lemma opening_shows call t hist users live_events p :
  dmWith p = None →
  let p' := run (Stream ∘ Some <$>
    (SseYou call t :: (SseEvent <$> hist) ++ SseUsers users :: (SseEvent <$> live_events))) p in
  shown_log p' = Some <$> concat (line_tokens <$> hist ++ live_events)
  ∧ tokens <$> usersEl p' = (Some ∘ user_tokens) <$> users
  ∧ me p' = call ∧ topicEl p' = or_str t (topic p) ∧ topic p' = or_str t (topic p)
  ∧ live p' = true ∧ dmWith p' = None.
Proof.
  intros Hd. rewrite fmap_cons, fmap_app, fmap_cons, <- !list_fmap_compose. cbn [run foldl].
  rewrite foldl_app. cbn [foldl].
  change (foldl (λ p i, step i p)) with (λ (p : Page) l, run l p). cbv beta.
  set (p1 := step ((Stream ∘ Some) (SseYou call t)) p).
  assert (dmWith p1 = None ∧ shown_log p1 = [] ∧ me p1 = call ∧ topicEl p1 = or_str t (topic p)
    ∧ topic p1 = or_str t (topic p) ∧ live p1 = true) as (D1 & L1 & M1 & T1 & U1 & V1).
  { unfold p1, shown_log. cbn [step compose on_stream]. page_simpl. by rewrite Hd. }
  clearbody p1. destruct (events_show hist p1 D1) as [S2 L2].
  change (Stream ∘ Some ∘ SseEvent) with ((Stream ∘ Some) ∘ SseEvent) in *.
  set (p2 := run ((Stream ∘ Some) ∘ SseEvent <$> hist) p1) in *. clearbody p2.
  set (p3 := step ((Stream ∘ Some) (SseUsers users)) p2).
  assert (dmWith p3 = None) as D3 by (unfold p3; cbn [step compose on_stream]; page_simpl;
    by rewrite (sl_dm _ _ S2)).
  destruct (events_show live_events p3 D3) as [S4 L4].
  change (Stream ∘ Some ∘ SseEvent) with ((Stream ∘ Some) ∘ SseEvent) in *.
  cbv zeta. split_and!.
  - rewrite L4. assert (shown_log p3 = shown_log p2) as -> by done.
    by rewrite L2, L1, fmap_app, concat_app, fmap_app.
  - rewrite (sl_users _ _ S4). unfold p3. cbn [step compose on_stream renderUsers]. page_simpl.
    rewrite <- list_fmap_compose. apply list_fmap_ext. intros i u _. apply user_markup.
  - rewrite (sl_me _ _ S4). etrans; [|exact M1]. apply (sl_me _ _ S2).
  - rewrite (sl_head _ _ S4). etrans; [|exact T1]. apply (sl_head _ _ S2).
  - rewrite (sl_topic _ _ S4). etrans; [|exact U1]. apply (sl_topic _ _ S2).
  - rewrite (sl_live _ _ S4). etrans; [|exact V1]. apply (sl_live _ _ S2).
  - by rewrite (sl_dm _ _ S4).
Qed.
End timeline.

(** The topic of a stream's viewer. *)
Definition room {St} (key : UserKey) (st : Site (St := St)) : gostring :=
  match Hub.UserOf (hub st) key with Some usr => u_Topic usr | None => [] end.

Lemma open_stream_items {St} `{!Store St} call (st : Site (St := St)) :
  let o := open_stream call st in
  o.1.2 = SseYou (uk_Call (sm_key o.1.1)) (room (sm_key o.1.1) o.2)
    :: ((SseEvent ∘ topicEvent) <$> historyFor o.2 (room (sm_key o.1.1) o.2))
    ++ [SseUsers (usersFor o.2 (room (sm_key o.1.1) o.2))].
Proof. reflexivity. Qed.

(** C26. The browser shows the room.  Let the server open a viewer's event stream and go on
    with any further events, keepalives anywhere in between, and let a page with no direct
    message thread open read the bytes of that stream: then the timeline is, line for
    line and in order, the messages of the viewer's topic that the history query answers,
    the newest hundred or none if it fails, followed by the further
    events that have a line, each with its sender, node and text as it was sent (bytes
    that are no UTF-8 apart); the user list is the topic's present users with their
    nodes; and the page carries the viewer's callsign and topic and says it is live. *)
Theorem browser_shows_room `{!Browser} {St} `{!Store St} (call : gostring) (st : Site (St := St))
    (further : list wireEvent) (cs : list chunk) (p : Page) :
  dmWith p = None → Forall chunk_ok cs →
  items cs = (open_stream call st).1.2 ++ (SseEvent <$> further) →
  let key := sm_key (open_stream call st).1.1 in
  let st' := (open_stream call st).2 in
  let p' := run (Stream <$> (read_item <$> eventsource (stream_text cs))) p in
  shown_log p' = Some <$> concat (line_tokens ∘ repair_event <$>
                   (topicEvent <$> historyFor st' (room key st')) ++ further)
  ∧ tokens <$> usersEl p' = (Some ∘ user_tokens ∘ repair_user) <$> usersFor st' (room key st')
  ∧ me p' = repair (uk_Call key)
  ∧ topicEl p' = or_str (repair (room key st')) (topic p)
  ∧ live p' = true.
Proof.
  intros Hd Hok Hi key st' p'. rewrite open_stream_items in Hi. fold key st' in Hi.
  assert (Stream <$> (read_item <$> eventsource (stream_text cs))
    = Stream ∘ Some <$> (SseYou (repair (uk_Call key)) (repair (room key st'))
        :: (SseEvent <$> (repair_event ∘ topicEvent <$> historyFor st' (room key st')))
        ++ SseUsers (repair_user <$> usersFor st' (room key st'))
        :: (SseEvent <$> (repair_event <$> further)))) as E.
  { rewrite (proj1 (stream_is_read_back cs Hok)), Hi. rewrite <- list_fmap_compose, fmap_app.
    cbn [app fmap list_fmap]. rewrite fmap_app, <- app_assoc. cbn [app fmap list_fmap].
    rewrite !fmap_app, !fmap_cons, <- !list_fmap_compose. done. }
  unfold p'. rewrite E. clear p' E.
  destruct (opening_shows (repair (uk_Call key)) (repair (room key st'))
    (repair_event ∘ topicEvent <$> historyFor st' (room key st'))
    (repair_user <$> usersFor st' (room key st')) (repair_event <$> further) p Hd)
    as (H1 & H2 & H3 & H4 & _ & H5 & _).
  split_and!; [|..|done]; [|rewrite H2, <- list_fmap_compose; done|done|done].
  rewrite H1. f_equal. f_equal. rewrite !fmap_app, <- !list_fmap_compose. done.
Qed.

(** A node whose owner has logged one message. *)
Definition logged_site : Site (St := MemStore.MemStore) :=
  let st := mkSite (Router.NewRouter (Hub.NewHub (bs "GB7AAA-4") MemStore.NewMemStore
              (λ n, unix_epoch + 1700000000000000000 + Z.of_nat n))) None ∅ in
  (on_hub (Hub.Post (mkUserKey (bs "GB7AAA") (bs "GB7AAA-4")) (bs "a < b & c"))
     (enter (bs "GB7AAA") st).2).2.

Lemma browser_shows_room_witness :
  let cs := Ping :: (Item <$> (open_stream (bs "GB7AAA") logged_site).1.2)
            ++ [Item (SseEvent forged); Ping] in
  let p' := run (Stream <$> (read_item <$> eventsource (stream_text cs))) initial in
  me p' = repair (uk_Call (sm_key (open_stream (bs "GB7AAA") logged_site).1.1))
  ∧ bool_decide (length (shown_log p') = 2%nat) = true.
Proof.
  intros cs p'. split; [|by vm_compute].
  assert (forallb (λ c, match c with
            | Item (SseEvent e) => (0 <=? e_Time e) && (e_Time e <? 2 ^ 62)
            | _ => true end) cs = true) as Hb by by vm_compute.
  assert (Forall chunk_ok cs) as Hok.
  { apply Forall_forall. intros c Hc%list_elem_of_In. rewrite forallb_forall in Hb.
    specialize (Hb c Hc). destruct c as [[| e|]|]; try done. bools. cbn. unfold in_int64. lia. }
  destruct (browser_shows_room (bs "GB7AAA") logged_site [forged] cs initial) as (_ & _ & H & _);
    [done|exact Hok| |exact H].
  unfold cs. clear. generalize (open_stream (bs "GB7AAA") logged_site).1.2. intros l.
  cbn [items omap list_omap app]. unfold items. rewrite omap_app. cbn [omap list_omap]. f_equal.
  induction l as [|x l IH]; [done|]. rewrite fmap_cons. cbn [omap list_omap]. f_equal. exact IH.
Defined.
