(* ===== verification/PageThreads.v ===== *)
(** * The direct-message threads of the page

    An inbox as a reader thinks of it: the direct messages in the order they arrived, a
    count of unread ones per correspondent, and the correspondent whose thread is open.
    The page's map of threads, with all that happens to it in the middle of topic
    switches and answers, implements it. *)
From S2P Require Import Prelude Unicode GoStrings JsonText JsonFacts Web WebWire WireProps.
Import Webchat Wire.
From S2P Require Import Page PageMarkup PageProps.
From stdpp Require Import options.
Local Open Scope Z_scope.

(** ** The inbox *)

Record Inbox := mkInbox {
  ib_log : list wireEvent;
  ib_unread : gostring → nat;
  ib_open : option gostring }.
Definition empty_inbox : Inbox := mkInbox [] (λ _, 0%nat) None.

Inductive happening :=
| Arrived (e : wireEvent)                 (* a direct message, live *)
| Opened (call : gostring)                (* the reader opens a thread *)
| Left                                    (* and goes back to a channel *)
| Backfilled (l : list wireEvent).        (* the server's list of all of them *)

Section threads.
Context `{!Browser}.
Implicit Types (p : Page) (e : wireEvent).

(** The thread an event belongs to: its correspondent's, in capitals. *)
Definition key_of e : option gostring := toUpperCase <$> correspondent e.

Fixpoint good (l : list wireEvent) : list wireEvent :=
  match l with
  | [] => []
  | e :: l' => match key_of e with Some _ => e :: good l' | None => [] end
  end.

Definition ib_step (ib : Inbox) (h : happening) : Inbox :=
  match h with
  | Arrived e =>
      match key_of e with
      | None => ib
      | Some k =>
          mkInbox (ib_log ib ++ [e])
            (λ k', if decide (k' = k ∧ ib_open ib ≠ Some k) then S (ib_unread ib k') else ib_unread ib k')
            (ib_open ib)
      end
  | Opened call =>
      mkInbox (ib_log ib)
        (λ k', if decide (k' = toUpperCase call) then 0%nat else ib_unread ib k')
        (Some (toUpperCase call))
  | Left => mkInbox (ib_log ib) (ib_unread ib) None
  | Backfilled l => mkInbox (good l) (λ _, 0%nat) (ib_open ib)
  end.

(** The messages of one correspondent. *)
Definition ib_thread (k : gostring) (ib : Inbox) : list wireEvent :=
  base.filter (λ e, key_of e = Some k) (ib_log ib).

(** ** What happens in a step of the page *)

Definition switches (name : gostring) p : list happening :=
  if bool_decide (dmWith p = None) && bool_decide (toLowerCase name = toLowerCase (topic p))
  then [] else [Left].

Fixpoint arrivals (l : list wireEvent) : list happening :=
  match l with
  | [] => []
  | e :: l' =>
      if decide (e_Type e = bs "private") then
        match key_of e with Some _ => Arrived e :: arrivals l' | None => [] end
      else arrivals l'
  end.

Definition happens (i : input) p : list happening :=
  match i with
  | Stream (Some (SseEvent e)) => arrivals [e]
  | Submit typed =>
      let text := trim typed in
      if decide (text = []) then []
      else match match_topic text with
           | Some t => switches (trim t) p
           | None => match match_private text with
                     | Some (c, _) => [Opened (toUpperCase c)]
                     | None => []
                     end
           end
  | NewChan typed => let name := trim typed in if decide (name = []) then [] else switches name p
  | NewDM typed =>
      let call := toUpperCase (trim typed) in if decide (call = []) then [] else [Opened call]
  | ClickChan name => switches name p
  | ClickDM call => [Opened call]
  | Answer n (Reply status text) =>
      match waiting p !! n with
      | Some (_, AfterHistory) =>
          if ok status then
            match parse text with
            | Some (JsonText.JArray _ l) => arrivals (read_event <$> l)
            | _ => []
            end
          else []
      | Some (_, AfterDMs) =>
          if ok status then
            match parse text with
            | Some (JsonText.JArray _ l) => [Backfilled (read_event <$> l)]
            | Some _ => [Backfilled []]
            | None => []
            end
          else []
      | _ => []
      end
  | _ => []
  end.

Definition both (x : Page * Inbox) (i : input) : Page * Inbox :=
  (step i x.1, foldl ib_step x.2 (happens i x.1)).

(** ** The page implements the inbox *)

Definition msgs_of (k : gostring) p : list dm := from_option th_msgs [] (dm_get k (dms p)).
Definition unread_of (k : gostring) p : nat := from_option th_unread 0%nat (dm_get k (dms p)).

Record implements p (ib : Inbox) : Prop := {
  im_msgs k : msgs_of k p = dm_of k <$> ib_thread k ib;
  im_unread k : unread_of k p = ib_unread ib k;
  im_open : dmWith p = ib_open ib }.

Lemma dm_get_set k k' t l : dm_get k' (dm_set k t l) = if decide (k' = k) then Some t else dm_get k' l.
Proof.
  induction l as [|[k1 t1] l IH]; cbn.
  - destruct (decide (k = k')), (decide (k' = k)); congruence.
  - destruct (decide (k1 = k)) as [->|]; cbn.
    + destruct (decide (k = k')), (decide (k' = k)); congruence.
    + rewrite IH. destruct (decide (k1 = k')), (decide (k' = k)); congruence.
Qed.

(** Steps that do not touch the threads. *)
Definition same_dms p p' : Prop := dms p' = dms p ∧ dmWith p' = dmWith p.
Lemma same_implements p p' ib : same_dms p p' → implements p ib → implements p' ib.
Proof.
  intros [E1 E2] [H1 H2 H3]. split; unfold msgs_of, unread_of in *; intros; rewrite ?E1, ?E2; auto.
Qed.
Ltac same_threads :=
  match goal with
  | Hp : implements ?p ?ib |- implements _ ?ib =>
      apply (same_implements p); [split; page_simpl; reflexivity|exact Hp]
  end.

(** A correspondent's thread, and a thread put in its place. *)
Lemma dmThread_get call p :
  let '(k, t, p1) := dmThread call p in
  k = toUpperCase call ∧ dmWith p1 = dmWith p
  ∧ th_msgs t = msgs_of k p ∧ th_unread t = unread_of k p
  ∧ (∀ t' k', msgs_of k' (set_thread k t' p1) = if decide (k' = k) then th_msgs t' else msgs_of k' p)
  ∧ (∀ t' k', unread_of k' (set_thread k t' p1)
              = if decide (k' = k) then th_unread t' else unread_of k' p).
Proof.
  unfold dmThread, msgs_of, unread_of. cbv zeta.
  destruct (dm_get (toUpperCase call) (dms p)) as [t|] eqn:E; rewrite ?E;
    (do 4 (split; [done|])); split; intros t' k'; page_simpl; rewrite !dm_get_set;
    by destruct (decide (k' = toUpperCase call)).
Qed.

Lemma ib_thread_snoc k e ib log' unread open :
  log' = ib_log ib ++ [e] →
  ib_thread k (mkInbox log' unread open)
  = ib_thread k ib ++ (if decide (key_of e = Some k) then [e] else []).
Proof.
  intros ->. unfold ib_thread. cbn [ib_log]. by rewrite filter_app.
Qed.

Lemma handleDM_implements e p ib :
  implements p ib → implements (handleDM e p).1 (ib_step ib (Arrived e)).
Proof.
  intros [H1 H2 H3]. unfold handleDM, ib_step, key_of.
  destruct (correspondent e) as [c|] eqn:Ec; [|by split]. cbn [fmap option_fmap option_map].
  pose proof (dmThread_get c p) as Hg. destruct (dmThread c p) as [[k t] p1].
  destruct Hg as (-> & Hd & Et & Eu & Hm & Hu). set (k := toUpperCase c) in *. rewrite Hd.
  assert (key_of e = Some k) as Hk by (unfold key_of; by rewrite Ec).
  apply (same_implements (set_thread k
    (mkThread (th_msgs t ++ [dm_of k e])
       (if decide (dmWith p = Some k) then th_unread t else S (th_unread t))) p1)).
  { split; case_decide; page_simpl; reflexivity. }
  split; [intros k'..|]; cbn [ib_open ib_unread].
  - rewrite Hm, (ib_thread_snoc k' e ib), Hk by done. cbn [th_msgs]. rewrite Et.
    destruct (decide (k' = k)) as [->|].
    + by rewrite decide_True, fmap_app, H1.
    + by rewrite decide_False, app_nil_r by congruence.
  - rewrite Hu. cbn [th_unread]. rewrite Eu, <- H3.
    destruct (decide (k' = k)) as [->|].
    + rewrite H2. do 2 case_decide; done || tauto.
    + by rewrite decide_False by tauto.
  - page_simpl. congruence.
Qed.

(** ** The tasks *)

Lemma renderEvent_implements e p ib :
  implements p ib →
  implements (renderEvent e p).1 (foldl ib_step ib (arrivals [e]))
  ∧ ((renderEvent e p).2 = false ↔ e_Type e = bs "private" ∧ key_of e = None).
Proof.
  intros Hp. cbn [arrivals]. unfold renderEvent. cbv zeta.
  destruct (decide (e_Type e = bs "private")) as [E|E].
  - rewrite decide_False by (rewrite E; apply (bool_decide_unpack (¬ _)); by vm_compute).
    pose proof (handleDM_implements e p ib Hp) as Hd. unfold ib_step in Hd.
    assert ((handleDM e p).2 = false ↔ key_of e = None) as Ho.
    { unfold handleDM, key_of. destruct (correspondent e) as [c|]; [|done].
      by destruct (dmThread c p) as [[k' t] p1]. }
    destruct (key_of e) as [k|] eqn:Hk; cbn [foldl ib_step]; [rewrite Hk|]; (split; [done|]); tauto.
  - cbn [foldl]. repeat case_decide; cbn [fst snd]; (split; [|split; [done|by intros [? _]]]); same_threads || done.
Qed.

Lemma each_renderEvent_implements l : ∀ p ib,
  implements p ib → implements (each renderEvent l p).1 (foldl ib_step ib (arrivals l)).
Proof.
  induction l as [|e l IH]; intros p ib Hp; [done|]. cbn [each].
  destruct (renderEvent_implements e p ib Hp) as [H1 H2]. revert H1 H2. cbn [arrivals].
  destruct (renderEvent e p) as [p' [|]]; cbn [fst snd]; intros H1 H2.
  - case_decide; [|by apply IH]. destruct (key_of e) eqn:Hk; [by apply IH|].
    by discriminate (proj2 H2 (conj H0 eq_refl)).
  - destruct (proj1 H2 eq_refl) as [E Hk]. rewrite decide_True, Hk in H1 by done.
    by rewrite decide_True, Hk.
Qed.

(** One message of the backfill. *)
Definition fill_step e p : Page * bool :=
  match correspondent e with
  | None => (p, false)
  | Some c =>
      let '(k, t, p) := dmThread c p in
      (set_thread k (mkThread (th_msgs t ++ [dm_of k e]) (th_unread t)) p, true)
  end.

Lemma fill_implements l : ∀ p log0 u o,
  implements p (mkInbox log0 u o) →
  implements (each fill_step l p).1 (mkInbox (log0 ++ good l) u o).
Proof.
  induction l as [|e l IH]; intros p log0 u o Hp; cbn [each good]; [by rewrite app_nil_r|].
  unfold fill_step at 1, key_of.
  destruct (correspondent e) as [c|] eqn:Ec; cbn [fmap option_fmap option_map]; [|by rewrite app_nil_r].
  pose proof (dmThread_get c p) as Hg. destruct (dmThread c p) as [[k t] p1].
  destruct Hg as (-> & Hd & Et & Eu & Hm & Hu).
  rewrite (cons_middle e log0), (app_assoc log0). apply IH. destruct Hp as [H1 H2 H3].
  assert (key_of e = Some (toUpperCase c)) as Hk by (unfold key_of; by rewrite Ec).
  split; [intros k'..|]; cbn [ib_open ib_unread] in *.
  - rewrite Hm, (ib_thread_snoc k' e (mkInbox log0 u o)), Hk by done. cbn [th_msgs]. rewrite Et.
    destruct (decide (k' = toUpperCase c)) as [->|].
    + by rewrite decide_True, fmap_app, H1.
    + by rewrite decide_False, app_nil_r by congruence.
  - rewrite Hu. cbn [th_unread]. rewrite Eu. by destruct (decide (k' = _)) as [->|].
  - page_simpl. congruence.
Qed.

Lemma add_dms_same l : ∀ p, same_dms p (foldl (λ p m, add_dm m p) p l).
Proof.
  induction l as [|m l IH]; intros p; [done|]. cbn [foldl]. destruct (IH (add_dm m p)) as [E1 E2].
  split; [by rewrite E1|by rewrite E2].
Qed.

Lemma backfill_implements l p ib :
  implements p ib → implements (backfill l p) (ib_step ib (Backfilled l)).
Proof.
  intros [H1 H2 H3].
  assert (implements (set_dms [] p) (mkInbox [] (λ _, 0%nat) (ib_open ib))) as H0 by by split.
  apply (fill_implements l) in H0. unfold backfill.
  change (each _ l (set_dms [] p)) with (each fill_step l (set_dms [] p)).
  destruct (each fill_step l (set_dms [] p)) as [q [|]]; [|exact H0].
  apply (same_implements q); [|exact H0].
  destruct (dmWith q) as [k|]; [|done]. destruct (dm_get k (dms q)) as [t|]; [|done].
  destruct (add_dms_same (th_msgs t) (set_log [] q)) as [E1 E2]. split; page_simpl; done.
Qed.

Lemma openDM_implements call p ib :
  implements p ib → implements (openDM call p) (ib_step ib (Opened call)).
Proof.
  intros [H1 H2 H3]. unfold openDM, ib_step.
  pose proof (dmThread_get call p) as Hg. destruct (dmThread call p) as [[k t] p1].
  destruct Hg as (-> & Hd & Et & Eu & Hm & Hu). cbv zeta. set (k := toUpperCase call) in *.
  set (q := set_placeholder _ _).
  apply (same_implements q).
  { destruct (add_dms_same (th_msgs t) (set_log [] q)) as [E1 E2]. split; page_simpl; done. }
  split; [intros k'..|]; cbn [ib_open ib_unread].
  - change (msgs_of k' (set_thread k (mkThread (th_msgs t) 0) p1) = dm_of k' <$> ib_thread k' ib).
    rewrite Hm. cbn [th_msgs]. rewrite Et. by destruct (decide (k' = k)) as [->|].
  - change (unread_of k' (set_thread k (mkThread (th_msgs t) 0) p1)
      = if decide (k' = k) then 0%nat else ib_unread ib k').
    rewrite Hu. by destruct (decide (k' = k)).
  - done.
Qed.

Lemma switchTopic_implements name p ib :
  implements p ib → implements (switchTopic name p) (foldl ib_step ib (switches name p)).
Proof.
  intros Hp. unfold switchTopic, switches. destruct (_ && _); [done|]. cbn [foldl ib_step].
  destruct Hp as [H1 H2 H3]. unfold leaveDM. case_decide; split; try done; cbn; congruence.
Qed.
Lemma resume_implements n r p ib :
  implements p ib → implements (step (Answer n r) p) (foldl ib_step ib (happens (Answer n r) p)).
Proof.
  intros Hp. cbn [step happens].
  destruct (waiting p !! n) as [[q k]|]; [|by destruct r].
  assert (implements (set_waiting (delete n (waiting p)) p) ib) as Hw by same_threads.
  destruct r as [status text|]; [|exact Hw]. generalize dependent (set_waiting (delete n (waiting p)) p).
  clear p Hp. intros p Hp. destruct k as [name| | | | |call]; cbn [resume foldl].
  - same_threads.
  - destruct (ok status); cbn [foldl]; [|same_threads].
    destruct (parse text) as [[]|]; try done.
    pose proof (each_renderEvent_implements (read_event <$> l) p ib Hp) as Hs.
    destruct (each renderEvent (read_event <$> l) p) as [p' [|]]; cbn [fst] in Hs; [|done].
    same_threads.
  - destruct (ok status); [|done]. destruct (parse text) as [[]|]; try done; same_threads.
  - destruct (ok status); [|done]. destruct (parse text) as [[]|]; cbn [foldl]; try done;
      try by apply backfill_implements.
    all: destruct Hp as [H1 H2 H3]; by split.
  - done.
  - destruct (status =? 403); [same_threads|]. destruct (ok status); [done|same_threads].
Qed.

Lemma step_implements i p ib :
  implements p ib → implements (step i p) (foldl ib_step ib (happens i p)).
Proof.
  intros Hp. destruct i as [x| | |typed|typed|typed|name|call|n r]; cbn [step happens].
  - destruct x as [[call t|e|l]|]; [..|done]; cbn [on_stream].
    + same_threads.
    + apply renderEvent_implements. case_decide; [done|same_threads].
    + same_threads.
  - same_threads.
  - same_threads.
  - unfold on_submit. case_decide; [done|].
    destruct (match_topic _); [by apply switchTopic_implements|].
    destruct (match_private _) as [[c body]|]; cbn [foldl].
    + apply (openDM_implements (toUpperCase c)) in Hp. cbv zeta. same_threads.
    + destruct (dmWith p); same_threads.
  - unfold on_newchan. case_decide; [done|]. by apply switchTopic_implements.
  - unfold on_newdm. case_decide; [done|]. by apply openDM_implements.
  - by apply switchTopic_implements.
  - by apply openDM_implements.
  - by apply resume_implements.
Qed.

Lemma both_run l : ∀ x, (foldl both x l).1 = run l x.1.
Proof. induction l as [|i l IH]; intros x; [done|]. cbn [foldl run]. by rewrite IH. Qed.
Lemma both_implements l : ∀ x, implements x.1 x.2 → implements (foldl both x l).1 (foldl both x l).2.
Proof. induction l as [|i l IH]; intros x Hx; [done|]. apply IH. by apply step_implements. Qed.

(** What opening a thread shows. *)
Lemma add_dms_shown ms : ∀ p,
  shown_log (foldl (λ p m, add_dm m p) p ms) = shown_log p ++ (Some ∘ dm_tokens <$> ms).
Proof.
  induction ms as [|m ms IH]; intros p; [by rewrite app_nil_r|]. cbn [foldl]. rewrite IH.
  unfold shown_log. page_simpl. rewrite fmap_app, <- app_assoc. cbn [fmap list_fmap app compose el_html].
  by rewrite dmLine_tokens.
Qed.

Lemma openDM_shows call p :
  shown_log (openDM call p) = Some ∘ dm_tokens <$> msgs_of (toUpperCase call) p
  ∧ topicEl (openDM call p) = toUpperCase call ∧ dmWith (openDM call p) = Some (toUpperCase call).
Proof.
  unfold openDM. pose proof (dmThread_get call p) as Hg. destruct (dmThread call p) as [[k t] p1].
  destruct Hg as (-> & _ & <- & _). cbv zeta. split.
  - by etrans; [apply add_dms_shown|].
  - assert (∀ (ms : list dm) q, topicEl (foldl (λ p m, add_dm m p) q ms) = topicEl q) as Ht.
    { clear. intros ms. induction ms as [|m ms IH]; intros q; [done|]. cbn [foldl]. by rewrite IH. }
    split; page_simpl; [by rewrite Ht|]. by rewrite (proj2 (add_dms_same _ _)).
Qed.

(** An arrival in the open thread shows at its end. *)
Lemma arrival_shows e p k :
  key_of e = Some k →
  shown_log (handleDM e p).1
  = shown_log p ++ (if decide (dmWith p = Some k) then [Some (dm_tokens (dm_of k e))] else []).
Proof.
  unfold key_of, handleDM. destruct (correspondent e) as [c|]; [|done].
  intros [= <-]. destruct (dmThread_spec c p) as (Hk & Hs & Hl).
  destruct (dmThread c p) as [[k' t] p1]. cbn [fst snd] in *. subst k'.
  rewrite (sl_dm _ _ Hs). unfold shown_log. destruct (decide (dmWith p = Some (toUpperCase c))).
  - page_simpl. rewrite fmap_app, Hl. cbn [fmap list_fmap app compose el_html].
    by rewrite dmLine_tokens.
  - page_simpl. by rewrite Hl, app_nil_r.
Qed.
End threads.

(** C11. The direct-message threads are an inbox.  Follow the page through any sequence of
    inputs - messages arriving, answers in any order, texts typed, rails clicked -
    beside an inbox to which the direct messages among them happen: then always each
    thread of the page holds exactly the inbox's messages with that correspondent, in
    the order of their arrival and whatever the case their callsign was written in; its
    unread count is the number that arrived while another view was open; and the page
    takes the composer's text for the inbox's open thread.  Opening a thread shows
    exactly its messages and its correspondent in the heading, and a further message is
    added to the view when its thread is the open one, and only then. *)
Theorem threads_are_the_inbox `{!Browser} (l : list input) :
  let x := foldl both (initial, empty_inbox) l in
  x.1 = run l initial
  ∧ (∀ k, msgs_of k x.1 = dm_of k <$> ib_thread k x.2)
  ∧ (∀ k, unread_of k x.1 = ib_unread x.2 k)
  ∧ dmWith x.1 = ib_open x.2
  ∧ (∀ call, let k := toUpperCase call in let p := step (ClickDM call) x.1 in
       shown_log p = Some ∘ dm_tokens ∘ dm_of k <$> ib_thread k x.2
       ∧ topicEl p = k ∧ dmWith p = Some k)
  ∧ (∀ e k, key_of e = Some k →
       shown_log (handleDM e x.1).1
       = shown_log x.1 ++ (if decide (ib_open x.2 = Some k) then [Some (dm_tokens (dm_of k e))] else [])).
Proof.
  intros x. assert (implements x.1 x.2) as [H1 H2 H3] by (apply both_implements; by split).
  split; [apply both_run|]. split_and!; try done.
  - intros call k p. destruct (openDM_shows call x.1) as (Hs & Ht & Hd).
    split; [|done]. unfold p. cbn [step]. by rewrite Hs, H1, <- list_fmap_compose.
  - intros e k Hk. rewrite (arrival_shows e x.1 k Hk). by rewrite H3.
Qed.

(** Two messages of one correspondent, the thread opened between them, and one of
    another. *)
Definition private_event (from text : gostring) : wireEvent :=
  mkWireEvent (bs "private") from [] (bs "M0ABC") from false [] text 1700000000000.
Example threads_sample :
  let e := λ f t, Stream (Some (SseEvent (private_event f t))) in
  let x := foldl both (initial, empty_inbox)
    [e (bs "g7xyz") (bs "one"); ClickDM (bs "G7XYZ"); e (bs "G7xyz") (bs "two"); e (bs "2E0AAA") (bs "three")] in
  length (ib_thread (bs "G7XYZ") x.2) = 2%nat ∧ ib_unread x.2 (bs "G7XYZ") = 0%nat
  ∧ ib_unread x.2 (bs "2E0AAA") = 1%nat ∧ length (shown_log x.1) = 2%nat.
Proof. by vm_compute. Qed.
