(* ===== verification/PagePanels.v ===== *)
(** * The page's panes ([internal/web/index.go])

    The second half of the page's script: the settings pane and the federation panel.
    They share nothing with the conversation but the way requests and answers take, so
    their state is kept apart from [Page]'s.  The views are read as the server writes
    them: a property of another type counts as absent. *)
From S2P Require Import Prelude Unicode GoStrings JsonText JsonFacts PeerAllow PeerRouter Web WebWire.
From S2P Require Import Page.
From stdpp Require Import options.
Local Open Scope Z_scope.
Import Webchat Wire.

(** What a text field keeps of a value assigned to it. *)
Definition field_value (s : gostring) : gostring :=
  base.filter (λ c, bz c ≠ 10 ∧ bz c ≠ 13) s.

(** *** State *)

Inductive pane_cont :=
| AfterSettings                           (* [openSettings] *)
| AfterSave                               (* the settings form *)
| AfterProbe                              (* [probeFed] *)
| AfterPeers                              (* [openFed] *)
| AfterEdit (action call : gostring)      (* [editAllow], the post *)
| AfterReload (action call : gostring).   (* [editAllow], the panel's refetch *)

Record Panes := mkPanes {
  form : settingsView;                    (* the seven fields of the settings form *)
  saved_hidden : bool; settings_open : bool; timers : nat;
  fedbtn_shown : bool; fed_open : bool;
  allowlist : gostring * list (gostring * gostring);
                                          (* markup, then rows: markup and callsign *)
  pinnedlist : list gostring;
  fednodes : gostring; fedlinks : gostring; fedconfigured : gostring;
  fedMsg : gostring; fedMsg_hidden : bool;
  pane_alerts : list gostring;
  pane_waiting : list (request * pane_cont) }.

Definition set_form v p := mkPanes v (saved_hidden p) (settings_open p) (timers p) (fedbtn_shown p)
  (fed_open p) (allowlist p) (pinnedlist p) (fednodes p) (fedlinks p) (fedconfigured p) (fedMsg p)
  (fedMsg_hidden p) (pane_alerts p) (pane_waiting p).
Definition set_pane saved op n p := mkPanes (form p) saved op n (fedbtn_shown p)
  (fed_open p) (allowlist p) (pinnedlist p) (fednodes p) (fedlinks p) (fedconfigured p) (fedMsg p)
  (fedMsg_hidden p) (pane_alerts p) (pane_waiting p).
Definition set_fed btn op p := mkPanes (form p) (saved_hidden p) (settings_open p) (timers p) btn
  op (allowlist p) (pinnedlist p) (fednodes p) (fedlinks p) (fedconfigured p) (fedMsg p)
  (fedMsg_hidden p) (pane_alerts p) (pane_waiting p).
Definition set_allow al pl p := mkPanes (form p) (saved_hidden p) (settings_open p) (timers p)
  (fedbtn_shown p) (fed_open p) al pl (fednodes p) (fedlinks p) (fedconfigured p) (fedMsg p)
  (fedMsg_hidden p) (pane_alerts p) (pane_waiting p).
Definition set_tables n l c p := mkPanes (form p) (saved_hidden p) (settings_open p) (timers p)
  (fedbtn_shown p) (fed_open p) (allowlist p) (pinnedlist p) n l c (fedMsg p)
  (fedMsg_hidden p) (pane_alerts p) (pane_waiting p).
Definition set_fedMsg m h p := mkPanes (form p) (saved_hidden p) (settings_open p) (timers p)
  (fedbtn_shown p) (fed_open p) (allowlist p) (pinnedlist p) (fednodes p) (fedlinks p)
  (fedconfigured p) m h (pane_alerts p) (pane_waiting p).
Definition pane_alert v p := mkPanes (form p) (saved_hidden p) (settings_open p) (timers p)
  (fedbtn_shown p) (fed_open p) (allowlist p) (pinnedlist p) (fednodes p) (fedlinks p)
  (fedconfigured p) (fedMsg p) (fedMsg_hidden p) (pane_alerts p ++ [v]) (pane_waiting p).
Definition set_pane_waiting v p := mkPanes (form p) (saved_hidden p) (settings_open p) (timers p)
  (fedbtn_shown p) (fed_open p) (allowlist p) (pinnedlist p) (fednodes p) (fedlinks p)
  (fedconfigured p) (fedMsg p) (fedMsg_hidden p) (pane_alerts p) v.

Definition empty_form : settingsView := mkSettingsView [] [] false false false false false.

Definition pane_fetch (r : request) (k : pane_cont) (p : Panes) : Panes :=
  set_pane_waiting (pane_waiting p ++ [(r, k)]) p.
Definition pane_post (url : gostring) (fields : list (gostring * jsval)) (k : pane_cont) : Panes → Panes :=
  pane_fetch (mkRequest_ true url (stringify fields)) k.
Definition pane_get (url : gostring) (k : pane_cont) : Panes → Panes :=
  pane_fetch (mkRequest_ false url []) k.

(** The script asks for the federation view once when it starts ([probeFed]). *)
Definition panes_at_start : Panes :=
  pane_get (bs "peers") AfterProbe
    (mkPanes empty_form true false 0 false false ([], []) [] [] [] [] [] true [] []).

Section panes.
Context `{!Browser}.
Context (now : Z).                        (* [Date.now()] *)
Implicit Types (p : Panes) (v : peersView).

(** *** Settings *)

Definition fillSettings (s : settingsView) p : Panes :=
  set_form (mkSettingsView (field_value (sv_Name s)) (field_value (sv_QTH s)) (sv_Echo s)
    (sv_Bells s) (sv_Colour s) (sv_ShowNames s) (sv_ShowTime s)) p.

Definition settings_payload (f : settingsView) : list (gostring * jsval) :=
  [(bs "name", JsString (trim (sv_Name f))); (bs "qth", JsString (trim (sv_QTH f)));
   (bs "echo", JsBool (sv_Echo f)); (bs "bells", JsBool (sv_Bells f));
   (bs "colour", JsBool (sv_Colour f)); (bs "shownames", JsBool (sv_ShowNames f));
   (bs "showtime", JsBool (sv_ShowTime f))].

Definition openSettings p : Panes :=
  pane_get (bs "settings") AfterSettings (set_pane true (settings_open p) (timers p) p).
Definition closeSettings p : Panes := set_pane (saved_hidden p) false (timers p) p.

(** *** The federation panel *)

(** [relTime]: seconds, minutes and hours, rounded to the nearest. *)
Definition relTime (ms : Z) : gostring :=
  if ms =? 0 then bs "—"
  else
    let s := Z.max 0 ((now - ms + 500) / 1000) in
    if s <? 60 then itoa s ++ bs "s ago"
    else if s <? 3600 then itoa ((s + 30) / 60) ++ bs "m ago"
    else itoa ((s + 1800) / 3600) ++ bs "h ago".

Definition allow_row (call : gostring) : gostring :=
  mk (bs "<span class='call'>") ++ esc call ++ bs "</span>".
Definition pinned_row (call : gostring) : gostring :=
  allow_row call ++ mk (bs "<span class='pin'>dialed — always allowed</span>").

Definition renderAllow v p : Panes :=
  set_allow
    (match pv_Allow v with
     | [] => (mk (bs "<div class='empty'>No inbound peers allowed — default-deny.</div>"), [])
     | l => ([], (λ call, (allow_row call, call)) <$> l)
     end)
    (pinned_row <$> pv_Pinned v) p.

(** A table: a heading and a row per element, or a note when there is none. *)
Definition cell (html : gostring) : gostring := bs "<td>" ++ html ++ bs "</td>".
Definition row (cells : list gostring) : gostring := bs "<tr>" ++ concat (cell <$> cells) ++ bs "</tr>".
Definition table {A} (note head : gostring) (cells : A → list gostring) (l : list A) : gostring :=
  match l with
  | [] => mk (bs "<div class='empty'>") ++ note ++ bs "</div>"
  | _ => bs "<table>" ++ head ++ concat (row ∘ cells <$> l) ++ bs "</table>"
  end.

Definition renderFedNodes v : gostring :=
  table (bs "No nodes linked.")
    (bs "<tr><th>Node</th><th>Alias</th><th>Version</th><th>Linked</th></tr>")
    (λ n, [esc (nv_Call n); esc (nv_Alias n); esc (nv_Version n); relTime (nv_LinkedSince n)])
    (pv_Nodes v).
Definition renderFedLinks v : gostring :=
  table (bs "No live links.")
    (bs "<tr><th>Peer</th><th>Dir</th><th>Last seen</th><th>RTT</th></tr>")
    (λ l, [esc (lv_Peer l); (if lv_Outbound l then bs "out" else bs "in"); relTime (lv_LastSeen l);
           (if lv_RTTms l =? 0 then bs "—" else itoa (lv_RTTms l) ++ bs "ms")])
    (pv_Links v).
Definition renderFedConfigured v : gostring :=
  table (bs "None configured.")
    (bs "<tr><th>Peer</th><th>Transport</th><th>Target</th></tr>")
    (λ c, [esc (cp_Call c); esc (cp_Transport c); esc (cp_Target c)])
    (pv_Configured v).

Definition renderFed v p : Panes :=
  set_tables (renderFedNodes v) (renderFedLinks v) (renderFedConfigured v) (renderAllow v p).

Definition openFed p : Panes := pane_get (bs "peers") AfterPeers (set_fedMsg (fedMsg p) true p).
Definition editAllow (action call : gostring) p : Panes :=
  pane_post (bs "peers/allow") [(bs "action", JsString action); (bs "callsign", JsString call)]
    (AfterEdit action call) p.

(** The end of [editAllow], once the panel is fresh. *)
Definition edited (action call : gostring) p : Panes :=
  set_fedMsg (if decide (action = bs "add") then bs "Allowed " ++ call else bs "Removed " ++ call)
    false p.

(** [loadFed]'s answer: [None] is an exception, [Some None] no view. *)
Definition loaded (r : reply) : option (option peersView) :=
  match r with
  | NetworkError => None
  | Reply status text =>
      if ok status then
        match parse text with
        | None => None
        | Some JsonText.JNull => Some None
        | Some x => Some (Some (read_peers x))
        end
      else Some None
  end.
Definition show_view (x : option peersView) p : Panes :=
  match x with Some v => renderFed v p | None => p end.

(** The settings an answer carries; [None] is an exception. *)
Definition settings_of (text : gostring) : option settingsView :=
  match parse text with
  | None | Some JsonText.JNull => None
  | Some x => Some (read_settings x)
  end.

(** [openSettings] from the answer on: the exceptions are caught, and the pane opens in
    any case. *)
Definition settings_opened (r : reply) p : Panes :=
  let p :=
    match r with
    | Reply status text =>
        if ok status then match settings_of text with Some s => fillSettings s p | None => p end
        else p
    | NetworkError => p
    end in
  set_pane (saved_hidden p) true (timers p) p.

(** The form's listener from the answer on. *)
Definition settings_saved (status : Z) (text : gostring) p : Panes :=
  if ok status then
    match settings_of text with
    | Some s => set_pane false (settings_open p) (S (timers p)) (fillSettings s p)
    | None => p
    end
  else if status =? 403 then
    pane_alert (bs "Your access is read-only — you cannot change settings.") p
  else pane_alert (bs "Could not save settings.") p.

Definition pane_resume (k : pane_cont) (r : reply) p : Panes :=
  match k, r with
  | AfterSettings, _ => settings_opened r p
  | AfterSave, Reply status text => settings_saved status text p
  | AfterProbe, Reply status _ => if ok status then set_fed true (fed_open p) p else p
  | AfterPeers, _ =>
      match loaded r with
      | Some x => let p := show_view x p in set_fed (fedbtn_shown p) true p
      | None => p
      end
  | AfterEdit action call, Reply status _ =>
      if ok status then pane_get (bs "peers") (AfterReload action call) p
      else if status =? 403 then
        pane_alert (bs "Admin scope is required to edit the allow-list.") p
      else pane_alert (bs "Could not apply the allow-list edit.") p
  | AfterReload action call, _ =>
      match loaded r with
      | Some x => edited action call (show_view x p)
      | None => p
      end
  | _, NetworkError => p
  end.

Inductive pane_input :=
| OpenSettings | CloseSettings | EditForm (f : settingsView) | SaveSettings
| Timer
| OpenFed | CloseFed | AddPeer (typed : gostring) | RemovePeer (call : gostring)
| PaneAnswer (n : nat) (r : reply).

Definition pane_step (i : pane_input) p : Panes :=
  match i with
  | OpenSettings => openSettings p
  | CloseSettings => closeSettings p
  | EditForm f => set_form f p
  | SaveSettings => pane_post (bs "settings") (settings_payload (form p)) AfterSave p
  | Timer =>
      match timers p with
      | S n => closeSettings (set_pane (saved_hidden p) (settings_open p) n p)
      | O => p
      end
  | OpenFed => openFed p
  | CloseFed => set_fed (fedbtn_shown p) false p
  | AddPeer typed =>
      let call := toUpperCase (trim typed) in
      if decide (call = []) then p else editAllow (bs "add") call p
  | RemovePeer call => editAllow (bs "remove") call p
  | PaneAnswer n r =>
      match pane_waiting p !! n with
      | Some (_, k) => pane_resume k r (set_pane_waiting (delete n (pane_waiting p)) p)
      | None => p
      end
  end.

End panes.

(** Inputs and the times at which they come. *)
Definition pane_run `{!Browser} (l : list (Z * pane_input)) (p : Panes) : Panes :=
  foldl (λ p ti, pane_step ti.1 ti.2 p) p l.
