(* ===== verification/PaneProps.v ===== *)
(** * What the page's panes show

    The federation panel's tables and lists are the view the server sent, text for text,
    and no text of it becomes markup. *)
From S2P Require Import Prelude Unicode GoStrings ChatModel ChatStore ChatHub PeerAllow PeerRouter.
From S2P Require Import Sqlite JsonText JsonFacts.
From S2P Require Import SqliteProps Web WebWire WireProps WebProps.
Import Webchat Wire.
From S2P Require Import Page PageMarkup PagePanels.
From stdpp Require Import options.
Local Open Scope Z_scope.

(** ** Texts in cells *)

(** Markup that the tokenizer reads as the text [s], wherever it stands. *)
Definition text_html (html s : gostring) : Prop :=
  ∀ acc rest, not_lf rest →
  tok (Data false) acc (html ++ rest) = tok (Data false) (acc ++ s) rest.

Lemma text_esc s : text_html (esc s) (shown s).
Proof. intros acc rest. apply tok_text. Qed.
Lemma text_literal b :
  forallb (λ c, negb (bz c =? 60) && negb (bz c =? 38) && negb (bz c =? 13) && negb (bz c =? 0)) b = true →
  text_html b b.
Proof.
  rewrite forallb_forall. intros Hb acc rest _.
  assert (∀ c, c ∈ b → bz c ≠ 60 ∧ bz c ≠ 38 ∧ bz c ≠ 13 ∧ bz c ≠ 0) as Hc.
  { intros c Hc%list_elem_of_In. specialize (Hb c Hc). bools. done. }
  rewrite tok_word.
  - f_equal. f_equal. apply shown_id, Forall_forall. intros c Hin. naive_solver.
  - apply Forall_forall. intros c Hin. naive_solver.
  - clear Hb. induction b as [|c b IH] using rev_ind; [done|]. rewrite ends_cr_app. cbn.
    apply Z.eqb_neq. apply (Hc c). set_solver.
Qed.
Lemma text_digits b : Forall (λ c, 45 ≤ bz c ≤ 58) b → text_html b b.
Proof. intros Hb acc rest _. by apply tok_digits. Qed.
Lemma text_app a b s t : not_lf b → text_html a s → text_html b t → text_html (a ++ b) (s ++ t).
Proof.
  intros Hl Ha Hb acc rest Hr. rewrite <- app_assoc, Ha, Hb, app_assoc; try done. by destruct b.
Qed.

Section panes.
Context `{!Browser}.
Context (now : Z).

Lemma text_relTime ms : text_html (relTime now ms) (relTime now ms).
Proof.
  unfold relTime. cbv zeta. case_match; [by apply text_literal|].
  repeat case_match; (apply text_app; [by cbn|apply text_digits, itoa_chars|by apply text_literal]).
Qed.

(** *** Tables *)

Definition start (name : gostring) : token := StartTag name [].
Definition cell_tokens (s : gostring) : list token := start (bs "td") :: flush s [EndTag (bs "td")].
Definition row_tokens (texts : list gostring) : list token :=
  start (bs "tr") :: concat (cell_tokens <$> texts) ++ [EndTag (bs "tr")].

(** A piece of markup that reads as whole tokens. *)
Definition piece (html : gostring) (l : list token) : Prop :=
  ∀ rest, tok (Data false) [] (html ++ rest) = (λ k, l ++ k) <$> tok (Data false) [] rest.

Lemma piece_nil : piece [] [].
Proof. intros rest. cbn [app]. by destruct (tok _ _ rest). Qed.
Lemma piece_app a b l k : piece a l → piece b k → piece (a ++ b) (l ++ k).
Proof.
  intros Ha Hb rest. rewrite <- app_assoc, Ha, Hb. destruct (tok _ _ rest); [|done].
  cbn [fmap option_fmap option_map]. by rewrite app_assoc.
Qed.
Lemma piece_concat {A} (f : A → gostring) (g : A → list token) l :
  (∀ x, x ∈ l → piece (f x) (g x)) → piece (concat (f <$> l)) (concat (g <$> l)).
Proof.
  induction l as [|x l IH]; intros Hp; [apply piece_nil|]. rewrite !fmap_cons. cbn [concat].
  apply piece_app; [apply Hp; set_solver|apply IH; set_solver].
Qed.
Lemma piece_tokens html l : piece html l → tokens html = Some l.
Proof.
  intros Hp. unfold tokens. rewrite <- (app_nil_r html), Hp, tok_end.
  cbn [fmap option_fmap option_map flush]. by rewrite app_nil_r.
Qed.
Ltac tag := intros rest; reflexivity.

Lemma cell_piece html s : text_html html s → piece (cell html) (cell_tokens s).
Proof.
  intros Hp rest. unfold cell. rewrite <- !app_assoc.
  change (tok (Data false) [] (bs "<td>" ++ html ++ bs "</td>" ++ rest))
    with ((λ l, start (bs "td") :: l) <$> tok (Data false) [] (html ++ bs "</td>" ++ rest)).
  rewrite Hp by done. cbn [app].
  change (tok (Data false) s (bs "</td>" ++ rest))
    with ((λ l, flush s (EndTag (bs "td") :: l)) <$> tok (Data false) [] rest).
  unfold cell_tokens. destruct (tok (Data false) [] rest); [|done].
  cbn [fmap option_fmap option_map app]. by rewrite flush_app.
Qed.

Lemma row_piece (cells texts : list gostring) :
  Forall2 text_html cells texts → piece (row cells) (row_tokens texts).
Proof.
  intros Hp. unfold row, row_tokens. apply (piece_app (bs "<tr>") _ [start (bs "tr")]); [tag|].
  apply piece_app; [|tag]. induction Hp as [|c t cells texts Hc Hp IH]; [apply piece_nil|].
  rewrite !fmap_cons. cbn [concat]. apply piece_app; [by apply cell_piece|done].
Qed.

Definition note_tokens (note : gostring) : list token :=
  [classed (bs "div") (bs "empty"); Chars note; EndTag (bs "div")].
Definition head_tokens (names : list gostring) : list token :=
  start (bs "tr") :: concat ((λ n, [start (bs "th"); Chars n; EndTag (bs "th")]) <$> names)
  ++ [EndTag (bs "tr")].
Definition table_tokens {A} (note : gostring) (names : list gostring) (texts : A → list gostring)
    (l : list A) : list token :=
  match l with
  | [] => note_tokens note
  | _ => start (bs "table") :: head_tokens names ++ concat (row_tokens ∘ texts <$> l)
         ++ [EndTag (bs "table")]
  end.

Definition head_html (names : list gostring) : gostring :=
  bs "<tr>" ++ concat ((λ n, bs "<th>" ++ n ++ bs "</th>") <$> names) ++ bs "</tr>".
Definition good_text (b : gostring) : Prop := b ≠ [] ∧ text_html b b.
Lemma head_piece names : Forall good_text names → piece (head_html names) (head_tokens names).
Proof.
  intros Hn. unfold head_html, head_tokens. apply (piece_app (bs "<tr>") _ [start (bs "tr")]); [tag|].
  apply piece_app; [|tag]. apply piece_concat. intros n Hin.
  destruct (proj1 (Forall_forall _ _) Hn n Hin) as [Hne Ht]. intros rest. rewrite <- !app_assoc.
  change (tok (Data false) [] (bs "<th>" ++ n ++ bs "</th>" ++ rest))
    with ((λ l, start (bs "th") :: l) <$> tok (Data false) [] (n ++ bs "</th>" ++ rest)).
  rewrite Ht by done. cbn [app].
  change (tok (Data false) n (bs "</th>" ++ rest))
    with ((λ l, flush n (EndTag (bs "th") :: l)) <$> tok (Data false) [] rest).
  destruct n; [done|]. by destruct (tok (Data false) [] rest).
Qed.

Lemma note_shown note :
  good_text note →
  tokens (mk (bs "<div class='empty'>") ++ note ++ bs "</div>") = Some (note_tokens note).
Proof.
  intros [Hnn Hn]. apply piece_tokens. intros rest. rewrite <- !app_assoc.
  change (tok (Data false) [] (mk (bs "<div class='empty'>") ++ note ++ bs "</div>" ++ rest))
    with ((λ l, classed (bs "div") (bs "empty") :: l) <$> tok (Data false) [] (note ++ bs "</div>" ++ rest)).
  rewrite Hn by done. cbn [app].
  change (tok (Data false) note (bs "</div>" ++ rest))
    with ((λ l, flush note (EndTag (bs "div") :: l)) <$> tok (Data false) [] rest).
  destruct note; [done|]. by destruct (tok (Data false) [] rest).
Qed.

Lemma table_piece {A} note head names (cells texts : A → list gostring) l :
  good_text note → head = head_html names → Forall good_text names →
  (∀ x, Forall2 text_html (cells x) (texts x)) →
  tokens (table note head cells l) = Some (table_tokens note names texts l).
Proof.
  intros Hn -> Hh%head_piece Hc. unfold table, table_tokens. destruct l as [|x l].
  - by apply note_shown.
  - apply piece_tokens, (piece_app (bs "<table>") _ [start (bs "table")]); [tag|]. apply piece_app; [done|].
    apply piece_app; [|tag]. apply piece_concat. intros y _. by apply row_piece.
Qed.

(** *** The panel *)

Definition nodes_tokens (v : peersView) : list token :=
  table_tokens (bs "No nodes linked.") [bs "Node"; bs "Alias"; bs "Version"; bs "Linked"]
    (λ n, [shown (nv_Call n); shown (nv_Alias n); shown (nv_Version n); relTime now (nv_LinkedSince n)])
    (pv_Nodes v).
Definition links_tokens (v : peersView) : list token :=
  table_tokens (bs "No live links.") [bs "Peer"; bs "Dir"; bs "Last seen"; bs "RTT"]
    (λ l, [shown (lv_Peer l); (if lv_Outbound l then bs "out" else bs "in"); relTime now (lv_LastSeen l);
           (if lv_RTTms l =? 0 then bs "—" else itoa (lv_RTTms l) ++ bs "ms")])
    (pv_Links v).
Definition configured_tokens (v : peersView) : list token :=
  table_tokens (bs "None configured.") [bs "Peer"; bs "Transport"; bs "Target"]
    (λ c, [shown (cp_Call c); shown (cp_Transport c); shown (cp_Target c)])
    (pv_Configured v).

Ltac good := repeat (apply Forall_cons; split); try apply Forall_nil; try done; by (split; [|apply text_literal]).
Ltac texts := repeat (apply Forall2_cons; split); try apply Forall2_nil; try done; try apply text_esc; try apply text_relTime.

Lemma nodes_shown v : tokens (renderFedNodes now v) = Some (nodes_tokens v).
Proof. apply table_piece; [good|reflexivity|good|]. intros n. texts. Qed.
Lemma links_shown v : tokens (renderFedLinks now v) = Some (links_tokens v).
Proof.
  apply table_piece; [good|reflexivity|good|]. intros l. texts.
  - destruct (lv_Outbound l); by apply text_literal.
  - destruct (lv_RTTms l =? 0); [by apply text_literal|].
    apply text_app; [by cbn|apply text_digits, itoa_chars|by apply text_literal].
Qed.
Lemma configured_shown v : tokens (renderFedConfigured v) = Some (configured_tokens v).
Proof. apply table_piece; [good|reflexivity|good|]. intros c. texts. Qed.

(** *** The lists *)

Definition call_tokens (call : gostring) : list token :=
  classed (bs "span") (bs "call") :: flush (shown call) [span_end].
Definition pinned_tokens (call : gostring) : list token :=
  call_tokens call ++ [classed (bs "span") (bs "pin"); Chars (bs "dialed — always allowed"); span_end].

Lemma call_piece call : piece (allow_row call) (call_tokens call).
Proof.
  intros rest. unfold allow_row. rewrite <- !app_assoc, tok_call, tok_text, tok_close by done.
  cbn [app]. unfold call_tokens. destruct (tok (Data false) [] rest); [|done].
  cbn [fmap option_fmap option_map app]. by rewrite flush_app.
Qed.
Lemma pinned_piece call : piece (pinned_row call) (pinned_tokens call).
Proof.
  apply piece_app; [apply call_piece|]. set (note := bs "dialed — always allowed").
  change (mk _) with (mk (bs "<span class='pin'>") ++ note ++ bs "</span>").
  apply (piece_app _ _ [classed (bs "span") (bs "pin")]); [tag|]. intros rest.
  assert (text_html note note) as Hn by by apply text_literal.
  rewrite <- app_assoc, Hn by done.
  rewrite tok_close. by destruct (tok (Data false) [] rest).
Qed.

Lemma empty_shown :
  tokens (mk (bs "<div class='empty'>No inbound peers allowed — default-deny.</div>"))
  = Some (note_tokens (bs "No inbound peers allowed — default-deny.")).
Proof. by vm_compute. Qed.

(** What the panel shows of a view: its lists and tables, and on each button of the
    editable list the callsign it removes. *)
Record panel_shows (v : peersView) (p : Panes) : Prop := {
  pn_nodes : tokens (fednodes p) = Some (nodes_tokens v);
  pn_links : tokens (fedlinks p) = Some (links_tokens v);
  pn_configured : tokens (fedconfigured p) = Some (configured_tokens v);
  pn_note : tokens (allowlist p).1
    = Some (if decide (pv_Allow v = []) then note_tokens (bs "No inbound peers allowed — default-deny.")
            else []);
  pn_allow : tokens ∘ fst <$> (allowlist p).2 = Some ∘ call_tokens <$> pv_Allow v;
  pn_buttons : snd <$> (allowlist p).2 = pv_Allow v;
  pn_pinned : tokens <$> pinnedlist p = Some ∘ pinned_tokens <$> pv_Pinned v }.

Lemma renderFed_shows v p : panel_shows v (renderFed now v p).
Proof.
  split.
  - apply nodes_shown.
  - apply links_shown.
  - apply configured_shown.
  - unfold renderFed, renderAllow. cbn [allowlist set_allow set_tables].
    destruct (pv_Allow v); [|reflexivity]. cbn [fst]. rewrite decide_True by done.
    apply empty_shown.
  - unfold renderFed, renderAllow. cbn [allowlist set_allow set_tables].
    destruct (pv_Allow v) as [|c l]; [done|]. cbn [snd]. rewrite <- list_fmap_compose.
    apply list_fmap_ext. intros i x _. apply piece_tokens, call_piece.
  - unfold renderFed, renderAllow. cbn [allowlist set_allow set_tables].
    destruct (pv_Allow v) as [|c l]; [done|]. cbn [snd]. rewrite <- list_fmap_compose.
    apply list_fmap_id.
  - unfold renderFed, renderAllow. cbn [pinnedlist set_allow set_tables].
    rewrite <- list_fmap_compose. apply list_fmap_ext. intros i x _. apply piece_tokens, pinned_piece.
Qed.
End panes.

(** ** Whatever happens *)

Section steps.
Context `{!Browser}.
Implicit Types (p : Panes).

Definition blank p : Prop :=
  fednodes p = [] ∧ fedlinks p = [] ∧ fedconfigured p = [] ∧ allowlist p = ([], []) ∧ pinnedlist p = [].
Definition panel_ok p : Prop := blank p ∨ ∃ now v, panel_shows now v p.

Definition same_panel p p' : Prop :=
  fednodes p' = fednodes p ∧ fedlinks p' = fedlinks p ∧ fedconfigured p' = fedconfigured p
  ∧ allowlist p' = allowlist p ∧ pinnedlist p' = pinnedlist p.
Lemma same_shows now v p p' : same_panel p p' → panel_shows now v p → panel_shows now v p'.
Proof. intros (E1 & E2 & E3 & E4 & E5) []. split; rewrite ?E1, ?E2, ?E3, ?E4, ?E5; done. Qed.
Lemma same_ok p p' : same_panel p p' → panel_ok p → panel_ok p'.
Proof.
  intros E [(H1 & H2 & H3 & H4 & H5)|(now & v & Hv)].
  - left. destruct E as (E1 & E2 & E3 & E4 & E5). unfold blank. by rewrite E1, E2, E3, E4, E5.
  - right. exists now, v. by eapply same_shows.
Qed.
Ltac same := match goal with Hp : panel_ok ?p |- panel_ok _ => apply (same_ok p); [by split_and!|exact Hp] end.

Lemma show_view_ok now x p : panel_ok p → panel_ok (show_view now x p).
Proof. intros Hp. destruct x as [v|]; [|done]. right. exists now, v. apply renderFed_shows. Qed.

Lemma pane_step_ok now i p : panel_ok p → panel_ok (pane_step now i p).
Proof.
  intros Hp. destruct i as [| |f| | | | |typed|call|n r]; cbn [pane_step]; try same.
  - destruct (timers p); [done|same].
  - case_decide; [done|same].
  - destruct (pane_waiting p !! n) as [[q k]|]; [|done].
    assert (panel_ok (set_pane_waiting (delete n (pane_waiting p)) p)) as Hw by same.
    generalize dependent (set_pane_waiting (delete n (pane_waiting p)) p). clear p Hp. intros p Hp.
    destruct k as [| | | |a c|a c]; cbn [pane_resume]; unfold settings_opened, settings_saved.
    + destruct r as [status text|]; [|same]. destruct (ok status); [|same].
      destruct (settings_of text); same.
    + destruct r as [status text|]; [|done]. destruct (ok status).
      * destruct (settings_of text); [same|done].
      * case_match; same.
    + destruct r as [status text|]; [|done]. destruct (ok status); [same|done].
    + destruct (loaded r) as [x|]; [|done]. apply (show_view_ok now x) in Hp. cbv zeta. same.
    + destruct r as [status text|]; [|done]. destruct (ok status); [same|]. case_match; same.
    + destruct (loaded r) as [x|]; [|done]. apply (show_view_ok now x) in Hp. same.
Qed.
Lemma pane_run_ok l : ∀ p, panel_ok p → panel_ok (pane_run l p).
Proof. induction l as [|[t i] l IH]; intros p Hp; [done|]. apply IH. by apply pane_step_ok. Qed.

(** The answer to a fresh look at the panel. *)
Lemma loaded_view v : peers_ok v → loaded (Reply 200 (writeJSON (peersView_json v))) = Some (Some (repair_peers v)).
Proof.
  intros Hv. unfold loaded, writeJSON. cbn [ok]. rewrite (parse_reads_line 3 _ _ (peers_reads v Hv)) by done.
  rewrite <- (read_peersView v Hv). reflexivity.
Qed.
End steps.

(** C25. The federation panel shows the node's federation.  Whatever was clicked, typed and
    answered before, the panel is blank or shows some view: tables and lists with the
    page's own tags, every callsign, alias, version and target of it as character data in
    its cell.  When the panel is opened by an administrator, the server's answer makes it
    show, and open on, the node's view at that moment: each linked node with its alias,
    version and age, each link with its direction, last sign of life and round-trip time,
    each configured peer, the allow-list with a button to remove each entry, and the
    pinned calls (bytes that are no UTF-8 apart). *)
Theorem panel_shows_federation `{!Browser} {St} `{!Store St, !ClaimStore St} (s : Server)
    (fed : Federation) (t : Time) (r : Request) (st : Site (St := St))
    (l : list (Z * pane_input)) (n : nat) (q : request) (now : Z) :
  let p := pane_run l panes_at_start in
  s_fed s = Some fed → isAdmin (IdentityFromRequest r) = true →
  rq_Method r = bs "GET" → rq_Path r = bs "/peers" → peers_ok (peers_view fed st) →
  pane_waiting p !! n = Some (q, AfterPeers) →
  panel_ok p
  ∧ ∃ text, json_body (mux s t r st).1 = Some text ∧ (mux s t r st).2 = st
    ∧ let p' := pane_step now (PaneAnswer n (Reply 200 text)) p in
      panel_shows now (repair_peers (peers_view fed st)) p' ∧ fed_open p' = true.
Proof.
  intros p Hf Ha Hm Hp Hok Hw. split; [by apply pane_run_ok; left|].
  assert (mux s t r st = (PeersJSON (peers_view fed st), st)) as ->.
  { unfold mux. rewrite Hp. cbv zeta. rewrite !decide_False by done. rewrite decide_True by done.
    unfold handlePeers. rewrite decide_True by done. unfold requireAdmin. by rewrite Ha, Hf. }
  eexists. split; [reflexivity|]. split; [done|]. cbv zeta. cbn [pane_step]. rewrite Hw.
  cbn [pane_resume]. rewrite loaded_view by done. cbn [show_view]. split; [|done].
  apply (same_shows now _
    (renderFed now (repair_peers (peers_view fed st)) (set_pane_waiting (delete n (pane_waiting p)) p)));
    [by split_and!|apply renderFed_shows].
Qed.

#[local] Existing Instance Durable.tables_engine.
Lemma panel_shows_federation_witness :
  let fed := mkFederation true true [mkConfiguredPeer (bs "GB7CCC") (bs "tcp") (bs "<b>ccc</b>:3333")] in
  let s := New (bs "GB7AAA-4") true (Some fed) in
  let r := mkRequest (bs "GET") (bs "/peers") ∅ ∅ ∅ BodyEmpty in
  let p := pane_run [(0, OpenFed)] panes_at_start in
  ∃ text, json_body (mux s (year2024 9) r sample_site).1 = Some text
    ∧ fed_open (pane_step 0 (PaneAnswer 1 (Reply 200 text)) p) = true.
Proof.
  intros fed s r p.
  destruct (panel_shows_federation s fed (year2024 9) r sample_site [(0, OpenFed)] 1
    (mkRequest_ false (bs "peers") []) 0) as (_ & text & H1 & _ & _ & H2).
  - reflexivity.
  - by vm_compute.
  - reflexivity.
  - reflexivity.
  - split; [apply Forall_nil; exact I|]. split; [apply Forall_nil; exact I|]. by vm_compute.
  - reflexivity.
  - exists text. split; [exact H1|exact H2].
Defined.
