(* ===== verification/PageCompose.v ===== *)
(** * From the composer to the hub

    What the page sends is what the server's handlers find: the requests of the script
    ([internal/web/index.go]) through the JSON and query decoding of the standard library
    to the handlers of [Web], for everything that can be typed. *)
From S2P Require Import Prelude Unicode GoStrings ChatModel ChatStore ChatHub PeerAllow PeerRouter.
From S2P Require Import Sqlite JsonText JsonFacts.
From S2P Require Import SqliteProps Web WebWire WireProps WebProps.
Import Webchat Wire.
From S2P Require Import Page PagePanels.
From stdpp Require Import options.
Local Open Scope Z_scope.

(** ** Requests as the server receives them *)

(** [url.QueryUnescape] *)
Fixpoint QueryUnescape (s : gostring) : option gostring :=
  match s with
  | [] => Some []
  | c :: t =>
      if bz c =? 37 then
        match t with
        | a :: b :: t' =>
            match hex_val a, hex_val b with
            | Some x, Some y => (λ u, zb (x * 16 + y) :: u) <$> QueryUnescape t'
            | _, _ => None
            end
        | _ => None
        end
      else (λ u, (if bz c =? 43 then zb 32 else c) :: u) <$> QueryUnescape t
  end.

(** [url.ParseQuery], its errors ignored; [Get] takes a key's first value. *)
Definition query_pair (s : gostring) : option (gostring * gostring) :=
  if decide (zb 59 ∈ s) then None
  else if decide (s = []) then None
  else
    let '(key, value, _) := Cut s (zb 61) in
    match QueryUnescape key, QueryUnescape value with
    | Some k, Some v => Some (k, v)
    | _, _ => None
    end.
Definition parse_query (s : gostring) : gmap gostring gostring :=
  list_to_map (omap query_pair (Split s (zb 38))).

(** A request of the page behind the gateway, whose stamps are [hdr]. *)
Definition received (fmt : gostring → gostring) (hdr : gmap gostring gostring) (q : request) : Request :=
  let '(path, query, _) := Cut (rq_url q) (zb 63) in
  mkRequest (if rq_post q then bs "POST" else bs "GET") (bs "/" ++ path)
    (if rq_post q then <[bs "Content-Type" := bs "application/json"]> hdr else hdr)
    (parse_query query) ∅ (body_of_text fmt (rq_text q)).

(** *** Query strings *)

Lemma hex_val_upper z : 0 ≤ z < 16 → hex_val (hex_upper z) = Some z.
Proof.
  intros Hz. assert (z ∈ seqZ 0 16) as Hin by (apply elem_of_seqZ; lia).
  cut (forallb (λ z, bool_decide (hex_val (hex_upper z) = Some z)) (seqZ 0 16) = true); [|by vm_compute].
  rewrite forallb_forall. intros H. by apply (bool_decide_eq_true_1 _), H, list_elem_of_In.
Qed.

Lemma uri_char c :
  uri_safe c = true → bz c ≠ 37 ∧ bz c ≠ 43 ∧ bz c ≠ 38 ∧ bz c ≠ 59 ∧ bz c ≠ 61 ∧ bz c ≠ 63.
Proof.
  intros H. rewrite <- (zb_bz c) in H. split_and!; intros E; rewrite E in H; by vm_compute in H.
Qed.

Lemma unescape_encoded s : QueryUnescape (encodeURIComponent s) = Some s.
Proof.
  unfold encodeURIComponent. induction s as [|c s IH]; [done|]. rewrite fmap_cons. cbn [concat].
  destruct (uri_safe c) eqn:E.
  - cbn [app QueryUnescape]. destruct (uri_char c E) as (H1 & H2 & _).
    rewrite (proj2 (Z.eqb_neq _ _) H1), (proj2 (Z.eqb_neq _ _) H2). by rewrite IH.
  - pose proof (bz_range c) as Hc. cbn [app QueryUnescape]. change (bz (zb 37) =? 37) with true. cbv iota.
    rewrite !hex_val_upper by first
      [pose proof (Z.mod_pos_bound (bz c) 16); lia
      |split; [apply Z.div_pos; lia|apply Z.div_lt_upper_bound; lia]].
    rewrite IH. cbn [fmap option_fmap option_map]. do 2 f_equal.
    rewrite <- (zb_bz c) at 3. f_equal. pose proof (Z.div_mod (bz c) 16). lia.
Qed.

(** Characters with a meaning in a query are escaped. *)
Lemma encoded_clean s x :
  x ∈ encodeURIComponent s → bz x ≠ 38 ∧ bz x ≠ 59 ∧ bz x ≠ 61 ∧ bz x ≠ 63.
Proof.
  unfold encodeURIComponent. induction s as [|c s IH]; [set_solver|]. rewrite fmap_cons. cbn [concat].
  intros [Hx|Hx]%elem_of_app; [|by apply IH]. destruct (uri_safe c) eqn:E.
  - apply list_elem_of_singleton in Hx as ->. destruct (uri_char c E) as (_ & _ & ?). tauto.
  - assert (∀ z, 0 ≤ z < 16 → 48 ≤ bz (hex_upper z) ≤ 57 ∨ 65 ≤ bz (hex_upper z) ≤ 70) as Hh.
    { intros z Hz. unfold hex_upper. destruct (Z.ltb_spec z 10); rewrite bz_zb_small; lia. }
    pose proof (bz_range c) as Hc. pose proof (Z.mod_pos_bound (bz c) 16 ltac:(lia)).
    assert (0 ≤ bz c / 16 < 16) by (split; [apply Z.div_pos; lia|apply Z.div_lt_upper_bound; lia]).
    pose proof (Hh (bz c / 16)). pose proof (Hh (bz c mod 16)).
    repeat (apply elem_of_cons in Hx as [->|Hx]); [..|set_solver]; [split_and!; by vm_compute|lia|lia].
Qed.

Lemma Split_none s c : c ∉ s → Split s c = [s].
Proof.
  induction s as [|b s IH]; intros Hc; [done|]. cbn [Split].
  destruct (Z.eqb_spec (bz b) (bz c)) as [E|_]; [apply bz_inj in E; set_solver|].
  rewrite IH by set_solver. done.
Qed.

Lemma query_of_encoded key s :
  Forall (λ c, uri_safe c = true) key → key ≠ [] →
  parse_query (key ++ zb 61 :: encodeURIComponent s) !! key = Some s.
Proof.
  intros Hk Hne. set (e := encodeURIComponent s).
  assert (∀ z, z = 38 ∨ z = 59 ∨ z = 61 → zb z ∉ key) as Hkey.
  { intros z Hz Hin. rewrite Forall_forall in Hk. apply Hk, uri_char in Hin.
    destruct Hz as [->|[->| ->]]; cbn in Hin; tauto. }
  assert (∀ z, z = 38 ∨ z = 59 ∨ z = 61 → zb z ∉ e) as He.
  { intros z Hz Hin. apply encoded_clean in Hin. destruct Hz as [->|[->| ->]]; cbn in Hin; tauto. }
  assert (QueryUnescape key = Some key) as Hu.
  { clear -Hk. induction Hk as [|c key Hc _ IH]; [done|]. cbn [QueryUnescape].
    destruct (uri_char c Hc) as (H1 & H2 & _).
    by rewrite (proj2 (Z.eqb_neq _ _) H1), (proj2 (Z.eqb_neq _ _) H2), IH. }
  unfold parse_query. rewrite Split_none.
  - cbn [omap list_omap]. unfold query_pair. rewrite !decide_False.
    + rewrite Cut_app by auto. rewrite Hu. unfold e. rewrite unescape_encoded. cbn. by rewrite lookup_insert_eq.
    + by destruct key.
    + intros [Hin|[Hin|Hin]%elem_of_cons]%elem_of_app; [by eapply Hkey; [|done]; auto|done|].
      by eapply He; [|done]; auto.
  - intros [Hin|[Hin|Hin]%elem_of_cons]%elem_of_app; [by eapply Hkey; [|done]; auto|done|].
    by eapply He; [|done]; auto.
Qed.

(** ** The composer's commands *)

(** White space between two words. *)
Definition gap (l : list seg) : Prop := l ≠ [] ∧ Forall (λ x, js_space x.1 = true) l.
(** The text after a command: it begins with no white space and is one line. *)
Definition argument (l : list seg) : Prop :=
  (∃ x l', l = x :: l' ∧ js_space x.1 = false) ∧ Forall (λ x, js_newline x.1 = false) l.
Definition letter_is (x : seg) (lower upper : Z) : Prop := x.1 = lower ∨ x.1 = upper.

(** [/T topic] *)
Definition topic_command (text t : gostring) : Prop :=
  ∃ slash c ws arg, segs text = slash :: c :: ws ++ arg
  ∧ slash.1 = 47 ∧ letter_is c 116 84 ∧ gap ws ∧ argument arg ∧ t = unsegs arg.
(** [/S CALL text] *)
Definition private_command (text call t : gostring) : Prop :=
  ∃ slash c ws cs ws' arg, segs text = slash :: c :: ws ++ cs ++ ws' ++ arg
  ∧ slash.1 = 47 ∧ letter_is c 115 83 ∧ gap ws
  ∧ cs ≠ [] ∧ Forall (λ x, js_space x.1 = false) cs ∧ gap ws'
  ∧ argument arg ∧ call = unsegs cs ∧ t = unsegs arg.

Lemma span_segs_spec p l a b :
  span_segs p l = (a, b)
  ↔ l = a ++ b ∧ Forall (λ x : seg, p x.1 = true) a
    ∧ match b with x :: _ => p x.1 = false | [] => True end.
Proof.
  revert a b. induction l as [|x l IH]; intros a b; cbn [span_segs].
  - split; [intros [= <- <-]; done|]. intros (E & _). symmetry in E. by apply app_nil in E as [-> ->].
  - destruct (p x.1) eqn:E.
    + destruct (span_segs p l) as [a' b'] eqn:Es. destruct (proj1 (IH a' b') eq_refl) as (El & H1 & H2). split.
      * intros [= <- <-]. split_and!; [by rewrite El|by apply Forall_cons|done].
      * intros (E1 & H3 & H4). destruct a as [|y a]; cbn in E1.
        { subst b. by rewrite E in H4. }
        injection E1 as -> E1. apply Forall_cons in H3 as [_ H3].
        assert ((a', b') = (a, b)) as [= -> ->] by by apply IH. done.
    + split; [intros [= <- <-]; split_and!; done|]. intros (E1 & H3 & _).
      destruct a as [|y a]; [cbn in E1; by subst|]. injection E1 as -> _. apply Forall_cons in H3 as [H3 _]. congruence.
Qed.

Lemma rest_of_line_spec l t :
  (∀ x l', l = x :: l' → js_space x.1 = false) →
  rest_of_line l = Some t ↔ argument l ∧ t = unsegs l.
Proof.
  intros Hs. destruct l as [|x l]; [split; [done|by intros [[(? & ? & ? & _) _] _]]|].
  unfold rest_of_line, argument.
  assert (existsb (λ y : seg, js_newline y.1) (x :: l) = false
          ↔ Forall (λ y : seg, js_newline y.1 = false) (x :: l)) as He.
  { generalize (x :: l). induction l0 as [|y k IH]; cbn [existsb]; [done|].
    rewrite orb_false_iff, Forall_cons. by rewrite IH. }
  destruct (existsb _ _) eqn:E.
  - split; [done|]. intros [[_ H] _]. by apply He in H.
  - split; [|by intros [_ ->]]. intros [= <-]. split; [|done]. split; [|by apply He].
    exists x, l. split; [done|by eapply Hs].
Qed.

Lemma after_command_spec lower upper text rest :
  after_command lower upper text = Some rest
  ↔ ∃ slash c ws, segs text = slash :: c :: ws ++ rest
    ∧ slash.1 = 47 ∧ letter_is c lower upper ∧ gap ws
    ∧ (∀ x l, rest = x :: l → js_space x.1 = false).
Proof.
  unfold after_command, letter_is, gap. destruct (segs text) as [|x [|y l]] eqn:Es.
  1,2: split; [done|]; by intros (? & ? & ? & ? & _).
  destruct (Z.eqb_spec x.1 47) as [E1|E1]; cbn [andb];
    [|split; [done|]; intros (? & ? & ? & [= <- _ _] & ? & _); by destruct E1].
  destruct ((y.1 =? lower) || (y.1 =? upper)) eqn:E2.
  - assert (y.1 = lower ∨ y.1 = upper) as Hy by (apply orb_true_iff in E2 as [?%Z.eqb_eq|?%Z.eqb_eq]; tauto).
    destruct (span_segs js_space l) as [a b] eqn:Ep. pose proof Ep as (-> & H1 & H2)%span_segs_spec.
    split.
    + destruct a as [|z a]; [done|]. intros [= <-]. exists x, y, (z :: a). split_and!; try done.
      by intros x' l' ->.
    + intros (s & c & ws & [= <- <- E] & _ & _ & [Hne Hw] & Hr).
      assert (span_segs js_space (a ++ b) = (ws, rest)) as E'.
      { apply span_segs_spec. split_and!; try done. destruct rest; [done|by eapply Hr]. }
      rewrite Ep in E'. injection E' as -> ->. by destruct ws.
  - split; [done|]. intros (s & c & ws & [= <- <- _] & _ & Hc & _).
    apply orb_false_iff in E2 as [?%Z.eqb_neq ?%Z.eqb_neq]. tauto.
Qed.

Lemma argument_head arg : argument arg → ∀ x l, arg = x :: l → js_space x.1 = false.
Proof. intros [(x & l & -> & Hx) _] y k [= <- <-]. done. Qed.

Lemma match_topic_spec text t : match_topic text = Some t ↔ topic_command text t.
Proof.
  unfold match_topic, topic_command. split.
  - destruct (after_command 116 84 text) as [l|] eqn:Ea; [|done].
    apply after_command_spec in Ea as (s & c & ws & E & H1 & H2 & H3 & H4).
    intros [Ha ->]%rest_of_line_spec; [|done]. by exists s, c, ws, l.
  - intros (s & c & ws & arg & E & H1 & H2 & H3 & Ha & ->).
    rewrite (proj2 (after_command_spec 116 84 text arg)).
    + apply rest_of_line_spec; [|done]. by apply argument_head.
    + exists s, c, ws. split_and!; try done. by apply argument_head.
Qed.

Lemma match_private_spec text call t : match_private text = Some (call, t) ↔ private_command text call t.
Proof.
  unfold match_private, private_command. split.
  - destruct (after_command 115 83 text) as [l|] eqn:Ea; [|done].
    apply after_command_spec in Ea as (s & c & ws & E & H1 & H2 & H3 & _).
    destruct (span_segs (negb ∘ js_space) l) as [cs l'] eqn:Es.
    apply span_segs_spec in Es as (-> & Hc & _). destruct cs as [|y cs]; [done|].
    destruct (span_segs js_space l') as [ws' arg] eqn:Es'.
    apply span_segs_spec in Es' as (-> & Hw & Harg). destruct ws' as [|z ws']; [done|].
    destruct (rest_of_line arg) as [t'|] eqn:Er; [|done]. intros [= <- <-].
    apply rest_of_line_spec in Er as [Ha ->]; [|by intros ? ? ->].
    exists s, c, ws, (y :: cs), (z :: ws'), arg. split_and!; try done.
    eapply Forall_impl; [exact Hc|]. intros u Hu. by apply negb_true_iff in Hu.
  - intros (s & c & ws & cs & ws' & arg & E & H1 & H2 & H3 & Hne & Hc & [Hne' Hw] & Ha & -> & ->).
    rewrite (proj2 (after_command_spec 115 83 text (cs ++ ws' ++ arg))).
    + rewrite (proj2 (span_segs_spec (negb ∘ js_space) _ cs (ws' ++ arg))).
      * rewrite (proj2 (span_segs_spec js_space _ ws' arg)).
        { destruct cs; [done|]. destruct ws'; [done|].
          by rewrite (proj2 (rest_of_line_spec arg (unsegs arg) (argument_head arg Ha))). }
        split_and!; try done. destruct arg; [done|by eapply argument_head].
      * split_and!; [done| |].
        { eapply Forall_impl; [exact Hc|]. intros u Hu. cbn. by rewrite Hu. }
        destruct ws' as [|w ws']; [done|]. apply Forall_cons in Hw as [Hw _]. cbn. by rewrite Hw.
    + exists s, c, ws. split_and!; try done. intros x l El. destruct cs as [|y cs]; [done|].
      injection El as <- _. by apply Forall_cons in Hc as [Hc _].
Qed.

(** ** What a text means *)

Inductive intent :=
| Silent
| GoTo (name : gostring)
| Tell (call text : gostring)
| Say (text : gostring).

Section compose.
Context `{!Browser}.
Implicit Types (p : Page).

(** The channel already in view. *)
Definition here (name : gostring) p : Prop :=
  dmWith p = None ∧ toLowerCase name = toLowerCase (topic p).
Definition no_command (text : gostring) : Prop :=
  (∀ t, ¬ topic_command text t) ∧ (∀ c t, ¬ private_command text c t).

Inductive means p (typed : gostring) : intent → Prop :=
| means_blank : trim typed = [] → means p typed Silent
| means_here t : topic_command (trim typed) t → here (trim t) p → means p typed Silent
| means_topic t : topic_command (trim typed) t → ¬ here (trim t) p → means p typed (GoTo (trim t))
| means_private c t :
    private_command (trim typed) c t → means p typed (Tell (toUpperCase c) (trim t))
| means_thread k :
    trim typed ≠ [] → no_command (trim typed) → dmWith p = Some k → means p typed (Tell k (trim typed))
| means_say :
    trim typed ≠ [] → no_command (trim typed) → dmWith p = None → means p typed (Say (trim typed)).

Lemma not_both text t c t' : topic_command text t → private_command text c t' → False.
Proof.
  intros (s & l & ws & arg & E & _ & Hl & _) (s' & l' & ws' & cs & w & a & E' & _ & Hl' & _).
  rewrite E in E'. injection E' as _ <- _. destruct Hl, Hl'; congruence.
Qed.
Lemma command_text text : segs text ≠ [] → text ≠ [].
Proof. by intros Hs ->. Qed.

(** The commands as the composer tries them. *)
Lemma no_command_spec text :
  no_command text ↔ match_topic text = None ∧ match_private text = None.
Proof.
  split.
  - intros [H1 H2]. split.
    + destruct (match_topic text) as [t|] eqn:E; [|done]. apply match_topic_spec in E. by destruct (H1 t).
    + destruct (match_private text) as [[c t]|] eqn:E; [|done]. apply match_private_spec in E.
      by destruct (H2 c t).
  - intros [H1 H2]. split.
    + intros t Ht%match_topic_spec. congruence.
    + intros c t Ht%match_private_spec. congruence.
Qed.

Lemma here_spec name p :
  bool_decide (dmWith p = None) && bool_decide (toLowerCase name = toLowerCase (topic p)) = true
  ↔ here name p.
Proof. unfold here. by rewrite andb_true_iff, !bool_decide_eq_true. Qed.

Lemma means_total p typed : ∃ i, means p typed i.
Proof.
  destruct (decide (trim typed = [])) as [|Hne]; [by exists Silent; constructor|].
  destruct (match_topic (trim typed)) as [t|] eqn:Et.
  - apply match_topic_spec in Et. destruct (bool_decide (dmWith p = None)
      && bool_decide (toLowerCase (trim t) = toLowerCase (topic p))) eqn:E.
    + exists Silent. eapply means_here; [exact Et|by apply here_spec].
    + exists (GoTo (trim t)). apply means_topic; [exact Et|]. rewrite <- here_spec. congruence.
  - destruct (match_private (trim typed)) as [[c t]|] eqn:Ep.
    + exists (Tell (toUpperCase c) (trim t)). by apply means_private, match_private_spec.
    + assert (no_command (trim typed)) as Hn by by apply no_command_spec.
      destruct (dmWith p) as [k|] eqn:Ed; [exists (Tell k (trim typed)); by apply means_thread|].
      exists (Say (trim typed)). by apply means_say.
Qed.

(** The request an intent makes, and what is left to do when it is answered. *)
Definition intent_request (i : intent) : option (gostring * list (gostring * jsval) * cont) :=
  match i with
  | Silent => None
  | GoTo t => Some (bs "topic", [(bs "topic", JsString t)], AfterTopic t)
  | Tell k t => Some (bs "dm", [(bs "to", JsString k); (bs "text", JsString t)], AfterSendDM k)
  | Say t => Some (bs "send", [(bs "text", JsString t)], AfterSend)
  end.

Lemma openDM_waiting call p : waiting (openDM call p) = waiting p.
Proof.
  unfold openDM, dmThread. cbv zeta.
  assert (∀ (ms : list dm) q, waiting (foldl (λ p m, add_dm m p) q ms) = waiting q) as Hw.
  { clear. intros ms. induction ms as [|m ms IH]; intros q; [done|]. cbn [foldl]. by rewrite IH. }
  destruct (dm_get (toUpperCase call) (dms p)); page_simpl; by rewrite Hw.
Qed.

Lemma submit_requests p typed i :
  means p typed i →
  match intent_request i with
  | None => step (Submit typed) p = p
  | Some (url, body, k) =>
      waiting (step (Submit typed) p) = waiting p ++ [(mkRequest_ true url (stringify body), k)]
  end.
Proof.
  intros Hm. cbn [step]. unfold on_submit. cbv zeta.
  destruct Hm as [E|t Ht Hh|t Ht Hh|c t Ht|k Hne Hn Hd|Hne Hn Hd]; cbn [intent_request].
  - by rewrite decide_True.
  - rewrite decide_False by (destruct Ht as (? & ? & ? & ? & E & _); apply command_text; by rewrite E).
    apply match_topic_spec in Ht as ->. unfold switchTopic. by apply here_spec in Hh as ->.
  - rewrite decide_False by (destruct Ht as (? & ? & ? & ? & E & _); apply command_text; by rewrite E).
    apply match_topic_spec in Ht as ->. unfold switchTopic.
    rewrite <- here_spec in Hh. apply not_true_is_false in Hh. rewrite Hh.
    unfold leaveDM. destruct (decide (dmWith p = None)); reflexivity.
  - rewrite decide_False
      by (destruct Ht as (? & ? & ? & ? & ? & ? & E & _); apply command_text; by rewrite E).
    destruct (match_topic (trim typed)) as [t'|] eqn:Et.
    { apply match_topic_spec in Et. by destruct (not_both _ _ _ _ Et Ht). }
    apply match_private_spec in Ht as ->. page_simpl. by rewrite openDM_waiting.
  - apply no_command_spec in Hn as [-> ->]. rewrite decide_False by done. by rewrite Hd.
  - apply no_command_spec in Hn as [-> ->]. rewrite decide_False by done. by rewrite Hd.
Qed.
End compose.

(** ** What the server does *)

Section server.
Context {St : Type} `{!Store St, !ClaimStore St} (s : Server).
Context (fmt : gostring → gostring) (hdr : gmap gostring gostring) (now : Time).
Implicit Types (i : intent) (st : Site (St := St)).

(** A viewer as the gateway stamps their requests. *)
Definition who : Request := mkRequest [] [] hdr ∅ ∅ BodyEmpty.

Lemma who_identity q : IdentityFromRequest (received fmt hdr q) = IdentityFromRequest who.
Proof.
  unfold received, IdentityFromRequest, Get. destruct (Cut (rq_url q) (zb 63)) as [[path query] found].
  cbn. destruct (rq_post q); [|done]. by rewrite !lookup_insert_ne by done.
Qed.
Lemma who_write q (k : ST (Site (St := St)) response) st :
  requireWrite (received fmt hdr q) k st = requireWrite who k st.
Proof. unfold requireWrite. by rewrite who_identity. Qed.
Lemma who_viewer q (k : gostring → ST (Site (St := St)) response) st :
  requireViewer s (received fmt hdr q) k st = requireViewer s who k st.
Proof. unfold requireViewer, resolveViewer. by rewrite who_identity. Qed.

(** The hub operation of an intent, for a viewer who may write: their topic, a message
    to one user, or a message to the topic they are in. *)
Definition carry_out i (call : gostring) : ST (Site (St := St)) response :=
  match i with
  | Silent => mret NoContent
  | GoTo t =>
      our ← st_get ourNode;
      let name := TrimSpace (repair t) in
      if decide (name = []) then mret (HttpError 400 (bs "empty topic"))
      else (res ← on_hub (Hub.SetTopic (mkUserKey call our) name); mret (no_content res))
  | Tell to t =>
      let to := ToUpper (TrimSpace (repair to)) in
      let text := TrimSpace (repair t) in
      if decide (to = [] ∨ text = []) then mret (HttpError 400 (bs "to and text are required"))
      else with_presence call (λ key, res ← on_hub (Hub.Private key to text); mret (no_content res))
  | Say t =>
      let text := TrimSpace (repair t) in
      if decide (text = []) then mret (HttpError 400 (bs "empty"))
      else with_presence call (λ key, res ← on_hub (Hub.Post key text); mret (no_content res))
  end.

Lemma received_post url fields :
  zb 63 ∉ url →
  received fmt hdr (mkRequest_ true url (stringify fields))
  = mkRequest (bs "POST") (bs "/" ++ url) (<[bs "Content-Type" := bs "application/json"]> hdr) ∅ ∅
      (body_of_text fmt (stringify fields)).
Proof. intros Hu. unfold received. cbn [rq_url rq_post rq_text]. by rewrite Cut_none. Qed.

Lemma read_sent url field v :
  zb 63 ∉ url → utf8 field →
  readField (received fmt hdr (mkRequest_ true url (stringify [(field, JsString v)]))) field = repair v.
Proof.
  intros Hu Hf. rewrite received_post by done. unfold readField, Get. cbn [rq_Header rq_Body].
  rewrite lookup_insert_eq. cbn [default from_option]. rewrite stringify_found by (by repeat constructor).
  cbn [fmap list_fmap typed_value fst snd]. unfold json_lookup. cbn [List.filter fst]. by rewrite bool_decide_true.
Qed.

Lemma post_path url fields : zb 63 ∉ url →
  rq_Path (received fmt hdr (mkRequest_ true url (stringify fields))) = bs "/" ++ url.
Proof. intros Hu. by rewrite received_post. Qed.
Lemma post_method url fields : zb 63 ∉ url →
  rq_Method (received fmt hdr (mkRequest_ true url (stringify fields))) = bs "POST".
Proof. intros Hu. by rewrite received_post. Qed.
Lemma post_body url fields : zb 63 ∉ url →
  rq_Body (received fmt hdr (mkRequest_ true url (stringify fields))) = body_of_text fmt (stringify fields).
Proof. intros Hu. by rewrite received_post. Qed.

(** A literal without a question mark. *)
Ltac literal_url := apply (bool_decide_unpack (zb 63 ∉ _)); vm_compute; exact I.
(** The handler in front of which a post ends up. *)
Ltac routed :=
  unfold mux; rewrite post_path by literal_url; cbv zeta;
  repeat (rewrite decide_False by done); rewrite decide_True by done.
Ltac posted :=
  unfold requirePost; rewrite post_method by literal_url; rewrite decide_True by done.

Lemma requireWrite_ext r (k k' : ST (Site (St := St)) response) st :
  k st = k' st → requireWrite r k st = requireWrite r k' st.
Proof. intros E. unfold requireWrite. by destruct (canWrite _). Qed.
Lemma requireViewer_ext r (k k' : gostring → ST (Site (St := St)) response) st :
  (∀ call, k call st = k' call st) → requireViewer s r k st = requireViewer s r k' st.
Proof.
  intros E. unfold requireViewer. st_simpl. destruct (resolveViewer s r st); [apply E|done].
Qed.

Lemma intent_served i url body k st :
  intent_request i = Some (url, body, k) →
  mux s now (received fmt hdr (mkRequest_ true url (stringify body))) st
  = requireWrite who (requireViewer s who (carry_out i)) st.
Proof.
  intros Hi. destruct i as [|t|to t|t]; [done|injection Hi as <- <- _..].
  - routed. unfold handleTopic. posted. rewrite who_write. apply requireWrite_ext.
    rewrite who_viewer. apply requireViewer_ext. intros call. cbn [carry_out].
    by rewrite read_sent by (literal_url || by vm_compute).
  - routed. unfold Webchat.handleDM. posted. rewrite who_write. apply requireWrite_ext.
    rewrite who_viewer. apply requireViewer_ext. intros call. rewrite post_body by literal_url.
    rewrite stringify_found by (repeat constructor; by vm_compute). reflexivity.
  - routed. unfold handleSend. posted. rewrite who_write. apply requireWrite_ext.
    rewrite who_viewer. apply requireViewer_ext. intros call. cbn [carry_out].
    by rewrite read_sent by (literal_url || by vm_compute).
Qed.
(** *** The panes' posts *)

(** Saving a form of settings: the name and location without surrounding white space, the
    five flags, and the settings now in force for an answer. *)
Definition save_form (f : settingsView) (key : UserKey) : ST (Site (St := St)) response :=
  res ← on_hub (Hub.SetInfo key (repair (trim (sv_Name f))) (repair (trim (sv_QTH f))));
  match res with
  | inr e => mret (HttpError 400 (err_text e))
  | inl _ =>
      res ← on_hub (Hub.SetFlags key
        (mkUserFlags (sv_Echo f) (sv_Bells f) (sv_Colour f) (sv_ShowNames f) (sv_ShowTime f)));
      match res with
      | inr e => mret (HttpError 400 (err_text e))
      | inl _ => st_get (current_settings key)
      end
  end.

Definition utf8_keys (l : list (gostring * jsval)) : bool :=
  forallb (λ kv : gostring * jsval, bool_decide (utf8 kv.1)) l.
Lemma utf8_keys_ok l : utf8_keys l = true → Forall (λ kv : gostring * jsval, utf8 kv.1) l.
Proof.
  unfold utf8_keys. rewrite forallb_forall, Forall_forall. intros Hl kv Hin%list_elem_of_In.
  by apply (bool_decide_eq_true_1 _), Hl.
Qed.

Lemma settings_served f st :
  mux s now (received fmt hdr (mkRequest_ true (bs "settings") (stringify (settings_payload f)))) st
  = requireWrite who (requireViewer s who (λ call, with_presence call (save_form f))) st.
Proof.
  routed. unfold handleSettings. rewrite post_method by literal_url.
  rewrite decide_False by done. rewrite decide_True by done.
  rewrite who_write. apply requireWrite_ext. rewrite who_viewer. apply requireViewer_ext. intros call.
  assert (∀ key st', set_settings (received fmt hdr (mkRequest_ true (bs "settings")
    (stringify (settings_payload f)))) key st' = save_form f key st') as Hs.
  { intros key st'. unfold set_settings. rewrite post_body by literal_url.
    rewrite stringify_found by (by apply utf8_keys_ok). reflexivity. }
  unfold with_presence. st_simpl. destruct (Hub.UserOf _ _); [apply Hs|].
  destruct (enter call st) as [key st'] eqn:E. cbn [fst snd]. by rewrite Hs.
Qed.

(** The edit a button or the form of the federation panel asks for. *)
Definition carry_edit (action call : gostring) : ST (Site (St := St)) response :=
  allow ← st_get st_allow;
  match s_fed s, allow with
  | Some fed, Some _ =>
      let call := ToUpper (TrimSpace (repair call)) in
      if decide (call = []) then mret (HttpError 400 (bs "callsign is required"))
      else edit_allow fed (if decide (action = bs "add") then Add call else Remove call)
  | _, _ => mret unavailable
  end.

Lemma edit_served action call st :
  action = bs "add" ∨ action = bs "remove" →
  mux s now (received fmt hdr (mkRequest_ true (bs "peers/allow")
    (stringify [(bs "action", JsString action); (bs "callsign", JsString call)]))) st
  = requireAdmin who (carry_edit action call) st.
Proof.
  intros Ha. routed. unfold handlePeersAllow. posted. unfold requireAdmin. rewrite who_identity.
  destruct (isAdmin _); [|done]. unfold carry_edit. st_simpl.
  destruct (s_fed s) as [fed|]; [|done]. destruct (st_allow st); [|done].
  rewrite post_body by literal_url. rewrite stringify_found by (by apply utf8_keys_ok).
  assert (∀ x : gostring, default [] (Some x) = x) as Hd by done.
  change (decodeJSON allow_schema _) with (Some (mkDecoded
    (<[bs "callsign" := repair call]> (<[bs "action" := repair action]> ∅)) ∅ false)).
  cbv zeta iota. unfold str_field. cbn [d_strings].
  rewrite lookup_insert_eq, lookup_insert_ne, lookup_insert_eq, !Hd by done.
  destruct (decide (ToUpper (TrimSpace (repair call)) = [])); [done|].
  destruct Ha as [-> | ->].
  - by rewrite decide_True by by vm_compute.
  - rewrite decide_False by by vm_compute. by rewrite decide_True by by vm_compute.
Qed.

(** *** The page's questions *)

Lemma received_query url topic :
  zb 63 ∉ url →
  let r := received fmt hdr (mkRequest_ false (url ++ bs "?topic=" ++ encodeURIComponent topic) []) in
  rq_Path r = bs "/" ++ url ∧ rq_Query r !! bs "topic" = Some topic.
Proof.
  intros Hu. unfold received. cbn [rq_url rq_post rq_text].
  change (bs "?topic=" ++ encodeURIComponent topic)
    with (zb 63 :: bs "topic" ++ zb 61 :: encodeURIComponent topic).
  rewrite Cut_app by done. split; [done|]. cbn [rq_Query]. apply query_of_encoded; [|done].
  repeat constructor.
Qed.

Definition asked (topic : gostring) : gostring := if decide (topic = []) then DefaultTopic else topic.

Lemma topic_asked r topic : rq_Query r !! bs "topic" = Some topic → topic_query r = asked topic.
Proof. intros E. unfold topic_query, Get. by rewrite E. Qed.

Lemma users_served topic st :
  mux s now (received fmt hdr (mkRequest_ false (bs "users?topic=" ++ encodeURIComponent topic) [])) st
  = (UsersJSON (usersFor st (asked topic)), st).
Proof.
  destruct (received_query (bs "users") topic) as [Hp Hq]; [literal_url|].
  change (bs "users" ++ bs "?topic=" ++ ?x) with (bs "users?topic=" ++ x) in *.
  unfold mux. rewrite Hp. cbv zeta. repeat (rewrite decide_False by done). rewrite decide_True by done.
  unfold handleUsers. by rewrite (topic_asked _ topic Hq).
Qed.
Lemma history_served topic st :
  mux s now (received fmt hdr (mkRequest_ false (bs "history?topic=" ++ encodeURIComponent topic) [])) st
  = (EventsJSON (topicEvent <$> historyFor st (asked topic)), st).
Proof.
  destruct (received_query (bs "history") topic) as [Hp Hq]; [literal_url|].
  change (bs "history" ++ bs "?topic=" ++ ?x) with (bs "history?topic=" ++ x) in *.
  unfold mux. rewrite Hp. cbv zeta. repeat (rewrite decide_False by done). rewrite decide_True by done.
  unfold handleHistory. by rewrite (topic_asked _ topic Hq).
Qed.
End server.


(** The panes' requests do what they show.  Saving the settings form sets the viewer's
    name and location to the form's, without surrounding white space, and the five flags
    to its check boxes, and answers with the settings now in force, which the page then
    puts into the form, line breaks apart; the federation panel's form and buttons add and
    remove the very callsign they name, in capitals, for an administrator; and the user
    list and history a topic switch asks for are those of the topic the page is in,
    whatever characters its name has. *)
Theorem panes_are_heard `{!Browser} {St} `{!Store St, !ClaimStore St} (s : Server)
    (fmt : gostring → gostring) (hdr : gmap gostring gostring) (now : Time)
    (p : Panes) (pg : Page) (st : Site (St := St)) :
  (∃ q, pane_waiting (pane_step now SaveSettings p) = pane_waiting p ++ [(q, AfterSave)]
     ∧ mux s now (received fmt hdr q) st
       = requireWrite (who hdr) (requireViewer s (who hdr)
           (λ call, with_presence call (save_form (form p)))) st)
  ∧ (∀ v, settings_of (writeJSON (settings_json v)) = Some (repair_settings v))
  ∧ (∀ action call, action = bs "add" ∨ action = bs "remove" →
     ∃ q, pane_waiting (editAllow action call p) = pane_waiting p ++ [(q, AfterEdit action call)]
     ∧ mux s now (received fmt hdr q) st = requireAdmin (who hdr) (carry_edit s action call) st)
  ∧ (∃ q, waiting (refreshUsers pg) = waiting pg ++ [(q, AfterUsers)]
     ∧ mux s now (received fmt hdr q) st = (UsersJSON (usersFor st (asked (topic pg))), st))
  ∧ (∃ q, waiting (loadHistory pg) = waiting pg ++ [(q, AfterHistory)]
     ∧ mux s now (received fmt hdr q) st
       = (EventsJSON (topicEvent <$> historyFor st (asked (topic pg))), st)).
Proof.
  split_and!.
  - eexists. split; [reflexivity|apply settings_served].
  - intros v. unfold settings_of, writeJSON.
    rewrite (parse_reads_line 1 _ _ (settings_reads v)) by done. by rewrite <- read_settingsView.
  - intros action call Ha. eexists. split; [reflexivity|by apply edit_served].
  - eexists. split; [reflexivity|apply users_served].
  - eexists. split; [reflexivity|apply history_served].
Qed.

#[local] Existing Instance Durable.tables_engine.
(** An owner's page and node: a command with a blank topic name is none, a text in markup
    and quotes is logged as it was typed. *)
Example composer_sample :
  match_topic (trim (bs "/t  ")) = None
  ∧ match_topic (trim (bs "/T  DX & more ")) = Some (bs "DX & more")
  ∧ match_private (bs "/s m0abc a 'b' <c>") = Some (bs "m0abc", bs "a 'b' <c>")
  ∧ let q := mkRequest_ true (bs "send") (stringify [(bs "text", JsString (mk (bs "<a href='x'>")))]) in
    let st' := (mux sample_server (year2024 9) (received id ∅ q) sample_site).2 in
    m_Text <$> historyFor st' (bs "General") = [mk (bs "<a href='x'>")].
Proof. vm_compute. by split_and!. Qed.
