(* ===== verification/PageExamples.v ===== *)
(** * Behaviours of the page the theorems leave out

    Concrete runs of the page's script in which what it shows and what it does differ:
    lines of a channel in a thread, a reconnection with a thread open, a refused topic
    switch, and answers that come after what they miss or repeat. *)
From S2P Require Import Prelude Unicode GoStrings JsonText JsonFacts.
From S2P Require Import Web WebWire WireProps.
Import Webchat Wire.
From S2P Require Import Page PageMarkup PageProps PageThreads.
From stdpp Require Import options.
Local Open Scope Z_scope.

(** A message of the channel, its event, and the answers the server gives. *)
Definition channel_event (from text : gostring) : wireEvent :=
  mkWireEvent (bs "msg") from [] [] [] false (bs "General") text 1700000000000.
Definition live_event (e : wireEvent) : input := Stream (Some (SseEvent e)).
Definition answer_events (n : nat) (l : list wireEvent) : input :=
  Answer n (Reply 200 (writeJSON (json_array (wireEvent_json <$> l)))).

(** The texts of the timeline, without their markup. *)
Definition texts (p : Page) : list gostring :=
  (λ el, match tokens (el_html el) with
         | Some l => concat ((λ t, match t with Chars s => s | _ => [] end) <$> l)
         | None => []
         end) <$> log p.

(** Lines of the channel are added to the timeline while a thread is open: they stand
    among the thread's messages. *)
Example channel_line_in_thread :
  let p := run [live_event (private_event (bs "G7XYZ") (bs "psst")); ClickDM (bs "G7XYZ");
                live_event (channel_event (bs "M0ABC") (bs "hello all"))] initial in
  dmWith p = Some (bs "G7XYZ") ∧ topicEl p = bs "G7XYZ"
  ∧ texts p = [bs "22:13G7XYZ: psst"; bs "22:13M0ABC: hello all"].
Proof. by vm_compute. Qed.

(** After a reconnection with a thread open the heading and the prompt are the channel's,
    but the thread is still open: what is typed under the channel's name goes to the
    correspondent. *)
Example reconnect_under_thread :
  let p := run [ClickDM (bs "G7XYZ"); StreamError;
                Stream (Some (SseYou (bs "M0ABC") (bs "General")))] initial in
  topicEl p = bs "General"
  ∧ placeholder p = bs "Message #General  ·  /T topic to switch  ·  /S CALL text for private"
  ∧ dmWith p = Some (bs "G7XYZ")
  ∧ (rq_url ∘ fst <$> waiting (step (Submit (bs "hello all")) p)) = [bs "dms"; bs "dm"].
Proof. by vm_compute. Qed.

(** The answer to a topic switch is not looked at: refused, it moves the page all the
    same, and only the page. *)
Example refused_switch_moves_page :
  let p := run [ClickChan (bs "Ops"); Answer 0 (Reply 403 (bs "forbidden"))] initial in
  topic p = bs "Ops" ∧ topicEl p = bs "Ops" ∧ alerts p = [].
Proof. by vm_compute. Qed.

(** A direct message that comes in while the list of earlier ones is on its way is dropped
    with the threads that list replaces. *)
Example message_lost_in_backfill :
  let l := [Stream (Some (SseYou (bs "M0ABC") (bs "General")));
            live_event (private_event (bs "G7XYZ") (bs "psst"))] in
  msgs_of (bs "G7XYZ") (run l initial) ≠ []
  ∧ msgs_of (bs "G7XYZ") (run (l ++ [answer_events 0 []]) initial) = [].
Proof. by vm_compute. Qed.

(** A message that comes in while the history of the new topic is on its way, and is part
    of it, is shown twice. *)
Example message_shown_twice :
  let e := channel_event (bs "M0ABC") (bs "hello") in
  let p := run [ClickChan (bs "Ops"); Answer 0 (Reply 204 []); live_event e;
                answer_events 0 [e]] initial in
  texts p = [bs "22:13M0ABC: hello"; bs "22:13M0ABC: hello"].
Proof. by vm_compute. Qed.
