(* ===== verification/Daemon.v ===== *)
(** * The daemon ([cmd/pdn-bpqchat/main.go]) and its links to the outside

    How [main] puts the parts together: the configuration, the store, the hub, the
    relay router, the allow-list shared by both ingresses and the web server; the
    sequence of requests with which the attachment takes its place on the air
    ([node.go], [attachOnce]); and the two kinds of outbound peer link
    ([node.go], [dialRFPeerOnce]; [dialer.go], [dialOnce]).  Opening the database and
    the answers of the packet node are arguments; logging and signals are not
    modelled.  The goroutines [main] starts are supervised in [Supervise.v] and act on
    the node in [System.v]. *)
From S2P Require Import Prelude Unicode GoStrings ChatModel ChatSeen ChatStore ChatHub.
From S2P Require Import PeerProto PeerAllow PeerRouter PeerLink Rhp RhpClient Config Node Sqlite Web.
From stdpp Require Import options.
Local Open Scope Z_scope.

Module Main.

(** ** Start-up *)

Definition configuredPeers (cfg : Conf.Config) : list Webchat.ConfiguredPeer :=
  ((λ p, Webchat.mkConfiguredPeer (Conf.p_Call p) (bs "ip") (Conf.p_Addr p)) <$> Conf.Peers cfg)
  ++ ((λ p, Webchat.mkConfiguredPeer (Conf.rf_PeerCall p) (bs "rf") (Conf.rf_OpenTo p))
        <$> Conf.RFPeers cfg).

Inductive level := LevelDebug | LevelInfo | LevelWarn | LevelError.
Definition logLevel (env : Conf.Env) : level :=
  let v := ToLower (TrimSpace (Conf.Getenv env (bs "PDN_LOG_LEVEL"))) in
  if decide (v = bs "debug") then LevelDebug
  else if decide (v = bs "warn") then LevelWarn
  else if decide (v = bs "error") then LevelError
  else LevelInfo.

(** The exits of [main] before anything runs. *)
Inductive start_error :=
| ConfigurationError (e : Conf.config_error)
| CannotOpen (e : gostring)               (* the state directory or the database *)
| CannotLoadAllow (e : error).

Section start.
Context {St : Type} `{!Store St, !ClaimStore St}.

(** A running node: what [main] has put together when it starts the goroutines. *)
Record Running := mkRunning {
  d_config : Conf.Config;
  d_site : Webchat.Site (St := St);
  d_server : Webchat.Server }.

(** [main] up to the goroutines; [opened] is the result of opening the database in the
    state directory, [clock] the readings of [time.Now].  The store is returned too: it
    outlives the process. *)
Definition start (env : Conf.Env) (opened : St + gostring) (clock : nat → Time)
    : (Running + start_error) * option St :=
  match Conf.Load env with
  | inr e => (inr (ConfigurationError e), None)
  | inl cfg =>
      match opened with
      | inr e => (inr (CannotOpen e), None)
      | inl s =>
          let world := Router.NewRouter (Hub.NewHub (Conf.BoundCallsign cfg) s clock) in
          match LoadAllowList (Some s) (Conf.PeerAllow cfg) with
          | (s', inr e) => (inr (CannotLoadAllow e), s')
          | (s', inl allow) =>
              let allow := Pin (Conf.DialedPeerCallsigns cfg) allow in
              let world := Router.upd_hub (Hub.upd_store (λ s0, default s0 s')) world in
              let server := Webchat.New (Conf.BoundCallsign cfg) true
                (Some (Webchat.mkFederation true true (configuredPeers cfg))) in
              (inl (mkRunning cfg (Webchat.mkSite world allow ∅) server), s')
          end
      end
  end.
End start.

(** ** The attachment *)

(** [Options], as [main] fills it in from the configuration. *)
Record Options := mkOptions {
  op_User : gostring; op_Pass : gostring;
  op_ChatCallsign : gostring; op_NodeOwnsCallsign : bool; op_RFPeers : list Conf.RFPeer }.
Definition node_options (cfg : Conf.Config) : Options :=
  mkOptions (Conf.RHPUser cfg) (Conf.RHPPass cfg) (Conf.BoundCallsign cfg)
    (Conf.NodeOwnsCallsign cfg) (Conf.RFPeers cfg).

(** The packet node, as its answers to one attachment. *)
Record answers := mkAnswers {
  an_connect : bool;
  an_auth : option Client.call_error;
  an_socket : Z + Client.call_error;
  an_bind : gostring → option Binding.bind_error;
  an_listen : option Client.call_error }.

Inductive attached :=
| NotConnected
| NotAuthenticated (e : Client.call_error)
| NoSocket (e : Client.call_error)
| NotBound (r : Binding.bound)
| NotListening (e : Client.call_error)
| Attached (bound : gostring) (dials : list Conf.RFPeer).   (* the goroutines started *)

(** The attachment's own state: the handle table and the callsign on air. *)
Record Node := mkNode { nd_link : Streams.Link; nd_bound : gostring }.

(** [attachOnce] up to its wait for the end; with the requests sent to the node. *)
Definition attachOnce (o : Options) (a : answers) (n : Node) : attached * list RhpWire.Message * Node :=
  if negb (an_connect a) then (NotConnected, [], n)
  else
    let n := mkNode (Streams.attach (nd_link n)) (nd_bound n) in
    let sent := if decide (op_User o = []) then [] else [Client.Authenticate (op_User o) (op_Pass o)] in
    match (if decide (op_User o = []) then None else an_auth a) with
    | Some e => (NotAuthenticated e, sent, n)
    | None =>
        let sent := sent ++ [Client.Socket] in
        match an_socket a with
        | inr e => (NoSocket e, sent, n)
        | inl handle =>
            let '(r, tried) := Binding.bindCallsign (op_NodeOwnsCallsign o) (op_ChatCallsign o) (an_bind a) in
            let sent := sent ++ ((λ cs, Client.Bind handle cs []) <$> tried) in
            match r with
            | Binding.Bound cs =>
                let sent := sent ++ [Client.Listen handle] in
                match an_listen a with
                | Some e => (NotListening e, sent, n)
                | None => (Attached cs (op_RFPeers o), sent, mkNode (nd_link n) cs)
                end
            | _ => (NotBound r, sent, n)
            end
        end
    end.

(** ** Outbound peer links *)

Section dial.
Context {St : Type} `{!Store St}.

(** [dialRFPeerOnce]: [opened] says whether the node opened the connection, [br] is
    what the connection then brings; [ref] names the new link.  The stream's side of it
    is [Streams.register_lock] and [Streams.drop_stream]. *)
Definition dialRFPeerOnce (now : Time) (ref : nat) (opened : bool) (our : gostring)
    (p : Conf.RFPeer) (br : gostring) : ST (Router.World St) bool :=
  if negb opened then mret false
  else
    let l := NewLink (mkConfig (Conf.rf_PeerCall p) our [] true false 0 0) in
    st_mod (Router.upd_heap <[ref := l]>);;
    if decide (Conf.rf_Script p ≠ []) then RunWithScript now ref l (Conf.rf_Script p) br
    else RunWithReader now ref l br.

(** [dialOnce] over TCP *)
Definition dialOnce (now : Time) (ref : nat) (opened : bool) (peerCall our : gostring)
    (br : gostring) : ST (Router.World St) bool :=
  if negb opened then mret false
  else
    let l := NewLink (mkConfig peerCall our [] true false 0 0) in
    st_mod (Router.upd_heap <[ref := l]>);;
    RunWithReader now ref l br.
End dial.

End Main.
