(* ===== verification/DaemonProps.v ===== *)
(** * What the daemon starts with

    The state [main] hands to its goroutines, from the configuration and the store; what a
    restart changes; the requests of an attachment; and the outbound dials. *)
From S2P Require Import Prelude Unicode GoStrings ChatModel ChatSeen ChatStore ChatHub.
From S2P Require Import HubProps HubTheorems PeerProto PeerAllow PeerRouter RouterProps PeerLink LinkProps.
From S2P Require Import Rhp RhpClient Config ConfigProps Node NodeProps Sqlite SqliteProps.
From S2P Require Import Web WebProps Daemon.
From stdpp Require Import options.
Local Open Scope Z_scope.
Import Main.

(** ** Start-up *)

Lemma Load_allow env c :
  Conf.Load env = inl c → Forall (λ a, normCallsign a = a ∧ p_word allow_sep a) (Conf.PeerAllow c).
Proof.
  unfold Conf.Load. case_decide; [done|]. destruct (Conf.load_ssid env); [|done].
  destruct (Conf.parsePeers _) as [[ps rs]|]; [|done].
  destruct (Conf.parseAllow _) as [al|] eqn:Ea; [|done]. intros [= <-]. cbn [Conf.PeerAllow].
  refine (Forall_impl _ _ _ (parseAllow_ok _ _ Ea) _). intros a [Hv Hc].
  destruct (valid_call_text a Hv). split; [exact Hc|]. by apply call_storable.
Qed.

Lemma Pin_Allowed dialled l c :
  Allowed (Pin dialled (Some l)) c = true
  ↔ normCallsign c ≠ [] ∧ (normCallsign c ∈ al_allowed l ∨ normCallsign c ∈ al_pinned l
                            ∨ normCallsign c ∈ normCallsign <$> dialled).
Proof.
  cbn [Pin Allowed al_allowed al_pinned]. cbn zeta.
  case_decide as H1; [split; [done|by intros [? _]]|].
  case_decide as H2; [naive_solver|]. rewrite bool_decide_eq_true, canon_into_elem. naive_solver.
Qed.

Section start.
Context {St : Type} `{!Store St, !StoreLaws St, !ClaimStore St, !ClaimLaws St}.
Implicit Types s : St.

(** The editable callsigns a store and a configured seed amount to. *)
Definition editable s (seed : list gostring) : list gostring :=
  match store_config s !! ConfigKVAllowKey with Some raw => decodeAllow raw | None => seed end.

(** Loading the list: the failures, and the list and the store otherwise. *)
Lemma load_spec s seed :
  store_ok s →
  let '(s', r) := LoadAllowList (Some s) seed in
  match r with
  | inr e => GetConfig s ConfigKVAllowKey = inr e
             ∨ store_config s !! ConfigKVAllowKey = None
               ∧ (SetConfig s ConfigKVAllowKey (encodeAllow (Entries (Some (NewAllowList seed))))).2 = Some e
  | inl a =>
      a = Some (NewAllowList (editable s seed))
      ∧ ∃ s1, s' = Some s1 ∧ store_ok s1 ∧ store_log s1 = store_log s
        ∧ store_config s1 !! ConfigKVAllowKey
          = Some (default (encodeAllow (Entries (Some (NewAllowList seed))))
                    (store_config s !! ConfigKVAllowKey))
        ∧ (∀ k, k ≠ ConfigKVAllowKey → store_config s1 !! k = store_config s !! k)
  end.
Proof using Type*.
  intros Hok. unfold LoadAllowList, PersistAllowList, editable.
  cbn [acs_GetConfig acs_SetConfig chat_allow_store].
  destruct (GetConfig s ConfigKVAllowKey) as [v|e] eqn:Eg; [|by left].
  pose proof (config_get s ConfigKVAllowKey v Hok Eg) as ->.
  destruct (store_config s !! ConfigKVAllowKey) as [raw|] eqn:Ek.
  - split; [done|]. exists s. by rewrite Ek.
  - cbn [Replace NewAllowList al_pinned al_rejected]. fold (NewAllowList seed).
    set (raw := encodeAllow _).
    pose proof (config_set s ConfigKVAllowKey raw Hok) as H1.
    pose proof (config_ok s ConfigKVAllowKey raw Hok) as H2.
    pose proof (config_log s ConfigKVAllowKey raw) as H3.
    destruct (SetConfig s ConfigKVAllowKey raw) as [s' [e|]]; cbn [fst snd] in *; [by right|].
    split; [done|]. exists s'. split; [done|]. split; [done|]. split; [done|].
    rewrite (H1 eq_refl). split; [by rewrite lookup_insert_eq|].
    intros k Hk. by rewrite lookup_insert_ne.
Qed.
(** The callsigns we dial, IP and RF. *)
Definition dialled_calls (cfg : Conf.Config) : list gostring :=
  (Conf.p_Call <$> Conf.Peers cfg) ++ (Conf.rf_PeerCall <$> Conf.RFPeers cfg).

Lemma dialled_spec cfg x :
  x ≠ [] → x ∈ normCallsign <$> Conf.DialedPeerCallsigns cfg ↔ x ∈ normCallsign <$> dialled_calls cfg.
Proof.
  intros Hx. destruct (dedup_spec (dialled_calls cfg) []) as [_ Hd]; [apply NoDup_nil_2|].
  assert (∀ e, e ∈ Conf.DialedPeerCallsigns cfg ↔ e ≠ [] ∧ e ∈ normCallsign <$> dialled_calls cfg)
    as He by (intros e; pose proof (Hd e) as H; set_solver).
  rewrite list_elem_of_fmap. split.
  - intros (e & -> & [_ (d & -> & H)%list_elem_of_fmap]%He).
    rewrite normCallsign_idemp. by apply list_elem_of_fmap_2.
  - intros H. exists x. split; [|by apply He].
    apply list_elem_of_fmap in H as (d & -> & _). by rewrite normCallsign_idemp.
Qed.

(** The store as the running node has it. *)
Definition same_set (d d' : Running (St := St)) : Prop :=
  al_allowed <$> Webchat.st_allow (d_site d) = al_allowed <$> Webchat.st_allow (d_site d').

Lemma start_ok env s clock d out :
  store_ok s → start env (inl s) clock = (inl d, out) →
  Conf.Load env = inl (d_config d)
  ∧ (∃ s', out = Some s' ∧ Webchat.store (d_site d) = s' ∧ store_ok s' ∧ store_log s' = store_log s
       ∧ store_config s' !! ConfigKVAllowKey
         = Some (default (encodeAllow (Entries (Some (NewAllowList (Conf.PeerAllow (d_config d))))))
                   (store_config s !! ConfigKVAllowKey))
       ∧ (∀ k, k ≠ ConfigKVAllowKey → store_config s' !! k = store_config s !! k))
  ∧ Webchat.st_allow (d_site d)
    = Pin (Conf.DialedPeerCallsigns (d_config d))
        (Some (NewAllowList (editable s (Conf.PeerAllow (d_config d)))))
  ∧ site_ok (d_site d) ∧ Hub.h_users (Webchat.hub (d_site d)) = ∅
  ∧ Webchat.ourNode (d_site d) = normCall (Conf.BoundCallsign (d_config d))
  ∧ Router.w_links (Webchat.st_world (d_site d)) = ∅ ∧ Webchat.st_ref (d_site d) = ∅.
Proof using Type*.
  intros Hok. unfold start. destruct (Conf.Load env) as [cfg|e] eqn:El; [|done].
  pose proof (load_spec s (Conf.PeerAllow cfg) Hok) as Hl.
  destruct (LoadAllowList (Some s) (Conf.PeerAllow cfg)) as [s' [a|e]]; [|done].
  destruct Hl as (-> & s2 & -> & H1 & H2 & H3 & H4). intros [= <- <-]. cbn [d_config d_site].
  split; [done|]. split; [exists s2; by split_and!|]. split; [done|].
  set (h := Hub.NewHub (Conf.BoundCallsign cfg) s clock).
  assert (hub_wf (Hub.Subscribe h).2) as Hwf by exact (proj1 (Subscribe_keeps _ (proj1 (NewHub_wf _ _ _)))).
  split; [|done]. split; [by destruct Hwf|]. split; [exact H1|]. intros c n. cbn. by rewrite lookup_empty.
Qed.
End start.

(** C24. The daemon starts.  On a working store, the start fails exactly on a configuration
    that does not load (which touches nothing) and on a store that cannot be read or, on
    its first start, written.  Otherwise the node starts with nobody on it, no link
    and the stored messages as they were, named after the callsign it will bind; both
    ingresses admit exactly the callsigns of the stored list, or of the configured one
    when none was ever stored, and the callsigns the node dials; and the list is
    stored from then on.  A later start from that store comes up with the same editable
    list, whatever its configuration says. *)
Theorem daemon_start {St : Type} `{!Store St, !StoreLaws St, !ClaimStore St, !ClaimLaws St}
    env (s : St) clock :
  store_ok s →
  let '(r, s1) := start env (inl s) clock in
  match r with
  | inr (ConfigurationError e) => Conf.Load env = inr e ∧ s1 = None
  | inr (CannotOpen _) => False
  | inr (CannotLoadAllow e) =>
      GetConfig s ConfigKVAllowKey = inr e
      ∨ store_config s !! ConfigKVAllowKey = None ∧ ∃ raw, (SetConfig s ConfigKVAllowKey raw).2 = Some e
  | inl d =>
      let cfg := d_config d in
      Conf.Load env = inl cfg ∧ s1 = Some (Webchat.store (d_site d))
      ∧ site_ok (d_site d) ∧ Hub.Users (Webchat.hub (d_site d)) = []
      ∧ Router.w_links (Webchat.st_world (d_site d)) = ∅
      ∧ store_log (Webchat.store (d_site d)) = store_log s
      ∧ Webchat.ourNode (d_site d) = normCall (Conf.BoundCallsign cfg)
      ∧ (∀ c, Allowed (Webchat.st_allow (d_site d)) c = true
           ↔ normCallsign c ≠ []
             ∧ normCallsign c ∈ normCallsign <$> editable s (Conf.PeerAllow cfg) ++ dialled_calls cfg)
      ∧ (∀ env' clock' d' s2,
           start env' (inl (Webchat.store (d_site d))) clock' = (inl d', s2) → same_set d d')
  end.
Proof.
  intros Hok. destruct (start env (inl s) clock) as [[d|e] s1] eqn:Es.
  - destruct (start_ok env s clock d s1 Hok Es)
      as (H1 & (s' & -> & H2 & H3 & H4 & H5 & _) & H6 & H7 & H8 & H9 & H10 & _).
    cbn zeta. split; [done|]. rewrite H2. split; [done|]. split; [done|].
    split; [unfold Hub.Users; by rewrite H8, map_to_list_empty|].
    split; [done|]. split; [done|]. split; [done|]. split.
    + intros c. rewrite H6, Pin_Allowed. cbn [al_allowed al_pinned NewAllowList].
      rewrite canon_into_elem, fmap_app, elem_of_app.
      destruct (decide (normCallsign c = [])) as [E|E]; [by split; intros [? _]|].
      rewrite dialled_spec by done. set_solver.
    + intros env' clock' d' s2 Es'.
      destruct (start_ok env' s' clock' d' s2 H3 Es') as (_ & _ & H6' & _).
      unfold same_set. rewrite H6, H6'. cbn. f_equal. unfold editable at 2. rewrite H5.
      unfold editable. destruct (store_config s !! ConfigKVAllowKey) as [raw|]; [done|]. cbn.
      pose proof (Load_allow _ _ H1) as Hal. symmetry.
      apply (canon_into_stored (NewAllowList (Conf.PeerAllow (d_config d)))).
      * intros c. apply canon_into_fixed. set_solver.
      * apply Forall_forall. intros c Hc%Entries_spec. cbn in Hc.
        apply canon_into_elem in Hc as [?|[_ (a & -> & Ha)%list_elem_of_fmap]]; [set_solver|].
        rewrite Forall_forall in Hal. by destruct (Hal a Ha) as [-> ?].
  - unfold start in Es. destruct (Conf.Load env) as [cfg|e'] eqn:El; [|by injection Es as <- <-].
    pose proof (load_spec s (Conf.PeerAllow cfg) Hok) as Hl.
    destruct (LoadAllowList (Some s) (Conf.PeerAllow cfg)) as [s' [a|e']]; [done|].
    injection Es as <- <-. destruct Hl as [?|[? ?]]; [by left|right; eauto].
Qed.

#[local] Existing Instance Durable.tables_engine.

(** A first start with two callsigns in the configuration, and a restart without. *)
Lemma daemon_start_witness :
  ∃ d out, start sample_env (inl Durable.empty_tables) (λ _, 0) = (inl d, out)
  ∧ Allowed (Webchat.st_allow (d_site d)) (bs "gb7sth") = true
  ∧ Hub.Users (Webchat.hub (d_site d)) = []
  ∧ ∃ d' out', start (<[bs "PDN_BPQCHAT_PEER_ALLOW" := []]> sample_env)
                 (inl (Webchat.store (d_site d))) (λ _, 0) = (inl d', out')
    ∧ same_set d d'.
Proof.
  pose proof (daemon_start sample_env Durable.empty_tables (λ _, 0) I) as H.
  set (env' := <[bs "PDN_BPQCHAT_PEER_ALLOW" := []]> sample_env).
  assert (match (start sample_env (inl Durable.empty_tables) (λ _, 0)).1 with
          | inl d => Allowed (Webchat.st_allow (d_site d)) (bs "gb7sth")
              && match (start env' (inl (Webchat.store (d_site d))) (λ _, 0)).1 with
                 | inl _ => true | inr _ => false end
          | inr _ => false end = true) as Hv by (vm_compute; reflexivity).
  destruct (start sample_env (inl Durable.empty_tables) (λ _, 0)) as [[d|e] out]; [|discriminate Hv].
  exists d, out. destruct H as (H1 & H2 & _ & H4 & _ & _ & _ & _ & H9). cbn [fst] in Hv.
  apply andb_true_iff in Hv as [Hv1 Hv2].
  split; [done|]. split; [done|]. split; [done|].
  destruct (start env' (inl (Webchat.store (d_site d))) (λ _, 0)) as [[d'|e'] out'] eqn:E';
    [|discriminate Hv2].
  exists d', out'. split; [done|]. by eapply H9.
Defined.

(** ** The attachment *)

Lemma bind_some nodeOwns chat bind :
  let '(b, tried) := Binding.bindCallsign nodeOwns chat bind in
  match b with Binding.Bound cs => bind cs = None | _ => True end.
Proof.
  pose proof (bind_walk nodeOwns chat bind) as H.
  destruct (Binding.bindCallsign nodeOwns chat bind) as [[cs|e|] tried]; [|done|done].
  by destruct H as (_ & _ & _ & _ & _ & _ & H).
Qed.

Definition login (o : Options) : list RhpWire.Message :=
  if decide (op_User o = []) then [] else [Client.Authenticate (op_User o) (op_Pass o)].
Definition binds (handle : Z) (tried : list gostring) : list RhpWire.Message :=
  (λ cs, Client.Bind handle cs []) <$> tried.

(** Taking the air.  One attachment sends the packet node, in this order and on the
    one socket it is given, a login if it has a user, a socket request, the bind requests
    of the walk and a listen request; the first refusal that is not a callsign in use is
    the last thing asked, and is reported.  The walk asks for each callsign at most once, the
    configured one first; a callsign the node reserved is the only one asked for; and every
    answer but the last said that the callsign is in use.  The node is on air exactly when
    the listen request is accepted: then, and only then, does its callsign become the one
    that was accepted and are the configured RF peers dialled.  A connection starts with an
    empty handle table. *)
Theorem attach_order o a n :
  let '(r, sent, n') := attachOnce o a n in
  let '(b, tried) := Binding.bindCallsign (op_NodeOwnsCallsign o) (op_ChatCallsign o) (an_bind a) in
  let inUse cs := ∃ code text, an_bind a cs = Some (Binding.BindServer code text)
                    ∧ RhpWire.IsCallsignInUse code = true in
  (NoDup tried ∧ head tried = Some (op_ChatCallsign o)
     ∧ (op_NodeOwnsCallsign o = true → tried = [op_ChatCallsign o])
     ∧ ∀ i cs, tried !! i = Some cs → (S i < length tried)%nat → inUse cs)
  ∧ nd_bound n' = match r with Attached cs _ => cs | _ => nd_bound n end
  ∧ match r with
    | NotConnected => sent = [] ∧ n' = n
    | NotAuthenticated e =>
        an_auth a = Some e ∧ op_User o ≠ [] ∧ sent = login o ∧ Streams.l_streams (nd_link n') = ∅
    | NoSocket e =>
        an_socket a = inr e ∧ sent = login o ++ [Client.Socket] ∧ Streams.l_streams (nd_link n') = ∅
    | NotBound b' =>
        b' = b ∧ (∀ cs, b ≠ Binding.Bound cs) ∧ Streams.l_streams (nd_link n') = ∅
        ∧ ∃ handle, an_socket a = inl handle ∧ sent = login o ++ Client.Socket :: binds handle tried
    | NotListening e =>
        an_listen a = Some e ∧ Streams.l_streams (nd_link n') = ∅
        ∧ ∃ cs handle, b = Binding.Bound cs ∧ an_socket a = inl handle
          ∧ sent = login o ++ Client.Socket :: binds handle tried ++ [Client.Listen handle]
    | Attached cs dials =>
        an_listen a = None ∧ dials = op_RFPeers o ∧ Streams.l_streams (nd_link n') = ∅
        ∧ b = Binding.Bound cs ∧ an_bind a cs = None ∧ last tried = Some cs
        ∧ ∃ handle, an_socket a = inl handle
          ∧ sent = login o ++ Client.Socket :: binds handle tried ++ [Client.Listen handle]
    end.
Proof.
  pose proof (bind_walk (op_NodeOwnsCallsign o) (op_ChatCallsign o) (an_bind a)) as Hw.
  unfold attachOnce, login, binds.
  destruct (Binding.bindCallsign (op_NodeOwnsCallsign o) (op_ChatCallsign o) (an_bind a))
    as [b tried].
  destruct Hw as (W1 & W2 & W3 & _ & W5 & W6).
  destruct (an_connect a); cbn [negb]; [|by split_and!].
  destruct (decide (op_User o = [])) as [Hu|Hu]; [|destruct (an_auth a) as [e|] eqn:Ha; [by split_and!|]];
    (destruct (an_socket a) as [handle|e] eqn:Hs; [|by split_and!]);
    (destruct b as [cs|e|];
       [destruct (an_listen a) as [e|] eqn:El|split_and!; try done; eexists; split; [done|];
          by rewrite <- app_assoc..]).
  1-4: destruct W6 as [W6 W7]; split_and!; try done; repeat eexists; by rewrite <- !app_assoc.
Qed.

(** ** Outbound links *)

Section dial.
Context {St : Type} `{!Store St}.
Implicit Types w : Router.World St.

Lemma run_script_hub ref steps : ∀ br w,
  Router.w_hub (run_script ref steps br w).2 = Router.w_hub w
  ∧ Router.w_links (run_script ref steps br w).2 = Router.w_links w.
Proof.
  induction steps as [|st steps IH]; intros br w; [done|]. cbn [run_script].
  destruct (if decide (ss_Expect st = []) then Some br else expect (ss_Expect st) br) as [br1|];
    [|done].
  case_decide; [apply IH|]. st_simpl. pose proof (sendRaw_hub ref (ss_Send st) w) as [H1 H2].
  destruct (Router.sendRaw ref (ss_Send st) w) as [[] w']; cbn [fst snd] in *; [|done].
  destruct (IH br1 w') as [-> ->]. done.
Qed.

Lemma handshake_hub ref l br w :
  Router.w_hub (handshake ref l br w).2 = Router.w_hub w
  ∧ Router.w_links (handshake ref l br w).2 = Router.w_links w.
Proof.
  assert (∀ raw w0, Router.w_hub w0 = Router.w_hub w ∧ Router.w_links w0 = Router.w_links w →
    Router.w_hub (Router.sendRaw ref raw w0).2 = Router.w_hub w
    ∧ Router.w_links (Router.sendRaw ref raw w0).2 = Router.w_links w) as Hs.
  { intros raw w0 [<- <-]. apply sendRaw_hub. }
  assert (∀ w0, Router.w_hub w0 = Router.w_hub w ∧ Router.w_links w0 = Router.w_links w →
    Router.w_hub (sendKeepalive ref w0).2 = Router.w_hub w
    ∧ Router.w_links (sendKeepalive ref w0).2 = Router.w_links w) as Hk.
  { intros w0 [<- <-]. apply sendKeepalive_hub. }
  unfold handshake. st_simpl. destruct (l_outbound l).
  - destruct (readUntil isBanner br); [|done]. cbv beta.
    repeat (case_match; cbn [fst snd]); auto.
  - destruct (l_greeted l); cbn [fst snd];
      repeat (case_match; cbn [fst snd]); auto.
Qed.

(** A dial that does not get through, by radio or by TCP, leaves the hub and the table of
    links as they were: a node that is away is not on the mesh. *)
Theorem failed_dial_quiet now ref opened our (p : Conf.RFPeer) peerCall br w :
  ((dialRFPeerOnce now ref opened our p br w).1 = false →
     Router.w_hub (dialRFPeerOnce now ref opened our p br w).2 = Router.w_hub w
     ∧ Router.w_links (dialRFPeerOnce now ref opened our p br w).2 = Router.w_links w)
  ∧ ((dialOnce now ref opened peerCall our br w).1 = false →
     Router.w_hub (dialOnce now ref opened peerCall our br w).2 = Router.w_hub w
     ∧ Router.w_links (dialOnce now ref opened peerCall our br w).2 = Router.w_links w).
Proof.
  assert (∀ l br w, (RunWithReader now ref l br w).1 = false →
    Router.w_hub (RunWithReader now ref l br w).2 = Router.w_hub w
    ∧ Router.w_links (RunWithReader now ref l br w).2 = Router.w_links w) as Hr.
  { intros l br0 w0. unfold RunWithReader. st_simpl.
    pose proof (handshake_hub ref l br0 w0) as H.
    destruct (handshake ref l br0 w0) as [[br1|] w1]; [done|]. intros _. exact H. }
  unfold dialRFPeerOnce, dialOnce. destruct opened; cbn [negb]; [|done]. st_simpl.
  split; [|intros H; apply Hr in H as [-> ->]; done].
  case_decide; [|intros H'; apply Hr in H' as [-> ->]; done].
  unfold RunWithScript. st_simpl.
  match goal with |- context [run_script ?a ?b ?c ?d] =>
    pose proof (run_script_hub a b c d) as [H1 H2]; destruct (run_script a b c d) as [[br1|] w1] end;
    cbn [fst snd] in *; [|done].
  intros H'. apply Hr in H' as [-> ->]. done.
Qed.
End dial.

(** What the packet node answers when the configured callsign is taken: the walk goes on
    air under another SSID of the same base ... *)
Definition taken_answers : answers :=
  mkAnswers true None (inl 7)
    (λ cs, if decide (cs = bs "GB7AAA-9")
           then Some (Binding.BindServer RhpWire.ErrDuplicateSocket []) else None) None.

(** ... but hub and router keep the configured callsign as the name of the node, and a link
    under the other one greets the peer with none of the node's own users. *)
Example probed_ssid_hides_users :
  let o := mkOptions [] [] (bs "GB7AAA-9") false [] in
  let bound := nd_bound (attachOnce o taken_answers (mkNode Streams.New [])).2 in
  let w := Router.upd_hub (Hub.exec (Hub.OpJoin (sample_user (bs "M0ABC") []))) (Router.NewRouter sample_hub) in
  let announced our :=
    (λ l, bool_decide (encodeJoin our (bs "M0ABC") [] [] ∈ l_sent l))
      <$> Router.w_heap (dialOnce 0 1 true (bs "GB7BBB-9") our (banner ++ zb 13 :: bs "OK" ++ [zb 13]) w).2 !! 1%nat in
  bound = bs "GB7AAA"
  ∧ announced (bs "GB7AAA-9") = Some true ∧ announced bound = Some false.
Proof. split_and!; by vm_compute. Qed.
