(* ===== verification/Supervise.v ===== *)
(** * The daemon's goroutines ([cmd/pdn-bpqchat/main.go], the reconnecting loops)

    What [main] starts and waits for: the web server, the attachment's loop ([node.go],
    [Run]) with its diallers of RF peers ([dialRFPeer]), the diallers of IP peers
    ([dialer.go], [DialAndServe]) and the listener for inbound peers
    ([servePeerListener]); how they retry, and how they end.  What an attempt does to the
    node is in [Daemon.v] and [PeerLink.v]; here it begins and it is over.  An event names
    the goroutine that goes on and what it meets there; one that cannot happen leaves
    none. *)
From S2P Require Import Prelude Unicode GoStrings ChatModel ChatSeen ChatStore ChatHub.
From S2P Require Import PeerLink Rhp RhpClient Config Node NodeProps Daemon.
From stdpp Require Import options.
Local Open Scope Z_scope.

Module Sup.

(** ** A reconnecting loop

    [for ctx.Err() == nil { attempt; select on ctx.Done() and time.After(backoff);
    double }]: at its test, in an attempt, waiting for the time [until], or returned. *)
Inductive phase := Testing | Trying | Waiting (until : Time) | Returned.
#[export] Instance phase_eq_dec : EqDecision phase.
Proof. solve_decision. Defined.

Record Loop := mkLoop { lp_max : Duration; lp_backoff : Duration; lp_phase : phase }.
Definition with_phase p (l : Loop) : Loop := mkLoop (lp_max l) (lp_backoff l) p.

(** The loops of [Run], [dialRFPeer] and [DialAndServe] as they start. *)
Definition run_loop : Loop := mkLoop Backoff.run_max Backoff.run_initial Testing.
Definition rf_loop : Loop := mkLoop Backoff.rf_max Backoff.rf_initial Testing.
Definition dial_loop : Loop := mkLoop dial_max dial_initial Testing.

(** What a loop does next: it tests its context, its attempt returns, its timer fires,
    or it sees the context done while it waits.  When both are ready [select] may take
    either.  [Finish] of a dial that is blocked in its handshake is not possible: see
    [rf_blocked]. *)
Inductive act := Test | Finish | Fire | Notice.
#[export] Instance act_eq_dec : EqDecision act.
Proof. solve_decision. Defined.
Definition loop_act (a : act) (done : bool) (now : Time) (l : Loop) : option Loop :=
  match a, lp_phase l with
  | Test, Testing => Some (with_phase (if done then Returned else Trying) l)
  | Finish, Trying => Some (with_phase (Waiting (now + lp_backoff l)) l)
  | Fire, Waiting until =>
      if until <=? now
      then Some (mkLoop (lp_max l) (Backoff.next (lp_max l) (lp_backoff l)) Testing)
      else None
  | Notice, Waiting _ => if done then Some (with_phase Returned l) else None
  | _, _ => None
  end.

(** ** The daemon *)

Inductive web_phase := WebStarting | WebServing | WebReturned.
Inductive listen_phase := ListenStarting | ListenAccepting | ListenReturned.
#[export] Instance web_phase_eq_dec : EqDecision web_phase.
Proof. solve_decision. Defined.
#[export] Instance listen_phase_eq_dec : EqDecision listen_phase.
Proof. solve_decision. Defined.

(** A dialler of an RF peer, whether the context of its attachment is over, and whether
    its dial is in the reads of [handshake] with nothing to read.  Those reads have no
    deadline and do not look at the context, and neither the end of the context nor the
    loss of the RHP client closes the stream: only a push for its handle goes on with
    them.  (The request that opens the stream ends with its context, the reads of
    [expect] have a deadline, the read loop of [serve] selects on the context; the
    connection of an IP dial is closed when the context is done.  Writes to a TCP
    connection are taken to return.) *)
Record Rf := mkRf { rf_peer : Conf.RFPeer; rf_over : bool; rf_blocked : bool; rf_dial : Loop }.

(** Who begins an attempt. *)
Inductive worker := WRun | WDial (i : nat) | WRf (i : nat).
#[export] Instance worker_eq_dec : EqDecision worker.
Proof. solve_decision. Defined.

Record Daemon := mkDaemon {
  dm_now : Time;
  dm_done : bool;                        (* the context of [main] *)
  dm_web : web_phase;
  dm_opts : Main.Options;
  dm_node : Main.Node;
  dm_run : Loop;
  dm_up : bool;                          (* the attachment's attempt has got through *)
  dm_rfs : list Rf;
  dm_dials : list Loop;
  dm_listen : listen_phase;
  dm_log : list (worker * Time) }.       (* the attempts begun, oldest first *)

(** What [main] starts after [Main.start]. *)
Definition launch (cfg : Conf.Config) (now : Time) : Daemon :=
  mkDaemon now false WebStarting (Main.node_options cfg)
    (Main.mkNode Streams.New [])
    run_loop false [] ((λ _, dial_loop) <$> Conf.Peers cfg)
    (if decide (Conf.PeerListen cfg = []) then ListenReturned else ListenStarting) [].

(** [wg.Wait()] returns: the diallers of RF peers are not waited for. *)
Definition main_over (d : Daemon) : bool :=
  bool_decide (dm_web d = WebReturned) && bool_decide (lp_phase (dm_run d) = Returned)
  && forallb (λ l, bool_decide (lp_phase l = Returned)) (dm_dials d)
  && bool_decide (dm_listen d = ListenReturned).

Inductive ev :=
| Signal                                 (* SIGINT or SIGTERM *)
| Clock (t : Time)
| WebBound
| WebFails                               (* the bind or the server fails: [stop()] *)
| WebStops                               (* [Shutdown], with or without an error *)
| Attach (a : Main.answers)              (* the requests of [attachOnce] are answered *)
| Step (w : worker) (a : act)
| Block (i : nat)                        (* the handshake of an RF dial waits for a line *)
| Wake (i : nat)                         (* a push for its stream *)
| ListenBound
| ListenFails
| ListenEnds.                            (* closed: [Accept] fails with the context done *)

Definition set_web (p : web_phase) (done : bool) (d : Daemon) : Daemon :=
  mkDaemon (dm_now d) done p (dm_opts d) (dm_node d) (dm_run d) (dm_up d) (dm_rfs d)
    (dm_dials d) (dm_listen d) (dm_log d).
Definition set_time (t : Time) (d : Daemon) : Daemon :=
  mkDaemon t (dm_done d) (dm_web d) (dm_opts d) (dm_node d) (dm_run d) (dm_up d) (dm_rfs d)
    (dm_dials d) (dm_listen d) (dm_log d).
Definition set_listen (p : listen_phase) (d : Daemon) : Daemon :=
  mkDaemon (dm_now d) (dm_done d) (dm_web d) (dm_opts d) (dm_node d) (dm_run d) (dm_up d)
    (dm_rfs d) (dm_dials d) p (dm_log d).
Definition set_run (n : Main.Node) (l : Loop) (up : bool) (rfs : list Rf) (d : Daemon) : Daemon :=
  mkDaemon (dm_now d) (dm_done d) (dm_web d) (dm_opts d) n l up rfs (dm_dials d)
    (dm_listen d) (dm_log d).
Definition set_rfs (rfs : list Rf) (d : Daemon) : Daemon :=
  set_run (dm_node d) (dm_run d) (dm_up d) rfs d.
Definition set_dials (ls : list Loop) (d : Daemon) : Daemon :=
  mkDaemon (dm_now d) (dm_done d) (dm_web d) (dm_opts d) (dm_node d) (dm_run d) (dm_up d)
    (dm_rfs d) ls (dm_listen d) (dm_log d).

(** An attempt that begins is noted. *)
Definition note (w : worker) (l : Loop) (d : Daemon) : Daemon :=
  mkDaemon (dm_now d) (dm_done d) (dm_web d) (dm_opts d) (dm_node d) (dm_run d) (dm_up d)
    (dm_rfs d) (dm_dials d) (dm_listen d)
    (dm_log d ++ if decide (lp_phase l = Trying) then [(w, dm_now d)] else []).

(** [attachOnce] returns: its deferred [cancel] ends the diallers' context. *)
Definition end_rfs (rfs : list Rf) : list Rf :=
  (λ r, mkRf (rf_peer r) true (rf_blocked r) (rf_dial r)) <$> rfs.

Definition step_loop (w : worker) (a : act) (d : Daemon) : option Daemon :=
  match w with
  | WRun =>
      if decide (a = Finish) then
        (* the attachment ends; before it is up, [Attach] says how the attempt goes *)
        if dm_up d then
          l ← loop_act Finish (dm_done d) (dm_now d) (dm_run d);
          Some (set_run (dm_node d) l false (end_rfs (dm_rfs d)) d)
        else None
      else
        l ← loop_act a (dm_done d) (dm_now d) (dm_run d);
        Some (note WRun l (set_run (dm_node d) l (dm_up d) (dm_rfs d) d))
  | WDial i =>
      l0 ← dm_dials d !! i;
      l ← loop_act a (dm_done d) (dm_now d) l0;
      Some (note (WDial i) l (set_dials (<[i := l]> (dm_dials d)) d))
  | WRf i =>
      r ← dm_rfs d !! i;
      if rf_blocked r then None else
      l ← loop_act a (dm_done d || rf_over r) (dm_now d) (rf_dial r);
      Some (note (WRf i) l (set_rfs (<[i := mkRf (rf_peer r) (rf_over r) false l]> (dm_rfs d)) d))
  end.

(** A dial begins to wait in its handshake, or goes on. *)
Definition set_blocked (i : nat) (b : bool) (d : Daemon) : option Daemon :=
  r ← dm_rfs d !! i;
  if decide (lp_phase (rf_dial r) = Trying ∧ rf_blocked r = negb b)
  then Some (set_rfs (<[i := mkRf (rf_peer r) (rf_over r) b (rf_dial r)]> (dm_rfs d)) d)
  else None.

(** [attachOnce] up to its wait for the end, or to its failure. *)
Definition attach (a : Main.answers) (d : Daemon) : option Daemon :=
  if decide (lp_phase (dm_run d) = Trying ∧ dm_up d = false) then
    let '(r, _, n) := Main.attachOnce (dm_opts d) a (dm_node d) in
    match r with
    | Main.Attached _ dials =>
        Some (set_run n (dm_run d) true
                (dm_rfs d ++ ((λ p, mkRf p false false rf_loop) <$> dials)) d)
    | _ =>
        l ← loop_act Finish (dm_done d) (dm_now d) (dm_run d);
        Some (set_run n l false (dm_rfs d) d)
    end
  else None.

Definition exec (e : ev) (d : Daemon) : option Daemon :=
  match e with
  | Signal => Some (set_web (dm_web d) true d)
  | Clock t => if dm_now d <=? t then Some (set_time t d) else None
  | WebBound => if decide (dm_web d = WebStarting) then Some (set_web WebServing (dm_done d) d) else None
  | WebFails => if decide (dm_web d = WebReturned) then None else Some (set_web WebReturned true d)
  | WebStops =>
      if decide (dm_web d = WebServing ∧ dm_done d = true) then Some (set_web WebReturned true d) else None
  | Attach a => attach a d
  | Step w a => step_loop w a d
  | Block i => set_blocked i true d
  | Wake i => set_blocked i false d
  | ListenBound =>
      if decide (dm_listen d = ListenStarting) then Some (set_listen ListenAccepting d) else None
  | ListenFails =>
      if decide (dm_listen d = ListenStarting) then Some (set_listen ListenReturned d) else None
  | ListenEnds =>
      if decide (dm_listen d = ListenAccepting ∧ dm_done d = true)
      then Some (set_listen ListenReturned d) else None
  end.

Fixpoint execs (es : list ev) (d : Daemon) : option Daemon :=
  match es with
  | [] => Some d
  | e :: es' => d1 ← exec e d; execs es' d1
  end.

End Sup.
