(* ===== verification/SuperviseProps.v ===== *)
(** * How the daemon retries and how it ends *)
From S2P Require Import Prelude Unicode GoStrings ChatModel ChatSeen ChatStore ChatHub.
From S2P Require Import PeerLink Rhp RhpClient Config ConfigProps Node NodeProps Daemon Supervise.
From stdpp Require Import options.
Local Open Scope Z_scope.
Import Main Sup.

(** ** One loop *)

(** The wait after attempt [i] (from 0). *)
Definition wait_after (initial max : Duration) (i : nat) : Duration :=
  Z.min max (initial * 2 ^ Z.of_nat i).

Section pace.
Context (initial max : Duration) (Him : 0 < initial ≤ max).
Abbreviation wait := (wait_after initial max).

Lemma wait_S i : Backoff.next max (wait i) = wait (S i).
Proof using Him. unfold wait_after. rewrite <- !after_spec by done. done. Qed.
Lemma wait_le i : 0 ≤ wait i ≤ max.
Proof using Him. unfold wait_after. pose proof (Z.pow_nonneg 2 (Z.of_nat i)). nia. Qed.

(** A loop that has begun attempts at [starts] keeps its pace. *)
Record paced (starts : list Time) (now : Time) (l : Loop) : Prop := {
  pc_max : lp_max l = max;
  pc_now t : last starts = Some t → t ≤ now;
  pc_gap i a b : starts !! i = Some a → starts !! S i = Some b → a + wait i ≤ b;
  pc_phase : match lp_phase l with
    | Testing => lp_backoff l = wait (length starts)
        ∧ ∀ n t, length starts = S n → last starts = Some t → t + wait n ≤ now
    | Trying => ∃ n, length starts = S n ∧ lp_backoff l = wait n
    | Waiting until => ∃ n, length starts = S n ∧ lp_backoff l = wait n ∧ until ≤ now + wait n
        ∧ ∀ t, last starts = Some t → t + wait n ≤ until
    | Returned => True
    end }.

Lemma paced_start now : paced [] now (mkLoop max initial Testing).
Proof using Him.
  split; [done..|]. cbn. split; [|done]. unfold wait_after. cbn. lia.
Qed.

Lemma paced_later starts now t l : now ≤ t → paced starts now l → paced starts t l.
Proof.
  intros Ht [H1 H2 H3 H4]. split; [done| |done|].
  - intros x Hx. specialize (H2 x Hx). lia.
  - destruct (lp_phase l).
    + destruct H4 as [? H4]. split; [done|]. intros n x Hn Hx. specialize (H4 n x Hn Hx). lia.
    + done.
    + destruct H4 as (n & ? & ? & ? & ?). exists n. split_and!; [done..|lia|done].
    + done.
Qed.

(** The attempt that [l] begins at [now], if it begins one. *)
Definition begun (now : Time) (l : Loop) : list Time :=
  if decide (lp_phase l = Trying) then [now] else [].

Lemma begun_yes now l : lp_phase l = Trying → begun now l = [now].
Proof. intros E. unfold begun. by rewrite decide_True. Qed.
Lemma begun_no now l : lp_phase l ≠ Trying → begun now l = [].
Proof. intros E. unfold begun. by rewrite decide_False. Qed.

Lemma act_paced a done now l l' starts :
  loop_act a done now l = Some l' → paced starts now l →
  paced (starts ++ begun now l') now l'.
Proof using Him.
  intros Ha [H1 H2 H3 H4]. destruct l as [m b p]. cbn in H1. subst m.
  unfold loop_act in Ha. cbn [lp_phase lp_max lp_backoff with_phase] in *.
  destruct a, p; try done.
  - destruct done; injection Ha as <-.
    + rewrite begun_no, app_nil_r by done. by split.
    + rewrite begun_yes by done. destruct H4 as [-> H4]. split; cbn.
      * done.
      * intros t. rewrite last_snoc. intros [= ->]. lia.
      * intros i x y Hx Hy. destruct (decide (S i < length starts)%nat) as [Hi|Hi].
        { apply (H3 i); [rewrite lookup_app_l in Hx by lia|rewrite lookup_app_l in Hy by lia]; done. }
        pose proof (lookup_lt_Some _ _ _ Hy) as Hl. rewrite length_app in Hl. cbn in Hl.
        assert (length starts = S i) as Hlen by lia.
        rewrite lookup_app_l in Hx by lia. rewrite lookup_app_r in Hy by lia.
        rewrite Hlen, Nat.sub_diag in Hy. injection Hy as <-.
        apply H4; [done|]. by rewrite last_lookup, Hlen.
      * exists (length starts). rewrite length_app. cbn. split; [lia|done].
  - injection Ha as <-. rewrite begun_no, app_nil_r by done.
    destruct H4 as (n & Hn & ->). split; cbn; [done..|]. exists n. split_and!; [done|done|lia|].
    intros t Ht. specialize (H2 t Ht). lia.
  - destruct (Z.leb_spec until now) as [Hu|]; [|done]. injection Ha as <-. rewrite begun_no, app_nil_r by done.
    destruct H4 as (n & Hn & -> & Hu' & Ht). split; cbn; [done..|].
    rewrite wait_S, Hn. split; [done|]. intros k t [= ->] Hl. specialize (Ht t Hl). lia.
  - destruct done; [|done]. injection Ha as <-. rewrite begun_no, app_nil_r by done. by split.
Qed.
End pace.

(** ** The goroutines of the daemon *)

Definition first_wait (w : worker) : Duration :=
  match w with WRun => Backoff.run_initial | WDial _ => dial_initial | WRf _ => Backoff.rf_initial end.
Definition longest_wait (w : worker) : Duration :=
  match w with WRun => Backoff.run_max | WDial _ => dial_max | WRf _ => Backoff.rf_max end.
Lemma waits_ok w : 0 < first_wait w ≤ longest_wait w.
Proof. by destruct w. Qed.

Definition loop_of (w : worker) (d : Daemon) : option Loop :=
  match w with
  | WRun => Some (dm_run d)
  | WDial i => dm_dials d !! i
  | WRf i => rf_dial <$> dm_rfs d !! i
  end.
(** Whether the context a loop looks at is done. *)
Definition ctx_over (w : worker) (d : Daemon) : bool :=
  match w with
  | WRf i => dm_done d || from_option rf_over true (dm_rfs d !! i)
  | _ => dm_done d
  end.
Definition starts_of (w : worker) (log : list (worker * Time)) : list Time :=
  snd <$> filter (λ e : worker * Time, e.1 = w) log.

Lemma starts_app w log log' : starts_of w (log ++ log') = starts_of w log ++ starts_of w log'.
Proof. unfold starts_of. by rewrite filter_app, fmap_app. Qed.
Lemma starts_of_other w w' now l :
  w' ≠ w → starts_of w (if decide (lp_phase l = Trying) then [(w', now)] else []) = [].
Proof.
  intros Hw. case_decide; [|done]. unfold starts_of. rewrite filter_cons_False; [done|]. cbn. congruence.
Qed.
Lemma starts_of_same w now l :
  starts_of w (if decide (lp_phase l = Trying) then [(w, now)] else []) = begun now l.
Proof.
  unfold begun. case_decide; [|done]. unfold starts_of. by rewrite filter_cons_True.
Qed.

Record sup_ok (d : Daemon) : Prop := {
  so_pace w l : loop_of w d = Some l →
    paced (first_wait w) (longest_wait w) (starts_of w (dm_log d)) (dm_now d) l;
  so_none w : loop_of w d = None → starts_of w (dm_log d) = [];
  so_live w l : loop_of w d = Some l → ctx_over w d = false → lp_phase l ≠ Returned }.

(** Only a dial can be blocked. *)
Definition blocked_ok (d : Daemon) : Prop :=
  ∀ i x, dm_rfs d !! i = Some x → rf_blocked x = true → lp_phase (rf_dial x) = Trying.

(** A step changes one loop, by one of its actions, and notes the attempt. *)
Record moved (w : worker) (a : act) (d d' : Daemon) : Prop := {
  mv_loop : ∃ l l', loop_of w d = Some l ∧ loop_act a (ctx_over w d) (dm_now d) l = Some l'
    ∧ loop_of w d' = Some l'
    ∧ dm_log d' = dm_log d ++ if decide (lp_phase l' = Trying) then [(w, dm_now d)] else [];
  mv_others w' : w' ≠ w → loop_of w' d' = loop_of w' d;
  mv_ctx w' : ctx_over w' d = true → ctx_over w' d' = true;
  mv_same w' : a ≠ Finish → ctx_over w' d' = ctx_over w' d;
  mv_now : dm_now d' = dm_now d;
  mv_done : dm_done d' = dm_done d }.

Lemma end_rfs_loop i rfs : rf_dial <$> end_rfs rfs !! i = rf_dial <$> rfs !! i.
Proof. unfold end_rfs. rewrite list_lookup_fmap. by destruct (rfs !! i). Qed.

Lemma finish_waits done now l l' :
  loop_act Finish done now l = Some l' → lp_phase l' = Waiting (now + lp_backoff l) ∧ lp_phase l = Trying.
Proof. unfold loop_act. destruct (lp_phase l) eqn:E; try done. intros [= <-]. done. Qed.

(** One dialler of an RF peer goes on; contexts stay. *)
Lemma rf_ctx i r b l d w' :
  dm_rfs d !! i = Some r →
  ctx_over w' (set_rfs (<[i := mkRf (rf_peer r) (rf_over r) b l]> (dm_rfs d)) d) = ctx_over w' d.
Proof.
  intros E. destruct w' as [|j|j]; cbn; [done..|]. f_equal.
  destruct (decide (i = j)) as [->|Hne]; [|by rewrite list_lookup_insert_ne].
  rewrite list_lookup_insert_eq by by eapply lookup_lt_Some. by rewrite E.
Qed.

Lemma step_moved w a d d' : step_loop w a d = Some d' → moved w a d d'.
Proof.
  unfold step_loop. destruct w as [|i|i].
  - case_decide as Ha.
    + subst a. destruct (dm_up d); [|done]. intros H. apply bind_Some in H as (l & Hl & [= <-]).
      split; cbn; try done.
      * exists (dm_run d), l. split_and!; [done..|].
        destruct (finish_waits _ _ _ _ Hl) as [-> _]. by rewrite app_nil_r.
      * intros [| |i] Hw; [done|done|]. cbn. apply end_rfs_loop.
      * intros [| |i]; cbn; [done..|]. destruct (dm_done d); [done|]. cbn.
        unfold end_rfs. rewrite list_lookup_fmap. by destruct (dm_rfs d !! i).
    + intros H. apply bind_Some in H as (l & Hl & [= <-]). split; cbn; try done; [by eexists _, _|].
      by intros [| |i] Hw.
  - intros H. apply bind_Some in H as (l0 & E0 & H). apply bind_Some in H as (l & Hl & [= <-]).
    assert (i < length (dm_dials d))%nat as Hi by by eapply lookup_lt_Some.
    split; cbn; try done.
    + exists l0, l. split_and!; [done..| |done]. by apply list_lookup_insert_eq.
    + intros [| j|j] Hw; [done| |done]. cbn. apply list_lookup_insert_ne. congruence.
  - intros H. apply bind_Some in H as (r & E0 & H). destruct (rf_blocked r) eqn:Eb; [done|].
    apply bind_Some in H as (l & Hl & [= <-]).
    assert (i < length (dm_rfs d))%nat as Hi by by eapply lookup_lt_Some.
    pose proof (rf_ctx i r false l d) as Hc.
    split; try done.
    + exists (rf_dial r), l. cbn. rewrite E0. cbn. split_and!; [done..| |done].
      by rewrite list_lookup_insert_eq.
    + intros [| j|j] Hw; [done|done|]. cbn. rewrite list_lookup_insert_ne by congruence. done.
    + intros w' Hw. by rewrite <- (Hc w' E0) in Hw.
    + intros w' _. exact (Hc w' E0).
Qed.

Lemma act_live a now l l' : loop_act a false now l = Some l' → lp_phase l' ≠ Returned.
Proof. unfold loop_act. destruct a, (lp_phase l); try done; [..|case_match]; by intros [= <-]. Qed.

Lemma moved_ok w a d d' : moved w a d d' → sup_ok d → sup_ok d'.
Proof.
  intros [(l & l' & E1 & Ha & E2 & El) Ho Hc _ Hn _] [H1 H2 H3].
  split.
  - intros w' x Ex. rewrite El, starts_app, Hn. destruct (decide (w' = w)) as [->|Hw].
    + rewrite E2 in Ex. injection Ex as <-. rewrite starts_of_same.
      by eapply act_paced; [apply waits_ok| |apply H1].
    + rewrite starts_of_other, app_nil_r by done. apply H1. by rewrite <- (Ho w' Hw).
  - intros w' Ex. destruct (decide (w' = w)) as [->|Hw]; [congruence|].
    rewrite El, starts_app, starts_of_other, app_nil_r by done. apply H2. by rewrite <- (Ho w' Hw).
  - intros w' x Ex Hx. assert (ctx_over w' d = false) as Hx'.
    { destruct (ctx_over w' d) eqn:E; [|done]. by rewrite (Hc w' E) in Hx. }
    destruct (decide (w' = w)) as [->|Hw].
    + rewrite E2 in Ex. injection Ex as <-. rewrite Hx' in Ha. by eapply act_live.
    + apply (H3 w'); [|done]. by rewrite <- (Ho w' Hw).
Qed.

(** Steps that leave every loop as it is, except for loops that are new. *)
Lemma quiet_ok d d' :
  (∀ w l, loop_of w d' = Some l →
     loop_of w d = Some l ∨ loop_of w d = None ∧ l = mkLoop (longest_wait w) (first_wait w) Testing) →
  (∀ w, loop_of w d' = None → loop_of w d = None) →
  (∀ w, is_Some (loop_of w d) → ctx_over w d = true → ctx_over w d' = true) →
  dm_log d' = dm_log d → dm_now d ≤ dm_now d' → sup_ok d → sup_ok d'.
Proof.
  intros Hl Hn Hc El Et [H1 H2 H3]. split.
  - intros w l E. rewrite El. destruct (Hl w l E) as [E'|[E' ->]].
    + eapply paced_later; [done|]. by apply H1.
    + rewrite H2 by done. apply paced_start, waits_ok.
  - intros w E. rewrite El. by apply H2, Hn.
  - intros w l E Hx. destruct (Hl w l E) as [E'|[E' ->]]; [|done].
    apply (H3 w l E'). destruct (ctx_over w d) eqn:Eo; [|done]. by rewrite Hc in Hx.
Qed.

Lemma attach_cases a d d' :
  attach a d = Some d' →
  moved WRun Finish d d'
  ∨ lp_phase (dm_run d) = Trying ∧ dm_up d = false
    ∧ ∃ n, d' = set_run n (dm_run d) true
             (dm_rfs d ++ ((λ p, mkRf p false false rf_loop) <$> op_RFPeers (dm_opts d))) d.
Proof.
  unfold attach. case_decide as Hd; [|done].
  destruct (Main.attachOnce (dm_opts d) a (dm_node d)) as [[r sent] n] eqn:E.
  assert (∀ l, loop_act Finish (dm_done d) (dm_now d) (dm_run d) = Some l →
    moved WRun Finish d (set_run n l false (dm_rfs d) d)) as Hfail.
  { intros l Hl. split; cbn; try done; [|by intros [| |i]].
    exists (dm_run d), l. split_and!; [done..|].
    destruct (finish_waits _ _ _ _ Hl) as [-> _]. by rewrite app_nil_r. }
  destruct r as [|e|e|r|e|cs dials];
    try (intros H; apply bind_Some in H as (l & Hl & [= <-]); left; by apply Hfail).
  intros [= <-]. right. split_and!; [apply Hd..|]. exists n.
  assert (dials = op_RFPeers (dm_opts d)) as ->; [|done].
  unfold attachOnce in E. destruct (an_connect a); [|done]. cbn [negb] in E.
  destruct (if decide (op_User (dm_opts d) = []) then None else an_auth a); [done|].
  destruct (an_socket a); [|done]. destruct (Binding.bindCallsign _ _ _) as [[c|e|] tried]; try done.
  destruct (an_listen a); [done|]. by injection E as _ ->.
Qed.

Lemma rfs_app d i (ps : list Conf.RFPeer) :
  let rfs := dm_rfs d ++ ((λ p, mkRf p false false rf_loop) <$> ps) in
  rfs !! i = dm_rfs d !! i ∧ (i < length (dm_rfs d))%nat
  ∨ dm_rfs d !! i = None ∧ (rfs !! i = None ∨ ∃ p, rfs !! i = Some (mkRf p false false rf_loop)).
Proof.
  intros rfs. destruct (decide (i < length (dm_rfs d))%nat) as [Hi|Hi].
  - left. split; [|done]. unfold rfs. by rewrite lookup_app_l.
  - right. split; [by apply lookup_ge_None_2; lia|]. unfold rfs.
    rewrite lookup_app_r, list_lookup_fmap by lia. destruct (ps !! _); cbn; eauto.
Qed.

(** Blocking and waking change no loop. *)
Lemma blocked_loops i b d d' :
  set_blocked i b d = Some d' →
  ∃ x, dm_rfs d !! i = Some x ∧ lp_phase (rf_dial x) = Trying ∧ rf_blocked x = negb b
    ∧ d' = set_rfs (<[i := mkRf (rf_peer x) (rf_over x) b (rf_dial x)]> (dm_rfs d)) d
    ∧ (∀ w, loop_of w d' = loop_of w d) ∧ ∀ w, ctx_over w d' = ctx_over w d.
Proof.
  intros H. apply bind_Some in H as (x & E & H). case_decide as Hd; [|done]. injection H as <-.
  exists x. split_and!; try done; [apply Hd..| |intros w; by apply rf_ctx].
  intros [|j|j]; cbn; [done..|]. destruct (decide (i = j)) as [->|Hne].
  - rewrite list_lookup_insert_eq, E by by eapply lookup_lt_Some. done.
  - by rewrite list_lookup_insert_ne.
Qed.

Lemma exec_ok e d d' : exec e d = Some d' → sup_ok d → sup_ok d'.
Proof.
  intros He Hok. destruct e as [|t| | | |a|w a|i|i| | |]; cbn [exec] in He.
  - injection He as <-. eapply quiet_ok, Hok; try done; [by left|by intros [| |i] _].
  - destruct (Z.leb_spec (dm_now d) t); [|done]. injection He as <-.
    eapply quiet_ok, Hok; try done. by left.
  - case_decide; [|done]. injection He as <-. eapply quiet_ok, Hok; try done. by left.
  - case_decide; [done|]. injection He as <-. eapply quiet_ok, Hok; try done; [by left|by intros [| |i] _].
  - case_decide; [|done]. injection He as <-. eapply quiet_ok, Hok; try done; [by left|by intros [| |i] _].
  - destruct (attach_cases _ _ _ He) as [Hm|(_ & _ & n & ->)]; [by eapply moved_ok|].
    eapply quiet_ok, Hok; try done; cbn.
    + intros [| |i] l; cbn; [by left..|].
      destruct (rfs_app d i (op_RFPeers (dm_opts d))) as [[-> _]|[-> [->|[p ->]]]]; cbn; [by left|done|].
      intros [= <-]. by right.
    + intros [| |i]; cbn; [done..|].
      destruct (rfs_app d i (op_RFPeers (dm_opts d))) as [[-> _]|[-> _]]; done.
    + intros [| |i]; cbn; [done..|]. intros [x Hx].
      destruct (rfs_app d i (op_RFPeers (dm_opts d))) as [[-> _]|[E _]]; [done|].
      by rewrite E in Hx.
  - by eapply moved_ok; [eapply step_moved|].
  - destruct (blocked_loops _ _ _ _ He) as (x & _ & _ & _ & Ed & El & Ec).
    eapply quiet_ok, Hok; rewrite ?Ed; try done; rewrite <- Ed.
    + intros w l. rewrite El. by left.
    + intros w. by rewrite El.
    + intros w _. by rewrite Ec.
  - destruct (blocked_loops _ _ _ _ He) as (x & _ & _ & _ & Ed & El & Ec).
    eapply quiet_ok, Hok; rewrite ?Ed; try done; rewrite <- Ed.
    + intros w l. rewrite El. by left.
    + intros w. by rewrite El.
    + intros w _. by rewrite Ec.
  - case_decide; [|done]. injection He as <-. eapply quiet_ok, Hok; try done. by left.
  - case_decide; [|done]. injection He as <-. eapply quiet_ok, Hok; try done. by left.
  - case_decide; [|done]. injection He as <-. eapply quiet_ok, Hok; try done. by left.
Qed.

Lemma execs_ok es : ∀ d d', execs es d = Some d' → sup_ok d → sup_ok d'.
Proof.
  induction es as [|e es IH]; cbn; intros d d' H Hok; [by injection H as <-|].
  apply bind_Some in H as (d1 & H1 & H). eapply IH; [done|]. by eapply exec_ok.
Qed.

Lemma exec_blocked e d d' : exec e d = Some d' → blocked_ok d → blocked_ok d'.
Proof.
  intros He Hb.
  assert (∀ i x, dm_rfs d !! i = Some x → ∀ b l, (b = true → lp_phase l = Trying) →
    ∀ j z, <[i := mkRf (rf_peer x) (rf_over x) b l]> (dm_rfs d) !! j = Some z → rf_blocked z = true →
    lp_phase (rf_dial z) = Trying) as Hins.
  { intros i x E b l Hl j z Ez Hz. destruct (decide (i = j)) as [->|Hne].
    - rewrite list_lookup_insert_eq in Ez by by eapply lookup_lt_Some. injection Ez as <-. by apply Hl.
    - rewrite list_lookup_insert_ne in Ez by done. by apply (Hb j z). }
  destruct e as [|t| | | |a|w a|i|i| | |]; cbn [exec] in He;
    try (by injection He as <-); try (case_match; [|done]; by injection He as <-);
    try (case_match; [done|]; by injection He as <-).
  - destruct (attach_cases _ _ _ He) as [Hm|(_ & _ & n & ->)].
    + unfold attach in He. case_decide; [|done]. destruct (Main.attachOnce _ _ _) as [[[] sent] n];
        try (apply bind_Some in He as (l & _ & [= <-]); exact Hb).
      injection He as <-. intros i x. cbn. destruct (decide (i < length (dm_rfs d))%nat).
      * rewrite lookup_app_l by done. apply Hb.
      * rewrite lookup_app_r, list_lookup_fmap by lia. by intros (p & _ & ->)%fmap_Some.
    + intros i x. cbn. destruct (decide (i < length (dm_rfs d))%nat).
      * rewrite lookup_app_l by done. apply Hb.
      * rewrite lookup_app_r, list_lookup_fmap by lia. by intros (p & _ & ->)%fmap_Some.
  - unfold step_loop in He. destruct w as [|i|i].
    + case_decide.
      * destruct (dm_up d); [|done]. apply bind_Some in He as (l & _ & [= <-]). intros i x. cbn.
        unfold end_rfs. rewrite list_lookup_fmap. destruct (dm_rfs d !! i) as [z|] eqn:E; [|done].
        cbn. intros [= <-]. cbn. by apply (Hb i z).
      * apply bind_Some in He as (l & _ & [= <-]). exact Hb.
    + apply bind_Some in He as (l0 & _ & He). apply bind_Some in He as (l & _ & [= <-]). exact Hb.
    + apply bind_Some in He as (x & E & He). destruct (rf_blocked x); [done|].
      apply bind_Some in He as (l & _ & [= <-]). exact (Hins i x E false l ltac:(done)).
  - destruct (blocked_loops _ _ _ _ He) as (x & E & Ep & _ & -> & _). exact (Hins i x E true _ ltac:(done)).
  - destruct (blocked_loops _ _ _ _ He) as (x & E & Ep & _ & -> & _). exact (Hins i x E false _ ltac:(done)).
Qed.
Lemma execs_blocked es : ∀ d d', execs es d = Some d' → blocked_ok d → blocked_ok d'.
Proof.
  induction es as [|e es IH]; cbn; intros d d' H Hb; [by injection H as <-|].
  apply bind_Some in H as (d1 & H1 & H). eapply IH, exec_blocked; done.
Qed.

Lemma launch_ok cfg now : sup_ok (launch cfg now).
Proof.
  split; [|done|].
  - intros [|i|i] l; cbn; [intros [= <-]; exact (paced_start _ _ (waits_ok WRun) now)| |].
    + rewrite list_lookup_fmap. destruct (Conf.Peers cfg !! i); [|done]. intros [= <-].
      exact (paced_start _ _ (waits_ok (WDial i)) now).
    + by rewrite lookup_nil.
  - intros [|i|i] l; cbn; [by intros [= <-]| |].
    + rewrite list_lookup_fmap. destruct (Conf.Peers cfg !! i); [|done]. by intros [= <-].
    + by rewrite lookup_nil.
Qed.

Lemma launch_blocked cfg now : blocked_ok (launch cfg now).
Proof. intros i x E. by destruct i. Qed.

(** ** Retrying *)

Lemma step_some w a d l l' :
  blocked_ok d → loop_of w d = Some l → loop_act a (ctx_over w d) (dm_now d) l = Some l' → a ≠ Finish →
  ∃ d', step_loop w a d = Some d'.
Proof.
  intros Hb E Ha Hf. destruct w as [|i|i]; cbn in E, Ha |- *.
  - rewrite decide_False by done. injection E as ->. rewrite Ha. by eexists.
  - rewrite E. cbn. rewrite Ha. by eexists.
  - destruct (dm_rfs d !! i) as [r|] eqn:Er; [|done]. injection E as <-. cbn in Ha |- *.
    destruct (rf_blocked r) eqn:Eb; [|rewrite Ha; by eexists].
    unfold loop_act in Ha. rewrite (Hb i r Er Eb) in Ha. by destruct a.
Qed.

(** A loop at its test, with its context not done, begins an attempt. *)
Lemma test_begins w d l :
  blocked_ok d → loop_of w d = Some l → lp_phase l = Testing → ctx_over w d = false →
  ∃ d', step_loop w Test d = Some d' ∧ dm_log d' = dm_log d ++ [(w, dm_now d)].
Proof.
  intros Hb E Ep Hc.
  assert (loop_act Test (ctx_over w d) (dm_now d) l = Some (with_phase Trying l)) as Ha.
  { unfold loop_act. by rewrite Ep, Hc. }
  destruct (step_some w Test d l _ Hb E Ha ltac:(done)) as [d' Hd]. exists d'. split; [done|].
  destruct (step_moved _ _ _ _ Hd) as [(l0 & l1 & E0 & H1 & _ & ->) _ _ _ _ _].
  rewrite E in E0. injection E0 as <-. rewrite Ha in H1. by injection H1 as <-.
Qed.

Lemma timer_begins w d l u :
  blocked_ok d → loop_of w d = Some l → lp_phase l = Waiting u → ctx_over w d = false →
  let t := Z.max (dm_now d) u in
  ∃ d', execs [Clock t; Step w Fire; Step w Test] d = Some d' ∧ dm_log d' = dm_log d ++ [(w, t)].
Proof.
  intros Hb E Ep Hc t. cbn [execs exec]. destruct (Z.leb_spec (dm_now d) t); [|lia]. cbn [mbind option_bind].
  set (d1 := set_time t d).
  assert (loop_of w d1 = Some l) as E1 by by destruct w.
  assert (ctx_over w d1 = false) as Hc1 by by destruct w.
  set (l1 := mkLoop (lp_max l) (Backoff.next (lp_max l) (lp_backoff l)) Testing).
  assert (loop_act Fire (ctx_over w d1) (dm_now d1) l = Some l1) as Ha.
  { unfold loop_act. rewrite Ep. cbn. destruct (Z.leb_spec u t); [done|lia]. }
  destruct (step_some w Fire d1 l _ Hb E1 Ha ltac:(done)) as [d2 Hd2]. rewrite Hd2. cbn [mbind option_bind].
  destruct (step_moved _ _ _ _ Hd2) as [(l0 & l' & E0 & H1 & E2 & El) _ _ Hsame Hnow _].
  rewrite E1 in E0. injection E0 as <-. rewrite Ha in H1. injection H1 as <-.
  destruct (test_begins w d2 l1 (exec_blocked (Step w Fire) d1 d2 Hd2 Hb) E2 eq_refl) as (d3 & Hd3 & El3); [by rewrite Hsame|].
  exists d3. rewrite Hd3. split; [done|]. rewrite El3, El, Hnow. by rewrite app_nil_r.
Qed.


(** ** Stopping *)

(** The steps a loop has left once its context is done. *)
Definition loop_weight (l : Loop) : nat :=
  match lp_phase l with Returned => 0 | Testing => 1 | Waiting _ => 2 | Trying => 3 end%nat.
(** The attachment's attempt may still start its diallers. *)
Definition run_weight (d : Daemon) : nat :=
  if decide (lp_phase (dm_run d) = Trying ∧ dm_up d = false)
  then (4 + length (op_RFPeers (dm_opts d)))%nat else loop_weight (dm_run d).
Definition web_weight (p : web_phase) : nat :=
  match p with WebStarting => 2 | WebServing => 1 | WebReturned => 0 end%nat.
Definition listen_weight (p : listen_phase) : nat :=
  match p with ListenStarting => 2 | ListenAccepting => 1 | ListenReturned => 0 end%nat.
Definition rfs_weight (rfs : list Rf) : nat := sum_list_with (λ r, loop_weight (rf_dial r)) rfs.
Definition weight (d : Daemon) : nat :=
  (web_weight (dm_web d) + listen_weight (dm_listen d) + run_weight d
   + sum_list_with loop_weight (dm_dials d) + rfs_weight (dm_rfs d))%nat.

(** A step of a goroutine; a dial that begins to wait, and the push it waits for, are the
    doing of the other end. *)
Definition moves (e : ev) : bool := match e with Signal | Clock _ | Block _ | Wake _ => false | _ => true end.

Lemma sum_insert {A} (f : A → nat) ls i x y :
  ls !! i = Some x → (sum_list_with f (<[i := y]> ls) + f x = sum_list_with f ls + f y)%nat.
Proof.
  revert i. induction ls as [|a ls IH]; intros [|i] E; try done.
  - injection E as ->. cbn. lia.
  - specialize (IH i E). change (<[S i:=y]> (a :: ls)) with (a :: <[i:=y]> ls).
    cbn [sum_list_with]. lia.
Qed.

Lemma act_weight a now l l' :
  loop_act a true now l = Some l' → (loop_weight l' < loop_weight l)%nat ∧ lp_phase l' ≠ Trying.
Proof.
  intros H. unfold loop_weight at 2. unfold loop_act in H. destruct a, (lp_phase l); try done;
    [| |destruct (until <=? now); [|done]|]; injection H as <-; cbn; (split; [lia|done]).
Qed.

Lemma note_over w l d : lp_phase l ≠ Trying → note w l d = d.
Proof. intros H. unfold note. rewrite decide_False, app_nil_r by done. by destruct d. Qed.

Lemma end_rfs_weight rfs : rfs_weight (end_rfs rfs) = rfs_weight rfs.
Proof.
  unfold rfs_weight, end_rfs. by induction rfs as [|r rfs IH]; cbn; [|rewrite IH].
Qed.

Lemma run_le d : (loop_weight (dm_run d) ≤ run_weight d)%nat.
Proof. unfold run_weight, loop_weight. case_decide as H; [|done]. destruct H as [-> _]. lia. Qed.

(** The attachment's loop leaves its phase. *)
Lemma run_moves n l up rfs d :
  (loop_weight l < loop_weight (dm_run d))%nat → lp_phase l ≠ Trying →
  rfs_weight rfs = rfs_weight (dm_rfs d) →
  (weight (set_run n l up rfs d) < weight d)%nat.
Proof.
  intros Hl Hp Hr.
  assert (run_weight (set_run n l up rfs d) = loop_weight l) as Hw.
  { unfold run_weight. cbn. by rewrite decide_False by tauto. }
  pose proof (run_le d). unfold weight. rewrite Hw.
  change (dm_rfs (set_run n l up rfs d)) with rfs. rewrite Hr. cbn. lia.
Qed.

(** What the other steps leave of the sum. *)
Lemma weight_parts d :
  (∀ p done, weight (set_web p done d) + web_weight (dm_web d) = weight d + web_weight p)%nat
  ∧ (∀ t, weight (set_time t d) = weight d)
  ∧ (∀ p, weight (set_listen p d) + listen_weight (dm_listen d) = weight d + listen_weight p)%nat
  ∧ (∀ ls, weight (set_dials ls d) + sum_list_with loop_weight (dm_dials d)
       = weight d + sum_list_with loop_weight ls)%nat
  ∧ (∀ rfs, weight (set_rfs rfs d) + rfs_weight (dm_rfs d) = weight d + rfs_weight rfs)%nat.
Proof.
  unfold weight.
  split_and!; intros;
    change (run_weight (set_web _ _ d)) with (run_weight d)
      || change (run_weight (set_time _ d)) with (run_weight d)
      || change (run_weight (set_listen _ d)) with (run_weight d)
      || change (run_weight (set_dials _ d)) with (run_weight d)
      || change (run_weight (set_rfs _ d)) with (run_weight d);
    cbn [dm_web dm_listen dm_dials dm_rfs set_web set_time set_listen set_dials set_rfs set_run]; lia.
Qed.

Lemma step_weight w a d d' :
  dm_done d = true → step_loop w a d = Some d' →
  (weight d' < weight d)%nat ∧ dm_log d' = dm_log d ∧ dm_done d' = true.
Proof.
  intros Hd. unfold step_loop. rewrite Hd. destruct w as [|i|i].
  - case_decide as Ha.
    + destruct (dm_up d); [|done]. intros H. apply bind_Some in H as (l & Hl & [= <-]).
      apply act_weight in Hl as [H1 H2]. split; [|done]. by apply run_moves, end_rfs_weight.
    + intros H. apply bind_Some in H as (l & Hl & [= <-]). apply act_weight in Hl as [H1 H2].
      rewrite note_over by done. split; [|done]. by apply run_moves.
  - intros H. apply bind_Some in H as (l0 & E0 & H). apply bind_Some in H as (l & Hl & [= <-]).
    apply act_weight in Hl as [H1 H2]. rewrite note_over by done. split; [|done].
    pose proof (sum_insert loop_weight (dm_dials d) i l0 l E0).
    destruct (weight_parts d) as (_ & _ & _ & Hw & _). specialize (Hw (<[i:=l]> (dm_dials d))). lia.
  - intros H. apply bind_Some in H as (r & E0 & H). destruct (rf_blocked r); [done|].
    apply bind_Some in H as (l & Hl & [= <-]).
    apply act_weight in Hl as [H1 H2]. rewrite note_over by done. split; [|done].
    set (r' := mkRf (rf_peer r) (rf_over r) false l).
    pose proof (sum_insert (λ r, loop_weight (rf_dial r)) (dm_rfs d) i r r' E0) as Hs.
    destruct (weight_parts d) as (_ & _ & _ & _ & Hw). specialize (Hw (<[i:=r']> (dm_rfs d))).
    unfold rfs_weight in Hw. cbn [rf_dial r'] in Hs. lia.
Qed.

Lemma new_rfs_weight (ps : list Conf.RFPeer) :
  rfs_weight ((λ p, mkRf p false false rf_loop) <$> ps) = length ps.
Proof. unfold rfs_weight. induction ps as [|p ps IH]; cbn; [done|]. cbn in IH. lia. Qed.

Lemma attach_weight a d d' :
  dm_done d = true → attach a d = Some d' →
  (weight d' < weight d)%nat ∧ dm_log d' = dm_log d ∧ dm_done d' = true.
Proof.
  intros Hd H. unfold attach in H. case_decide as Hp; [|done].
  destruct (Main.attachOnce (dm_opts d) a (dm_node d)) as [[r sent] n] eqn:E.
  destruct r as [|e|e|r|e|cs dials];
    try (apply bind_Some in H as (l & Hl & [= <-]); rewrite Hd in Hl;
         apply act_weight in Hl as [H1 H2]; split; [by apply run_moves|done]).
  assert (attach a d = Some d') as Ha by (unfold attach; by rewrite decide_True, E).
  destruct (attach_cases a d d' Ha) as [[(l & l' & E1 & Hl & E2 & _) _ _ _ _ _]|(_ & _ & n' & ->)].
  { injection H as <-. cbn in E1, E2. injection E1 as <-. injection E2 as <-.
    change (ctx_over WRun d) with (dm_done d) in Hl. rewrite Hd in Hl.
    by apply act_weight in Hl as [Hl _]; lia. }
  split; [|done]. set (rfs := _ ++ _).
  assert (rfs_weight rfs = rfs_weight (dm_rfs d) + length (op_RFPeers (dm_opts d)))%nat as Hr.
  { unfold rfs, rfs_weight. rewrite sum_list_with_app. f_equal. apply new_rfs_weight. }
  assert (run_weight (set_run n' (dm_run d) true rfs d) = 3)%nat as H3.
  { unfold run_weight. cbn. rewrite decide_False by (intros [_ ?]; done).
    unfold loop_weight. by destruct Hp as [-> _]. }
  unfold weight. rewrite H3. change (dm_rfs (set_run n' (dm_run d) true rfs d)) with rfs.
  unfold run_weight. rewrite (decide_True (P := _ ∧ dm_up d = false)) by done. rewrite Hr. cbn. lia.
Qed.

Lemma blocked_weight i b d d' :
  set_blocked i b d = Some d' → weight d' = weight d ∧ dm_log d' = dm_log d ∧ dm_done d' = dm_done d.
Proof.
  intros H. destruct (blocked_loops i b d d' H) as (x & E & _ & _ & -> & _). split; [|done].
  set (x' := mkRf (rf_peer x) (rf_over x) b (rf_dial x)).
  pose proof (sum_insert (λ r, loop_weight (rf_dial r)) (dm_rfs d) i x x' E) as Hs.
  destruct (weight_parts d) as (_ & _ & _ & _ & Hw). specialize (Hw (<[i:=x']> (dm_rfs d))).
  unfold rfs_weight in Hw. cbn [rf_dial x'] in Hs. lia.
Qed.

Lemma exec_weight e d d' :
  dm_done d = true → exec e d = Some d' →
  (weight d' + (if moves e then 1 else 0) ≤ weight d)%nat ∧ dm_log d' = dm_log d ∧ dm_done d' = true.
Proof.
  intros Hd He. destruct (weight_parts d) as (Hw & Ht & Hl & _).
  destruct e as [|t| | | |a|w a|i|i| | |]; cbn [exec moves] in *.
  - injection He as <-. split; [|done]. specialize (Hw (dm_web d) true). lia.
  - case_match; [|done]. injection He as <-. split; [|done]. rewrite Ht. lia.
  - case_decide as E; [|done]. injection He as <-. split; [|done].
    specialize (Hw WebServing (dm_done d)). rewrite E in Hw. cbn [web_weight] in Hw. lia.
  - case_decide as E; [done|]. injection He as <-. split; [|done].
    specialize (Hw WebReturned true). destruct (dm_web d); cbn [web_weight] in Hw; [lia..|done].
  - case_decide as E; [|done]. injection He as <-. split; [|done].
    specialize (Hw WebReturned true). destruct E as [E _]. rewrite E in Hw. cbn [web_weight] in Hw. lia.
  - destruct (attach_weight a d d' Hd He) as (? & ? & ?). split_and!; [lia|done..].
  - destruct (step_weight w a d d' Hd He) as (? & ? & ?). split_and!; [lia|done..].
  - destruct (blocked_weight i true d d' He) as (? & ? & ?). split_and!; [lia|done|congruence].
  - destruct (blocked_weight i false d d' He) as (? & ? & ?). split_and!; [lia|done|congruence].
  - case_decide as E; [|done]. injection He as <-. split; [|done].
    specialize (Hl ListenAccepting). rewrite E in Hl. cbn [listen_weight] in Hl. lia.
  - case_decide as E; [|done]. injection He as <-. split; [|done].
    specialize (Hl ListenReturned). rewrite E in Hl. cbn [listen_weight] in Hl. lia.
  - case_decide as E; [|done]. injection He as <-. split; [|done].
    specialize (Hl ListenReturned). destruct E as [E _]. rewrite E in Hl. cbn [listen_weight] in Hl. lia.
Qed.

Lemma execs_weight es : ∀ d d',
  dm_done d = true → execs es d = Some d' →
  (length (List.filter moves es) + weight d' ≤ weight d)%nat ∧ dm_log d' = dm_log d ∧ dm_done d' = true.
Proof.
  induction es as [|e es IH]; cbn; intros d d' Hd H; [by injection H as <-|].
  apply bind_Some in H as (d1 & H1 & H). destruct (exec_weight e d d1 Hd H1) as (W1 & L1 & D1).
  destruct (IH d1 d' D1 H) as (W2 & L2 & D2). split; [|by rewrite L2].
  destruct (moves e); cbn; lia.
Qed.

(** A dial that waits for the other end. *)
Definition blocked (w : worker) (d : Daemon) : bool :=
  match w with WRf i => from_option rf_blocked false (dm_rfs d !! i) | _ => false end.

(** A goroutine that has not returned and is not blocked can go on once the context is
    done. *)
Lemma loop_goes_on w d l :
  blocked_ok d → dm_done d = true → loop_of w d = Some l → lp_phase l ≠ Returned → blocked w d = false →
  ∃ e, moves e = true ∧ is_Some (exec e d).
Proof.
  intros Hb Hd E Hp Hbl. assert (ctx_over w d = true) as Hc by (destruct w; cbn; by rewrite Hd).
  assert (∀ a l', loop_act a true (dm_now d) l = Some l' → a ≠ Finish →
    ∃ e, moves e = true ∧ is_Some (exec e d)) as Hstep.
  { intros a l' Ha Hf. rewrite <- Hc in Ha. destruct (step_some w a d l l' Hb E Ha Hf) as [d' Hs].
    exists (Step w a). split; [done|]. by exists d'. }
  destruct (lp_phase l) as [| |u|] eqn:Ep; [| | |done].
  - apply (Hstep Test (with_phase Returned l)); [|done]. unfold loop_act. by rewrite Ep.
  - set (l' := with_phase (Waiting (dm_now d + lp_backoff l)) l).
    assert (∀ done, loop_act Finish done (dm_now d) l = Some l') as Ha.
    { intros done. unfold loop_act. by rewrite Ep. }
    destruct w as [|i|i]; cbn in E.
    + injection E as <-. destruct (dm_up d) eqn:Eu.
      * exists (Step WRun Finish). split; [done|].
        cbn [exec step_loop]. rewrite decide_True, Eu, Ha by done. by eexists.
      * exists (Attach (mkAnswers false None (inl 0) (λ _, None) None)). split; [done|].
        cbn [exec]. unfold attach, attachOnce. rewrite decide_True by done. cbn [an_connect negb].
        rewrite Ha. by eexists.
    + exists (Step (WDial i) Finish). split; [done|]. cbn [exec step_loop]. rewrite E.
      cbn [mbind option_bind]. rewrite Ha. by eexists.
    + exists (Step (WRf i) Finish). split; [done|]. cbn [exec step_loop].
      cbn in Hbl. destruct (dm_rfs d !! i) as [r|]; [|done]. injection E as <-. cbn [mbind option_bind].
      cbn in Hbl. rewrite Hbl, Ha. by eexists.
  - apply (Hstep Notice (with_phase Returned l)); [|done]. unfold loop_act. by rewrite Ep.
Qed.

Lemma stuck_over d :
  blocked_ok d → dm_done d = true → (∀ e, moves e = true → exec e d = None) →
  main_over d = true
  ∧ ∀ w l, loop_of w d = Some l → blocked w d = false → lp_phase l = Returned.
Proof.
  intros Hb Hd Hs. assert (∀ e, moves e = true → is_Some (exec e d) → False) as Hno.
  { intros e He [x Hx]. by rewrite Hs in Hx. }
  assert (∀ w l, loop_of w d = Some l → blocked w d = false → lp_phase l = Returned) as Hl.
  { intros w l E Hbl. destruct (decide (lp_phase l = Returned)) as [|Hp]; [done|].
    destruct (loop_goes_on w d l Hb Hd E Hp Hbl) as (e & He & Hx). by destruct (Hno e He Hx). }
  split; [|done]. unfold main_over. rewrite !andb_true_iff, !bool_decide_eq_true, forallb_forall.
  split_and!.
  - destruct (decide (dm_web d = WebReturned)) as [|E]; [done|]. destruct (Hno WebFails eq_refl).
    cbn. rewrite decide_False by done. by eexists.
  - by apply (Hl WRun).
  - intros l Hin%list_elem_of_In. apply bool_decide_eq_true.
    apply list_elem_of_lookup in Hin as [i Hi]. by apply (Hl (WDial i)).
  - destruct (dm_listen d) eqn:E; [| |done].
    + destruct (Hno ListenFails eq_refl). cbn. rewrite decide_True by done. by eexists.
    + destruct (Hno ListenEnds eq_refl). cbn. rewrite decide_True by done. by eexists.
Qed.

Lemma weight_le d :
  (weight d ≤ 8 + length (op_RFPeers (dm_opts d)) + 3 * length (dm_dials d)
   + 3 * length (dm_rfs d))%nat.
Proof.
  assert (∀ l, loop_weight l ≤ 3)%nat as Hl by (intros l; unfold loop_weight; case_match; lia).
  assert (∀ A (f : A → Loop) ls, sum_list_with (λ x, loop_weight (f x)) ls ≤ 3 * length ls)%nat as Hs.
  { intros A f ls. induction ls as [|x ls IH]; cbn; [done|]. specialize (Hl (f x)). lia. }
  pose proof (Hs _ id (dm_dials d)) as H1. pose proof (Hs _ rf_dial (dm_rfs d)) as H2.
  change (sum_list_with (λ x, loop_weight (id x)) (dm_dials d))
    with (sum_list_with loop_weight (dm_dials d)) in H1.
  unfold weight, rfs_weight, run_weight. specialize (Hl (dm_run d)).
  destruct (dm_web d), (dm_listen d); case_decide; cbn [web_weight listen_weight]; lia.
Qed.

(** A blocked dial stays where it is, whatever happens, until a push for its stream. *)
Lemma blocked_stays i es : ∀ d d',
  execs es d = Some d' → Wake i ∉ es → blocked (WRf i) d = true → blocked (WRf i) d' = true.
Proof.
  induction es as [|e es IH]; cbn [execs]; intros d d' H Hn Hb; [by injection H as <-|].
  apply bind_Some in H as (d1 & H1 & H). apply not_elem_of_cons in Hn as [Hne Hn].
  apply (IH d1 d' H Hn). clear IH H. cbn in Hb |- *.
  destruct (dm_rfs d !! i) as [x|] eqn:E; [|done]. cbn in Hb.
  assert (∀ rfs : list Rf, (∃ z, rfs !! i = Some z ∧ rf_blocked z = true) →
    from_option rf_blocked false (rfs !! i) = true) as Hk by (intros rfs (z & -> & Hz); exact Hz).
  assert (∀ ps : list Rf, ∃ z, (dm_rfs d ++ ps) !! i = Some z ∧ rf_blocked z = true) as Happ.
  { intros ps. exists x. rewrite lookup_app_l by by eapply lookup_lt_Some. done. }
  assert (∀ j z, j ≠ i → ∃ z', <[j := z]> (dm_rfs d) !! i = Some z' ∧ rf_blocked z' = true) as Hother.
  { intros j z Hj. exists x. by rewrite list_lookup_insert_ne. }
  destruct e as [|t| | | |a|w a|j|j| | |]; cbn [exec] in H1;
    try (case_match; try done); try (injection H1 as <-; cbn; rewrite E; exact Hb).
  - unfold attach in H1. case_decide; [|done]. destruct (Main.attachOnce _ _ _) as [[[] sent] n];
      try (apply bind_Some in H1 as (l & _ & [= <-]); cbn; rewrite E; exact Hb).
    injection H1 as <-. apply Hk, Happ.
  - unfold step_loop in H1. destruct w as [|j|j].
    + case_decide.
      * destruct (dm_up d); [|done]. apply bind_Some in H1 as (l & _ & [= <-]). apply Hk. cbn.
        unfold end_rfs. rewrite list_lookup_fmap, E. by eexists.
      * apply bind_Some in H1 as (l & _ & [= <-]). cbn. by rewrite E.
    + apply bind_Some in H1 as (l0 & _ & H1). apply bind_Some in H1 as (l & _ & [= <-]). cbn. by rewrite E.
    + apply bind_Some in H1 as (z & Ez & H1). destruct (rf_blocked z) eqn:Eb; [done|].
      apply bind_Some in H1 as (l & _ & [= <-]). apply Hk, Hother. intros ->. congruence.
  - destruct (blocked_loops _ _ _ _ H1) as (z & Ez & _ & Eb & -> & _). apply Hk. cbn.
    destruct (decide (j = i)) as [->|Hj]; [|by apply Hother].
    rewrite list_lookup_insert_eq by by eapply lookup_lt_Some. by eexists.
  - destruct (blocked_loops _ _ _ _ H1) as (z & Ez & _ & Eb & -> & _). apply Hk, Hother. congruence.
Qed.

(** A step of a dialler that begins no attempt. *)
Lemma rf_step i x a l d :
  dm_rfs d !! i = Some x → rf_blocked x = false →
  loop_act a (dm_done d || rf_over x) (dm_now d) (rf_dial x) = Some l → lp_phase l ≠ Trying →
  step_loop (WRf i) a d = Some (set_rfs (<[i := mkRf (rf_peer x) (rf_over x) false l]> (dm_rfs d)) d).
Proof.
  intros E Hb Ha Hp. unfold step_loop. rewrite E. cbn [mbind option_bind]. rewrite Hb, Ha.
  cbn [mbind option_bind]. by rewrite note_over.
Qed.

(** A push for it, and it returns. *)
Lemma blocked_returns i d :
  blocked_ok d → dm_done d = true → blocked (WRf i) d = true →
  ∃ d', execs [Wake i; Step (WRf i) Finish; Step (WRf i) Notice] d = Some d'
    ∧ lp_phase <$> loop_of (WRf i) d' = Some Returned.
Proof.
  intros Hb Hd Hbl. cbn in Hbl. destruct (dm_rfs d !! i) as [x|] eqn:E; [|done]. cbn in Hbl.
  pose proof (lookup_lt_Some _ _ _ E) as Hi. pose proof (Hb i x E Hbl) as Hp.
  assert (∀ l, <[i := mkRf (rf_peer x) (rf_over x) false l]> (dm_rfs d) !! i
               = Some (mkRf (rf_peer x) (rf_over x) false l)) as El
    by (intros l; by apply list_lookup_insert_eq).
  cbn [execs exec]. unfold set_blocked. rewrite E. cbn [mbind option_bind].
  rewrite decide_True by done. cbn [mbind option_bind].
  set (l1 := with_phase (Waiting (dm_now d + lp_backoff (rf_dial x))) (rf_dial x)).
  erewrite (rf_step i _ Finish l1); [|apply El|done|unfold loop_act; cbn [rf_dial]; by rewrite Hp|done].
  cbn [mbind option_bind set_rfs set_run dm_rfs rf_peer rf_over]. rewrite list_insert_insert_eq.
  erewrite (rf_step i _ Notice (with_phase Returned l1)); [|apply El|done|cbn; by rewrite Hd|done].
  cbn [mbind option_bind]. eexists. split; [done|].
  cbn. rewrite list_insert_insert_eq, El. done.
Qed.

(** C17. The daemon ends when it is told to, and only then.  While the context of [main]
    is not done, [main] waits.  Once it is done (a signal, or the failure of the web
    server, cancels it), no attempt begins any more; whatever the goroutines do next, in
    any order, they have a bounded number of steps left (three for each loop, two for
    each server, one for each RF dialler that an attachment just getting through still
    starts); and when none of them can go on, [main] has returned, with all it waits for:
    the web server, the attachment, the diallers of IP peers and the listener.  The
    diallers of RF peers, which [main] does not wait for, have returned too, except those
    whose dial is blocked in its handshake: such a one stays, whatever else happens, until
    its stream gets a push, and then it goes on and returns. *)
Theorem stops_when_told cfg now0 es0 d :
  execs es0 (launch cfg now0) = Some d →
  (dm_done d = false → main_over d = false)
  ∧ (dm_done d = true → ∀ es d', execs es d = Some d' →
      dm_log d' = dm_log d
      ∧ (length (List.filter moves es) ≤ 8 + length (op_RFPeers (dm_opts d))
           + 3 * length (dm_dials d) + 3 * length (dm_rfs d))%nat
      ∧ ((∀ e, moves e = true → exec e d' = None) →
           main_over d' = true
           ∧ ∀ w l, loop_of w d' = Some l →
               lp_phase l = Returned
               ∨ ∃ i, w = WRf i ∧ lp_phase l = Trying ∧ blocked w d' = true
                 ∧ (∀ es' d'', execs es' d' = Some d'' → Wake i ∉ es' → blocked w d'' = true)
                 ∧ ∃ d'', execs [Wake i; Step w Finish; Step w Notice] d' = Some d''
                     ∧ lp_phase <$> loop_of w d'' = Some Returned)).
Proof.
  intros Hr. split.
  - intros Hd. pose proof (execs_ok es0 _ _ Hr (launch_ok cfg now0)) as [_ _ Hl].
    unfold main_over. rewrite (bool_decide_false (lp_phase (dm_run d) = Returned)).
    + by rewrite andb_false_r.
    + by apply (Hl WRun).
  - intros Hd es d' H. destruct (execs_weight es d d' Hd H) as (W & L & D).
    split; [done|]. split; [pose proof (weight_le d); lia|].
    pose proof (execs_blocked es _ _ H (execs_blocked es0 _ _ Hr (launch_blocked cfg now0))) as Hb.
    intros Hs. destruct (stuck_over d' Hb D Hs) as [Hm Hl]. split; [done|].
    intros w l E. destruct (blocked w d') eqn:Eb; [right|left; by apply (Hl w)].
    destruct w as [|i|i]; [done..|]. exists i. split; [done|].
    split; [|split; [done|split]]; [..|by apply blocked_returns].
    + cbn in E, Eb. destruct (dm_rfs d' !! i) as [x|] eqn:Ex; [|done]. injection E as <-. by apply (Hb i).
    + intros es' d'' H' Hn. by eapply blocked_stays.
Qed.

(** ** A run

    One IP peer and one RF peer: the first attachment fails, the second gets through and
    lasts an hour; then a signal. *)

Definition sup_cfg : Conf.Config :=
  Conf.mkConfig [] (bs "GB7AAA") 9 Conf.DefaultRHPHost Conf.DefaultRHPPort [] [] [] 0
    [Conf.mkPeer (bs "M0XYZ") (bs "10.0.0.1:3600")]
    [Conf.mkRFPeer (bs "GB7RDG-1") (bs "GB7RDG-1") [] []] (bs ":3601") [].
Definition answered (connected : bool) : Main.answers :=
  mkAnswers connected None (inl 1) (λ _, None) None.
Definition sec : Duration := 1000000000.
Definition sup_run : list ev :=
  [WebBound; ListenBound; Step WRun Test; Step (WDial 0) Test; Attach (answered false);
   Step (WDial 0) Finish; Clock sec; Step WRun Fire; Step WRun Test; Attach (answered true);
   Step (WRf 0) Test; Step (WRf 0) Finish; Clock (3600 * sec); Step WRun Finish].
Definition sup_end : list ev :=
  [WebStops; ListenEnds; Step WRun Notice; Step (WDial 0) Notice; Step (WRf 0) Notice].

(** The attachment that was up for an hour is tried again after two seconds, not one: a
    success does not reset the backoff. *)
Example backoff_survives_success :
  (λ d, (lp_phase (dm_run d), dm_log d)) <$> execs sup_run (launch sup_cfg 0)
  = Some (Waiting (3602 * sec), [(WRun, 0); (WDial 0, 0); (WRun, sec); (WRf 0, sec)]).
Proof. vm_compute. reflexivity. Qed.

(** The dial of an RF peer is in its handshake when the attachment is lost: the stream is
    not closed, and the dialler is still there when the next attachment has started one of
    its own, and when [main] returns. *)
Definition leak_run : list ev :=
  [WebBound; ListenBound; Step WRun Test; Step (WDial 0) Test; Step (WDial 0) Finish;
   Attach (answered true); Step (WRf 0) Test; Block 0; Step WRun Finish; Clock sec;
   Step WRun Fire; Step WRun Test; Attach (answered true); Signal; WebStops; ListenEnds;
   Step WRun Finish; Step WRun Notice; Step (WDial 0) Notice; Step (WRf 1) Test].
Example blocked_dial_leaks :
  (λ d, (main_over d, (λ x, (lp_phase (rf_dial x), rf_blocked x)) <$> dm_rfs d))
    <$> execs leak_run (launch sup_cfg 0)
  = Some (true, [(Trying, true); (Returned, false)]).
Proof. vm_compute. reflexivity. Qed.


Lemma stops_when_told_witness :
  ∃ d d', execs (sup_run ++ [Signal]) (launch sup_cfg 0) = Some d
    ∧ main_over d = false
    ∧ execs sup_end d = Some d' ∧ dm_log d' = dm_log d ∧ main_over d' = true.
Proof.
  assert (match execs (sup_run ++ [Signal]) (launch sup_cfg 0) with
          | Some d => dm_done d && negb (main_over d)
                      && from_option main_over false (execs sup_end d)
          | None => false end = true) as H by (vm_compute; reflexivity).
  destruct (execs (sup_run ++ [Signal]) (launch sup_cfg 0)) as [d|] eqn:E; [|discriminate H].
  destruct (execs sup_end d) as [d'|] eqn:E';
    apply andb_true_iff in H as [[Hd Hm]%andb_true_iff Ho]; [|discriminate Ho].
  exists d, d'. destruct (stops_when_told sup_cfg 0 _ d E) as [_ Hs].
  destruct (Hs Hd sup_end d' E') as (Hl & _). split; [reflexivity|].
  split; [by apply negb_true_iff|]. split; [exact E'|]. split; [exact Hl|exact Ho].
Defined.
