(* ===== verification/System.v ===== *)
(** * The running node

    Everything [main] starts, around the one hub, router, allow-list and store: web
    requests and event streams, the sessions of radio users, inbound links over TCP and
    over the air, outbound dials, the lines and ticks of every link, and the router's
    fan-out.  An event names what happens next and what it meets; one that cannot happen
    leaves none.  A link is served in three parts, so that others may act between them:
    its beginning (the handshake and [serve] up to its read loop), its lines, its end; a web
    request, the opening of a stream and its end are one event each. *)
From S2P Require Import Prelude Unicode GoStrings ChatModel ChatSeen ChatStore ChatHub.
From S2P Require Import PeerProto PeerAllow PeerRouter PeerLink SessionInput Session.
From S2P Require Import Rhp RhpClient Config Node Sqlite Web WebSteps WebProps WebTabs Daemon.
From stdpp Require Import options.
Local Open Scope Z_scope.

Module Sys.

#[export] Instance script_step_eq_dec : EqDecision ScriptStep.
Proof. solve_decision. Defined.
#[export] Instance peer_eq_dec : EqDecision Conf.Peer.
Proof. solve_decision. Defined.
#[export] Instance rf_peer_eq_dec : EqDecision Conf.RFPeer.
Proof. solve_decision. Defined.

(** ** A session's step *)

Section session.
Context {St : Type} `{!Store St}.
Import Sess.

(** [SDeliver]: the reader hands over a chunk.  [SInput], [SEvent], [SDone]: the run loop
    takes a chunk, an event of its subscription or its end.  [SClose]: [Close]. *)
Inductive sess_ev := SDeliver (data : gostring) | SInput | SEvent | SDone | SClose.

Definition sess_exec (e : sess_ev) (s : Session St) : option (Session St) :=
  match e with
  | SDeliver data =>
      if (length (s_inbound s) <? inboundCap)%nat then Some (upd_inbound (λ q, q ++ [data]) s) else None
  | SInput =>
      if s_stopped s then None else
      match s_inbound s with
      | [] => None
      | data :: rest =>
          let '(lines, asm) := Feed data (s_asm s) in
          let '(stop, s1) := processLines lines (upd_asm (λ _, asm) (upd_inbound (λ _, rest) s)) in
          Some (if stop : bool then upd_stopped s1 else s1)
      end
  | SEvent =>
      if s_stopped s then None else
      match Hub.recv (s_sub s) (s_hub s) with
      | (Some (Some ev), h1) => Some (render ev (upd_hub (λ _, h1) s)).2
      | (Some None, h1) => Some (upd_stopped (end_session EndPeerClosed (upd_hub (λ _, h1) s)).2)
      | (None, _) => None
      end
  | SDone =>
      if s_stopped s then None else
      match s_ended s with None => None | Some _ => Some (upd_stopped s) end
  | SClose => Some (end_session EndPeerClosed s).2
  end.
End session.

(** ** The beginnings of a link *)

Section links.
Context {St : Type} `{!Store St}.
Abbreviation WorldM := (ST (Router.World St)).

(** [RunWithReader] up to the read loop of [serve]. *)
Definition link_begin (now : Time) (ref : nat) (l : Link) (br : gostring) : WorldM bool :=
  r ← handshake ref l br;
  match r with
  | None => mret false
  | Some _ => serve_start now ref None;; mret true
  end.

(** [ServeInboundIP] up to the read loop. *)
Definition ip_begin (now : Time) (ref : nat) (ourNode : gostring) (allow : option AllowList)
    (up : bool) (br : gostring) : WorldM (ingress * option AllowList) :=
  if negb up then mret (IngressError, allow) else
  match readUntil IsRTL br with
  | None => mret (IngressError, allow)
  | Some br1 =>
      match readFirstRecord br1 with
      | None => mret (IngressError, allow)
      | Some (first, _) =>
          if decide (r_Node first = []) then mret (IngressNoNode, allow)
          else if negb (Allowed allow (r_Node first)) then
            mret (IngressRefused, (Reject allow).2)
          else
            let l := NewLink (mkConfig (r_Node first) ourNode [] false true 0 0) in
            st_mod (Router.upd_heap <[ref := link_sent (λ _, [banner]) l]>);;
            ok1 ← Router.sendRaw ref (bs "OK");
            if negb ok1 then mret (IngressError, allow) else
            ok2 ← sendKeepalive ref;
            if negb ok2 then mret (IngressError, allow) else
            serve_start now ref (Some (now, first));;
            mret (IngressServed, allow)
      end
  end.

(** [serveInbound] up to the session's pump or the link's read loop. *)
Definition rf_begin (now : Time) (ref : nat) (up : bool) (sends : nat → bool)
    (bound : gostring) (allow : option AllowList) (remote br : gostring)
    : WorldM (Inbound.inbound (St := St) * option AllowList) :=
  if negb up then mret (Inbound.InLost, allow) else
  match Inbound.readChildLine br with
  | None => mret (Inbound.InLost, allow)
  | Some (first, br1) =>
      if IsRTL first then
        if negb (Allowed allow remote) then mret (Inbound.InRefused, (Reject allow).2)
        else
          let l := NewLink (mkConfig remote bound [] false true 0 0) in
          st_mod (Router.upd_heap <[ref := link_sent (λ _, [banner]) l]>);;
          ok ← link_begin now ref l br1;
          mret (Inbound.InPeer ok, allow)
      else
        r ← (λ w, let '(r, hub) := Sess.New (Router.w_hub w) sends remote in
                  (r, Router.upd_hub (λ _, hub) w));
        match r with
        | inr e => mret (Inbound.InNoSession e, allow)
        | inl s => mret (Inbound.InUser s ((first ++ [CR]) :: Inbound.pump br1), allow)
        end
  end.

(** [dialOnce] and [dialRFPeerOnce] up to the read loop; [script] is empty over TCP. *)
Definition dial_begin (now : Time) (ref : nat) (our peerCall : gostring)
    (script : list ScriptStep) (br : gostring) : WorldM bool :=
  let l := NewLink (mkConfig peerCall our [] true false 0 0) in
  st_mod (Router.upd_heap <[ref := l]>);;
  r ← run_script ref script br;
  match r with
  | None => mret false
  | Some br1 => link_begin now ref l br1
  end.
End links.

(** ** The node *)

Section system.
Context {St : Type} `{!Store St, !ClaimStore St}.
Context (cfg : Conf.Config) (srv : Webchat.Server).

Record System := mkSystem {
  sy_site : Webchat.Site (St := St);       (* hub, store, links, allow-list, web presence *)
  sy_tabs : list Webchat.stream;           (* the open event streams *)
  sy_users : list (Sess.Session St);       (* the sessions of radio users; the hub of
                                              each is the one of [sy_site] *)
  sy_serving : gset nat;                   (* the links in their read loops *)
  sy_bound : gostring }.                   (* the callsign on air *)

(** What [main] has put together when it starts the goroutines. *)
Definition boot (d : Main.Running (St := St)) : System := mkSystem (Main.d_site d) [] [] ∅ [].

Definition world (y : System) : Router.World St := Webchat.st_world (sy_site y).
Definition set_site st (y : System) : System :=
  mkSystem st (sy_tabs y) (sy_users y) (sy_serving y) (sy_bound y).
Definition set_world w (y : System) : System :=
  set_site (Webchat.mkSite w (Webchat.st_allow (sy_site y)) (Webchat.st_ref (sy_site y))) y.
Definition set_allow a (y : System) : System := set_site (Webchat.upd_allow (λ _, a) (sy_site y)) y.
Definition set_serving g (y : System) : System :=
  mkSystem (sy_site y) (sy_tabs y) (sy_users y) (g (sy_serving y)) (sy_bound y).
Definition set_users us (y : System) : System :=
  mkSystem (sy_site y) (sy_tabs y) us (sy_serving y) (sy_bound y).
Definition set_bound cs (y : System) : System :=
  mkSystem (sy_site y) (sy_tabs y) (sy_users y) (sy_serving y) cs.

Definition our : gostring := Conf.BoundCallsign cfg.

Inductive event :=
| Request (now : Time) (r : Webchat.Request)      (* one that is answered with a stream opens it *)
| TabNext (i : nat)                               (* a stream takes its next event *)
| TabEnds (i : nat)
| OnAir (cs : gostring)                           (* an attachment has bound a callsign *)
| AcceptIP (now : Time) (ref : nat) (up : bool) (br : gostring)
| AcceptRF (now : Time) (ref : nat) (up : bool) (sends : nat → bool) (remote br : gostring)
| DialIP (now : Time) (ref : nat) (p : Conf.Peer) (br : gostring)
| DialRF (now : Time) (ref : nat) (p : Conf.RFPeer) (br : gostring)
| Line (now : Time) (ref : nat) (line : gostring)
| Tick (now now' : Time) (ref : nat)
| LinkEnds (ref : nat)
| User (i : nat) (e : sess_ev)
| FanOut.

(** A link object that is new. *)
Definition fresh_ref (ref : nat) (y : System) : bool :=
  bool_decide (Router.w_heap (world y) !! ref = None).
Definition served (ref : nat) (ok : bool) (y : System) : System :=
  if ok then set_serving (λ s, {[ref]} ∪ s) y else y.

Definition exec (e : event) (y : System) : option System :=
  match e with
  | Request now r =>
      let '(st, tabs) := Webchat.ask srv now r (sy_site y, sy_tabs y) in
      Some (mkSystem st tabs (sy_users y) (sy_serving y) (sy_bound y))
  | TabNext i =>
      sm ← sy_tabs y !! i; Some (set_site (Webchat.stream_event sm (sy_site y)).2 y)
  | TabEnds i =>
      let '(st, tabs) := Webchat.shut i (sy_site y, sy_tabs y) in
      Some (mkSystem st tabs (sy_users y) (sy_serving y) (sy_bound y))
  | OnAir cs => Some (set_bound cs y)
  | AcceptIP now ref up br =>
      if fresh_ref ref y then
        let '((res, allow), w) := ip_begin now ref our (Webchat.st_allow (sy_site y)) up br (world y) in
        Some (served ref (bool_decide (res = IngressServed)) (set_allow allow (set_world w y)))
      else None
  | AcceptRF now ref up sends remote br =>
      if fresh_ref ref y then
        let '((res, allow), w) := rf_begin now ref up sends (Binding.boundCallsign (sy_bound y) our)
          (Webchat.st_allow (sy_site y)) remote br (world y) in
        let y := set_allow allow (set_world w y) in
        Some (match res with
              | Inbound.InPeer ok => served ref ok y
              | Inbound.InUser s _ => set_users (sy_users y ++ [s]) y
              | _ => y
              end)
      else None
  | DialIP now ref p br =>
      if fresh_ref ref y && bool_decide (p ∈ Conf.Peers cfg) then
        let '(ok, w) := dial_begin now ref our (Conf.p_Call p) [] br (world y) in
        Some (served ref ok (set_world w y))
      else None
  | DialRF now ref p br =>
      if fresh_ref ref y && bool_decide (p ∈ Conf.RFPeers cfg) then
        let '(ok, w) := dial_begin now ref (Binding.boundCallsign (sy_bound y) our)
          (Conf.rf_PeerCall p) (Conf.rf_Script p) br (world y) in
        Some (served ref ok (set_world w y))
      else None
  | Line now ref line =>
      if decide (ref ∈ sy_serving y) then Some (set_world (handle now ref line (world y)).2 y) else None
  | Tick now now' ref =>
      if decide (ref ∈ sy_serving y)
      then Some (set_world (keepalive_tick now now' ref (world y)).2 y) else None
  | LinkEnds ref =>
      if decide (ref ∈ sy_serving y)
      then Some (set_serving (λ s, s ∖ {[ref]}) (set_world (serve_stop ref (world y)).2 y)) else None
  | User i e =>
      own ← sy_users y !! i;
      s ← sess_exec e (Sess.upd_hub (λ _, Router.w_hub (world y)) own);
      Some (set_users (<[i := s]> (sy_users y))
              (set_world (Router.upd_hub (λ _, Sess.s_hub s) (world y)) y))
  | FanOut => Some (set_world (Router.fanOutLocal (world y)).2 y)
  end.

Fixpoint execs (es : list event) (y : System) : option System :=
  match es with
  | [] => Some y
  | e :: es' => y1 ← exec e y; execs es' y1
  end.
End system.
End Sys.
