(* ===== verification/SystemProps.v ===== *)
(** * The node as a whole

    Whatever its users, peers, browsers and clocks do, in any interleaving: every part
    reaches the hub only through the hub's operations, and leaves the links of others,
    the pinned callsigns and the stored messages as they are. *)
From S2P Require Import Prelude Unicode GoStrings ChatModel ChatSeen ChatStore ChatHub.
From S2P Require Import HubProps HubTheorems PeerProto PeerAllow PeerRouter RouterProps.
From S2P Require Import PeerLink LinkProps SessionInput Session SessionProps.
From S2P Require Import Rhp RhpClient Config ConfigProps Node Sqlite SqliteProps.
From S2P Require Import Web WebSteps WebProps WebTabs Daemon DaemonProps System.
From stdpp Require Import options.
Local Open Scope Z_scope.
Import Sys.

(** ** Moves of the hub *)

Section moves.
Context {St : Type} `{!Store St}.
Implicit Types (h : Hub.Hub St) (w : Router.World St).
Import Hub.

Inductive hub_move : Hub St → Hub St → Prop :=
| move_op op h : hub_move h (exec op h).
(** From one hub to the other by operations. *)
Definition moves : Hub St → Hub St → Prop := rtc hub_move.

Definition via {A} (m : ST (Hub St) A) : Prop := ∀ h, moves h (m h).2.

Lemma via_ret {A} (a : A) : via (mret a).
Proof. intros h. apply rtc_refl. Qed.
Lemma via_get {A} (f : Hub St → A) : via (st_get f).
Proof. intros h. apply rtc_refl. Qed.
Lemma via_bind {A B} (m : ST (Hub St) A) (k : A → ST (Hub St) B) :
  via m → (∀ a, via (k a)) → via (m ≫= k).
Proof. intros H1 H2 h. etrans; [apply H1|apply H2]. Qed.
Lemma via_op {A} (m : ST (Hub St) A) op : (∀ h, (m h).2 = exec op h) → via m.
Proof. intros E h. rewrite E. apply rtc_once. constructor. Qed.

Lemma via_Join u : via (Join u). Proof. by apply (via_op _ (OpJoin u)). Qed.
Lemma via_Leave k : via (Leave k). Proof. by apply (via_op _ (OpLeave k)). Qed.
Lemma via_Post k t : via (Post k t). Proof. by apply (via_op _ (OpPost k t)). Qed.
Lemma via_Private k c t : via (Private k c t). Proof. by apply (via_op _ (OpPrivate k c t)). Qed.
Lemma via_SetTopic k n : via (SetTopic k n). Proof. by apply (via_op _ (OpSetTopic k n)). Qed.
Lemma via_SetInfo k n q : via (SetInfo k n q). Proof. by apply (via_op _ (OpSetInfo k n q)). Qed.
Lemma via_LinkNode c a v : via (LinkNode c a v). Proof. by apply (via_op _ (OpLinkNode c a v)). Qed.
Lemma via_UnlinkNode c : via (UnlinkNode c). Proof. by apply (via_op _ (OpUnlinkNode c)). Qed.
Lemma via_SeenID i : via (SeenID i). Proof. by apply (via_op _ (OpSeen i)). Qed.
Lemma via_Subscribe : via Subscribe. Proof. by apply (via_op _ OpSubscribe). Qed.
Lemma via_cancel i : via (cancel i). Proof. by apply (via_op _ (OpCancel i)). Qed.
Lemma via_recv i : via (recv i). Proof. by apply (via_op _ (OpRecv i)). Qed.
End moves.

Create HintDb via.
#[export] Hint Resolve via_ret via_get via_Join via_Leave via_Post via_Private via_SetTopic
  via_SetInfo via_LinkNode via_UnlinkNode via_SeenID via_Subscribe via_cancel via_recv : via.
Ltac via := repeat first
  [ solve [auto with via] | apply via_bind; [|intros ?] | case_decide | case_match ].

Section worlds.
Context {St : Type} `{!Store St}.
Implicit Types (h : Hub.Hub St) (w : Router.World St).
Import Router.

Lemma via_ensureUser rec from : via (St := St) (ensureUser rec from).
Proof. unfold ensureUser. via. Qed.
#[local] Hint Resolve via_ensureUser : via.
Lemma via_apply rec from : via (St := St) (apply rec from).
Proof. unfold apply. via. Qed.

(** ** Steps of the links *)

#[local] Abbreviation WorldM := (ST (World St)).

(** What identifies a link object. *)
Definition link_name (l : Link) : gostring * bool := (l_peerCall l, l_outbound l).

Record wframe w w' : Prop := {
  wf_hub : moves (w_hub w) (w_hub w');
  wf_name : w_ourNode w' = w_ourNode w;
  wf_table : table_wf w → table_wf w';
  wf_heap ref : link_name <$> w_heap w' !! ref = link_name <$> w_heap w !! ref }.

Lemma wframe_refl w : wframe w w.
Proof. split; [apply rtc_refl|done..]. Qed.
Lemma wframe_trans w1 w2 w3 : wframe w1 w2 → wframe w2 w3 → wframe w1 w3.
Proof.
  intros [A1 A2 A3 A4] [B1 B2 B3 B4]. split; [by etrans|congruence|auto|].
  intros ref. by rewrite B4.
Qed.

Definition framed {A} (m : WorldM A) : Prop := ∀ w, wframe w (m w).2.

Lemma framed_ret {A} (a : A) : framed (mret a).
Proof. intros w. apply wframe_refl. Qed.
Lemma framed_get {A} (f : World St → A) : framed (st_get f).
Proof. intros w. apply wframe_refl. Qed.
Lemma framed_bind {A B} (m : WorldM A) (k : A → WorldM B) :
  framed m → (∀ a, framed (k a)) → framed (m ≫= k).
Proof. intros H1 H2 w. eapply wframe_trans; [apply H1|apply H2]. Qed.
Lemma framed_hub {A} (m : ST (Hub.Hub St) A) : via m → framed (on_hub m).
Proof. intros H w. split; cbn; [apply H|done..]. Qed.

(** Operations that change link objects, but not whose they are. *)
Lemma wframe_heap w w' :
  w_hub w' = w_hub w → w_ourNode w' = w_ourNode w → w_links w' = w_links w →
  (∀ ref, link_name <$> w_heap w' !! ref = link_name <$> w_heap w !! ref) → wframe w w'.
Proof.
  intros E1 E2 E3 Hh. split; [rewrite E1; apply rtc_refl|done| |done].
  apply table_wf_same; [done|]. intros r l E. specialize (Hh r). rewrite E in Hh.
  destruct (w_heap w' !! r) as [l'|]; [|done]. injection Hh as Hc _. by exists l'.
Qed.

Lemma framed_on_link ref f : (∀ l, link_name (f l) = link_name l) → framed (on_link ref f).
Proof.
  intros Hf w. apply wframe_heap; [done..|]. intros r. cbn.
  rewrite lookup_alter. destruct (decide (ref = r)) as [->|]; [|done].
  destruct (w_heap w !! r); cbn; [by rewrite Hf|done].
Qed.

Lemma framed_sendRaw ref raw : framed (sendRaw ref raw).
Proof.
  intros w. destruct (sendRaw_spec ref raw w) as [(E1 & E2 & _ & E3) Hs].
  apply wframe_heap; [done..|]. intros r. rewrite Hs. destruct (w_heap w !! r); [|done].
  cbn. case_decide; [|done]. unfold bump. by case_match.
Qed.

Lemma framed_send_all ts raw : framed (send_all ts raw).
Proof.
  induction ts; cbn [send_all]; [apply framed_ret|].
  apply framed_bind; [apply framed_sendRaw|done].
Qed.

Lemma framed_AddLink ref : framed (AddLink ref).
Proof.
  intros w. assert (w_hub (AddLink ref w).2 = w_hub w ∧ w_ourNode (AddLink ref w).2 = w_ourNode w
    ∧ w_heap (AddLink ref w).2 = w_heap w) as (E1 & E2 & E3).
  { unfold AddLink. st_simpl. by destruct (w_heap w !! ref). }
  split; [rewrite E1; apply rtc_refl|done|apply AddLink_table_wf|by rewrite E3].
Qed.
Lemma framed_RemoveLink id : framed (RemoveLink id).
Proof. intros w. split; cbn; [apply rtc_refl|done|apply RemoveLink_table_wf|done]. Qed.
End worlds.

Create HintDb framed.
#[export] Hint Resolve framed_ret framed_get framed_sendRaw framed_send_all framed_AddLink
  framed_RemoveLink via_apply : framed.
#[export] Hint Extern 1 (framed (Router.on_hub _)) => apply framed_hub; via : framed.
#[export] Hint Extern 1 (framed (on_link _ _)) => apply framed_on_link; done : framed.
Ltac framed := repeat first
  [ solve [auto with framed] | apply framed_bind; [|intros ?] | case_decide | case_match ].

(** ** What the parts do to the links and the hub *)

Section parts.
Context {St : Type} `{!Store St}.
Implicit Types (w : Router.World St).
Import Router.

Lemma framed_forward raw except : framed (St := St) (forward raw except).
Proof. unfold forward. framed. Qed.
#[local] Hint Resolve framed_forward : framed.
Lemma framed_Ingest rec from : framed (St := St) (Ingest rec from).
Proof. unfold Ingest. framed. Qed.
#[local] Hint Resolve framed_Ingest : framed.
Lemma framed_fanOut : framed (St := St) fanOutLocal.
Proof. unfold fanOutLocal. framed. Qed.

Lemma framed_sendKeepalive ref : framed (St := St) (sendKeepalive ref).
Proof. unfold sendKeepalive. framed. Qed.
#[local] Hint Resolve framed_sendKeepalive : framed.
Lemma framed_handleRecord now ref rec : framed (St := St) (handleRecord now ref rec).
Proof.
  unfold handleRecord. framed. apply framed_on_link. intros k. unfold recordPong. by case_match.
Qed.
#[local] Hint Resolve framed_handleRecord : framed.
Lemma framed_handle now ref line : framed (St := St) (handle now ref line).
Proof. unfold handle. framed. Qed.
Lemma framed_tell ref o us : framed (St := St) (tell_users ref o us).
Proof. induction us; cbn [tell_users]; framed. Qed.
#[local] Hint Resolve framed_tell : framed.
Lemma framed_stateTell ref : framed (St := St) (stateTell ref).
Proof. unfold stateTell. framed. Qed.
#[local] Hint Resolve framed_stateTell : framed.
Lemma framed_tick now now' ref : framed (St := St) (keepalive_tick now now' ref).
Proof.
  unfold keepalive_tick. framed. apply framed_on_link. intros k. unfold markPingSent. by case_match.
Qed.
Lemma framed_start now ref pending : framed (St := St) (serve_start now ref pending).
Proof. unfold serve_start. framed. Qed.
#[local] Hint Resolve framed_start : framed.
Lemma framed_stop ref : framed (St := St) (serve_stop ref).
Proof. unfold serve_stop. framed. Qed.
Lemma framed_handshake ref l br : framed (St := St) (handshake ref l br).
Proof. unfold handshake. framed. Qed.
#[local] Hint Resolve framed_handshake : framed.
Lemma framed_link_begin now ref l br : framed (St := St) (link_begin now ref l br).
Proof. unfold link_begin. framed. Qed.
Lemma framed_script ref steps : ∀ br, framed (St := St) (run_script ref steps br).
Proof. induction steps; intros br; cbn [run_script]; framed. Qed.

(** ** A link object that is new *)

(** Nothing but the usual, and at most one new object, which is [name]'s. *)
Record wnew (ref : nat) (name : gostring * bool) w w' : Prop := {
  wn_hub : moves (w_hub w) (w_hub w');
  wn_name : w_ourNode w' = w_ourNode w;
  wn_table : table_wf w → table_wf w';
  wn_heap r : link_name <$> w_heap w' !! r
    = if decide (r = ref) then Some name else link_name <$> w_heap w !! r }.

Lemma insert_new ref l w :
  w_heap w !! ref = None → wnew ref (link_name l) w (upd_heap <[ref := l]> w).
Proof.
  intros Hn. split; cbn; [apply rtc_refl|done| |].
  - intros Hwf id r Hr. destruct (Hwf id r Hr) as (k & E & Hk). exists k. split; [|done].
    cbn. by rewrite lookup_insert_ne by congruence.
  - intros r. case_decide as E; [subst; by rewrite lookup_insert_eq|by rewrite lookup_insert_ne].
Qed.
Lemma wnew_frame ref name w1 w2 w3 : wnew ref name w1 w2 → wframe w2 w3 → wnew ref name w1 w3.
Proof.
  intros [A1 A2 A3 A4] [B1 B2 B3 B4]. split; [by etrans|congruence|auto|].
  intros r. by rewrite B4.
Qed.
End parts.

#[export] Hint Resolve framed_fanOut framed_sendKeepalive framed_handle framed_tick framed_start
  framed_stop framed_script framed_link_begin : framed.

(** ** Sessions *)

Section sessions.
Context {St : Type} `{!Store St}.
Implicit Types s : Sess.Session St.
Import Sess.
#[local] Abbreviation SessM := (ST (Session St)).

Definition svia {A} (m : SessM A) : Prop := ∀ s, moves (s_hub s) (s_hub (m s).2).

Lemma svia_ret {A} (a : A) : svia (mret a).
Proof. intros s. apply rtc_refl. Qed.
Lemma svia_get {A} (f : Session St → A) : svia (st_get f).
Proof. intros s. apply rtc_refl. Qed.
Lemma svia_bind {A B} (m : SessM A) (k : A → SessM B) :
  svia m → (∀ a, svia (k a)) → svia (m ≫= k).
Proof. intros H1 H2 s. etrans; [apply H1|apply H2]. Qed.
Lemma svia_hub {A} (m : ST (Hub.Hub St) A) : via m → svia (on_hub m).
Proof. intros H s. apply H. Qed.
Lemma svia_mod f : (∀ s, s_hub (f s) = s_hub s) → svia (st_mod f).
Proof. intros H s. cbn. rewrite H. apply rtc_refl. Qed.
End sessions.

Create HintDb svia.
#[export] Hint Resolve svia_ret svia_get : svia.
#[export] Hint Extern 1 (svia (Sess.on_hub _)) => apply svia_hub; via : svia.
#[export] Hint Extern 1 (svia (st_mod _)) => apply svia_mod; done : svia.
Ltac svia := repeat first
  [ solve [auto with svia] | apply svia_bind; [|intros ?] | case_decide | case_match ].

Section sessions.
Context {St : Type} `{!Store St}.
Implicit Types s : Sess.Session St.
Import Sess.

Lemma svia_end r : svia (St := St) (end_session r).
Proof. unfold end_session. svia. Qed.
#[local] Hint Resolve svia_end : svia.
Lemma svia_send text : svia (St := St) (send text).
Proof. unfold send. svia. Qed.
#[local] Hint Resolve svia_send : svia.
Lemma svia_sendLine text : svia (St := St) (sendLine text).
Proof. apply svia_send. Qed.
#[local] Hint Resolve svia_sendLine : svia.
Lemma svia_showUsers : svia (St := St) showUsers.
Proof. unfold showUsers. svia. Qed.
#[local] Hint Resolve svia_showUsers : svia.
Lemma svia_command line : svia (St := St) (command line).
Proof. unfold command, topic, setName, setQTH, private, showNodes, help. svia. Qed.
#[local] Hint Resolve svia_command : svia.
Lemma svia_line line : svia (St := St) (processLine line).
Proof. unfold processLine. svia. Qed.
#[local] Hint Resolve svia_line : svia.
Lemma svia_lines lines : svia (St := St) (processLines lines).
Proof. induction lines; cbn [processLines]; svia. Qed.
Lemma svia_render ev : svia (St := St) (render ev).
Proof. unfold render. svia. Qed.
Lemma svia_greet : svia (St := St) greet.
Proof. unfold greet. svia. Qed.

Lemma stopped_hub s : s_hub (upd_stopped s) = s_hub s.
Proof. done. Qed.

Lemma sess_exec_moves e s s' : sess_exec e s = Some s' → moves (s_hub s) (s_hub s').
Proof.
  destruct e as [data| | | |]; cbn [sess_exec].
  - case_match; [|done]. intros [= <-]. apply rtc_refl.
  - destruct (s_stopped s); [done|]. destruct (s_inbound s) as [|data rest]; [done|].
    destruct (Feed data (s_asm s)) as [lines asm].
    set (s0 := upd_asm _ _). pose proof (svia_lines lines s0) as H.
    destruct (processLines lines s0) as [stop s1]. intros [= <-]. by destruct stop.
  - destruct (s_stopped s); [done|]. pose proof (via_recv (s_sub s) (s_hub s)) as H.
    destruct (Hub.recv (s_sub s) (s_hub s)) as [[[ev|]|] h1]; intros [= <-]; cbn [snd] in H.
    + etrans; [exact H|]. apply (svia_render ev (upd_hub (λ _, h1) s)).
    + rewrite stopped_hub. etrans; [exact H|]. apply (svia_end EndPeerClosed (upd_hub (λ _, h1) s)).
  - destruct (s_stopped s); [done|]. destruct (s_ended s); intros [= <-]. apply rtc_refl.
  - intros [= <-]. apply svia_end.
Qed.

(** The executable steps are the steps of the life cycle. *)
Lemma sess_exec_step e s s' : sess_exec e s = Some s' → sess_step s s'.
Proof.
  destruct e as [data| | | |]; cbn [sess_exec].
  - destruct (Nat.ltb_spec (length (s_inbound s)) inboundCap); [|done]. intros [= <-].
    by constructor.
  - destruct (s_stopped s) eqn:Es; [done|]. destruct (s_inbound s) as [|data rest] eqn:Ei; [done|].
    destruct (Feed data (s_asm s)) as [lines asm] eqn:Ef.
    destruct (processLines lines _) as [stop s1] eqn:Ep. intros [= <-].
    by eapply step_input.
  - destruct (s_stopped s) eqn:Es; [done|].
    destruct (Hub.recv (s_sub s) (s_hub s)) as [[[ev|]|] h1] eqn:Er; intros [= <-].
    + by apply step_event.
    + by apply step_sub_closed.
  - destruct (s_stopped s) eqn:Es; [done|]. destruct (s_ended s) eqn:Ee; intros [= <-].
    apply step_done; [done|]. by rewrite Ee.
  - intros [= <-]. apply step_close.
Qed.

Lemma New_moves (h : Hub.Hub St) sends cs : moves h (New h sends cs).2.
Proof.
  unfold New. pose proof (via_Subscribe h) as Hs. destruct (Hub.Subscribe h) as [sub h1].
  match goal with |- context [Hub.Join ?u h1] =>
    pose proof (via_Join u h1) as Hj; destruct (Hub.Join u h1) as [[stored|err] h2] end;
    cbn [snd] in *; (etrans; [exact Hs|]); (etrans; [exact Hj|]).
  - apply (svia_greet (mkSession h2 _ _ _ _ _ _ _ _ _ _)).
  - apply via_cancel.
Qed.
End sessions.

(** ** The beginnings of a link *)

Section begins.
Context {St : Type} `{!Store St}.
Implicit Types w : Router.World St.
Import Router.

(** A new link object and what follows. *)
Lemma begins_new ref l w w' :
  w_heap w !! ref = None → wframe (upd_heap <[ref := l]> w) w' → wnew ref (link_name l) w w'.
Proof. intros Hn Hf. eapply wnew_frame; [by apply insert_new|done]. Qed.

(** A new link to [call], if any, or none. *)
Definition links_up (ref : nat) (out : bool) (P : gostring → Prop) w w' : Prop :=
  wframe w w' ∨ ∃ call, P call ∧ wnew ref (ToUpper call, out) w w'.

Lemma Reject_pins a : al_pinned <$> (Reject a).2 = al_pinned <$> a.
Proof. by destruct a. Qed.

Lemma dial_begin_spec now ref our call script br w :
  w_heap w !! ref = None →
  wnew ref (ToUpper call, true) w (dial_begin now ref our call script br w).2.
Proof.
  intros Hn. unfold dial_begin. apply (begins_new ref (NewLink (mkConfig call our [] true false 0 0)) w _ Hn).
  apply (framed_bind (run_script ref script br)); [apply framed_script|].
  intros r. framed.
Qed.

Lemma ip_begin_spec now ref our allow up br w :
  w_heap w !! ref = None →
  let r := ip_begin now ref our allow up br w in
  links_up ref false (λ call, Allowed allow call = true) w r.2
  ∧ al_pinned <$> r.1.2 = al_pinned <$> allow.
Proof.
  intros Hn. unfold ip_begin. destruct up; cbn [negb]; [|split; [left; apply wframe_refl|done]].
  destruct (readUntil IsRTL br) as [br1|]; [|split; [left; apply wframe_refl|done]].
  destruct (readFirstRecord br1) as [[first br2]|]; [|split; [left; apply wframe_refl|done]].
  case_decide; [split; [left; apply wframe_refl|done]|].
  destruct (Allowed allow (r_Node first)) eqn:Ea; cbn [negb].
  2: { split; [left; apply wframe_refl|apply Reject_pins]. }
  set (l := NewLink _). set (w1 := upd_heap <[ref := link_sent (λ _, [banner]) l]> w).
  match goal with |- context [(st_mod _ ≫= ?k) w] => change ((st_mod _ ≫= k) w) with (k tt w1) end.
  cbv beta. split.
  - right. exists (r_Node first). split; [done|].
    apply (begins_new ref (link_sent (λ _, [banner]) l) w _ Hn). fold w1. generalize w1 as x. clear.
    match goal with |- ∀ x, wframe x (?m x).2 => change (framed m) end. framed.
  - st_simpl. destruct (sendRaw ref (bs "OK") w1) as [[] w2]; cbn [negb fst snd]; st_simpl; [|done].
    by destruct (sendKeepalive ref w2) as [[] w3]; cbn [negb fst snd]; st_simpl.
Qed.

Lemma rf_begin_spec now ref up sends bound allow remote br w :
  w_heap w !! ref = None →
  let r := rf_begin now ref up sends bound allow remote br w in
  links_up ref false (λ call, Allowed allow call = true) w r.2
  ∧ al_pinned <$> r.1.2 = al_pinned <$> allow.
Proof.
  intros Hn. unfold rf_begin. destruct up; cbn [negb]; [|split; [left; apply wframe_refl|done]].
  destruct (Inbound.readChildLine br) as [[first br1]|]; [|split; [left; apply wframe_refl|done]].
  destruct (IsRTL first).
  - destruct (Allowed allow remote) eqn:Ea; cbn [negb].
    2: { split; [left; apply wframe_refl|apply Reject_pins]. }
    set (l := NewLink _). split; [|done]. right. exists remote. split; [done|].
    apply (begins_new ref (link_sent (λ _, [banner]) l) w _ Hn).
    apply (framed_bind (link_begin now ref l br1)); [apply framed_link_begin|].
    intros ok. apply framed_ret.
  - st_simpl. pose proof (New_moves (w_hub w) sends remote) as Hm.
    destruct (Sess.New (w_hub w) sends remote) as [[s|e] h]; cbn [fst snd] in *; st_simpl;
      (split; [left|done]); (split; [exact Hm|done..]).
Qed.
End begins.

(** ** The parts of a link make the whole

    With nobody else in between, the parts in which a link is served are the calls of
    [PeerLink.v] and [Node.v]. *)

Section whole.
Context {St : Type} `{!Store St}.
Implicit Types w : Router.World St.

(** The read loop over [lines] and the end. *)
Definition rest_of_link (ref : nat) (lines : list (Time * gostring)) w : Router.World St :=
  (serve_stop ref (serve_lines ref lines w).2).2.

Lemma link_parts now ref l br w : ∃ lines,
  let r := link_begin now ref l br w in
  RunWithReader now ref l br w = (r.1, if r.1 then rest_of_link ref lines r.2 else r.2).
Proof.
  unfold RunWithReader, link_begin, serve. st_simpl.
  destruct (handshake ref l br w) as [[br1|] w1]; cbn [fst snd]; [|by exists []].
  exists ((λ s, (now, s)) <$> readLines br1). st_simpl.
  by destruct (serve_start now ref None w1) as [[] w2].
Qed.

Lemma ip_parts now ref our allow up br w : ∃ lines,
  let r := ip_begin now ref our allow up br w in
  ServeInboundIP now ref our allow up br w
  = (r.1, if decide (r.1.1 = IngressServed) then rest_of_link ref lines r.2 else r.2).
Proof.
  unfold ServeInboundIP, ip_begin, serve. destruct up; cbn [negb]; [|by exists []].
  destruct (readUntil IsRTL br) as [br1|]; [|by exists []].
  destruct (readFirstRecord br1) as [[first br2]|]; [|by exists []].
  case_decide; [by exists []|]. destruct (Allowed allow (r_Node first)); cbn [negb]; [|by exists []].
  st_simpl. set (w1 := Router.upd_heap _ w).
  destruct (Router.sendRaw ref (bs "OK") w1) as [[] w2]; cbn [negb fst snd]; st_simpl; [|by exists []].
  destruct (sendKeepalive ref w2) as [[] w3]; cbn [negb fst snd]; st_simpl; [|by exists []].
  exists ((λ s, (now, s)) <$> readLines br2).
  by destruct (serve_start now ref (Some (now, first)) w3) as [[] w4].
Qed.

Lemma dial_parts now ref our p br w : ∃ lines,
  let r := dial_begin now ref our (Conf.rf_PeerCall p) (Conf.rf_Script p) br w in
  Main.dialRFPeerOnce now ref true our p br w
  = (r.1, if r.1 then rest_of_link ref lines r.2 else r.2).
Proof.
  unfold Main.dialRFPeerOnce, dial_begin, RunWithScript. cbn [negb]. st_simpl.
  set (l := NewLink _). set (w1 := Router.upd_heap _ w).
  destruct (decide (Conf.rf_Script p = [])) as [E|E].
  - rewrite decide_False by tauto. rewrite E. cbn [run_script]. st_simpl. apply link_parts.
  - rewrite decide_True by done. st_simpl.
    destruct (run_script ref (Conf.rf_Script p) br w1) as [[br1|] w2]; cbn [fst snd]; st_simpl;
      [apply link_parts|by exists []].
Qed.
End whole.

(** ** The web *)

Section site.
Context {St : Type} `{!Store St, !StoreLaws St, !ClaimStore St, !ClaimLaws St}.
Implicit Types st : Webchat.Site (St := St).
Import Webchat.

Lemma moves_ok h h' :
  moves h h' → hub_wf h → store_ok (Hub.h_store h) →
  hub_wf h' ∧ store_ok (Hub.h_store h')
  ∧ store_log (Hub.h_store h) `prefix_of` store_log (Hub.h_store h').
Proof using Type*.
  induction 1 as [h|h h1 h2 [op h0] _ IH]; intros Hwf Hok; [done|].
  assert (store_ok (Hub.h_store (Hub.exec op h0))
    ∧ store_log (Hub.h_store h0) `prefix_of` store_log (Hub.h_store (Hub.exec op h0))) as [Hok1 Hl].
  { destruct (saves_exec op h0) as [_ [->|(m & Hm & ->)]]; [done|]. split; [by apply save_ok|].
    destruct (SaveMessage (Hub.h_store h0) m).2 as [e|] eqn:E.
    - by rewrite (save_failed _ _ _ Hok E).
    - rewrite (save_done _ _ Hok Hm E). case_decide; [done|]. by apply prefix_app_r. }
  destruct (IH (proj1 (exec_keeps op h0 Hwf)) Hok1) as (H1 & H2 & H3). split_and!; [done..|]. by etrans.
Qed.

(** What the web may do to the node. *)
Record good st st' : Prop := {
  gd_ok : site_ok st';
  gd_log : store_log (store st) `prefix_of` store_log (store st');
  gd_pins : al_pinned <$> st_allow st' = al_pinned <$> st_allow st;
  gd_links : same_links st st' }.

Lemma good_refl st : site_ok st → good st st.
Proof. by split. Qed.
Lemma good_trans st1 st2 st3 : good st1 st2 → (site_ok st2 → good st2 st3) → good st1 st3.
Proof.
  intros [A1 A2 A3 [A4 A5]] H. destruct (H A1) as [B1 B2 B3 [B4 B5]].
  split; [done|by etrans|congruence|split; congruence].
Qed.

Lemma good_hub h' st : moves (hub st) h' → site_ok st → good st (upd_hub (λ _, h') st).
Proof using Type*.
  intros Hm (H1 & H2 & H3). destruct (moves_ok _ _ Hm H1 H2) as (H4 & H5 & H6).
  by split.
Qed.
Lemma good_via {A} (m : ST (Hub.Hub St) A) st : via m → site_ok st → good st (on_hub m st).2.
Proof using Type*. intros Hm. apply good_hub, Hm. Qed.
Lemma good_count g st :
  (counts_ok (st_ref st) → counts_ok (g (st_ref st))) → site_ok st → good st (upd_ref g st).
Proof. intros Hg (H1 & H2 & H3). split; [|done..]. by split_and!; [..|apply Hg]. Qed.

Lemma enter_hub_good call b st : site_ok st → good st (enter_hub call b st).2.
Proof using Type*.
  intros Hok. unfold enter_hub. st_simpl. destruct b; [|by apply good_refl].
  pose proof (good_via (Hub.Join (web_user (ourNode st) call)) st (via_Join _) Hok) as H.
  by destruct (on_hub (Hub.Join (web_user (ourNode st) call)) st) as [[usr|e] st'].
Qed.
Lemma leave_hub_good call b st : site_ok st → good st (leave_hub call b st).2.
Proof using Type*.
  intros Hok. unfold leave_hub. st_simpl. destruct b; [|by apply good_refl].
  apply good_via; [apply via_Leave|done].
Qed.

Lemma enter_good call st : site_ok st → good st (enter call st).2.
Proof using Type*.
  intros Hok. unfold enter, mbind, ST_bind. rewrite enter_count_spec. cbn [fst snd].
  eapply good_trans; [apply good_count; [|done]|apply enter_hub_good].
  intros Hc. apply counts_insert; [|done]. pose proof (count_nonneg st call Hc). lia.
Qed.

Lemma leave_good call st : site_ok st → good st (leave call st).2.
Proof using Type*.
  intros Hok. pose proof (count_nonneg st call (proj2 (proj2 Hok))) as Hn.
  unfold leave, mbind, ST_bind. rewrite leave_count_spec by done. cbn [fst snd].
  eapply good_trans; [|apply leave_hub_good]. destruct (decide (count st call ≤ 1)).
  - apply good_count; [intros Hc; by apply counts_delete|done].
  - apply good_count; [intros Hc; apply counts_insert; [lia|done]|done].
Qed.

Lemma hub_steps_good st st' : rtc hub_step st st' → site_ok st → good st st'.
Proof using Type*.
  induction 1 as [st|st st1 st2 [st0 op Hs] _ IH]; intros Hok; [by apply good_refl|].
  eapply good_trans; [|exact IH].
  apply (good_hub (Hub.exec op (hub st0)) st0); [apply rtc_once; constructor|done].
Qed.

Lemma web_step_good now r st st' : web_step now r st st' → site_ok st → good st st'.
Proof using Type*.
  intros H Hok. pose proof (web_step_permitted now r st st' Hok H) as (Hok' & Hl & _).
  revert Hok Hok' Hl.
  destruct H as [st0 op _ Hs|st0 call st2 _ Hst _|st0 call _ _ _ _ _|st0 edit c _ He|st0 _];
    intros Hok Hok' Hl.
  - apply (good_hub (Hub.exec op (hub st0)) st0); [apply rtc_once; constructor|done].
  - eapply good_trans; [by apply enter_good|]. intros H1.
    eapply good_trans; [by apply hub_steps_good|]. apply leave_good.
  - destruct (claim_frame now r call st0 Hok) as (_ & [_ _ _ Hlog] & _ & E & _).
    split; [done|by rewrite Hlog|by rewrite E|done].
  - split; [done|done| |done]. unfold on_allow. cbn.
    destruct He as [-> | ->]; unfold Add, Remove; destruct (st_allow st0) as [l|]; cbn; try done;
      repeat case_decide; done.
  - destruct (persist_frame st0 Hok) as (_ & [_ _ _ Hlog] & _ & E & _).
    split; [done|by rewrite Hlog|by rewrite E|done].
Qed.

Lemma web_steps_good now r st st' : rtc (web_step now r) st st' → site_ok st → good st st'.
Proof using Type*.
  induction 1 as [st|st1 st2 st3 H _ IH]; intros Hok; [by apply good_refl|].
  eapply good_trans; [by eapply web_step_good|exact IH].
Qed.

Lemma open_good call st : site_ok st → good st (open_stream call st).2.
Proof using Type*.
  intros Hok. destruct (open_state call st) as (-> & _). eapply good_trans; [by apply enter_good|].
  intros H1. apply good_hub; [apply rtc_once; constructor|done].
Qed.

Lemma ask_good srv now r st tabs :
  site_ok st → good st (ask srv now r (st, tabs)).1.
Proof using Type*.
  intros Hok. unfold ask. cbn [fst snd].
  assert (good st (serve srv now r st).2) as H1.
  { eapply web_steps_good; [apply (serve_steps srv now r)|done]. }
  destruct (serve srv now r st) as [[b answer] st1]. cbn [snd] in H1.
  destruct answer; try exact H1. eapply good_trans; [exact H1|]. intros H2.
  pose proof (open_good call st1 H2) as H3. by destruct (open_stream call st1) as [[sm evs] st2].
Qed.

Lemma shut_good i st tabs : site_ok st → good st (shut i (st, tabs)).1.
Proof using Type*.
  intros Hok. unfold shut. cbn [fst snd]. destruct (tabs !! i) as [sm|]; [|by apply good_refl].
  unfold close_stream. cbn [fst]. eapply good_trans; [by apply (good_via _ _ (via_cancel (sm_sub sm)))|].
  apply leave_good.
Qed.

Lemma next_good sm st : site_ok st → good st (stream_event sm st).2.
Proof using Type*.
  intros Hok. unfold stream_event.
  pose proof (good_via _ st (via_recv (sm_sub sm)) Hok) as H1.
  st_simpl. destruct (on_hub (Hub.recv (sm_sub sm)) st) as [[[ev|]|] st1]; exact H1.
Qed.
End site.

(** ** The node *)

Section node.
Context {St : Type} `{!Store St, !StoreLaws St, !ClaimStore St, !ClaimLaws St}.
Context (cfg : Conf.Config) (srv : Webchat.Server).
Implicit Types y : System (St := St).
Import Webchat.

(** Node [y'] after node [y]: still sound, its log extended, the pins as they were. *)
Record sound_after y y' : Prop := {
  sa_ok : site_ok (sy_site y');
  sa_table : table_wf (world y) → table_wf (world y');
  sa_log : store_log (store (sy_site y)) `prefix_of` store_log (store (sy_site y'));
  sa_pins : al_pinned <$> st_allow (sy_site y') = al_pinned <$> st_allow (sy_site y) }.

(** The links of [y'] are those of [y] and at most one new one, which [P] holds of. *)
Definition links_from (P : gostring * bool → Prop) y y' : Prop :=
  ∀ ref l, Router.w_heap (world y') !! ref = Some l →
    P (link_name l) ∨ ∃ l0, Router.w_heap (world y) !! ref = Some l0 ∧ link_name l0 = link_name l.

Lemma links_same P y y' :
  (∀ ref, link_name <$> Router.w_heap (world y') !! ref = link_name <$> Router.w_heap (world y) !! ref) →
  links_from P y y'.
Proof.
  intros Hh ref l E. right. specialize (Hh ref). rewrite E in Hh.
  destruct (Router.w_heap (world y) !! ref) as [l0|]; [|done]. injection Hh as H1 H2.
  exists l0. split; [done|]. unfold link_name. congruence.
Qed.

Lemma web_sound P y y' :
  good (sy_site y) (sy_site y') → sound_after y y' ∧ links_from P y y'.
Proof.
  intros [H1 H2 H3 [H4 H5]]. split; [split; try done|].
  - apply table_wf_same; [done|]. intros r l E. exists l. split; [|done].
    unfold world. by rewrite H5.
  - apply links_same. intros ref. unfold world. by rewrite H5.
Qed.

(** A step of the links, the list keeping its pins. *)
Lemma world_sound P y w a y' :
  site_ok (sy_site y) → wframe (world y) w → al_pinned <$> a = al_pinned <$> st_allow (sy_site y) →
  sy_site y' = mkSite w a (st_ref (sy_site y)) → sound_after y y' ∧ links_from P y y'.
Proof using Type*.
  intros (H1 & H2 & H3) [W1 W2 W3 W4] Ha Ey.
  destruct (moves_ok _ _ W1 H1 H2) as (M1 & M2 & M3).
  split; [split|].
  - rewrite Ey. by split_and!.
  - unfold world at 2. by rewrite Ey.
  - by rewrite Ey.
  - by rewrite Ey.
  - apply links_same. unfold world at 1. rewrite Ey. exact W4.
Qed.

Lemma new_sound (P : gostring * bool → Prop) y ref name w a y' :
  site_ok (sy_site y) → wnew ref name (world y) w → P name →
  al_pinned <$> a = al_pinned <$> st_allow (sy_site y) →
  sy_site y' = mkSite w a (st_ref (sy_site y)) → sound_after y y' ∧ links_from P y y'.
Proof using Type*.
  intros (H1 & H2 & H3) [W1 W2 W3 W4] HP Ha Ey.
  destruct (moves_ok _ _ W1 H1 H2) as (M1 & M2 & M3).
  split; [split|].
  - rewrite Ey. by split_and!.
  - unfold world at 2. by rewrite Ey.
  - by rewrite Ey.
  - by rewrite Ey.
  - intros r l. unfold world at 1. rewrite Ey. cbn [st_world]. intros E. specialize (W4 r).
    rewrite E in W4. cbn in W4. case_decide; [left; by injection W4 as ->|right].
    destruct (Router.w_heap (world y) !! r) as [l0|]; [|done]. injection W4 as E1 E2.
    exists l0. split; [done|]. unfold link_name. congruence.
Qed.

(** Whom the node links with: peers it dials, and peers its list admits. *)
Definition linked_to y (name : gostring * bool) : Prop :=
  if name.2 then ∃ call, call ∈ dialled_calls cfg ∧ name.1 = ToUpper call
  else ∃ call, Allowed (st_allow (sy_site y)) call = true ∧ name.1 = ToUpper call.

Lemma served_site ref ok y : sy_site (served ref ok y) = sy_site y.
Proof. by destruct ok. Qed.

Lemma exec_sound e y y' :
  exec cfg srv e y = Some y' → site_ok (sy_site y) →
  sound_after y y' ∧ links_from (linked_to y) y y'.
Proof using Type*.
  intros He Hok. destruct e as [now r|i|i|cs|now ref up br|now ref up sends remote br|now ref p br
    |now ref p br|now ref line|now now' ref|ref|i e|]; cbn [exec] in He.
  - pose proof (ask_good srv now r (sy_site y) (sy_tabs y) Hok) as H.
    destruct (ask srv now r (sy_site y, sy_tabs y)) as [st tabs]. injection He as <-.
    by apply web_sound.
  - apply bind_Some in He as (sm & _ & [= <-]). apply web_sound. by apply next_good.
  - pose proof (shut_good i (sy_site y) (sy_tabs y) Hok) as H.
    destruct (shut i (sy_site y, sy_tabs y)) as [st tabs]. injection He as <-. by apply web_sound.
  - injection He as <-. apply web_sound. by apply good_refl.
  - unfold fresh_ref in He. case_bool_decide as Hf; [|done].
    destruct (ip_begin_spec now ref (our cfg) (st_allow (sy_site y)) up br (world y) Hf) as [Hl Hp].
    destruct (ip_begin _ _ _ _ _ _ _) as [[res allow] w]. cbn [fst snd] in *. injection He as <-.
    destruct Hl as [Hl|(call & Ha & Hl)].
    + eapply world_sound; [done|exact Hl|exact Hp|by rewrite served_site].
    + eapply new_sound; [done|exact Hl| |exact Hp|by rewrite served_site]. by exists call.
  - unfold fresh_ref in He. case_bool_decide as Hf; [|done].
    destruct (rf_begin_spec now ref up sends (Binding.boundCallsign (sy_bound y) (our cfg))
      (st_allow (sy_site y)) remote br (world y) Hf) as [Hl Hp].
    destruct (rf_begin _ _ _ _ _ _ _ _ _) as [[res allow] w]. cbn [fst snd] in *.
    assert (sy_site y' = mkSite w allow (st_ref (sy_site y))) as Ey.
    { injection He as <-. by destruct res as [| |[]| |]. }
    destruct Hl as [Hl|(call & Ha & Hl)].
    + by eapply world_sound.
    + eapply new_sound; [done|exact Hl| |exact Hp|done]. by exists call.
  - destruct (fresh_ref ref y) eqn:Hf; [|done]. apply bool_decide_eq_true in Hf.
    case_bool_decide as Hin; [|done]. cbn [andb] in He.
    pose proof (dial_begin_spec now ref (our cfg) (Conf.p_Call p) [] br (world y) Hf) as Hl.
    destruct (dial_begin _ _ _ _ _ _ _) as [ok w]. cbn [snd] in Hl. injection He as <-.
    eapply (new_sound _ y ref _ w (st_allow (sy_site y))); [done|exact Hl| |done|by rewrite served_site].
    exists (Conf.p_Call p). split; [|done]. apply elem_of_app. left. by apply list_elem_of_fmap_2.
  - destruct (fresh_ref ref y) eqn:Hf; [|done]. apply bool_decide_eq_true in Hf.
    case_bool_decide as Hin; [|done]. cbn [andb] in He.
    pose proof (dial_begin_spec now ref (Binding.boundCallsign (sy_bound y) (our cfg))
      (Conf.rf_PeerCall p) (Conf.rf_Script p) br (world y) Hf) as Hl.
    destruct (dial_begin _ _ _ _ _ _ _) as [ok w]. cbn [snd] in Hl. injection He as <-.
    eapply (new_sound _ y ref _ w (st_allow (sy_site y))); [done|exact Hl| |done|by rewrite served_site].
    exists (Conf.rf_PeerCall p). split; [|done]. apply elem_of_app. right. by apply list_elem_of_fmap_2.
  - case_decide; [|done]. injection He as <-. by eapply world_sound; [|apply framed_handle| |].
  - case_decide; [|done]. injection He as <-. by eapply world_sound; [|apply framed_tick| |].
  - case_decide; [|done]. injection He as <-. by eapply world_sound; [|apply framed_stop| |].
  - apply bind_Some in He as (own & _ & He). apply bind_Some in He as (s & Hs & [= <-]).
    apply sess_exec_moves in Hs. eapply world_sound; [done| | |done]; [|done]. by split.
  - injection He as <-. by eapply world_sound; [|apply framed_fanOut| |].
Qed.

Lemma sound_refl y : site_ok (sy_site y) → sound_after y y.
Proof. by split. Qed.
Lemma sound_trans y1 y2 y3 : sound_after y1 y2 → sound_after y2 y3 → sound_after y1 y3.
Proof.
  intros [A1 A2 A3 A4] [B1 B2 B3 B4]. split; [done|auto|by etrans|congruence].
Qed.

Lemma execs_snoc es e y : execs cfg srv (es ++ [e]) y = execs cfg srv es y ≫= exec cfg srv e.
Proof.
  revert y. induction es as [|e' es IH]; intros y; cbn.
  - by destruct (exec cfg srv e y).
  - destruct (exec cfg srv e' y); [apply IH|done].
Qed.

(** A run, and where each of its links comes from. *)
Lemma execs_sound es : ∀ y0 y,
  execs cfg srv es y0 = Some y → site_ok (sy_site y0) →
  sound_after y0 y
  ∧ ∀ ref l, Router.w_heap (world y) !! ref = Some l →
      (∃ l0, Router.w_heap (world y0) !! ref = Some l0)
      ∨ ∃ es1 es2 y1, es = es1 ++ es2 ∧ execs cfg srv es1 y0 = Some y1 ∧ linked_to y1 (link_name l).
Proof using Type*.
  induction es as [|e es IH] using rev_ind; intros y0 y H Hok.
  - injection H as <-. split; [by apply sound_refl|]. intros ref l E. left. by exists l.
  - rewrite execs_snoc in H. apply bind_Some in H as (y1 & H1 & He).
    destruct (IH y0 y1 H1 Hok) as [Hs Hl]. destruct (exec_sound e y1 y He (sa_ok _ _ Hs)) as [Hs' Hl'].
    split; [by eapply sound_trans|]. intros ref l E.
    destruct (Hl' ref l E) as [HP|(l1 & E1 & En)].
    + right. exists es, [e], y1. by split_and!.
    + destruct (Hl ref l1 E1) as [?|(es1 & es2 & y2 & -> & H2 & HP)]; [by left|right].
      exists es1, (es2 ++ [e]), y2. rewrite <- En. split; [by rewrite <- app_assoc|done].
Qed.
End node.


(** A peer that is let in, a radio user who says something, and the peer's link ending. *)
Definition system_run : list event :=
  [AcceptIP 0 0 true (rtlLogin ++ [zb 13] ++ encodeKeepalive (bs "GB7STH") (bs "GB7AAA-9") (bs "x") ++ [zb 13]);
   OnAir (bs "GB7AAA-9");
   AcceptRF 0 1 true (λ _, true) (bs "M0ABC") (bs "hello" ++ [zb 13]);
   User 0 (SDeliver (bs "hello" ++ [zb 13])); User 0 SInput; LinkEnds 0].

#[local] Existing Instance Durable.tables_engine.

